(* ===== verification/_CoqProject ===== *)
-Q . S2P
Prelude.v
RustStr.v
RustText.v
Settings.v
Cbor.v
CborRfc.v
Flags.v
CrcTime.v
Endpoint.v
PrimaryBlock.v
Block.v
Bundle.v
AdminRecord.v
Fragment.v
FragmentSize.v
TcpclMessages.v
TcpclStateMachine.v
TcpclSession.v
TcpclPair.v
TcpclPairProps.v
Actor.v
Storage.v
StorageSystem.v
StorageShape.v
StorageOps.v
ProtocolAgent.v
ProtocolAgentProps.v
DaemonTokens.v
StorageMin.v
DaemonSystem.v
Executions.v
DaemonLiveness.v
Shutdown.v
ShutdownProps.v
Routing.v
Peers.v
TcpclAgents.v
Forwarding.v
TcpclSetup.v
TcpclAuth.v
Connections.v
RocksDb.v
KeyValue.v
KeyValueSpec.v
BlobStore.v
S3Backend.v
S3Spec.v
S3Refines.v
S3Start.v
S3Frontend.v
Grpc.v
GrpcProps.v
Cli.v
CliProps.v
Replication.v
Hostile.v
Origin.v
Integrity.v
Network.v
NetworkProps.v
Robust.v
Leaves.v
RobustProtocol.v
