(* ===== verification/Prelude.v ===== *)
(** * A delay-tolerant networking daemon: verification development

    ** The program

    The repository is a Rust workspace around the Bundle Protocol version 7:
    - [bp7]: the data model of bundles (endpoints, flags, primary block,
      canonical blocks, administrative records), its CBOR form, fragmentation
      and reassembly;
    - [tcpcl]: the TCP convergence layer version 4: messages and their framing,
      the session state machine and the task that drives it over a socket;
    - [dtrd]: the daemon, a set of actors.  The storage agent owns the bundles
      and their files, the protocol agent decides what happens to each of them,
      the routing agent keeps the routes, the node agent the peers, the
      convergence agent and the TCPCL agents the connections, the client agent
      and the gRPC services serve applications;
    - [client]: the library that applications use, [cli] a command line for it;
    - [replistore]: an S3 object store on top of the daemon.  Its frontend turns
      S3 operations into messages to the backend, which keeps the metadata in
      key-value stores (one per bucket, all in one database) and the contents in
      a content-addressable blob store, and hands every change to the replicator,
      which sends it as a bundle to another store.

    A bundle arrives from a TCPCL session or from a client, is given to the
    storage agent, which announces it to the protocol agent
    ([EventBundleUpdated]); that answers with the next state ([UpdateBundle]),
    until the bundle is delivered to a client, forwarded to a peer, replaced by
    fragments or by its reassembly, or deleted with a status report.

    ** Conventions

    Machine integers are [Z]; where a value can leave its width the wrap-around
    is written out ([wrap8], [wrap64]: release builds wrap), and [u8_ok],
    [u64_ok] say that a value is in range.  Bytes are [Z] in [0..255], strings
    their UTF-8 bytes.  A function that can fail or panic returns an [outcome]
    (this file); a message handler is a computation in the [actor] monad
    (Actor).  Hash maps are [gmap].  What the sources take from elsewhere is a
    class or an argument: [SerdeCbor] with its laws [SerdeCborLaws] (the
    serde_cbor crate), [HashOrder] with [HashOrderLaws] (the order a hash
    container is iterated in), [Env] (the answers of other mailboxes to
    [try_send], the clock, weak references), the events of a session (socket,
    timers), [OpenSsl], [TlsCrates] (certificates) and [Network] (opening a
    connection), [RocksDB] (the database), [FileSystem], [Hashes] (digests),
    [TimeCrate], [Prost] (the encoding of events), [GrpcCrates], [Tonic] (the
    channel of a client), [CliCrates] (tables, the file system), [Os] (binding
    sockets).  The theorems are proved against these interfaces and
    their laws; CborRfc implements the first from RFC 8949, [MemoryDb], [MemoryFs]
    and [BitEncoding] implement others, so that every hypothesis of that kind can
    be discharged.  A handler of replistore, which keeps what it did before an
    error, is a computation in the [io] monad (RocksDb).

    ** Files

    - Prelude (this file): outcomes and their tactics, integers, lists.
      RustStr, RustText: strings and formatting of the Rust standard library.
      Settings (common/settings.rs of dtrd and of replistore).
    - Cbor, CborRfc: the serde data model and interface; a codec for it.
    - Flags (bp7/src/bundleflags.rs, blockflags.rs), CrcTime (crc.rs, time.rs),
      Endpoint (endpoint.rs), PrimaryBlock (primaryblock.rs), Block (block/),
      Bundle (bundle.rs), AdminRecord (administrative_record/): one definition
      per [Serialize] and [Deserialize] implementation and per method.
    - Fragment, FragmentSize: [Bundle::fragment], [can_reassemble_bundles] and
      [reassemble_bundles]; the sizes of what they produce.
    - TcpclMessages (tcpcl/src/v4/messages/), TcpclStateMachine
      (v4/statemachine.rs), TcpclSession (session.rs: one step per arm of the
      [select!]).  TcpclSetup (session.rs: opening a session, its TLS context, the
      check of the certificate, the whole run), TcpclAuth: what the check accepts
      and who a session talks to.
    - Actor: handlers of actors.
    - Storage (dtrd/src/bundlestorageagent/): the storage agent.  StorageSystem:
      the agent with its directory, as a step relation.  StorageOps: what its
      operations achieve.  StorageShape, StorageMin: the sizes and the minimal
      fragment size of the bundles it keeps.
    - ProtocolAgent, ProtocolAgentProps (bundleprotocolagent/agent.rs).
      DaemonTokens: which references to bundles the protocol agent holds.
      DaemonSystem: the storage agent and the protocol agent with their mailboxes,
      as a step relation.
    - Hostile: what the daemon does with data that is not well formed.
    - Origin: which bundle a bundle was made from.  Integrity: the daemon keeps
      bundles what they are.  Network: any number of daemons that send bundles to each
      other and restart, as a step relation.  NetworkProps: the bundles arrive as
      they were created.  Robust, RobustProtocol: the two agents of a node of such a
      network do not panic; Leaves: which bundles a message leaves in the store.
    - Executions: infinite executions, fair mailboxes, what is reached at some
      time.  DaemonLiveness: fair executions of DaemonSystem.
    - Shutdown (dtrd/src/main.rs, replistore/src/main.rs, and the starts and loops
      of the servers): start-up, tasks and shutdown, as a step relation.
      ShutdownProps: executions of it.
    - Routing (routingagent/).
    - Peers: [NodeAgent] (nodeagent/), [ConvergenceAgent] (converganceagent/),
      [ClientAgent] (clientagent/), and the node and routing agents together.
    - TcpclAgents (tcpclconverganceagent/): the server and the session agent.
      Connections: the node agent, the convergence agent, both instances of the
      server and the sessions with their mailboxes, as a step relation.
    - TcpclPair: two sessions on one connection, as a step relation;
      TcpclPairProps.  Forwarding: the same with the session agents on both ends.
    - RocksDb: the interface of the database, the [io] monad.  KeyValue
      (replistore/src/stores/keyvalue.rs, storeowner.rs), KeyValueSpec: the
      abstract store and the refinement.
    - BlobStore (stores/contentaddressableblob.rs).
    - S3Backend (frontend/s3/s3_backend.rs, messages.rs), S3Spec (the abstract
      S3 store and how a database and a disk represent it), S3Refines, S3Start,
      S3Frontend (frontend/s3/s3_frontend.rs).
    - Grpc: the gRPC services (dtrd/src/clientgrpcagent/agent.rs) and the client
      library (client/src/lib.rs).  GrpcProps: what they promise.
    - Cli (cli/src/main.rs), CliProps.
    - Replication (replistore/src/replication/).

    ** What is shown

    - Round trips: bundles, administrative records, TCPCL message streams and
      DTN endpoint names are read back as they were written.
    - Fragmentation: it returns for every bundle and limit it accepts, the
      fragments fit the limit and partition the payload; reassembly accepts
      exactly the sets of fragments that cover the payload and gives the bundle
      back.
    - TCPCL: every reachable state machine and session is well formed and does
      not panic on a receivable message; the handshake establishes a session with
      agreed parameters; a transfer arrives byte for byte, and is reported as
      successful only when the peer has acknowledged all of it; a certificate is
      accepted exactly if it names the peer, and a session that has upgraded to TLS
      is established only with a peer whose certificate does.  Two sessions on one
      connection, under every interleaving of their tasks, timers and losses of the
      connection: neither end panics, transfers arrive byte for byte, in order and
      once, and what is reported as sent has arrived.
    - Forwarding: a bundle that a session agent reports as forwarded is the one it
      was given, and the agent of the peer has handed exactly its bytes to its
      storage agent.
    - Storage: the files of the directory and the stored bundles agree after
      every sequence of messages, so that a restart loads every accepted bundle;
      creation timestamps are unique; fragmentation and reassembly in the store.
    - Protocol agent: forwarding terminates and neither loses nor duplicates a
      bundle, respects the size limits, and leaves nothing behind that a willing
      peer could take; local delivery is in order; a valid bundle is dispatched by
      its destination and hop count, its data forwarded unchanged but for hop
      count and previous node; requested status reports are sent.
    - The two agents together, under every interleaving: the promises that the
      storage agent relies on are kept, so that a restart loads every accepted
      bundle, also after other restarts; no bundle is forgotten; and in fair
      executions every bundle that arrives is stored and settled at some time.
    - A network of daemons: what a node hands to an application or a peer is the
      bundle that was created, or the piece of it that it says, whatever is lost,
      repeated or reordered, fragmented and put together, and however often nodes
      restart.  The storage agents of such a network do not panic, and the protocol
      agents do not if the endpoints of bundles name a node.
    - The programs: once they are told to stop, or a server has ended, they do,
      after the servers that they wait for.
    - Routing and peers: the routing table holds the best route of each target,
      in every iteration order; with one link per peer it follows the links; under
      every interleaving of the agents a node that is shown as connecting or
      connected has an attempt or a session behind it.
    - gRPC: every request is answered, depending on its arguments alone, and none
      takes an agent down; a listed route can be given back to be removed.  The
      command line never panics while it can print, and gives out what another
      command line submitted.
    - replistore: the key-value stores that share a database implement independent
      abstract stores, and a failed message leaves no trace; blobs are named by
      their content whatever fails, and are read back; the S3 backend implements an
      abstract store of buckets and objects, from its start on; the frontend gives
      back what was stored and the right errors; a replicated event arrives as it
      was sent.
    - Where the code does not do what it means to, a theorem shows what it does
      instead: checksums that cannot be read back, IPN names that never parse,
      blocks dropped from fragments, decoders that panic on partial frames,
      empty transfers that stall, duplicates and name collisions in the store,
      a closed connection that is kept, a second link that loses its route, nodes
      that are never forgotten or forgotten too early, objects removed by the
      beginning of their key, shared blobs that are deleted, versions that cannot
      be read, agents that panic on data from a peer that is no bundle or names a
      short endpoint, data that is replaced while its size stays the one it arrived
      with.

    ** Bounds and fuel

    [fragment_loop] runs with the payload length as fuel (each iteration
    consumes a byte; the partition theorem shows that it is enough),
    [remote_loop] with one more than the queue length (it panics without fuel,
    and is proved to return), the decoders of CborRfc and TcpclMessages with the
    length of their input (the round trips show that it is enough), the hashing
    loop of BlobStore with one more than the length of the file (a read gives at
    least a byte; the equivalence shows that it is enough).  Sizes of data in
    memory are below [2^63], as in every Rust allocation.

    ** Not modelled

    The TLS handshake, the parsing of certificates and sockets (third-party code
    with a class each), the request loops of tonic and hyper, [init_tracing] (which
    is not called), logging and metrics.  Requests to the S3 backend and to the
    gRPC services are served one after the other: the points where their futures
    wait for another actor are not interleaved.  The storage and protocol agents are
    composed, the agents that handle connections are, and so are the node and
    routing agents; the three groups meet in their messages only: the answers of
    clients and peers are arbitrary in the first, and the links of Network take any
    data that a node hands out to any node.  The connection between two
    sessions carries whole messages (the codec of TcpclMessages is shown to give back
    a stream of them); in it a write is not interrupted by another arm of the
    [select!] (TcpclPairProps.Interrupted shows what happens when it is). *)
From stdpp Require Export prelude gmap list strings.
From Stdlib Require Export ZArith Lia.

#[global] Open Scope Z_scope.

(** ** Notation scope and hint databases of the development *)

Declare Scope dtn_scope.
Delimit Scope dtn_scope with dtn.
#[global] Open Scope dtn_scope.

Create HintDb dtn.

(** The length of a list as a machine integer ([usize]/[u64]). *)
Abbreviation zlen l := (Z.of_nat (length l)) (only parsing).

(** ** Outcomes of Rust computations

    A Rust function returns ([Ok]), returns an error value ([Err], the [Result]
    type) or panics ([Panic]: [unwrap] on [None], [assert!], an index out of
    range, [unreachable!]). *)

Inductive outcome (E A : Type) : Type :=
| Ok (a : A)
| Err (e : E)
| Panic.
Arguments Ok {E A} a.
Arguments Err {E A} e.
Arguments Panic {E A}.

#[global] Instance outcome_ret {E} : MRet (outcome E) := fun A a => Ok a.
#[global] Instance outcome_bind {E} : MBind (outcome E) := fun A B f m =>
  match m with
  | Ok a => f a
  | Err e => Err e
  | Panic => Panic
  end.
#[global] Instance outcome_fmap {E} : FMap (outcome E) := fun A B f m =>
  match m with
  | Ok a => Ok (f a)
  | Err e => Err e
  | Panic => Panic
  end.

#[global] Instance outcome_eq_dec {E A} `{EqDecision E, EqDecision A} :
  EqDecision (outcome E A).
Proof. solve_decision. Defined.

(** [Option::unwrap], [assert!], [Option::ok_or], [Result::map_err],
    [Result::unwrap]. *)
Definition unwrap {E A} (o : option A) : outcome E A :=
  match o with Some a => Ok a | None => Panic end.

Definition assert {E} (b : bool) : outcome E unit := if b then Ok tt else Panic.

Definition ok_or {E A} (o : option A) (e : E) : outcome E A :=
  match o with Some a => Ok a | None => Err e end.

Definition map_err {E F A} (f : E → F) (m : outcome E A) : outcome F A :=
  match m with Ok a => Ok a | Err e => Err (f e) | Panic => Panic end.

Definition unwrap_ok {E F A} (m : outcome E A) : outcome F A :=
  match m with Ok a => Ok a | _ => Panic end.

Definition is_ok {E A} (m : outcome E A) : bool :=
  match m with Ok _ => true | _ => false end.

Section outcome_lemmas.
Context {E A B : Type}.
Implicit Types (m : outcome E A) (f : A → outcome E B).

Lemma Ok_inj (a a' : A) : @Ok E A a = Ok a' → a = a'.
Proof. congruence. Qed.

Lemma bind_Ok m f b :
  (m ≫= f) = Ok b ↔ ∃ a, m = Ok a ∧ f a = Ok b.
Proof. destruct m; naive_solver. Qed.

Lemma mapM_Ok_Forall2 {A' B'} (g : A' → outcome E B') l k :
  mapM g l = Ok k → Forall2 (λ x y, g x = Ok y) l k.
Proof.
  revert k. induction l as [|x l IH]; intros k H; simpl in H; [by injection H as <-|].
  destruct (g x) as [y| |] eqn:Ey; [|done..]. cbn in H. destruct (mapM g l) as [k'| |] eqn:Ek; [|done..].
  injection H as <-. constructor; auto.
Qed.

Lemma bind_Panic m f :
  (m ≫= f) = Panic ↔ m = Panic ∨ ∃ a, m = Ok a ∧ f a = Panic.
Proof. destruct m; naive_solver. Qed.

Lemma bind_not_Panic m f :
  m ≠ Panic → (∀ a, m = Ok a → f a ≠ Panic) → (m ≫= f) ≠ Panic.
Proof. destruct m; naive_solver. Qed.

Lemma ok_or_Ok (o : option A) (e : E) a : ok_or o e = Ok a ↔ o = Some a.
Proof. destruct o; naive_solver. Qed.

Lemma unwrap_Ok (o : option A) a : @unwrap E A o = Ok a ↔ o = Some a.
Proof. destruct o; naive_solver. Qed.

Lemma assert_Ok (b : bool) : @assert E b = Ok tt ↔ b = true.
Proof. destruct b; naive_solver. Qed.

Lemma unwrap_ok_Ok {F} (m : outcome E A) a : @unwrap_ok E F A m = Ok a → m = Ok a.
Proof. destruct m; naive_solver. Qed.
End outcome_lemmas.

#[export] Hint Resolve bind_not_Panic : dtn.

(** [obind] opens every successful bind of the context. *)
Ltac obind :=
  repeat match goal with
  | H : (_ ≫= _) = Ok _ |- _ =>
      let a := fresh "a" in let E := fresh "E" in
      apply bind_Ok in H as (a & E & H)
  | H : ok_or _ _ = Ok _ |- _ => apply ok_or_Ok in H
  | H : unwrap _ = Ok _ |- _ => apply unwrap_Ok in H
  | H : assert _ = Ok _ |- _ => apply assert_Ok in H
  | H : unwrap_ok _ = Ok _ |- _ => apply unwrap_ok_Ok in H
  | a : unit |- _ => destruct a
  end.

(** [ored] computes binds whose first action has returned. *)
Ltac ored :=
  cbn [mbind outcome_bind option_bind fmap outcome_fmap option_fmap option_map
       unwrap ok_or assert map_err unwrap_ok mret outcome_ret].

(** [ohnf H] computes the left-hand side of [H] to its constructor. *)
Ltac ohnf H :=
  match type of H with
  | ?l = ?r => let l' := eval hnf in l in change (l' = r) in H
  end.

(** [ocase] splits on the head of a bind or match in the goal or context. *)
Ltac ocase :=
  repeat case_match; simplify_eq/=; try done.

(** ** Machine integers

    The shipped binaries are [--release] builds for 64-bit targets: arithmetic
    wraps, and [usize] is [u64]. *)

Definition u8_ok (z : Z) : Prop := 0 ≤ z < 2 ^ 8.
Definition u16_ok (z : Z) : Prop := 0 ≤ z < 2 ^ 16.
Definition u32_ok (z : Z) : Prop := 0 ≤ z < 2 ^ 32.
Definition u64_ok (z : Z) : Prop := 0 ≤ z < 2 ^ 64.

Definition wrap8 (z : Z) : Z := z mod 2 ^ 8.
Definition wrap64 (z : Z) : Z := z mod 2 ^ 64.

Lemma wrap64_small z : u64_ok z → wrap64 z = z.
Proof. unfold u64_ok, wrap64. intros. by apply Z.mod_small. Qed.
Lemma wrap8_small z : u8_ok z → wrap8 z = z.
Proof. unfold u8_ok, wrap8. intros. by apply Z.mod_small. Qed.
Lemma wrap64_ok z : u64_ok (wrap64 z).
Proof. unfold u64_ok, wrap64. apply Z.mod_pos_bound. lia. Qed.
Lemma wrap8_ok z : u8_ok (wrap8 z).
Proof. unfold u8_ok, wrap8. apply Z.mod_pos_bound. lia. Qed.

#[export] Hint Resolve wrap64_ok wrap8_ok : dtn.
#[export] Hint Unfold u8_ok u16_ok u32_ok u64_ok : dtn.

(** ** Bytes *)

Abbreviation bytes := (list Z) (only parsing).

Definition bytes_ok (l : bytes) : Prop := Forall u8_ok l.

Definition byte_okb (z : Z) : bool := (0 <=? z) && (z <? 256).

Lemma byte_okb_spec z : byte_okb z = true ↔ u8_ok z.
Proof. unfold byte_okb, u8_ok. lia. Qed.

Lemma bytes_okb_spec (l : bytes) : forallb byte_okb l = true ↔ bytes_ok l.
Proof.
  unfold bytes_ok. induction l as [|b l IH]; simpl; [done|].
  rewrite andb_true_iff, byte_okb_spec, IH, Forall_cons. done.
Qed.

Lemma bytes_ok_nil : bytes_ok [].
Proof. constructor. Qed.
Lemma bytes_ok_cons b l : bytes_ok (b :: l) ↔ u8_ok b ∧ bytes_ok l.
Proof. apply Forall_cons. Qed.
Lemma bytes_ok_app l1 l2 : bytes_ok (l1 ++ l2) ↔ bytes_ok l1 ∧ bytes_ok l2.
Proof. apply Forall_app. Qed.
Lemma bytes_ok_take n l : bytes_ok l → bytes_ok (take n l).
Proof. apply Forall_take. Qed.
Lemma bytes_ok_drop n l : bytes_ok l → bytes_ok (drop n l).
Proof. apply Forall_drop. Qed.

#[export] Hint Resolve bytes_ok_nil bytes_ok_take bytes_ok_drop : dtn.

(** [solve_ok] decides the type invariants of a concrete value. *)
Ltac solve_ok :=
  repeat match goal with
  | |- True => exact I
  | |- _ ∧ _ => split
  | |- bytes_ok _ => by apply bytes_okb_spec
  | |- Forall _ (_ :: _) => apply Forall_cons_2
  | |- Forall _ [] => apply Forall_nil_2
  | |- Forall ?P ?l => let l' := eval hnf in l in change (Forall P l')
  | |- u64_ok _ => unfold u64_ok; split; vm_compute; congruence
  | |- u8_ok _ => unfold u8_ok; split; vm_compute; congruence
  | |- _ ≠ [] => done
  | |- _ = _ => vm_compute; reflexivity
  | |- _ < _ => vm_compute; reflexivity
  | |- _ => progress hnf
  end.

(** ** Big-endian integers ([put_u16], [get_u64], [to_be_bytes], ...) *)

Fixpoint be_bytes (n : nat) (z : Z) : bytes :=
  match n with
  | O => []
  | S n => be_bytes n (z / 256) ++ [z mod 256]
  end.

Definition be_val (l : bytes) : Z := fold_left (fun acc b => acc * 256 + b) l 0.

Lemma length_be_bytes n z : length (be_bytes n z) = n.
Proof. revert z. induction n; intros; simpl; [done|]. rewrite length_app, IHn. simpl. lia. Qed.

Lemma be_val_app l1 b : be_val (l1 ++ [b]) = be_val l1 * 256 + b.
Proof. unfold be_val. by rewrite fold_left_app. Qed.

Lemma be_bytes_ok n z : bytes_ok (be_bytes n z).
Proof.
  revert z. induction n; intros; simpl; [constructor|].
  apply bytes_ok_app. split; [done|]. apply bytes_ok_cons. split; [|constructor].
  unfold u8_ok. apply Z.mod_pos_bound. lia.
Qed.

Lemma be_val_bytes n z : be_val (be_bytes n z) = z mod 256 ^ Z.of_nat n.
Proof.
  revert z. induction n as [|n IH]; intros; simpl be_bytes.
  - by rewrite Z.mod_1_r.
  - rewrite be_val_app, IH, Nat2Z.inj_succ, Z.pow_succ_r by lia.
    rewrite (Z.rem_mul_r z 256 (256 ^ Z.of_nat n)) by lia. lia.
Qed.

(** A field of [n] bytes gives back every value that fits in it. *)
Lemma be_val_bytes_small n z :
  0 ≤ z < 256 ^ Z.of_nat n → be_val (be_bytes n z) = z.
Proof. intros. rewrite be_val_bytes. by apply Z.mod_small. Qed.

Lemma be_val_bound l : bytes_ok l → 0 ≤ be_val l < 256 ^ zlen l.
Proof.
  induction l as [|b l IH] using rev_ind; intros Hl; [done|].
  apply bytes_ok_app in Hl as [Hl [Hb _]%bytes_ok_cons]. specialize (IH Hl).
  rewrite be_val_app, length_app. simpl (length [b]).
  rewrite Nat2Z.inj_add, Z.pow_add_r by lia.
  change (256 ^ Z.of_nat 1) with 256. unfold u8_ok in Hb. nia.
Qed.

Lemma be_bytes_val l : bytes_ok l → be_bytes (length l) (be_val l) = l.
Proof.
  induction l as [|b l IH] using rev_ind; intros Hl; [done|].
  apply bytes_ok_app in Hl as [Hl [Hb _]%bytes_ok_cons]. unfold u8_ok in Hb.
  rewrite be_val_app, length_app, Nat.add_comm. simpl.
  rewrite Z.div_add_l, Z.div_small, Z.add_0_r, IH by (lia || done).
  f_equal. rewrite Z.add_comm, Z.mod_add, Z.mod_small by lia. done.
Qed.

#[export] Hint Resolve be_bytes_ok : dtn.

(** ** Reading prefixes of a list *)

Lemma take_app_len {A} (l1 l2 : list A) n : n = length l1 → take n (l1 ++ l2) = l1.
Proof. intros ->. apply take_app_length. Qed.
Lemma drop_app_len {A} (l1 l2 : list A) n : n = length l1 → drop n (l1 ++ l2) = l2.
Proof. intros ->. apply drop_app_length. Qed.

(** [find_index p l] is [Iterator::position]. *)
Fixpoint position {A} (p : A → bool) (l : list A) : option nat :=
  match l with
  | [] => None
  | x :: l => if p x then Some O else S <$> position p l
  end.

(** [Vec::remove]: the element at the index and the list without it. *)
Fixpoint vec_remove {A} (i : nat) (l : list A) : option (A * list A) :=
  match l, i with
  | [], _ => None
  | x :: l, O => Some (x, l)
  | x :: l, S i => '(y, r) ← vec_remove i l; Some (y, x :: r)
  end.

Lemma position_Some {A} (p : A → bool) l i :
  position p l = Some i → ∃ x, l !! i = Some x ∧ p x = true.
Proof.
  revert i. induction l as [|x l IH]; intros i H; simpl in H; [done|].
  destruct (p x) eqn:Hp; simplify_eq/=; [by eauto|].
  apply fmap_Some in H as (j & Hj & ->). by apply IH.
Qed.

Lemma position_None {A} (p : A → bool) l :
  position p l = None ↔ Forall (λ x, p x = false) l.
Proof.
  induction l as [|x l IH]; simpl; [by split|].
  rewrite Forall_cons. destruct (p x); simpl.
  - naive_solver.
  - rewrite fmap_None, IH. naive_solver.
Qed.

Lemma vec_remove_lookup {A} (l : list A) i x :
  l !! i = Some x → vec_remove i l = Some (x, take i l ++ drop (S i) l).
Proof.
  revert i. induction l as [|y l IH]; intros [|i] H; simplify_eq/=; [done|].
  by rewrite (IH _ H).
Qed.

Lemma vec_remove_perm {A} (l : list A) i x r :
  vec_remove i l = Some (x, r) → l ≡ₚ x :: r.
Proof.
  revert i r. induction l as [|y l IH]; intros [|i] r H; simplify_eq/=; [done|].
  destruct (vec_remove i l) as [[z r']|] eqn:E; simplify_eq/=.
  rewrite (IH _ _ E). constructor.
Qed.

(** [position] finds the first match, and [vec_remove] takes it out. *)
Lemma position_split {A} (p : A → bool) l i :
  position p l = Some i →
  ∃ l1 x l2, l = l1 ++ x :: l2 ∧ Forall (λ y, p y = false) l1 ∧ p x = true ∧
    vec_remove i l = Some (x, l1 ++ l2).
Proof.
  revert i. induction l as [|x l IH]; intros i H; simpl in H; [done|].
  destruct (p x) eqn:Hp; simplify_eq/=.
  { exists [], x, l. by split_and!. }
  apply fmap_Some in H as (j & Hj & ->). destruct (IH _ Hj) as (l1 & y & l2 & -> & Hl & Hy & Hr).
  exists (x :: l1), y, l2. split_and!; [done|by constructor|done|]. simpl. by rewrite Hr.
Qed.

(** Different elements have different keys. *)
Lemma NoDup_map_inj {A B} (f : A → B) l x y :
  NoDup (map f l) → x ∈ l → y ∈ l → f x = f y → x = y.
Proof.
  induction l as [|z l IH]; simpl; intros Hn Hx Hy He; [set_solver|].
  apply NoDup_cons in Hn as [Hz Hn].
  apply elem_of_cons in Hx as [->|Hx]; apply elem_of_cons in Hy as [->|Hy]; auto;
    destruct Hz; [rewrite He|rewrite <-He]; by apply list_elem_of_fmap_2.
Qed.
