(* ===== verification/RustStr.v ===== *)
(** * Rust strings

    A Rust [str] is a sequence of bytes that is valid UTF-8; the source slices,
    splits and compares strings bytewise, so a string is modelled by its bytes.
    This file holds the operations of the Rust standard library the sources use
    on strings: literals, [starts_with], [split_once], [split(..).next()],
    byte-range slicing with its char-boundary check, [from_utf8], decimal
    printing and parsing of [u64], and [replace] of one ASCII character. *)
From S2P Require Import Prelude.

(** The bytes of a string literal. *)
Fixpoint str (s : string) : bytes :=
  match s with
  | EmptyString => []
  | String.String a s => Z.of_N (Ascii.N_of_ascii a) :: str s
  end.

Arguments str : simpl never.

Definition starts_with (p s : bytes) : bool := bool_decide (take (length p) s = p).

(** [s.split_once(c)] for an ASCII character [c]. *)
Fixpoint split_once (c : Z) (s : bytes) : option (bytes * bytes) :=
  match s with
  | [] => None
  | b :: s' =>
      if decide (b = c) then Some ([], s')
      else '(l, r) ← split_once c s'; Some (b :: l, r)
  end.

(** [s.split(c).next()]: everything before the first [c]. *)
Fixpoint split_first (c : Z) (s : bytes) : bytes :=
  match s with
  | [] => []
  | b :: s' => if decide (b = c) then [] else b :: split_first c s'
  end.

(** [s.replace(c, d)] for ASCII characters. *)
Definition replace_char (c d : Z) (s : bytes) : bytes :=
  map (λ b, if decide (b = c) then d else b) s.

(** A byte index is a char boundary when it is the end of the string or the
    byte there does not continue a character. *)
Definition is_char_boundary (s : bytes) (i : nat) : bool :=
  match s !! i with
  | Some b => negb ((128 <=? b) && (b <? 192))
  | None => bool_decide (i = length s)
  end.

(** [&s[i..]] panics off a char boundary or past the end. *)
Definition str_from {E} (s : bytes) (i : nat) : outcome E bytes :=
  if is_char_boundary s i then Ok (drop i s) else Panic.

(** ** UTF-8 validity ([String::from_utf8]) *)

Definition in_range (lo hi b : Z) : bool := (lo <=? b) && (b <=? hi).

Fixpoint utf8_valid_fuel (fuel : nat) (s : bytes) : bool :=
  match fuel with
  | O => false
  | S fuel =>
      match s with
      | [] => true
      | b :: s1 =>
          if in_range 0 127 b then utf8_valid_fuel fuel s1
          else match s1 with
          | c1 :: s2 =>
              if in_range 194 223 b then
                in_range 128 191 c1 && utf8_valid_fuel fuel s2
              else match s2 with
              | c2 :: s3 =>
                  if (b =? 224) then
                    in_range 160 191 c1 && in_range 128 191 c2 && utf8_valid_fuel fuel s3
                  else if (b =? 237) then
                    in_range 128 159 c1 && in_range 128 191 c2 && utf8_valid_fuel fuel s3
                  else if in_range 225 239 b then
                    in_range 128 191 c1 && in_range 128 191 c2 && utf8_valid_fuel fuel s3
                  else match s3 with
                  | c3 :: s4 =>
                      (if (b =? 240) then in_range 144 191 c1
                       else if in_range 241 243 b then in_range 128 191 c1
                       else (b =? 244) && in_range 128 143 c1)
                      && in_range 128 191 c2 && in_range 128 191 c3
                      && utf8_valid_fuel fuel s4
                  | [] => false
                  end
              | [] => false
              end
          | [] => false
          end
      end
  end.

Definition utf8_valid (s : bytes) : bool := utf8_valid_fuel (S (length s)) s.

(** ** Decimal [u64] *)

Fixpoint dec_digits (fuel : nat) (z : Z) (acc : bytes) : bytes :=
  match fuel with
  | O => acc
  | S fuel =>
      if z <? 10 then (48 + z) :: acc
      else dec_digits fuel (z / 10) ((48 + z mod 10) :: acc)
  end.

(** [format!("{}", z)]: a [u64] has at most 20 digits. *)
Definition display_u64 (z : Z) : bytes := dec_digits 20 z [].

Definition digit (b : Z) : option Z :=
  if in_range 48 57 b then Some (b - 48) else None.

(** The checked multiply-and-add loop of [u64::from_str]. *)
Fixpoint parse_digits (acc : Z) (s : bytes) : option Z :=
  match s with
  | [] => Some acc
  | b :: s =>
      d ← digit b;
      if acc * 10 + d <? 2 ^ 64 then parse_digits (acc * 10 + d) s else None
  end.

(** [s.parse::<u64>()]: an optional ["+"], then at least one digit. *)
Definition parse_u64 (s : bytes) : option Z :=
  match s with
  | [] => None
  | b :: rest =>
      if b =? 43 then match rest with [] => None | _ => parse_digits 0 rest end
      else parse_digits 0 s
  end.

(** ** Decimal [i64] *)

Definition i64_ok (z : Z) : Prop := - 2 ^ 63 ≤ z < 2 ^ 63.

(** [z.to_string()]: the sign, then the digits of the absolute value. *)
Definition display_i64 (z : Z) : bytes :=
  if z <? 0 then 45 :: display_u64 (- z) else display_u64 z.

(** [s.parse::<i64>()]: an optional sign, then at least one digit, in range. *)
Definition parse_i64 (s : bytes) : option Z :=
  match s with
  | [] => None
  | b :: rest =>
      if b =? 45 then
        if bool_decide (rest = []) then None
        else n ← parse_digits 0 rest; if n <=? 2 ^ 63 then Some (- n) else None
      else n ← parse_u64 s; if n <? 2 ^ 63 then Some n else None
  end.

(** ** Lemmas *)

Lemma split_once_app c l r : c ∉ l → split_once c (l ++ c :: r) = Some (l, r).
Proof.
  induction l as [|b l IH]; intros H; simpl; [by rewrite decide_True|].
  rewrite not_elem_of_cons in H. destruct H.
  rewrite decide_False by done. by rewrite IH.
Qed.

Lemma split_once_Some c s l r :
  split_once c s = Some (l, r) → s = l ++ c :: r ∧ c ∉ l.
Proof.
  revert l. induction s as [|b s IH]; intros l H; simpl in H; [done|].
  case_decide; simplify_eq/=; [split; [done|apply not_elem_of_nil]|].
  destruct (split_once c s) as [[l' r']|] eqn:E; simplify_eq/=.
  destruct (IH _ eq_refl) as [-> ?]. split; [done|]. by apply not_elem_of_cons.
Qed.

Lemma split_once_None c s : split_once c s = None ↔ c ∉ s.
Proof.
  induction s as [|b s IH]; simpl; [split; [intros _; apply not_elem_of_nil|done]|].
  rewrite not_elem_of_cons. case_decide as D; subst; [split; [done|naive_solver]|].
  destruct (split_once c s) as [[??]|]; naive_solver.
Qed.

Lemma split_first_not_elem c s : c ∉ split_first c s.
Proof.
  induction s as [|b s IH]; simpl; [apply not_elem_of_nil|].
  case_decide; [apply not_elem_of_nil|]. by apply not_elem_of_cons.
Qed.

Lemma split_first_id c s : c ∉ s → split_first c s = s.
Proof.
  induction s as [|b s IH]; intros H; simpl; [done|].
  apply not_elem_of_cons in H as [??]. rewrite decide_False by done. by rewrite IH.
Qed.

Lemma split_first_app c l r : c ∉ l → split_first c (l ++ c :: r) = l.
Proof.
  induction l as [|b l IH]; intros H; simpl; [by rewrite decide_True|].
  apply not_elem_of_cons in H as [??]. rewrite decide_False by done. by rewrite IH.
Qed.

Lemma split_first_idemp c s : split_first c (split_first c s) = split_first c s.
Proof. apply split_first_id, split_first_not_elem. Qed.

Lemma starts_with_app p s : starts_with p (p ++ s) = true.
Proof. apply bool_decide_eq_true. apply take_app_length. Qed.

Lemma starts_with_split p s :
  starts_with p s = true ↔ ∃ r, s = p ++ r.
Proof.
  unfold starts_with. rewrite bool_decide_eq_true. split.
  - intros H. exists (drop (length p) s). rewrite <- H at 1. by rewrite take_drop.
  - intros [r ->]. apply take_app_length.
Qed.

Lemma digit_Some z : 0 ≤ z < 10 → digit (48 + z) = Some z.
Proof. intros. unfold digit, in_range. case_match; [f_equal; lia|lia]. Qed.

Lemma dec_digits_app fuel z acc : dec_digits fuel z acc = dec_digits fuel z [] ++ acc.
Proof.
  revert z acc. induction fuel as [|f IH]; intros; simpl; [done|].
  case_match; [done|]. rewrite IH, (IH _ [_]), <- app_assoc. done.
Qed.

Lemma parse_digits_snoc k l b :
  parse_digits k (l ++ [b]) =
    (a ← parse_digits k l; d ← digit b;
     if a * 10 + d <? 2 ^ 64 then Some (a * 10 + d) else None).
Proof.
  revert k. induction l as [|c l IH]; intros; simpl; [done|].
  destruct (digit c); simpl; [|done]. by case_match.
Qed.

Lemma parse_dec_digits fuel z :
  0 ≤ z < 10 ^ Z.of_nat (S fuel) → z < 2 ^ 64 →
  parse_digits 0 (dec_digits (S fuel) z []) = Some z.
Proof.
  revert z. induction fuel as [|f IH]; intros z Hz Hm.
  - simpl. destruct (Z.ltb_spec z 10); [|lia].
    simpl. rewrite digit_Some by lia. simpl. change (0 * 10 + z) with z.
    destruct (Z.ltb_spec z (2 ^ 64)); [done|lia].
  - remember (S f) as g. simpl. destruct (Z.ltb_spec z 10).
    + simpl. rewrite digit_Some by lia. simpl. change (0 * 10 + z) with z.
      destruct (Z.ltb_spec z (2 ^ 64)); [done|lia].
    + rewrite dec_digits_app, parse_digits_snoc, IH; simpl.
      * pose proof (Z.mod_pos_bound z 10). rewrite digit_Some by lia. simpl.
        assert (z / 10 * 10 + z mod 10 = z) as -> by (pose proof (Z.div_mod z 10); lia).
        destruct (Z.ltb_spec z (2 ^ 64)); [done|lia].
      * rewrite Nat2Z.inj_succ, Z.pow_succ_r in Hz by lia. subst g.
        split; [apply Z.div_pos; lia|]. apply Z.div_lt_upper_bound; lia.
      * apply Z.div_lt_upper_bound; lia.
Qed.

Lemma dec_digits_digits fuel z acc :
  0 ≤ z → Forall (λ b, in_range 48 57 b = true) acc →
  Forall (λ b, in_range 48 57 b = true) (dec_digits fuel z acc).
Proof.
  unfold in_range. revert z acc. induction fuel as [|f IH]; intros z acc Hz Ha; simpl; [done|].
  destruct (Z.ltb_spec z 10).
  - constructor; [lia|done].
  - pose proof (Z.mod_pos_bound z 10). apply IH; [apply Z.div_pos; lia|].
    constructor; [lia|done].
Qed.

Lemma display_u64_digits z :
  0 ≤ z → Forall (λ b, in_range 48 57 b = true) (display_u64 z).
Proof. intros. by apply dec_digits_digits. Qed.

Lemma display_u64_not_elem z c :
  0 ≤ z → in_range 48 57 c = false → c ∉ display_u64 z.
Proof.
  intros Hz Hc He. pose proof (display_u64_digits z Hz) as H.
  rewrite Forall_forall in H. specialize (H _ He). congruence.
Qed.

Lemma dec_digits_cons fuel z acc : ∃ b l, dec_digits (S fuel) z acc = b :: l.
Proof.
  revert z acc. induction fuel as [|f IH]; intros; simpl; case_match; eauto.
Qed.

(** Parsing a printed [u64] gives it back. *)
Lemma parse_display_u64 z : u64_ok z → parse_u64 (display_u64 z) = Some z.
Proof.
  unfold u64_ok. intros Hz.
  pose proof (display_u64_digits z ltac:(lia)) as Hd.
  assert (parse_digits 0 (display_u64 z) = Some z) as Hp.
  { apply parse_dec_digits; [|lia]. change (Z.of_nat 20) with 20. lia. }
  unfold parse_u64. destruct (display_u64 z) as [|b l] eqn:E.
  { destruct (dec_digits_cons 19 z []) as (?&?&E'). unfold display_u64 in E. congruence. }
  apply Forall_cons in Hd as [Hb _]. unfold in_range in Hb.
  destruct (Z.eqb_spec b 43); [lia|done].
Qed.

Lemma display_u64_inj z1 z2 :
  u64_ok z1 → u64_ok z2 → display_u64 z1 = display_u64 z2 → z1 = z2.
Proof.
  intros H1 H2 E. apply (f_equal parse_u64) in E.
  rewrite !parse_display_u64 in E by done. by simplify_eq.
Qed.

Lemma display_u64_cons z : ∃ b l, display_u64 z = b :: l.
Proof. apply (dec_digits_cons 19). Qed.

(** Parsing a printed [i64] gives it back. *)
Lemma parse_display_i64 z : i64_ok z → parse_i64 (display_i64 z) = Some z.
Proof.
  unfold i64_ok, display_i64. intros Hz. destruct (Z.ltb_spec z 0).
  - destruct (display_u64_cons (- z)) as (b & l & E). unfold parse_i64.
    rewrite bool_decide_eq_false_2 by (by rewrite E). cbn [Z.eqb Pos.eqb]. unfold display_u64.
    rewrite parse_dec_digits by (try change (Z.of_nat 20) with 20; lia). simpl.
    destruct (Z.leb_spec (- z) (2 ^ 63)); [f_equal; lia|lia].
  - pose proof (parse_display_u64 z ltac:(unfold u64_ok; lia)) as Hp.
    destruct (display_u64_cons z) as (b & l & E). rewrite E in *.
    pose proof (display_u64_digits z ltac:(lia)) as Hd. rewrite E in Hd.
    apply Forall_cons in Hd as [Hb _]. unfold in_range in Hb. unfold parse_i64.
    destruct (Z.eqb_spec b 45); [lia|]. rewrite Hp. cbn [mbind option_bind].
    destruct (Z.ltb_spec z (2 ^ 63)); [done|lia].
Qed.

(** ** Concatenation of valid strings *)

Lemma utf8_fuel_irrel f f' s :
  (length s < f)%nat → (length s < f')%nat → utf8_valid_fuel f s = utf8_valid_fuel f' s.
Proof.
  revert f' s. induction f as [|f IH]; intros [|f'] s Hf Hf'; try lia.
  destruct s as [|b [|c1 [|c2 [|c3 s]]]]; simpl in *; repeat case_match; try done;
    by rewrite (IH f') by (simpl; lia).
Qed.

Lemma utf8_valid_unfold f s : (length s < f)%nat → utf8_valid_fuel f s = utf8_valid s.
Proof. intros. apply utf8_fuel_irrel; lia. Qed.

Lemma utf8_valid_app a b : utf8_valid a = true → utf8_valid (a ++ b) = utf8_valid b.
Proof.
  remember (length a) as n eqn:Hn. revert a Hn. induction n as [n IH] using lt_wf_ind. intros a ->.
  assert (Hrec : ∀ a', (length a' < length a)%nat → utf8_valid_fuel (length a) a' = true →
    utf8_valid_fuel (length (a ++ b)) (a' ++ b) = utf8_valid b).
  { intros a' Hl Ha'. rewrite utf8_valid_unfold in Ha' by lia.
    rewrite utf8_valid_unfold by (rewrite !length_app; lia). by eapply IH. }
  destruct a as [|b0 [|c1 [|c2 [|c3 s]]]]; [done|..];
    unfold utf8_valid at 1 2; cbn [utf8_valid_fuel app];
    repeat (case_match; try done); rewrite ?andb_true_iff; intros Ha; destruct_and?;
    repeat match goal with H : _ = true |- _ => rewrite H; clear H end; cbn [andb];
    solve [ apply Hrec; simpl; lia || done
          | apply (Hrec []); simpl; lia || done
          | apply (Hrec [c1]); simpl; lia || done
          | apply (Hrec [c1; c2]); simpl; lia || done
          | apply (Hrec [c2]); simpl; lia || done
          | apply (Hrec (c1 :: c2 :: c3 :: s)); simpl; lia || done
          | apply (Hrec (c2 :: c3 :: s)); simpl; lia || done
          | apply (Hrec (c3 :: s)); simpl; lia || done ].
Qed.

(** ASCII strings are valid. *)
Lemma utf8_ascii s : Forall (λ b, in_range 0 127 b = true) s → utf8_valid s = true.
Proof.
  induction 1 as [|b s Hb _ IH]; [done|]. change (b :: s) with ([b] ++ s).
  rewrite utf8_valid_app; [done|]. unfold utf8_valid. simpl. by rewrite Hb.
Qed.

Lemma utf8_display_u64 z : 0 ≤ z → utf8_valid (display_u64 z) = true.
Proof.
  intros Hz. apply utf8_ascii. eapply Forall_impl; [by apply display_u64_digits|].
  unfold in_range. simpl. intros b. lia.
Qed.

Lemma utf8_display_i64 z : utf8_valid (display_i64 z) = true.
Proof.
  unfold display_i64. destruct (Z.ltb_spec z 0); [|by apply utf8_display_u64].
  change (45 :: ?l) with ([45] ++ l). rewrite utf8_valid_app; [|done]. apply utf8_display_u64. lia.
Qed.
