(* ===== verification/RustText.v ===== *)
(** * Text on its way to a terminal

    What the standard library makes of bytes that are to be printed:
    [String::from_utf8_lossy] and the [Debug] form of a [Vec<u8>]. *)
From S2P Require Import Prelude RustStr.

(** ** [String::from_utf8_lossy]

    [utf8_step s] is how many bytes of the non-empty string [s] the decoder takes in
    one step, and whether they are a character.  A sequence that breaks off takes the
    bytes before the break. *)
Definition continues (c : Z) : bool := in_range 128 191 c.

(** What may follow the first byte of a character of three or four bytes. *)
Definition second_of_3 (b c1 : Z) : bool :=
  if b =? 224 then in_range 160 191 c1
  else if b =? 237 then in_range 128 159 c1
  else in_range 225 239 b && continues c1.
Definition second_of_4 (b c1 : Z) : bool :=
  if b =? 240 then in_range 144 191 c1
  else if in_range 241 243 b then continues c1
  else (b =? 244) && in_range 128 143 c1.

Definition utf8_step (s : bytes) : nat * bool :=
  match s with
  | [] => (0, false)
  | b :: s =>
      if in_range 0 127 b then (1, true)
      else if in_range 194 223 b then
        match s with
        | c1 :: _ => if continues c1 then (2, true) else (1, false)
        | [] => (1, false)
        end
      else
        match s with
        | c1 :: s =>
            if second_of_3 b c1 then
              match s with
              | c2 :: _ => if continues c2 then (3, true) else (2, false)
              | [] => (2, false)
              end
            else if second_of_4 b c1 then
              match s with
              | c2 :: s =>
                  if continues c2 then
                    match s with
                    | c3 :: _ => if continues c3 then (4, true) else (3, false)
                    | [] => (3, false)
                    end
                  else (2, false)
              | [] => (2, false)
              end
            else (1, false)
        | [] => (1, false)
        end
  end%nat.

(** U+FFFD. *)
Definition REPLACEMENT_CHARACTER : bytes := [239; 191; 189].

Fixpoint lossy (fuel : nat) (s : bytes) : bytes :=
  match fuel with
  | O => []
  | S fuel =>
      match s with
      | [] => []
      | _ =>
          let '(n, ok) := utf8_step s in
          (if ok then take n s else REPLACEMENT_CHARACTER) ++ lossy fuel (drop n s)
      end
  end.

(** Every step takes a byte. *)
Definition from_utf8_lossy (s : bytes) : bytes := lossy (length s) s.

Example lossy_text : from_utf8_lossy [97; 226; 130; 98; 255; 195; 164] =
  [97; 239; 191; 189; 98; 239; 191; 189; 195; 164].
Proof. reflexivity. Qed.

Ltac step_cases s :=
  destruct s as [|?b [|?c1 [|?c2 [|?c3 ?s]]]]; unfold utf8_step, second_of_3, second_of_4, continues in *;
  cbn [take drop length app] in *; repeat case_match; simplify_eq/=.

Lemma utf8_step_pos s n ok : s ≠ [] → utf8_step s = (n, ok) → (0 < n)%nat.
Proof. intros Hs H. step_cases s; try done; lia. Qed.

Lemma in_range_true lo hi b : in_range lo hi b = true ↔ lo ≤ b ≤ hi.
Proof. unfold in_range. rewrite andb_true_iff, !Z.leb_le. done. Qed.
Lemma in_range_false lo hi b : b < lo ∨ hi < b → in_range lo hi b = false.
Proof. intros H. apply not_true_iff_false. rewrite in_range_true. lia. Qed.

Lemma second_of_3_valid b c1 c2 :
  second_of_3 b c1 = true → continues c2 = true → utf8_valid [b; c1; c2] = true.
Proof.
  intros H Hc. assert (224 ≤ b ≤ 239) as Hb.
  { unfold second_of_3 in H. destruct (Z.eqb_spec b 224); [lia|]. destruct (Z.eqb_spec b 237); [lia|].
    apply andb_true_iff in H as [H%in_range_true _]. lia. }
  unfold continues in *. unfold utf8_valid. cbn [utf8_valid_fuel length].
  rewrite (in_range_false 0 127), (in_range_false 194 223) by lia. rewrite Hc.
  unfold second_of_3, continues in H. destruct (b =? 224); [by rewrite H|]. destruct (b =? 237); [by rewrite H|].
  by apply andb_true_iff in H as [-> ->].
Qed.

Lemma second_of_4_range b c1 : second_of_4 b c1 = true → 240 ≤ b ≤ 244.
Proof.
  unfold second_of_4. intros H. destruct (Z.eqb_spec b 240); [lia|].
  destruct (in_range 241 243 b) eqn:E; [apply in_range_true in E; lia|].
  apply andb_true_iff in H as [H%Z.eqb_eq _]. lia.
Qed.

Lemma second_of_4_valid b c1 c2 c3 :
  second_of_4 b c1 = true → continues c2 = true → continues c3 = true →
  utf8_valid [b; c1; c2; c3] = true.
Proof.
  intros H H2 H3. pose proof (second_of_4_range b c1 H). unfold continues in *.
  unfold utf8_valid. cbn [utf8_valid_fuel length].
  rewrite (in_range_false 0 127), (in_range_false 194 223), (in_range_false 225 239) by lia.
  rewrite (proj2 (Z.eqb_neq b 224)), (proj2 (Z.eqb_neq b 237)) by lia.
  unfold second_of_4, continues in H. by rewrite H, H2, H3.
Qed.

(** A step that succeeds has taken a character. *)
Lemma utf8_step_char s n : utf8_step s = (n, true) → utf8_valid (take n s) = true.
Proof.
  intros H. destruct s as [|b [|c1 [|c2 [|c3 s]]]]; unfold utf8_step in H; repeat case_match; simplify_eq;
    cbn [take]; rewrite ?take_0; auto using second_of_3_valid, second_of_4_valid.
  all: unfold utf8_valid; cbn [utf8_valid_fuel length]; unfold continues in *;
    repeat match goal with H : in_range _ _ _ = _ |- _ => rewrite H; clear H end; reflexivity.
Qed.

(** In a valid string every step succeeds. *)
Lemma utf8_step_valid s : s ≠ [] → utf8_valid s = true → (utf8_step s).2 = true.
Proof.
  unfold utf8_valid. intros Hs Hv. destruct s as [|b s]; [done|]. cbn [utf8_valid_fuel length] in Hv.
  unfold utf8_step, second_of_3, second_of_4, continues. destruct (in_range 0 127 b) eqn:E0; [done|].
  destruct s as [|c1 s]; [discriminate Hv|].
  destruct (in_range 194 223 b) eqn:E1; [by apply andb_true_iff in Hv as [-> _]|].
  destruct s as [|c2 s]; [discriminate Hv|].
  destruct (b =? 224) eqn:E2.
  { apply andb_true_iff in Hv as [[-> ->]%andb_true_iff _]. done. }
  destruct (b =? 237) eqn:E3.
  { apply andb_true_iff in Hv as [[-> ->]%andb_true_iff _]. done. }
  destruct (in_range 225 239 b) eqn:E4.
  { apply andb_true_iff in Hv as [[-> ->]%andb_true_iff _]. done. }
  destruct s as [|c3 s]; [discriminate Hv|]. cbn [andb].
  apply andb_true_iff in Hv as [[[-> ->]%andb_true_iff ->]%andb_true_iff _]. done.
Qed.

Lemma lossy_fuel f s : (length s ≤ f)%nat → lossy f s = from_utf8_lossy s.
Proof.
  unfold from_utf8_lossy. remember (length s) as m eqn:Hm. intros Hf.
  assert (length s ≤ m)%nat as Hm' by lia. clear Hm. revert m f s Hf Hm'.
  induction m as [|m IH]; intros f s Hf Hm.
  { destruct s; [|simpl in Hm; lia]. by destruct f. }
  destruct f as [|f]; [lia|]. cbn [lossy]. destruct s as [|b s]; [done|].
  destruct (utf8_step (b :: s)) as [n ok] eqn:E. f_equal.
  pose proof (utf8_step_pos (b :: s) n ok ltac:(done) E). apply IH; rewrite ?length_drop; simpl in *; lia.
Qed.

Lemma from_utf8_lossy_unfold s n ok :
  s ≠ [] → utf8_step s = (n, ok) →
  from_utf8_lossy s = (if ok then take n s else REPLACEMENT_CHARACTER) ++ from_utf8_lossy (drop n s).
Proof.
  intros Hs E. pose proof (utf8_step_pos _ _ _ Hs E).
  rewrite <-(lossy_fuel (length s) (drop n s)) by (rewrite length_drop; lia).
  rewrite <-(lossy_fuel (S (length s)) s) by lia. cbn [lossy]. destruct s; [done|]. by rewrite E.
Qed.

(** Induction along the steps. *)
Lemma utf8_step_ind (P : bytes → Prop) :
  P [] → (∀ s n ok, s ≠ [] → utf8_step s = (n, ok) → P (drop n s) → P s) → ∀ s, P s.
Proof.
  intros Hnil Hstep s. remember (length s) as m eqn:Hm. assert (length s ≤ m)%nat as Hl by lia. clear Hm.
  revert s Hl. induction m as [|m IH]; intros s Hl; (destruct s as [|b s]; [done|]); [simpl in Hl; lia|].
  destruct (utf8_step (b :: s)) as [n ok] eqn:E. pose proof (utf8_step_pos (b :: s) n ok ltac:(done) E).
  apply (Hstep _ n ok); [done..|]. apply IH. rewrite length_drop. simpl in *. lia.
Qed.

(** The result is a string, and a string stays what it is. *)
Lemma from_utf8_lossy_valid s : utf8_valid (from_utf8_lossy s) = true.
Proof.
  induction s as [|s n ok Hs E IH] using utf8_step_ind; [done|].
  rewrite (from_utf8_lossy_unfold s n ok) by done. rewrite utf8_valid_app; [done|].
  destruct ok; [by apply utf8_step_char|done].
Qed.

Lemma from_utf8_lossy_id s : utf8_valid s = true → from_utf8_lossy s = s.
Proof.
  induction s as [|s n ok Hs E IH] using utf8_step_ind; [done|]. intros Hv.
  pose proof (utf8_step_valid s Hs Hv) as Hok. rewrite E in Hok. simpl in Hok. subst ok.
  rewrite (from_utf8_lossy_unfold s n true) by done. rewrite IH; [apply take_drop|].
  rewrite <-(take_drop n s) in Hv. by rewrite (utf8_valid_app _ _ (utf8_step_char _ _ E)) in Hv.
Qed.

(** ** [Debug] of a [Vec<u8>]: a list of decimal numbers *)
Fixpoint join (sep : bytes) (l : list bytes) : bytes :=
  match l with
  | [] => []
  | [x] => x
  | x :: l => x ++ sep ++ join sep l
  end.
Definition debug_bytes (s : bytes) : bytes := str "[" ++ join (str ", ") (map display_u64 s) ++ str "]".

Example debug_two : debug_bytes [16; 255] = str "[16, 255]".
Proof. reflexivity. Qed.
