(* ===== verification/Settings.v ===== *)
(** * Settings of the daemon and of replistore

    [dtrd/src/common/settings.rs] and [replistore/src/common/settings.rs]: defaults
    that environment variables override.  [env] is [env::var]: the value of a
    variable that is set to text. *)
From S2P Require Import Prelude RustStr.

(** [if let Ok(setting) = env::var(name) { field = setting }]. *)
Definition or_env (env : bytes → option bytes) (name : bytes) (dflt : bytes) : bytes :=
  default dflt (env name).
Definition or_env_some (env : bytes → option bytes) (name : bytes) (dflt : option bytes) : option bytes :=
  match env name with Some v => Some v | None => dflt end.

Module DtrdSettings.
Record Settings := {
  my_node_id : bytes;
  tcpcl_listen_address : bytes;
  grpc_clientapi_address : bytes;
  bundle_storage_path : bytes;
  tcpcl_certificate_path : option bytes;
  tcpcl_key_path : option bytes;
  tcpcl_trusted_certs_path : option bytes;
  tokio_tracing_port : option bytes;
}.

Definition Settings_default : Settings := {|
  my_node_id := str "dtn://defaultnodeid";
  tcpcl_listen_address := str "[::1]:4556";
  grpc_clientapi_address := str "[::1]:50051";
  bundle_storage_path := str "/tmp";
  tcpcl_certificate_path := None;
  tcpcl_key_path := None;
  tcpcl_trusted_certs_path := None;
  tokio_tracing_port := None;
|}.

Definition from_env (env : bytes → option bytes) : Settings :=
  let s := Settings_default in {|
  my_node_id := or_env env (str "NODE_ID") (my_node_id s);
  tcpcl_listen_address := or_env env (str "TCPCL_LISTEN_ADDRESS") (tcpcl_listen_address s);
  grpc_clientapi_address := or_env env (str "GRPC_CLIENTAPI_ADDRESS") (grpc_clientapi_address s);
  bundle_storage_path := or_env env (str "BUNDLE_STORAGE_PATH") (bundle_storage_path s);
  tcpcl_certificate_path := or_env_some env (str "TCPCL_CERTIFICATE_PATH") (tcpcl_certificate_path s);
  tcpcl_key_path := or_env_some env (str "TCPCL_KEY_PATH") (tcpcl_key_path s);
  tcpcl_trusted_certs_path :=
    or_env_some env (str "TCPCL_TRUSTED_CERTS_PATH") (tcpcl_trusted_certs_path s);
  tokio_tracing_port := or_env_some env (str "TOKIO_TRACING_PORT") (tokio_tracing_port s);
|}.
End DtrdSettings.

Module ReplistoreSettings.
Record Settings := {
  tokio_tracing_port : option bytes;
  dtrd_url : bytes;
  dtn_endpoint : bytes;
  repl_target : bytes;
  storage_dir : bytes;
  s3_port : Z;
}.

Definition Settings_default : Settings := {|
  tokio_tracing_port := None;
  dtrd_url := str "http://localhost:50051";
  dtn_endpoint := str "dtn://defaultnodeid/myendpoint";
  repl_target := str "dtn://defaultnodeid/myotherendpoint";
  storage_dir := str "/tmp/replistore";
  s3_port := 8080;
|}.

(** [s.parse::<u16>()]: the digits are read like those of a [u64], in range. *)
Definition parse_u16 (s : bytes) : option Z :=
  z ← parse_u64 s; if z <? 2 ^ 16 then Some z else None.

Definition from_env {E} (env : bytes → option bytes) : outcome E Settings :=
  let s := Settings_default in
  port ← match env (str "S3_PORT") with
         | Some setting => unwrap (parse_u16 setting)
         | None => Ok (s3_port s)
         end;
  Ok {|
    tokio_tracing_port := or_env_some env (str "TOKIO_TRACING_PORT") (tokio_tracing_port s);
    dtrd_url := or_env env (str "DTRD_URL") (dtrd_url s);
    dtn_endpoint := or_env env (str "DTN_ENDPOINT") (dtn_endpoint s);
    repl_target := or_env env (str "REPL_TARGET") (repl_target s);
    storage_dir := or_env env (str "REPLISTORE_DIR") (storage_dir s);
    s3_port := port;
  |}.
End ReplistoreSettings.
