(* ===== verification/Cbor.v ===== *)
(** * The serde data model and the interface of [serde_cbor]

    The [Serialize] implementations of bp7 describe a value to a serializer as
    integers, byte strings, text, sequences, maps; [serde_cbor] turns that
    description into bytes.  The description is the type [item]: one CBOR data
    item.  [Deserialize] implementations are visitors that consume such an item.

    [serde_cbor] itself is not part of the repository: it is the class
    [SerdeCbor] (its two entry points), and what bp7 relies on is the class
    [SerdeCborLaws]: reading what was written gives it back, and the number of
    bytes written is the one of the shortest CBOR encoding.  The file CborRfc
    implements both from RFC 8949. *)
From S2P Require Import Prelude RustStr.

(** ** Data items *)

Inductive item : Type :=
| Uint (n : Z)
| NegInt (n : Z)
| Bytes (b : bytes)
| Text (s : bytes)
| Arr (len : option Z) (elems : list item)
| Map (entries : list (item * item))
| Bool (b : bool)
| Null
| Opaque.

Section item_ind.
Variable P : item → Prop.
Hypothesis Huint : ∀ n, P (Uint n).
Hypothesis Hneg : ∀ n, P (NegInt n).
Hypothesis Hbytes : ∀ b, P (Bytes b).
Hypothesis Htext : ∀ s, P (Text s).
Hypothesis Harr : ∀ len es, Forall P es → P (Arr len es).
Hypothesis Hmap : ∀ kvs, Forall (λ kv, P kv.1 ∧ P kv.2) kvs → P (Map kvs).
Hypothesis Hbool : ∀ b, P (Bool b).
Hypothesis Hnull : P Null.
Hypothesis Hopaque : P Opaque.

Fixpoint item_rect_nested (v : item) : P v :=
  match v with
  | Uint n => Huint n
  | NegInt n => Hneg n
  | Bytes b => Hbytes b
  | Text s => Htext s
  | Arr len es =>
      Harr len es
        ((fix go (l : list item) : Forall P l :=
            match l with
            | [] => Forall_nil_2 P
            | x :: l => Forall_cons_2 P x l (item_rect_nested x) (go l)
            end) es)
  | Map kvs =>
      Hmap kvs
        ((fix go (l : list (item * item)) : Forall (λ kv, P kv.1 ∧ P kv.2) l :=
            match l with
            | [] => Forall_nil_2 _
            | kv :: l =>
                Forall_cons_2 _ kv l
                  (conj (item_rect_nested kv.1) (item_rect_nested kv.2)) (go l)
            end) kvs)
  | Bool b => Hbool b
  | Null => Hnull
  | Opaque => Hopaque
  end.
End item_ind.

(** Encodable items: every integer fits its width, every announced length is
    the number of elements, text is UTF-8. *)
Fixpoint item_wf (v : item) : Prop :=
  match v with
  | Uint n | NegInt n => u64_ok n
  | Bytes b => bytes_ok b ∧ zlen b < 2 ^ 64
  | Text s => bytes_ok s ∧ utf8_valid s = true ∧ zlen s < 2 ^ 64
  | Arr len es =>
      match len with Some n => n = zlen es ∧ n < 2 ^ 64 | None => True end ∧
      fold_right (λ e P, item_wf e ∧ P) True es
  | Map kvs =>
      zlen kvs < 2 ^ 64 ∧
      fold_right (λ '(k, e) P, (item_wf k ∧ item_wf e) ∧ P) True kvs
  | Bool _ | Null => True
  | Opaque => False
  end.

(** Number of bytes of the head with argument [n] in its shortest form. *)
Definition head_size (n : Z) : Z :=
  if n <? 24 then 1 else if n <? 256 then 2 else if n <? 65536 then 3
  else if n <? 4294967296 then 5 else 9.

Fixpoint item_size (v : item) : Z :=
  match v with
  | Uint n | NegInt n => head_size n
  | Bytes b => head_size (zlen b) + zlen b
  | Text s => head_size (zlen s) + zlen s
  | Arr len es =>
      match len with Some n => head_size n | None => 2 end +
      fold_right (λ e n, item_size e + n) 0 es
  | Map kvs =>
      head_size (zlen kvs) +
      fold_right (λ '(k, e) n, item_size k + item_size e + n) 0 kvs
  | Bool _ | Null => 1
  | Opaque => 0
  end.

Definition items_size (es : list item) : Z := fold_right (λ e n, item_size e + n) 0 es.

(** ** The entry points of [serde_cbor] *)

Class SerdeCbor := {
  to_vec : item → bytes;
  from_slice : bytes → option item;
}.

Class SerdeCborLaws `{!SerdeCbor} : Prop := {
  from_slice_to_vec v : item_wf v → from_slice (to_vec v) = Some v;
  to_vec_bytes_ok v : item_wf v → bytes_ok (to_vec v);
  length_to_vec v : item_wf v → zlen (to_vec v) = item_size v;
}.

(** ** Errors of [serde] *)

Inductive serde_error :=
| ESyntax                     (* the bytes are not one CBOR item *)
| ECustom (msg : string)      (* Error::custom *)
| EInvalidLength (n : Z)      (* Error::invalid_length *)
| EInvalidValue (n : Z)       (* Error::invalid_value *)
| EInvalidType                (* the visitor has no method for this item *)
| ETrailingData.              (* elements left over after visit_seq *)

#[global] Instance serde_error_eq_dec : EqDecision serde_error.
Proof. solve_decision. Defined.

Abbreviation serde A := (outcome serde_error A).

(** [serde_cbor::from_slice] at a type: parse one item, then visit it. *)
Definition from_slice_with `{!SerdeCbor} {A} (de : item → serde A) (bs : bytes) : serde A :=
  match from_slice bs with Some v => de v | None => Err ESyntax end.

(** ** Visitors of the primitive types *)

Definition de_u64 (v : item) : serde Z :=
  match v with Uint n => Ok n | _ => Err EInvalidType end.

Definition de_u8 (v : item) : serde Z :=
  match v with
  | Uint n => if n <? 256 then Ok n else Err (EInvalidValue n)
  | _ => Err EInvalidType
  end.

Definition de_bool (v : item) : serde bool :=
  match v with Bool b => Ok b | _ => Err EInvalidType end.

(** [&[u8]] borrows from byte strings and from text. *)
Definition de_bytes (v : item) : serde bytes :=
  match v with Bytes b => Ok b | Text s => Ok s | _ => Err EInvalidType end.

(** [Option<T>]: null is [None]. *)
Definition de_option {A} (de : item → serde A) (v : item) : serde (option A) :=
  match v with Null => Ok None | _ => Some <$> de v end.

(** ** Sequences

    A visitor's [visit_seq] gets the size hint (the announced length) and reads
    elements one after the other; elements it leaves are trailing data. *)

Definition deserialize_seq {A}
    (visit_seq : option Z → list item → serde (A * list item)) (v : item) : serde A :=
  match v with
  | Arr hint es =>
      '(a, rest) ← visit_seq hint es;
      match rest with [] => Ok a | _ => Err ETrailingData end
  | _ => Err EInvalidType
  end.

(** [seq.next_element()?]. *)
Definition next_element {A} (de : item → serde A) (seq : list item)
    : serde (option A * list item) :=
  match seq with
  | [] => Ok (None, [])
  | v :: seq => a ← de v; Ok (Some a, seq)
  end.

(** [seq.next_element()?.ok_or(Error::custom(msg))?]. *)
Definition next_field {A} (msg : string) (de : item → serde A) (seq : list item)
    : serde (A * list item) :=
  '(o, seq) ← next_element de seq;
  a ← ok_or o (ECustom msg);
  Ok (a, seq).

(** ** Lemmas *)

Lemma item_wf_arr len es :
  item_wf (Arr len es) ↔
    match len with Some n => n = zlen es ∧ n < 2 ^ 64 | None => True end ∧ Forall item_wf es.
Proof.
  simpl. assert (fold_right (λ e P, item_wf e ∧ P) True es ↔ Forall item_wf es) as ->; [|done].
  induction es as [|e es IH]; simpl; [by split|]. by rewrite IH, Forall_cons.
Qed.

Lemma item_wf_map kvs :
  item_wf (Map kvs) ↔
    zlen kvs < 2 ^ 64 ∧ Forall (λ kv, item_wf kv.1 ∧ item_wf kv.2) kvs.
Proof.
  simpl. apply and_iff_compat_l.
  induction kvs as [|[k e] kvs IH]; simpl; [by split|]. by rewrite IH, Forall_cons.
Qed.

Lemma head_size_bound n : 1 ≤ head_size n ≤ 9.
Proof. unfold head_size. repeat case_match; lia. Qed.

Lemma head_size_small n : n < 24 → head_size n = 1.
Proof. unfold head_size. intros. case_match; lia. Qed.

Lemma head_size_mono n m : n ≤ m → head_size n ≤ head_size m.
Proof. unfold head_size. repeat case_match; lia. Qed.

Lemma items_size_app es1 es2 : items_size (es1 ++ es2) = items_size es1 + items_size es2.
Proof. unfold items_size. induction es1 as [|e es IH]; simpl; [lia|]. rewrite IH. lia. Qed.

Lemma item_size_nonneg v : 0 ≤ item_size v.
Proof.
  induction v as [n|n|b|s|len es IH|kvs IH|b| |] using item_rect_nested; simpl;
    try (pose proof (head_size_bound n); lia);
    try (pose proof (head_size_bound (zlen b)); lia);
    try (pose proof (head_size_bound (zlen s)); lia); try lia.
  - assert (0 ≤ fold_right (λ e n, item_size e + n) 0 es) by (induction IH; simpl in *; lia).
    destruct len as [n|]; [pose proof (head_size_bound n)|]; lia.
  - assert (0 ≤ fold_right (λ '(k, e) n, item_size k + item_size e + n) 0 kvs).
    { induction IH as [|[k e] ? [??]]; simpl in *; lia. }
    pose proof (head_size_bound (zlen kvs)). lia.
Qed.

Lemma from_slice_with_to_vec `{!SerdeCbor, !SerdeCborLaws} {A} (de : item → serde A) v :
  item_wf v → from_slice_with de (to_vec v) = de v.
Proof. intros. unfold from_slice_with. by rewrite from_slice_to_vec. Qed.

Lemma next_field_cons {A} msg (de : item → serde A) v seq a :
  de v = Ok a → next_field msg de (v :: seq) = Ok (a, seq).
Proof. unfold next_field. simpl. by intros ->. Qed.

Lemma next_field_u64 msg n seq : next_field msg de_u64 (Uint n :: seq) = Ok (n, seq).
Proof. done. Qed.

Lemma next_field_Ok {A} msg (de : item → serde A) seq a seq' :
  next_field msg de seq = Ok (a, seq') → ∃ v, seq = v :: seq' ∧ de v = Ok a.
Proof.
  unfold next_field. destruct seq as [|v seq]; simpl; [done|].
  destruct (de v) eqn:E; simpl; [|done..]. intros. simplify_eq. eauto.
Qed.

Lemma next_field_not_Panic {A} msg (de : item → serde A) seq :
  (∀ v, de v ≠ Panic) → next_field msg de seq ≠ Panic.
Proof.
  intros H. unfold next_field. destruct seq as [|v seq]; simpl; [done|].
  specialize (H v). by destruct (de v).
Qed.

Lemma deserialize_seq_not_Panic {A} visit v :
  (∀ hint es, visit hint es ≠ Panic) → deserialize_seq (A := A) visit v ≠ Panic.
Proof.
  intros H. destruct v; simpl; try done. specialize (H len elems).
  destruct (visit len elems) as [[a rest]| |]; simpl; [by destruct rest|done..].
Qed.

Lemma deserialize_seq_Ok {A} visit v (a : A) :
  deserialize_seq visit v = Ok a ↔ ∃ hint es, v = Arr hint es ∧ visit hint es = Ok (a, []).
Proof.
  destruct v; simpl; try (split; [done|intros (?&?&?&?); done]).
  split.
  - intros ([a' rest] & E & H)%bind_Ok. simpl in H. destruct rest; naive_solver.
  - intros (hint & es & [= -> ->] & E). by rewrite E.
Qed.


(** [wf_seq] reduces the well-formedness of a sequence to its elements. *)
Ltac wf_seq :=
  apply item_wf_arr; split; [simpl length; try done; try lia|];
  repeat (first [apply Forall_cons_2 | apply Forall_nil_2]).

(** [no_panic] walks a visitor that only binds fields and returns. *)
Ltac no_panic :=
  repeat first
    [ done
    | apply deserialize_seq_not_Panic; intros
    | apply next_field_not_Panic; intros
    | apply bind_not_Panic;
      [|intros ? _; repeat match goal with x : (_ * _)%type |- _ => destruct x end] ].

Lemma de_u64_not_Panic v : de_u64 v ≠ Panic.
Proof. by destruct v. Qed.
Lemma de_u8_not_Panic v : de_u8 v ≠ Panic.
Proof. destruct v; simpl; try done. by case_match. Qed.
Lemma de_bool_not_Panic v : de_bool v ≠ Panic.
Proof. by destruct v. Qed.
Lemma de_bytes_not_Panic v : de_bytes v ≠ Panic.
Proof. by destruct v. Qed.

#[export] Hint Resolve de_u64_not_Panic de_u8_not_Panic de_bool_not_Panic de_bytes_not_Panic : dtn.
