(* ===== verification/CborRfc.v ===== *)
(** * A CBOR codec from RFC 8949

    An implementation of the interface [SerdeCbor] written from RFC 8949:
    shortest heads, definite and indefinite arrays, definite maps, tags skipped,
    text checked for UTF-8.  It discharges [SerdeCborLaws] and instantiates the
    theorems about bp7 at concrete inputs. *)
From S2P Require Import Prelude RustStr Cbor.

(** ** Encoder *)

Definition head (major n : Z) : bytes :=
  if n <? 24 then [major * 32 + n]
  else if n <? 256 then (major * 32 + 24) :: be_bytes 1 n
  else if n <? 65536 then (major * 32 + 25) :: be_bytes 2 n
  else if n <? 4294967296 then (major * 32 + 26) :: be_bytes 4 n
  else (major * 32 + 27) :: be_bytes 8 n.

Fixpoint enc (v : item) : bytes :=
  match v with
  | Uint n => head 0 n
  | NegInt n => head 1 n
  | Bytes b => head 2 (zlen b) ++ b
  | Text s => head 3 (zlen s) ++ s
  | Arr (Some n) es => head 4 n ++ concat (map enc es)
  | Arr None es => [159] ++ concat (map enc es) ++ [255]
  | Map kvs => head 5 (zlen kvs) ++ concat (map (λ '(k, e), enc k ++ enc e) kvs)
  | Bool false => [244]
  | Bool true => [245]
  | Null => [246]
  | Opaque => [247]
  end.

(** ** Decoder *)

(** The argument of a head: [None] for an indefinite length. *)
Definition read_arg (info : Z) (bs : bytes) : option (option Z * bytes) :=
  let field n := if decide (n ≤ length bs)%nat
                 then Some (Some (be_val (take n bs)), drop n bs) else None in
  if info <? 24 then Some (Some info, bs)
  else if info =? 24 then field 1%nat
  else if info =? 25 then field 2%nat
  else if info =? 26 then field 4%nat
  else if info =? 27 then field 8%nat
  else if info =? 31 then Some (None, bs)
  else None.

Definition read_string (n : Z) (bs : bytes) : option (bytes * bytes) :=
  if decide (n ≤ zlen bs) then Some (take (Z.to_nat n) bs, drop (Z.to_nat n) bs) else None.

Fixpoint dec_item (fuel : nat) (bs : bytes) : option (item * bytes) :=
  match fuel, bs with
  | S fuel, b :: bs =>
      '(arg, bs) ← read_arg (b mod 32) bs;
      match b / 32, arg with
      | 0, Some n => Some (Uint n, bs)
      | 1, Some n => Some (NegInt n, bs)
      | 2, Some n => '(s, bs) ← read_string n bs; Some (Bytes s, bs)
      | 3, Some n =>
          '(s, bs) ← read_string n bs;
          if utf8_valid s then Some (Text s, bs) else None
      | 4, Some n => '(es, bs) ← dec_seq fuel (Some n) bs; Some (Arr (Some n) es, bs)
      | 4, None => '(es, bs) ← dec_seq fuel None bs; Some (Arr None es, bs)
      | 5, Some n => '(kvs, bs) ← dec_entries fuel n bs; Some (Map kvs, bs)
      | 6, Some _ => dec_item fuel bs
      | 7, Some n =>
          if b =? 244 then Some (Bool false, bs)
          else if b =? 245 then Some (Bool true, bs)
          else if b =? 246 then Some (Null, bs)
          else Some (Opaque, bs)
      | _, _ => None
      end
  | _, _ => None
  end
with dec_seq (fuel : nat) (n : option Z) (bs : bytes) : option (list item * bytes) :=
  match fuel with
  | O => None
  | S fuel =>
      match n with
      | Some n =>
          if n =? 0 then Some ([], bs) else
          '(e, bs) ← dec_item fuel bs;
          '(es, bs) ← dec_seq fuel (Some (n - 1)) bs;
          Some (e :: es, bs)
      | None =>
          match bs with
          | [] => None
          | b :: rest =>
              if b =? 255 then Some ([], rest) else
              '(e, bs) ← dec_item fuel bs;
              '(es, bs) ← dec_seq fuel None bs;
              Some (e :: es, bs)
          end
      end
  end
with dec_entries (fuel : nat) (n : Z) (bs : bytes) : option (list (item * item) * bytes) :=
  match fuel with
  | O => None
  | S fuel =>
      if n =? 0 then Some ([], bs) else
      '(k, bs) ← dec_item fuel bs;
      '(e, bs) ← dec_item fuel bs;
      '(kvs, bs) ← dec_entries fuel (n - 1) bs;
      Some ((k, e) :: kvs, bs)
  end.

(** Every recursive call of the decoder on an item of [k] encoded bytes needs
    less than [3 * k] fuel. *)
Definition rfc_from_slice (bs : bytes) : option item :=
  match dec_item (3 * length bs) bs with
  | Some (v, []) => Some v
  | _ => None
  end.

#[export] Instance rfc_cbor : SerdeCbor := {| to_vec := enc; from_slice := rfc_from_slice |}.

(** ** Correctness *)

Fixpoint item_fuel (v : item) : nat :=
  match v with
  | Arr _ es => 2 + fold_right (λ e n, 1 + item_fuel e + n)%nat O es
  | Map kvs => 2 + fold_right (λ '(k, e) n, 1 + item_fuel k + item_fuel e + n)%nat O kvs
  | _ => 1
  end.

Definition items_fuel (es : list item) : nat :=
  fold_right (λ e n, 1 + item_fuel e + n)%nat O es.
Definition entries_fuel (kvs : list (item * item)) : nat :=
  fold_right (λ '(k, e) n, 1 + item_fuel k + item_fuel e + n)%nat O kvs.

Lemma length_head m n : zlen (head m n) = head_size n.
Proof. unfold head, head_size. repeat case_match; simpl; rewrite ?length_be_bytes; done. Qed.

Lemma head_ok m n : 0 ≤ m < 8 → u64_ok n → bytes_ok (head m n).
Proof.
  unfold u64_ok. intros. unfold head.
  repeat case_match; apply bytes_ok_cons; unfold u8_ok; (split; [lia|]); auto with dtn.
Qed.

Lemma head_first m n : 0 ≤ m < 8 → 0 ≤ n →
  ∃ b r, head m n = b :: r ∧ b / 32 = m ∧ b ≠ 255.
Proof.
  intros. unfold head. repeat case_match; do 2 eexists; (split; [done|]); split; try lia;
    rewrite Z.div_add_l by lia; rewrite Z.div_small by lia; lia.
Qed.

(** Reading a head back. *)
Lemma read_head m n r : 0 ≤ m < 8 → u64_ok n →
  ∃ b t, head m n ++ r = b :: t ∧ b / 32 = m ∧ read_arg (b mod 32) t = Some (Some n, r) ∧
    (n < 24 → b = m * 32 + n).
Proof.
  unfold u64_ok. intros Hm Hn. unfold head.
  assert (∀ i, 0 ≤ i < 32 → (m * 32 + i) / 32 = m ∧ (m * 32 + i) mod 32 = i) as Hd.
  { intros i Hi. split.
    - rewrite Z.div_add_l, Z.div_small by lia. lia.
    - rewrite Z.add_comm, Z.mod_add, Z.mod_small by lia. done. }
  repeat case_match; cbn [app]; do 2 eexists; (split; [reflexivity|]);
    match goal with |- (?mm * 32 + ?i) / 32 = _ ∧ _ =>
      destruct (Hd i ltac:(lia)) as (-> & ->) end;
    (split; [done|]); unfold read_arg;
    repeat match goal with |- context [if ?c then _ else _] =>
      first [ change c with true; cbv iota | change c with false; cbv iota
            | destruct c eqn:?; [|lia]; cbv iota ] end;
    rewrite ?decide_True by (rewrite length_app, length_be_bytes; lia);
    rewrite ?take_app_len, ?drop_app_len by (by rewrite length_be_bytes);
    rewrite ?be_val_bytes_small by (simpl Z.of_nat; lia);
    (split; [done|lia]).
Qed.

Lemma enc_first v : item_wf v → ∃ b r, enc v = b :: r ∧ b ≠ 255.
Proof.
  assert (∀ m n, 0 ≤ m < 8 → 0 ≤ n → ∀ t, ∃ b r, head m n ++ t = b :: r ∧ b ≠ 255) as Hh.
  { intros m n ?? t. destruct (head_first m n) as (b & r & -> & _ & ?); [done..|]. simpl. eauto. }
  destruct v as [n|n|b|s|[n|] es|kvs|[]| |]; intros Hv; simpl; eauto; try by destruct Hv.
  - destruct (head_first 0 n) as (?&?&->&?&?); [lia|apply Hv|]. eauto.
  - destruct (head_first 1 n) as (?&?&->&?&?); [lia|apply Hv|]. eauto.
  - apply Hh; lia.
  - apply Hh; lia.
  - apply item_wf_arr in Hv as [[-> ?] ?]. apply Hh; lia.
  - apply Hh; lia.
Qed.

Section decode_sequences.
Let dec_ok (v : item) : Prop :=
  ∀ fuel r, (item_fuel v ≤ fuel)%nat → dec_item fuel (enc v ++ r) = Some (v, r).

Lemma dec_seq_definite es fuel r :
  Forall dec_ok es → (1 + items_fuel es ≤ fuel)%nat →
  dec_seq fuel (Some (zlen es)) (concat (map enc es) ++ r) = Some (es, r).
Proof.
  intros H. revert fuel. induction H as [|e es He Hes IH]; intros [|fuel] Hf; simpl in Hf;
    try lia; [done|].
  cbn [map concat length dec_seq]. destruct (Z.eqb_spec (Z.of_nat (S (length es))) 0); [lia|].
  rewrite <- app_assoc, He by lia. simpl.
  replace (Z.of_nat (S (length es)) - 1) with (zlen es) by lia.
  rewrite IH by (unfold items_fuel in *; lia). done.
Qed.

Lemma dec_seq_indefinite es fuel r :
  Forall dec_ok es → Forall item_wf es → (1 + items_fuel es ≤ fuel)%nat →
  dec_seq fuel None (concat (map enc es) ++ 255 :: r) = Some (es, r).
Proof.
  intros H. revert fuel. induction H as [|e es He Hes IH]; intros [|fuel] Hw Hf; simpl in Hf;
    try lia; [done|].
  apply Forall_cons in Hw as [Hwe Hw].
  cbn [map concat length dec_seq]. rewrite <- app_assoc.
  destruct (enc_first e Hwe) as (b & t & Eb & Hb).
  specialize (He fuel (concat (map enc es) ++ 255 :: r) ltac:(lia)).
  rewrite Eb in *. simpl in *. destruct (Z.eqb_spec b 255); [done|].
  rewrite He. simpl. rewrite IH by (done || unfold items_fuel in *; lia). done.
Qed.

Lemma dec_entries_ok kvs fuel r :
  Forall (λ kv, dec_ok kv.1 ∧ dec_ok kv.2) kvs → (1 + entries_fuel kvs ≤ fuel)%nat →
  dec_entries fuel (zlen kvs) (concat (map (λ '(k, e), enc k ++ enc e) kvs) ++ r)
    = Some (kvs, r).
Proof.
  intros H. revert fuel.
  induction H as [|[k e] kvs [Hk He] Hes IH]; intros [|fuel] Hf; simpl in *; try lia; [done|].
  destruct (Z.eqb_spec (Z.of_nat (S (length kvs))) 0); [lia|].
  rewrite <- !app_assoc, Hk by lia. simpl. rewrite He by lia. simpl.
  replace (Z.of_nat (S (length kvs)) - 1) with (zlen kvs) by lia.
  rewrite IH by (unfold entries_fuel in *; lia). done.
Qed.
End decode_sequences.

Lemma read_string_app s r : read_string (zlen s) (s ++ r) = Some (s, r).
Proof.
  unfold read_string. rewrite decide_True by (rewrite length_app; lia).
  by rewrite Nat2Z.id, take_app_length, drop_app_length.
Qed.

(** The decoder reads back exactly the encoded item and leaves the rest. *)
Lemma dec_item_enc v : item_wf v →
  ∀ fuel r, (item_fuel v ≤ fuel)%nat → dec_item fuel (enc v ++ r) = Some (v, r).
Proof.
  induction v as [n|n|b|s|len es IH|kvs IH|b| |] using item_rect_nested;
    intros Hv [|fuel] r Hf; cbn [item_fuel] in Hf; try lia; cbn [enc].
  - destruct (read_head 0 n r) as (b & t & -> & Hm & Ha & _); [lia|done|].
    simpl. rewrite Ha, Hm. done.
  - destruct (read_head 1 n r) as (b & t & -> & Hm & Ha & _); [lia|done|].
    simpl. rewrite Ha, Hm. done.
  - rewrite <- app_assoc.
    destruct (read_head 2 (zlen b) (b ++ r)) as (c & t & -> & Hm & Ha & _);
      [lia|destruct Hv; unfold u64_ok; lia|].
    simpl. rewrite Ha, Hm. simpl. by rewrite read_string_app.
  - destruct Hv as (? & Hu & ?). rewrite <- app_assoc.
    destruct (read_head 3 (zlen s) (s ++ r)) as (c & t & -> & Hm & Ha & _);
      [lia|unfold u64_ok; lia|].
    simpl. rewrite Ha, Hm. simpl. rewrite read_string_app. simpl. by rewrite Hu.
  - apply item_wf_arr in Hv as [Hl Hes].
    assert (Forall (λ v, ∀ fuel r, (item_fuel v ≤ fuel)%nat →
      dec_item fuel (enc v ++ r) = Some (v, r)) es) as Hd.
    { rewrite Forall_forall in *. naive_solver. }
    destruct len as [n|].
    + destruct Hl as [-> ?]. rewrite <- app_assoc.
      destruct (read_head 4 (zlen es) (concat (map enc es) ++ r)) as (c & t & -> & Hm & Ha & _);
        [lia|unfold u64_ok; lia|].
      simpl. rewrite Ha, Hm. simpl. rewrite dec_seq_definite by (done || unfold items_fuel; lia). done.
    + rewrite <- app_assoc. cbn [app]. rewrite <- app_assoc. cbn [app].
      cbn [dec_item]. change (read_arg (159 mod 32)) with (read_arg 31). cbn [read_arg].
      change (159 / 32) with 4. simpl.
      rewrite dec_seq_indefinite by (done || unfold items_fuel; lia). done.
  - apply item_wf_map in Hv as [Hl Hes].
    assert (Forall (λ kv,
      (∀ fuel r, (item_fuel kv.1 ≤ fuel)%nat → dec_item fuel (enc kv.1 ++ r) = Some (kv.1, r)) ∧
      (∀ fuel r, (item_fuel kv.2 ≤ fuel)%nat → dec_item fuel (enc kv.2 ++ r) = Some (kv.2, r))) kvs) as Hd.
    { rewrite Forall_forall in *. naive_solver. }
    rewrite <- app_assoc.
    destruct (read_head 5 (zlen kvs)
      (concat (map (λ '(k, e), enc k ++ enc e) kvs) ++ r)) as (c & t & -> & Hm & Ha & _);
      [lia|unfold u64_ok; lia|].
    simpl. rewrite Ha, Hm. simpl. rewrite dec_entries_ok by (done || unfold entries_fuel; lia). done.
  - by destruct b.
  - done.
  - done.
Qed.

Lemma item_fuel_bound v : item_wf v → (item_fuel v + 1 ≤ 3 * length (enc v))%nat.
Proof.
  assert (∀ m n, (1 ≤ length (head m n))%nat) as Hh.
  { intros m n. pose proof (length_head m n). pose proof (head_size_bound n). lia. }
  induction v as [n|n|b|s|len es IH|kvs IH|b| |] using item_rect_nested; intros Hv;
    cbn [enc item_fuel]; rewrite ?length_app; try (specialize (Hh 0 n); lia);
    try (specialize (Hh 1 n); lia); try (specialize (Hh 2 (zlen b)); lia);
    try (specialize (Hh 3 (zlen s)); lia).
  - apply item_wf_arr in Hv as [_ Hes].
    assert (items_fuel es ≤ 3 * length (concat (map enc es)))%nat.
    { unfold items_fuel. induction IH; simpl; [lia|].
      apply Forall_cons in Hes as [??]. rewrite length_app. naive_solver lia. }
    unfold items_fuel in *. destruct len; rewrite ?length_app; simpl length;
      [specialize (Hh 4 z)|]; lia.
  - apply item_wf_map in Hv as [_ Hes].
    assert (entries_fuel kvs ≤ 3 * length (concat (map (λ '(k, e), enc k ++ enc e) kvs)))%nat.
    { unfold entries_fuel. induction IH as [|[k e] ? [??] ? IHl]; simpl in *; [lia|].
      apply Forall_cons in Hes as [[??] ?]. simpl in *. rewrite !length_app. naive_solver lia. }
    specialize (Hh 5 (zlen kvs)). unfold entries_fuel in *. lia.
  - destruct b; simpl; lia.
  - simpl; lia.
  - done.
Qed.

Lemma enc_size v : item_wf v → zlen (enc v) = item_size v.
Proof.
  induction v as [n|n|b|s|len es IH|kvs IH|b| |] using item_rect_nested; intros Hv;
    cbn [enc item_size]; rewrite ?length_app, ?Nat2Z.inj_add, ?length_head; try done.
  - apply item_wf_arr in Hv as [Hl Hes].
    assert (zlen (concat (map enc es)) = fold_right (λ e n, item_size e + n) 0 es).
    { clear Hl. induction IH; simpl; [done|]. apply Forall_cons in Hes as [??].
      rewrite length_app. naive_solver lia. }
    destruct len; simpl app; rewrite ?length_app, ?Nat2Z.inj_add, ?length_head; [lia|].
    cbn [length]. rewrite length_app. simpl length. lia.
  - apply item_wf_map in Hv as [_ Hes]. f_equal.
    induction IH as [|[k e] ? [??] ? IHl]; simpl in *; [done|].
    apply Forall_cons in Hes as [[??] ?]. simpl in *. rewrite !length_app. naive_solver lia.
  - by destruct b.
Qed.

Lemma enc_ok v : item_wf v → bytes_ok (enc v).
Proof.
  induction v as [n|n|b|s|len es IH|kvs IH|b| |] using item_rect_nested; intros Hv; cbn [enc].
  - by apply head_ok; [lia|].
  - by apply head_ok; [lia|].
  - destruct Hv. apply bytes_ok_app. split; [apply head_ok; unfold u64_ok; lia|done].
  - destruct Hv as (?&?&?). apply bytes_ok_app. split; [apply head_ok; unfold u64_ok; lia|done].
  - apply item_wf_arr in Hv as [Hl Hes].
    assert (bytes_ok (concat (map enc es))) as Hc.
    { clear Hl. induction IH; simpl; [constructor|]. apply Forall_cons in Hes as [??].
      apply bytes_ok_app. naive_solver. }
    destruct len as [n|]; rewrite !bytes_ok_app.
    + split; [apply head_ok; unfold u64_ok; lia|done].
    + split; [|split; [done|]]; apply bytes_ok_cons; unfold u8_ok; (split; [lia|constructor]).
  - apply item_wf_map in Hv as [Hl Hes]. apply bytes_ok_app.
    split; [apply head_ok; unfold u64_ok; lia|]. clear Hl.
    induction IH as [|[k e] ? [??] ? IHl]; simpl in *; [constructor|].
    apply Forall_cons in Hes as [[??] ?]. simpl in *. rewrite !bytes_ok_app. naive_solver.
  - destruct b; apply bytes_ok_cons; unfold u8_ok; (split; [lia|constructor]).
  - apply bytes_ok_cons; unfold u8_ok; (split; [lia|constructor]).
  - done.
Qed.

(** The RFC 8949 codec satisfies the laws bp7 relies on. *)
#[export] Instance rfc_cbor_laws : SerdeCborLaws.
Proof.
  split; intros v Hv; simpl.
  - unfold rfc_from_slice.
    pose proof (dec_item_enc v Hv (3 * length (enc v)) []) as H.
    rewrite app_nil_r in H. rewrite H; [done|]. pose proof (item_fuel_bound v Hv). lia.
  - by apply enc_ok.
  - by apply enc_size.
Qed.
