(* ===== verification/Flags.v ===== *)
(** * Bit flags of bp7 ([bp7/src/bundleflags.rs], [bp7/src/blockflags.rs])

    A flag set of the [bitflags] crate is its bits; [contains], [intersects],
    union, [remove] and [from_bits_truncate] are the bit operations of the same
    meaning. *)
From S2P Require Import Prelude RustStr Cbor.

Definition contains (self other : Z) : bool := Z.land self other =? other.
Definition intersects (self other : Z) : bool := negb (Z.land self other =? 0).
Definition from_bits_truncate (all v : Z) : Z := Z.land v all.
Definition flags_remove (self other : Z) : Z := Z.ldiff self other.

Lemma contains_bit f k : 0 ≤ k → contains f (2 ^ k) = Z.testbit f k.
Proof.
  intros Hk. unfold contains. destruct (Z.testbit f k) eqn:E.
  - apply Z.eqb_eq. apply Z.bits_inj'. intros n Hn. rewrite Z.land_spec.
    rewrite Z.pow2_bits_eqb by lia. destruct (Z.eqb_spec k n); [by subst; rewrite E|].
    by rewrite andb_false_r.
  - apply Z.eqb_neq. intros H. apply (f_equal (λ z, Z.testbit z k)) in H.
    rewrite Z.land_spec, Z.pow2_bits_true, E in H by lia. done.
Qed.

Lemma truncate_id all v : Z.land v all = v → from_bits_truncate all v = v.
Proof. done. Qed.

Lemma truncate_idemp all v :
  from_bits_truncate all (from_bits_truncate all v) = from_bits_truncate all v.
Proof. unfold from_bits_truncate. by rewrite <- Z.land_assoc, Z.land_diag. Qed.

Lemma truncate_bound all v : 0 ≤ all → 0 ≤ from_bits_truncate all v ≤ all.
Proof.
  intros Ha. unfold from_bits_truncate. split; [apply Z.land_nonneg; by right|].
  rewrite Z.land_comm. apply Z.ldiff_le; [done|]. apply Z.bits_inj'. intros n Hn.
  rewrite Z.ldiff_spec, !Z.land_spec, Z.bits_0.
  by destruct (Z.testbit all n), (Z.testbit v n).
Qed.

Lemma truncate_u64 all v : u64_ok all → u64_ok (from_bits_truncate all v).
Proof. unfold u64_ok. intros [H1 H2]. pose proof (truncate_bound all v H1). lia. Qed.

(** ** [BundleFlags] *)
Module BundleFlags.
Definition FRAGMENT : Z := 0x00000001.
Definition ADMINISTRATIVE_RECORD : Z := 0x00000002.
Definition MUST_NOT_FRAGMENT : Z := 0x00000004.
Definition APPLICATION_ACKNOWLEGEMENT_REQUESTED : Z := 0x00000020.
Definition STATUS_TIME_REQUESTED : Z := 0x00000040.
Definition BUNDLE_RECEIPTION_STATUS_REQUESTED : Z := 0x00004000.
Definition BUNDLE_FORWARDING_STATUS_REQUEST : Z := 0x00010000.
Definition BUNDLE_DELIVERY_STATUS_REQUESTED : Z := 0x00020000.
Definition BUNDLE_DELETION_STATUS_REQUESTED : Z := 0x00040000.

Definition all : Z :=
  Z.lor FRAGMENT (Z.lor ADMINISTRATIVE_RECORD (Z.lor MUST_NOT_FRAGMENT
    (Z.lor APPLICATION_ACKNOWLEGEMENT_REQUESTED (Z.lor STATUS_TIME_REQUESTED
    (Z.lor BUNDLE_RECEIPTION_STATUS_REQUESTED (Z.lor BUNDLE_FORWARDING_STATUS_REQUEST
    (Z.lor BUNDLE_DELIVERY_STATUS_REQUESTED BUNDLE_DELETION_STATUS_REQUESTED))))))).

Definition serialize (f : Z) : item := Uint f.

Definition deserialize (v : item) : serde Z :=
  bits ← de_u64 v; Ok (from_bits_truncate all bits).

Definition validate (f : Z) : bool :=
  if contains f ADMINISTRATIVE_RECORD
     && intersects f
          (Z.lor BUNDLE_RECEIPTION_STATUS_REQUESTED
          (Z.lor BUNDLE_FORWARDING_STATUS_REQUEST
          (Z.lor BUNDLE_DELIVERY_STATUS_REQUESTED BUNDLE_DELETION_STATUS_REQUESTED)))
  then false
  else if contains f (Z.lor MUST_NOT_FRAGMENT FRAGMENT) then false
  else true.

(** A value the type can hold: only declared bits. *)
Definition ok (f : Z) : Prop := Z.land f all = f.
End BundleFlags.

(** ** [BlockFlags] *)
Module BlockFlags.
Definition MUST_REPLICATE_TO_ALL_FRAGMENTS : Z := 0x01.
Definition STATUS_REPORT_REQUESTED_WHEN_NOT_PROCESSABLE : Z := 0x02.
Definition DELETE_BUNDLE_WHEN_NOT_PROCESSABLE : Z := 0x04.
Definition DELETE_BLOCK_WHEN_NOT_PROCESSABLE : Z := 0x10.

Definition empty : Z := 0.
Definition all : Z :=
  Z.lor MUST_REPLICATE_TO_ALL_FRAGMENTS (Z.lor STATUS_REPORT_REQUESTED_WHEN_NOT_PROCESSABLE
    (Z.lor DELETE_BUNDLE_WHEN_NOT_PROCESSABLE DELETE_BLOCK_WHEN_NOT_PROCESSABLE)).

Definition serialize (f : Z) : item := Uint f.

Definition deserialize (v : item) : serde Z :=
  bits ← de_u64 v; Ok (from_bits_truncate all bits).

Definition validate (_ : Z) : bool := true.

Definition ok (f : Z) : Prop := Z.land f all = f.
End BlockFlags.

Lemma bundle_flags_u64 f : BundleFlags.ok f → u64_ok f.
Proof. intros <-. apply (truncate_u64 BundleFlags.all f). vm_compute. split; congruence. Qed.

Lemma block_flags_u64 f : BlockFlags.ok f → u64_ok f.
Proof. intros <-. apply (truncate_u64 BlockFlags.all f). vm_compute. split; congruence. Qed.

Lemma bundle_flags_de_ser f :
  BundleFlags.ok f → BundleFlags.deserialize (BundleFlags.serialize f) = Ok f.
Proof. intros H. unfold BundleFlags.deserialize. simpl. by rewrite truncate_id. Qed.

Lemma block_flags_de_ser f :
  BlockFlags.ok f → BlockFlags.deserialize (BlockFlags.serialize f) = Ok f.
Proof. intros H. unfold BlockFlags.deserialize. simpl. by rewrite truncate_id. Qed.

#[export] Hint Resolve bundle_flags_u64 block_flags_u64 : dtn.
