(* ===== verification/CrcTime.v ===== *)
(** * CRC types and times ([bp7/src/crc.rs], [bp7/src/time.rs]) *)
From S2P Require Import Prelude RustStr Cbor.

(** ** [CRCType] *)
Module Crc.
Inductive CRCType :=
| NoCRC
| CRC16 (b0 b1 : Z)
| CRC32 (b0 b1 b2 b3 : Z).

#[export] Instance CRCType_eq_dec : EqDecision CRCType.
Proof. solve_decision. Defined.

Definition serialize (c : CRCType) : item :=
  Uint match c with NoCRC => 0 | CRC16 _ _ => 1 | CRC32 _ _ _ _ => 2 end.

Definition deserialize (v : item) : serde CRCType :=
  n ← de_u64 v;
  if n =? 0 then Ok NoCRC
  else if n =? 1 then Ok (CRC16 0 0)
  else if n =? 2 then Ok (CRC32 0 0 0 0)
  else Err (EInvalidValue n).

(** [seq.serialize_element(&x)?] for the checksum bytes [x : [u8; N]]: serde
    serializes an array as a tuple, one element per byte. *)
Definition serialize_value (c : CRCType) : outcome serde_error item :=
  match c with
  | NoCRC => Panic
  | CRC16 b0 b1 => Ok (Arr (Some 2) [Uint b0; Uint b1])
  | CRC32 b0 b1 b2 b3 => Ok (Arr (Some 4) [Uint b0; Uint b1; Uint b2; Uint b3])
  end.

Definition deserialize_value (c : CRCType) (seq : list item)
    : serde (CRCType * list item) :=
  match c with
  | NoCRC => Panic
  | CRC16 _ _ =>
      '(val, seq) ← next_field "Error for crc content" de_bytes seq;
      match val with
      | [b0; b1] => Ok (CRC16 b0 b1, seq)
      | _ => Err (EInvalidLength (zlen val))
      end
  | CRC32 _ _ _ _ =>
      '(val, seq) ← next_field "Error for crc content" de_bytes seq;
      match val with
      | [b0; b1; b2; b3] => Ok (CRC32 b0 b1 b2 b3, seq)
      | _ => Err (EInvalidLength (zlen val))
      end
  end.

Definition ok (c : CRCType) : Prop :=
  match c with
  | NoCRC => True
  | CRC16 b0 b1 => u8_ok b0 ∧ u8_ok b1
  | CRC32 b0 b1 b2 b3 => u8_ok b0 ∧ u8_ok b1 ∧ u8_ok b2 ∧ u8_ok b3
  end.

Lemma crc_serialize_wf c : item_wf (serialize c).
Proof. unfold serialize, item_wf, u64_ok. destruct c; lia. Qed.

(** The type survives a round trip; the checksum is carried separately. *)
Lemma crc_deserialize_serialize c :
  deserialize (serialize c) =
    Ok match c with NoCRC => NoCRC | CRC16 _ _ => CRC16 0 0 | CRC32 _ _ _ _ => CRC32 0 0 0 0 end.
Proof. by destruct c. Qed.

Lemma serialize_value_wf c v : ok c → serialize_value c = Ok v → item_wf v.
Proof.
  destruct c; simpl; intros Hc Hv; simplify_eq; apply item_wf_arr;
    unfold u8_ok in *; (split; [simpl; lia|]);
    repeat constructor; unfold u64_ok; lia.
Qed.

(** What the serializer writes for a checksum is an array, which no
    checksum visitor accepts. *)
Lemma value_rejected c c' v seq :
  serialize_value c = Ok v → c' ≠ NoCRC →
  deserialize_value c' (v :: seq) = Err EInvalidType.
Proof. destruct c, c'; simpl; intros; simplify_eq; done. Qed.

Lemma deserialize_value_length c seq c' seq' :
  deserialize_value c seq = Ok (c', seq') → length seq = S (length seq').
Proof.
  destruct c; simpl; intros H; [done| |];
    apply bind_Ok in H as ([val s] & (v & -> & _)%next_field_Ok & H); simpl in H;
    repeat case_match; simplify_eq; done.
Qed.

Lemma crc_deserialize_not_panic v : deserialize v ≠ Panic.
Proof. destruct v; try done. unfold deserialize. simpl. repeat case_match; done. Qed.
End Crc.

(** ** [DtnTime] and [CreationTimestamp] *)
Module Time.
Record DtnTime := { timestamp : Z }.

Record CreationTimestamp := {
  creation_time : DtnTime;
  sequence_number : Z;
}.

#[export] Instance DtnTime_eq_dec : EqDecision DtnTime.
Proof. solve_decision. Defined.
#[export] Instance CreationTimestamp_eq_dec : EqDecision CreationTimestamp.
Proof. solve_decision. Defined.

Definition serialize_time (t : DtnTime) : item := Uint (timestamp t).
Definition deserialize_time (v : item) : serde DtnTime :=
  n ← de_u64 v; Ok {| timestamp := n |}.

Definition serialize (t : CreationTimestamp) : item :=
  Arr (Some 2) [serialize_time (creation_time t); Uint (sequence_number t)].

Definition visit_seq (_ : option Z) (seq : list item)
    : serde (CreationTimestamp * list item) :=
  '(t, seq) ← next_field "Error for field 'creation_time'" deserialize_time seq;
  '(n, seq) ← next_field "Error for field 'sequence_number'" de_u64 seq;
  Ok ({| creation_time := t; sequence_number := n |}, seq).

Definition deserialize : item → serde CreationTimestamp := deserialize_seq visit_seq.

(** *** Conversion to and from calendar time

    A [chrono::DateTime<Utc>] is its millisecond count since 1970;
    [timestamp_millis_opt] answers whether chrono can represent it. *)
Definition DTN_UNIX_DIFFERENCE_MS : Z := 946684800000.

(** [x as i64]: two's complement. *)
Definition as_i64 (z : Z) : Z := (z + 2 ^ 63) mod 2 ^ 64 - 2 ^ 63.

Section chrono.
Variable timestamp_millis_opt : Z → option Z.

Definition datetime_of_dtn {E} (dtn : DtnTime) : outcome E Z :=
  let millis := as_i64 (as_i64 (timestamp dtn) + DTN_UNIX_DIFFERENCE_MS) in
  unwrap (timestamp_millis_opt millis).

Definition dtn_of_datetime {E} (utc : Z) : outcome E DtnTime :=
  let millis := as_i64 (utc - DTN_UNIX_DIFFERENCE_MS) in
  if 0 <=? millis then Ok {| timestamp := millis |} else Panic.

(** [DtnTime::now] at the clock reading [now]. *)
Definition now {E} (clock : Z) : outcome E DtnTime := dtn_of_datetime clock.

(** chrono gives back the millisecond count it accepts. *)
Hypothesis timestamp_millis_opt_id : ∀ m d, timestamp_millis_opt m = Some d → d = m.

Lemma datetime_roundtrip {E} (t : DtnTime) d :
  0 ≤ timestamp t < 2 ^ 63 - DTN_UNIX_DIFFERENCE_MS →
  datetime_of_dtn (E := E) t = Ok d → dtn_of_datetime (E := E) d = Ok t.
Proof.
  intros Ht Hd. unfold datetime_of_dtn in Hd. apply unwrap_Ok in Hd.
  apply timestamp_millis_opt_id in Hd. unfold dtn_of_datetime, as_i64 in *.
  unfold DTN_UNIX_DIFFERENCE_MS in *.
  rewrite (Z.mod_small (timestamp t + _)) in Hd by lia.
  rewrite Z.mod_small in Hd by lia. subst d.
  rewrite Z.mod_small by lia. case_match eqn:E0; [|lia].
  destruct t as [t]. simpl. do 2 f_equal. simpl in *. lia.
Qed.
End chrono.

(** The clock after the year 2000. *)
Lemma now_Ok {E} c : DTN_UNIX_DIFFERENCE_MS ≤ c < 2 ^ 63 →
  now (E := E) c = Ok {| timestamp := c - DTN_UNIX_DIFFERENCE_MS |}.
Proof.
  intros Hc. unfold now, dtn_of_datetime, as_i64. unfold DTN_UNIX_DIFFERENCE_MS in *.
  rewrite Z.mod_small by lia. case_match eqn:E0; [|lia]. do 2 f_equal. lia.
Qed.

Definition ok (t : CreationTimestamp) : Prop :=
  u64_ok (timestamp (creation_time t)) ∧ u64_ok (sequence_number t).

Lemma time_serialize_wf t : ok t → item_wf (serialize t).
Proof.
  intros [??]. by wf_seq.
Qed.

Lemma time_deserialize_serialize t : deserialize (serialize t) = Ok t.
Proof. by destruct t as [[t] n]. Qed.

Lemma time_deserialize_not_panic v : deserialize v ≠ Panic.
Proof.
  destruct v; try done. unfold deserialize, deserialize_seq, visit_seq.
  destruct elems as [|[] [|[] [|]]]; done.
Qed.
End Time.
