(* ===== verification/Endpoint.v ===== *)
(** * Endpoint identifiers ([bp7/src/endpoint.rs])

    [DTNEndpoint] keeps the text after ["dtn:"], [IPNEndpoint] a node and a
    service number.  A string is its UTF-8 bytes. *)
From S2P Require Import Prelude RustStr Cbor CborRfc.

Module DTN.
Record DTNEndpoint := { uri : bytes }.

#[export] Instance DTNEndpoint_eq_dec : EqDecision DTNEndpoint.
Proof. solve_decision. Defined.

Definition from_str (u : bytes) : option DTNEndpoint :=
  if starts_with (str "//") u then Some {| uri := u |} else None.

Definition is_null_endpoint (e : DTNEndpoint) : bool := bool_decide (uri e = str "none").

(** [self.uri[2..].split('/').next()] *)
Definition node_name {E} (e : DTNEndpoint) : outcome E bytes :=
  rest ← str_from (uri e) 2; Ok (split_first 47 rest).

Definition matches_node {E} (self other : DTNEndpoint) : outcome E bool :=
  a ← node_name self; b ← node_name other; Ok (bool_decide (a = b)).

Definition get_node_endpoint {E} (e : DTNEndpoint) : outcome E DTNEndpoint :=
  n ← node_name e; unwrap (from_str (str "//" ++ n)).

Definition serialize (e : DTNEndpoint) : item :=
  if is_null_endpoint e then Uint 0 else Text (uri e).

Definition deserialize (v : item) : serde DTNEndpoint :=
  match v with
  | Uint n => if n =? 0 then Ok {| uri := str "none" |} else Err (EInvalidValue n)
  | Text s => Ok {| uri := s |}
  | _ => Err EInvalidType
  end.

Definition validate (e : DTNEndpoint) : bool :=
  if bool_decide (uri e ≠ str "none") && negb (starts_with (str "//") (uri e))
  then false else true.

Definition fmt (e : DTNEndpoint) : bytes := str "dtn:" ++ uri e.
End DTN.
Export (hints) DTN.

Module IPN.
Record IPNEndpoint := { node : Z; service : Z }.

#[export] Instance IPNEndpoint_eq_dec : EqDecision IPNEndpoint.
Proof. solve_decision. Defined.

Definition validate (_ : IPNEndpoint) : bool := true.

Definition from_str (u : bytes) : option IPNEndpoint :=
  '(schema, hier) ← split_once 58 u;
  if decide (schema = str "ipn") then
    '(n, s) ← split_once 46 hier;
    node_id ← parse_u64 n;
    service_id ← parse_u64 s;
    Some {| node := node_id; service := service_id |}
  else None.

Definition matches_node (self other : IPNEndpoint) : bool := node self =? node other.

Definition get_node_endpoint (e : IPNEndpoint) : IPNEndpoint :=
  {| node := node e; service := 0 |}.

Definition fmt (e : IPNEndpoint) : bytes :=
  str "ipn:" ++ display_u64 (node e) ++ str "." ++ display_u64 (service e).

(** The derived [Serialize]: a struct is a map from field names to values. *)
Definition serialize (e : IPNEndpoint) : item :=
  Map [(Text (str "node"), Uint (node e)); (Text (str "service"), Uint (service e))].

(** The derived [Deserialize] reads a sequence of the fields in order, or a
    map: a field is named by its identifier or by its index, unknown fields
    are skipped, a repeated or missing field is an error. *)
Definition field_index (k : item) : serde Z :=
  match k with
  | Uint n => Ok n
  | Text s | Bytes s =>
      Ok (if decide (s = str "node") then 0 else if decide (s = str "service") then 1 else 2)
  | _ => Err EInvalidType
  end.

Fixpoint visit_map (kvs : list (item * item)) (n s : option Z) : serde IPNEndpoint :=
  match kvs with
  | [] =>
      n ← ok_or n (ECustom "missing field `node`");
      s ← ok_or s (ECustom "missing field `service`");
      Ok {| node := n; service := s |}
  | (k, v) :: kvs =>
      i ← field_index k;
      if i =? 0 then
        match n with
        | Some _ => Err (ECustom "duplicate field `node`")
        | None => x ← de_u64 v; visit_map kvs (Some x) s
        end
      else if i =? 1 then
        match s with
        | Some _ => Err (ECustom "duplicate field `service`")
        | None => x ← de_u64 v; visit_map kvs n (Some x)
        end
      else visit_map kvs n s
  end.

Definition visit_seq (_ : option Z) (seq : list item) : serde (IPNEndpoint * list item) :=
  '(n, seq) ← next_field "invalid length 0" de_u64 seq;
  '(s, seq) ← next_field "invalid length 1" de_u64 seq;
  Ok ({| node := n; service := s |}, seq).

Definition deserialize (v : item) : serde IPNEndpoint :=
  match v with
  | Map kvs => visit_map kvs None None
  | _ => deserialize_seq visit_seq v
  end.
End IPN.
Export (hints) IPN.

Inductive Endpoint :=
| EDTN (e : DTN.DTNEndpoint)
| EIPN (e : IPN.IPNEndpoint).

#[export] Instance Endpoint_eq_dec : EqDecision Endpoint.
Proof. solve_decision. Defined.

#[export] Instance Endpoint_countable : Countable Endpoint.
Proof.
  refine (inj_countable'
    (λ e, match e with
          | EDTN d => inl (DTN.uri d)
          | EIPN i => inr (IPN.node i, IPN.service i) end)
    (λ x, match x with
          | inl u => EDTN {| DTN.uri := u |}
          | inr (n, s) => EIPN {| IPN.node := n; IPN.service := s |} end) _).
  by intros [[]|[]].
Defined.

Module Endpoint.
(** [EndpointType]: [Dtn = 1], [Ipn = 2]. *)
Definition serialize (e : Endpoint) : item :=
  match e with
  | EDTN e => Arr (Some 2) [Uint 1; DTN.serialize e]
  | EIPN e => Arr (Some 2) [Uint 2; IPN.serialize e]
  end.

Definition de_endpoint_type (v : item) : serde bool :=
  n ← de_u64 v;
  if n =? 1 then Ok true else if n =? 2 then Ok false else Err (EInvalidValue n).

Definition visit_seq (_ : option Z) (seq : list item) : serde (Endpoint * list item) :=
  '(is_dtn, seq) ← next_field "Error for field 'endpoint_type'" de_endpoint_type seq;
  if (is_dtn : bool) then
    '(e, seq) ← next_field "Error for field 'dtn_endpoint'" DTN.deserialize seq;
    Ok (EDTN e, seq)
  else
    '(e, seq) ← next_field "Error for field 'ipn_endpoint'" IPN.deserialize seq;
    Ok (EIPN e, seq).

Definition deserialize : item → serde Endpoint := deserialize_seq visit_seq.

Definition validate (e : Endpoint) : bool :=
  match e with EDTN e => DTN.validate e | EIPN e => IPN.validate e end.

Definition fmt (e : Endpoint) : bytes :=
  match e with EDTN e => DTN.fmt e | EIPN e => IPN.fmt e end.

Definition new (uri : bytes) : option Endpoint :=
  '(schema, content) ← split_once 58 uri;
  if decide (schema = str "dtn") then EDTN <$> DTN.from_str content
  else if decide (schema = str "ipn") then EIPN <$> IPN.from_str content
  else None.

Definition is_null_endpoint (e : Endpoint) : bool :=
  match e with EDTN e => DTN.is_null_endpoint e | EIPN _ => false end.

Definition matches_node {E} (self other : Endpoint) : outcome E bool :=
  match self, other with
  | EDTN s, EDTN o => DTN.matches_node s o
  | EIPN s, EIPN o => Ok (IPN.matches_node s o)
  | _, _ => Ok false
  end.

Definition get_node_endpoint {E} (e : Endpoint) : outcome E Endpoint :=
  match e with
  | EDTN e => EDTN <$> DTN.get_node_endpoint e
  | EIPN e => Ok (EIPN (IPN.get_node_endpoint e))
  end.

(** What the Rust types guarantee: UTF-8 text of at most [isize::MAX] bytes,
    64-bit numbers. *)
Definition ok (e : Endpoint) : Prop :=
  match e with
  | EDTN e => bytes_ok (DTN.uri e) ∧ utf8_valid (DTN.uri e) = true ∧ zlen (DTN.uri e) < 2 ^ 63
  | EIPN e => u64_ok (IPN.node e) ∧ u64_ok (IPN.service e)
  end.
End Endpoint.

(** ** Lemmas *)

Lemma utf8_after_slashes rest :
  utf8_valid (str "//" ++ rest) = true → is_char_boundary (str "//" ++ rest) 2 = true.
Proof.
  unfold utf8_valid, is_char_boundary. change (str "//") with [47; 47].
  destruct rest as [|b rest]; [done|]. cbn [app length utf8_valid_fuel].
  change (in_range 0 127 47) with true. cbv iota. simpl.
  unfold in_range. intros H. destruct ((128 <=? b) && (b <? 192)) eqn:E; [|done].
  apply andb_true_iff in E as [E1 E2]. apply Z.leb_le in E1. apply Z.ltb_lt in E2.
  exfalso. revert H.
  repeat (case_match; try lia; try done);
    repeat match goal with H : _ && _ = true |- _ => apply andb_true_iff in H as [??] end; lia.
Qed.

(** The node name of an endpoint with a valid URI: the first path segment. *)
Lemma node_name_slashes {E} rest :
  is_char_boundary (str "//" ++ rest) 2 = true →
  DTN.node_name (E := E) {| DTN.uri := str "//" ++ rest |} = Ok (split_first 47 rest).
Proof. intros H. unfold DTN.node_name, str_from. cbn [DTN.uri]. by rewrite H. Qed.

Lemma boundary_split_first rest :
  is_char_boundary (str "//" ++ rest) 2 = true →
  is_char_boundary (str "//" ++ split_first 47 rest) 2 = true.
Proof.
  change (str "//") with [47; 47]. unfold is_char_boundary. simpl.
  destruct rest as [|b rest]; simpl; [done|]. by case_decide.
Qed.

(** An endpoint that [Endpoint::new] can return, or a deserialized one that
    passes [validate] and is not the null endpoint. *)
Definition node_endpoint_ok (e : Endpoint) : Prop :=
  Endpoint.ok e ∧ Endpoint.validate e = true ∧ Endpoint.is_null_endpoint e = false.

Lemma node_endpoint_ok_dtn e :
  node_endpoint_ok (EDTN e) →
  ∃ rest, e = {| DTN.uri := str "//" ++ rest |} ∧
    is_char_boundary (str "//" ++ rest) 2 = true.
Proof.
  destruct e as [u]. intros ((_ & Hu & _) & Hv & Hn). simpl in *.
  unfold DTN.validate, DTN.is_null_endpoint in *. simpl in *.
  apply bool_decide_eq_false in Hn. rewrite bool_decide_eq_true_2 in Hv by done.
  destruct (starts_with (str "//") u) eqn:Hs; [|done].
  apply starts_with_split in Hs as [rest ->]. exists rest. split; [done|].
  by apply utf8_after_slashes.
Qed.

Lemma get_node_slashes {E} rest :
  is_char_boundary (str "//" ++ rest) 2 = true →
  DTN.get_node_endpoint (E := E) {| DTN.uri := str "//" ++ rest |} =
    Ok {| DTN.uri := str "//" ++ split_first 47 rest |}.
Proof.
  intros H. unfold DTN.get_node_endpoint. rewrite node_name_slashes by done. ored.
  unfold DTN.from_str. by rewrite starts_with_app.
Qed.

(** [get_node_endpoint] never panics on such an endpoint; it is idempotent and
    its result is on the same node. *)
Lemma get_node_endpoint_valid {E} e :
  node_endpoint_ok e → ∃ n, Endpoint.get_node_endpoint (E := E) e = Ok n ∧
    Endpoint.get_node_endpoint (E := E) n = Ok n ∧
    Endpoint.matches_node (E := E) e n = Ok true.
Proof.
  destruct e as [e|e]; intros He.
  - destruct (node_endpoint_ok_dtn e He) as (rest & -> & Hb).
    pose proof (boundary_split_first rest Hb) as Hb'.
    exists (EDTN {| DTN.uri := str "//" ++ split_first 47 rest |}).
    unfold Endpoint.get_node_endpoint, Endpoint.matches_node, DTN.matches_node.
    rewrite !get_node_slashes, !node_name_slashes by done. ored.
    by rewrite split_first_idemp, bool_decide_eq_true_2.
  - eexists. split; [done|]. split; [done|]. simpl. unfold IPN.matches_node. simpl.
    by rewrite Z.eqb_refl.
Qed.

(** Two such endpoints match exactly when they name the same node endpoint. *)
Lemma matches_node_iff {E} a b :
  node_endpoint_ok a → node_endpoint_ok b →
  ∃ r, Endpoint.matches_node (E := E) a b = Ok r ∧
    (r = true ↔ Endpoint.get_node_endpoint (E := E) a = Endpoint.get_node_endpoint b).
Proof.
  destruct a as [a|[an as_]], b as [b|[bn bs]]; intros Ha Hb.
  - destruct (node_endpoint_ok_dtn a Ha) as (ra & -> & Ba).
    destruct (node_endpoint_ok_dtn b Hb) as (rb & -> & Bb).
    unfold Endpoint.matches_node, Endpoint.get_node_endpoint, DTN.matches_node.
    rewrite !node_name_slashes, !get_node_slashes by done. ored. eexists. split; [done|].
    rewrite bool_decide_eq_true. split; [by intros ->|]. intros H. by injection H.
  - eexists. split; [done|]. destruct (node_endpoint_ok_dtn a Ha) as (ra & -> & Ba).
    unfold Endpoint.get_node_endpoint. rewrite get_node_slashes by done. done.
  - eexists. split; [done|]. destruct (node_endpoint_ok_dtn b Hb) as (rb & -> & Bb).
    unfold Endpoint.get_node_endpoint. rewrite get_node_slashes by done. done.
  - eexists. split; [done|]. simpl. unfold IPN.matches_node, IPN.get_node_endpoint. simpl.
    rewrite Z.eqb_eq. split; [by intros ->|]. by intros [= ->].
Qed.

Lemma endpoint_deserialize_serialize e :
  Endpoint.deserialize (Endpoint.serialize e) = Ok e.
Proof.
  destruct e as [[u]|[n s]]; [|done].
  unfold Endpoint.serialize, DTN.serialize, DTN.is_null_endpoint. simpl.
  case_bool_decide; by subst.
Qed.

Lemma endpoint_serialize_wf e : Endpoint.ok e → item_wf (Endpoint.serialize e).
Proof.
  destruct e as [[u]|[n s]]; simpl Endpoint.ok.
  - intros (?&?&?). unfold Endpoint.serialize, DTN.serialize.
    case_match; wf_seq; simpl; unfold u64_ok; split_and?; done || lia.
  - intros [??]. unfold Endpoint.serialize, IPN.serialize. simpl IPN.node. simpl IPN.service.
    wf_seq; [unfold item_wf, u64_ok; lia|]. apply item_wf_map. split; [simpl; lia|].
    assert (item_wf (Text (str "node")) ∧ item_wf (Text (str "service"))) as [??].
    { split; (split; [by apply bytes_okb_spec|split; [done|]]); vm_compute; done. }
    by repeat (first [apply Forall_cons_2 | apply Forall_nil_2]).
Qed.

Lemma endpoint_de_not_panic v : Endpoint.deserialize v ≠ Panic.
Proof.
  assert (∀ v, DTN.deserialize v ≠ Panic) as Hd by (intros []; simpl; try done; by case_match).
  assert (∀ kvs n s, IPN.visit_map kvs n s ≠ Panic) as Hm.
  { induction kvs as [|[k x] kvs IH]; intros n s; simpl; [by destruct n, s|].
    apply bind_not_Panic; [by destruct k|]. intros i _.
    repeat case_match; try done; try (apply bind_not_Panic; [by destruct x|]); naive_solver. }
  assert (∀ v, IPN.deserialize v ≠ Panic) as Hi.
  { intros []; try done; [|apply Hm]. unfold IPN.deserialize, IPN.visit_seq.
    no_panic; auto with dtn.
    }
  unfold Endpoint.deserialize, Endpoint.visit_seq. no_panic.
  - auto with dtn.
  - by repeat case_match.
  - case_match; no_panic; auto.
Qed.

Lemma new_dtn rest :
  Endpoint.new (str "dtn:" ++ rest) = EDTN <$> DTN.from_str rest.
Proof.
  unfold Endpoint.new. change (str "dtn:" ++ rest) with (str "dtn" ++ 58 :: rest).
  rewrite split_once_app; [done|]. vm_compute. intros H.
  repeat (apply elem_of_cons in H as [H|H]; [done|]). by apply elem_of_nil in H.
Qed.

Lemma new_ipn rest :
  Endpoint.new (str "ipn:" ++ rest) = EIPN <$> IPN.from_str rest.
Proof.
  unfold Endpoint.new. change (str "ipn:" ++ rest) with (str "ipn" ++ 58 :: rest).
  rewrite split_once_app; [done|]. vm_compute. intros H.
  repeat (apply elem_of_cons in H as [H|H]; [done|]). by apply elem_of_nil in H.
Qed.

(** Endpoint identifiers print and parse: for every DTN endpoint that is valid
    and not the null endpoint, [Endpoint::new] of its display form is the
    endpoint itself; and whatever DTN endpoint [Endpoint::new] returns displays
    as the parsed text. *)
Theorem dtn_endpoint_print_parse :
  (∀ e, node_endpoint_ok (EDTN e) → Endpoint.new (Endpoint.fmt (EDTN e)) = Some (EDTN e)) ∧
  (∀ u e, Endpoint.new u = Some (EDTN e) → Endpoint.fmt (EDTN e) = u).
Proof.
  split.
  - intros e He. destruct (node_endpoint_ok_dtn e He) as (rest & -> & _).
    unfold Endpoint.fmt, DTN.fmt. rewrite new_dtn. unfold DTN.from_str.
    cbn [DTN.uri]. by rewrite starts_with_app.
  - intros u e. unfold Endpoint.new.
    destruct (split_once 58 u) as [[sch rest]|] eqn:Hs; [|done]. ored.
    apply split_once_Some in Hs as [-> _].
    case_decide as Hd; [|case_decide; [destruct (IPN.from_str rest)|]; done]. subst sch.
    unfold DTN.from_str. destruct (starts_with (str "//") rest); [|done].
    ored. intros [= <-]. reflexivity.
Qed.

(** The printed form of an IPN endpoint is never accepted by [Endpoint::new]:
    the scheme is split off twice, so only ["ipn:ipn:n.s"] parses. *)
Theorem ipn_endpoint_never_parses (e : IPN.IPNEndpoint) :
  u64_ok (IPN.node e) → u64_ok (IPN.service e) →
  Endpoint.new (Endpoint.fmt (EIPN e)) = None ∧
  Endpoint.new (str "ipn:" ++ Endpoint.fmt (EIPN e)) = Some (EIPN e).
Proof.
  intros Hn Hs. unfold Endpoint.fmt, IPN.fmt. rewrite !new_ipn. split.
  - unfold IPN.from_str.
    assert (split_once 58 (display_u64 (IPN.node e) ++ str "." ++ display_u64 (IPN.service e)) = None) as ->;
      [|done].
    apply split_once_None. unfold u64_ok in *. rewrite !elem_of_app. intros [H|[H|H]].
    + revert H. apply display_u64_not_elem; [lia|done].
    + vm_compute in H. apply elem_of_cons in H as [H|H]; [done|by apply elem_of_nil in H].
    + revert H. apply display_u64_not_elem; [lia|done].
  - unfold IPN.from_str. change (str "ipn:" ++ ?x) with (str "ipn" ++ 58 :: x).
    rewrite split_once_app.
    2: { vm_compute. intros H. repeat (apply elem_of_cons in H as [H|H]; [done|]). by apply elem_of_nil in H. }
    ored. rewrite decide_True by done. change (str "." ++ ?x) with (46 :: x).
    rewrite split_once_app by (apply display_u64_not_elem; [apply Hn|done]).
    ored. rewrite !parse_display_u64 by done. by destruct e.
Qed.

Lemma ipn_endpoint_never_parses_witness :
  Endpoint.new (str "ipn:23.42") = None ∧
  Endpoint.new (str "ipn:ipn:23.42") = Some (EIPN {| IPN.node := 23; IPN.service := 42 |}).
Proof.
  apply (ipn_endpoint_never_parses {| IPN.node := 23; IPN.service := 42 |});
    unfold u64_ok; simpl; lia.
Defined.
