(* ===== verification/PrimaryBlock.v ===== *)
(** * The primary block ([bp7/src/primaryblock.rs]) *)
From S2P Require Import Prelude RustStr Cbor CborRfc Flags CrcTime Endpoint.
Import Crc Time.

Record PrimaryBlock := {
  version : Z;
  bundle_processing_flags : Z;
  crc : CRCType;
  destination_endpoint : Endpoint;
  source_node : Endpoint;
  report_to : Endpoint;
  creation_timestamp : CreationTimestamp;
  lifetime : Z;
  fragment_offset : option Z;
  total_data_length : option Z;
}.

#[export] Instance PrimaryBlock_eq_dec : EqDecision PrimaryBlock.
Proof. solve_decision. Defined.

(** Struct updates [PrimaryBlock { field: .., ..self }]. *)
Definition with_fragment (flags : Z) (off len : option Z) (pb : PrimaryBlock) : PrimaryBlock :=
  {| version := version pb;
     bundle_processing_flags := flags;
     crc := crc pb;
     destination_endpoint := destination_endpoint pb;
     source_node := source_node pb;
     report_to := report_to pb;
     creation_timestamp := creation_timestamp pb;
     lifetime := lifetime pb;
     fragment_offset := off;
     total_data_length := len |}.

Definition is_none {A} (o : option A) : bool := match o with None => true | _ => false end.
Definition is_some {A} (o : option A) : bool := match o with Some _ => true | _ => false end.
Definition no_crc (c : CRCType) : bool := bool_decide (c = NoCRC).

Module Primary.
(** The eight elements every primary block has. *)
Definition fields (pb : PrimaryBlock) : list item :=
  [Uint (version pb);
   BundleFlags.serialize (bundle_processing_flags pb);
   Crc.serialize (crc pb);
   Endpoint.serialize (destination_endpoint pb);
   Endpoint.serialize (source_node pb);
   Endpoint.serialize (report_to pb);
   Time.serialize (creation_timestamp pb);
   Uint (lifetime pb)].

(** [impl Serialize for PrimaryBlock] *)
Definition serialize (pb : PrimaryBlock) : serde item :=
  let len :=
    if no_crc (crc pb) && is_none (fragment_offset pb) then 8
    else if negb (no_crc (crc pb)) && is_none (fragment_offset pb) then 9
    else if no_crc (crc pb) && is_some (fragment_offset pb) then 10
    else 11 in
  frag ← (if is_some (fragment_offset pb) then
            off ← unwrap (fragment_offset pb);
            tot ← unwrap (total_data_length pb);
            Ok [Uint off; Uint tot]
          else Ok []);
  sum ← (if no_crc (crc pb) then Ok [] else
           x ← Crc.serialize_value (crc pb); Ok [x]);
  Ok (Arr (Some len) (fields pb ++ frag ++ sum)).

(** [PrimaryBlockVisitor::visit_seq] *)
Definition visit_seq (hint : option Z) (seq : list item) : serde (PrimaryBlock * list item) :=
  size ← unwrap hint;
  if negb ((8 <=? size) && (size <=? 11)) then Err (EInvalidLength size) else
  '(version, seq) ← next_field "Error for field 'version'" de_u64 seq;
  '(flags, seq) ← next_field "Error for field 'bundle_processing_flags'" BundleFlags.deserialize seq;
  '(crc, seq) ← next_field "Error for field 'crc_type'" Crc.deserialize seq;
  '(dest, seq) ← next_field "Error for field 'destination_endpoint'" Endpoint.deserialize seq;
  '(src, seq) ← next_field "Error for field 'source_node'" Endpoint.deserialize seq;
  '(rep, seq) ← next_field "Error for field 'report_to'" Endpoint.deserialize seq;
  '(ts, seq) ← next_field "Error for field 'creation_timestamp'" Time.deserialize seq;
  '(lt, seq) ← next_field "Error for field 'lifetime'" de_u64 seq;
  '(frag, seq) ←
    (if (size =? 10) || (size =? 11) then
       '(off, seq) ← next_field "Error for field 'fragment_offset'" de_u64 seq;
       '(tot, seq) ← next_field "Error for field 'total_data_length'" de_u64 seq;
       Ok ((Some off, Some tot), seq)
     else Ok ((None, None), seq));
  '(crc, seq) ←
    (if (size =? 9) || (size =? 11) then Crc.deserialize_value crc seq else Ok (crc, seq));
  Ok ({| version := version;
         bundle_processing_flags := flags;
         crc := crc;
         destination_endpoint := dest;
         source_node := src;
         report_to := rep;
         creation_timestamp := ts;
         lifetime := lt;
         fragment_offset := frag.1;
         total_data_length := frag.2 |}, seq).

Definition deserialize : item → serde PrimaryBlock := deserialize_seq visit_seq.

(** [impl Validate for PrimaryBlock] *)
Definition validate (pb : PrimaryBlock) : bool :=
  if negb (version pb =? 7) then false
  else if negb (Bool.eqb (is_some (fragment_offset pb)) (is_some (total_data_length pb))) then false
  else if negb (Endpoint.validate (source_node pb)) then false
  else if negb (Endpoint.validate (destination_endpoint pb)) then false
  else if negb (Endpoint.validate (report_to pb)) then false
  else true.

Definition equals_ignoring_fragment_offset (self other : PrimaryBlock) : bool :=
  bool_decide
    (with_fragment (bundle_processing_flags self) None (total_data_length self) self =
     with_fragment (bundle_processing_flags other) None (total_data_length other) other).

Definition equals_ignoring_fragment_info (self other : PrimaryBlock) : bool :=
  bool_decide
    (with_fragment (bundle_processing_flags self) None None self =
     with_fragment (bundle_processing_flags other) None None other).

(** What the Rust types guarantee, and that a fragment carries both of its
    fields. *)
Definition ok (pb : PrimaryBlock) : Prop :=
  u64_ok (version pb) ∧ BundleFlags.ok (bundle_processing_flags pb) ∧ Crc.ok (crc pb) ∧
  Endpoint.ok (destination_endpoint pb) ∧ Endpoint.ok (source_node pb) ∧
  Endpoint.ok (report_to pb) ∧ Time.ok (creation_timestamp pb) ∧ u64_ok (lifetime pb) ∧
  match fragment_offset pb, total_data_length pb with
  | Some off, Some tot => u64_ok off ∧ u64_ok tot
  | None, None => True
  | _, _ => False
  end.

Lemma fields_wf pb : ok pb → Forall item_wf (fields pb).
Proof.
  intros (?&?&Hc&?&?&?&?&?&_). unfold fields.
  assert (item_wf (BundleFlags.serialize (bundle_processing_flags pb))) by (simpl; auto with dtn).
  repeat (first [apply Forall_cons_2 | apply Forall_nil_2]); auto using Crc.crc_serialize_wf,
    Time.time_serialize_wf, endpoint_serialize_wf.
Qed.

(** The announced array length is the number of elements written. *)
Lemma primary_serialize_wf pb : ok pb → ∃ v, serialize pb = Ok v ∧ item_wf v.
Proof.
  intros Hok. pose proof (fields_wf pb Hok) as Hfs.
  pose proof Hok as (_&_&Hc&_&_&_&_&_&Hf). unfold serialize, no_crc.
  assert (Forall item_wf (match fragment_offset pb, total_data_length pb with
    Some a, Some b => [Uint a; Uint b] | _, _ => [] end)) as Hfw.
  { destruct (fragment_offset pb), (total_data_length pb); try constructor; try done.
    - apply Hf.
    - apply Forall_singleton. apply Hf. }
  destruct (decide (crc pb = NoCRC)) as [Hn|Hn].
  - rewrite bool_decide_eq_true_2 by done.
    destruct (fragment_offset pb), (total_data_length pb); try done; ored; eexists;
      (split; [reflexivity|]); apply item_wf_arr; (split; [simpl; lia|]);
      rewrite !Forall_app; split_and!; done.
  - rewrite bool_decide_eq_false_2 by done.
    assert (∃ x, Crc.serialize_value (crc pb) = Ok x ∧ item_wf x) as (x & Hx & ?).
    { destruct (crc pb); [done|..]; eexists; (split; [reflexivity|]); by eapply Crc.serialize_value_wf. }
    rewrite Hx. destruct (fragment_offset pb), (total_data_length pb); try done; ored; eexists;
      (split; [reflexivity|]); apply item_wf_arr; (split; [simpl; lia|]);
      rewrite !Forall_app, ?Forall_singleton; done.
Qed.

(** The first eight elements of a serialized block are read back. *)
Lemma visit_fields pb size rest :
  ok pb → 8 ≤ size ≤ 11 →
  visit_seq (Some size) (fields pb ++ rest) =
  ('(frag, seq) ←
    (if (size =? 10) || (size =? 11) then
       '(off, seq) ← next_field "Error for field 'fragment_offset'" de_u64 rest;
       '(tot, seq) ← next_field "Error for field 'total_data_length'" de_u64 seq;
       Ok ((Some off, Some tot), seq)
     else Ok ((None, None), rest));
   '(c, seq) ←
    (if (size =? 9) || (size =? 11) then
       Crc.deserialize_value
         match crc pb with NoCRC => NoCRC | CRC16 _ _ => CRC16 0 0 | CRC32 _ _ _ _ => CRC32 0 0 0 0 end
         seq
     else Ok (match crc pb with NoCRC => NoCRC | CRC16 _ _ => CRC16 0 0 | CRC32 _ _ _ _ => CRC32 0 0 0 0 end, seq));
   Ok ({| version := version pb; bundle_processing_flags := bundle_processing_flags pb;
          crc := c; destination_endpoint := destination_endpoint pb;
          source_node := source_node pb; report_to := report_to pb;
          creation_timestamp := creation_timestamp pb; lifetime := lifetime pb;
          fragment_offset := frag.1; total_data_length := frag.2 |}, seq)).
Proof.
  intros (_&Hfl&_) Hsize. unfold visit_seq. ored.
  assert (negb ((8 <=? size) && (size <=? 11)) = false) as -> by lia.
  unfold fields. cbn [app]. rewrite next_field_u64. ored.
  rewrite (next_field_cons _ _ _ _ _ (bundle_flags_de_ser _ Hfl)). ored.
  rewrite (next_field_cons _ _ _ _ _ (Crc.crc_deserialize_serialize (crc pb))). ored.
  rewrite !(next_field_cons _ _ _ _ _ (endpoint_deserialize_serialize _)). ored.
  rewrite !(next_field_cons _ _ _ _ _ (endpoint_deserialize_serialize _)). ored.
  rewrite !(next_field_cons _ _ _ _ _ (endpoint_deserialize_serialize _)). ored.
  rewrite (next_field_cons _ _ _ _ _ (Time.time_deserialize_serialize _)). ored.
  by rewrite next_field_u64.
Qed.

Lemma primary_deserialize_serialize pb v :
  ok pb → crc pb = NoCRC → serialize pb = Ok v → deserialize v = Ok pb.
Proof.
  intros Hok Hc Hv. pose proof (visit_fields pb) as Hvis.
  pose proof Hok as (_&_&_&_&_&_&_&_&Hf).
  unfold serialize, no_crc in Hv. rewrite Hc in *. rewrite bool_decide_eq_true_2 in Hv by done.
  destruct (fragment_offset pb) as [off|] eqn:Ho, (total_data_length pb) as [tot|] eqn:Ht; try done.
  - assert (v = Arr (Some 10) (fields pb ++ [Uint off; Uint tot] ++ [])) as -> by (by injection Hv).
    unfold deserialize, deserialize_seq. rewrite Hvis by (done || lia).
    destruct pb; simpl in *; by simplify_eq.
  - assert (v = Arr (Some 8) (fields pb ++ [] ++ [])) as -> by (by injection Hv).
    unfold deserialize, deserialize_seq. rewrite Hvis by (done || lia).
    destruct pb; simpl in *; by simplify_eq.
Qed.

(** A block with a checksum is serialized, but reading it back fails: the
    checksum is written as an array and read as a byte string. *)
Lemma deserialize_serialize_crc pb v :
  ok pb → crc pb ≠ NoCRC → serialize pb = Ok v → deserialize v = Err EInvalidType.
Proof.
  intros Hok Hc Hv. pose proof (visit_fields pb) as Hvis.
  pose proof Hok as (_&_&_&_&_&_&_&_&Hf).
  unfold serialize, no_crc in Hv. rewrite bool_decide_eq_false_2 in Hv by done.
  destruct (Crc.serialize_value (crc pb)) as [x| |] eqn:Hx; [|by destruct (crc pb)..].
  assert (∀ c' seq, c' ≠ NoCRC → Crc.deserialize_value c' (x :: seq) = Err EInvalidType) as Hrej.
  { intros. by eapply Crc.value_rejected. }
  destruct (fragment_offset pb) as [off|] eqn:Ho, (total_data_length pb) as [tot|] eqn:Ht; try done.
  - assert (v = Arr (Some 11) (fields pb ++ [Uint off; Uint tot] ++ [x])) as -> by (by injection Hv).
    unfold deserialize, deserialize_seq. rewrite Hvis by (done || lia).
    simpl. by rewrite Hrej by (by destruct (crc pb)).
  - assert (v = Arr (Some 9) (fields pb ++ [] ++ [x])) as -> by (by injection Hv).
    unfold deserialize, deserialize_seq. rewrite Hvis by (done || lia).
    simpl. by rewrite Hrej by (by destruct (crc pb)).
Qed.
End Primary.
