(* ===== verification/Block.v ===== *)
(** * Canonical blocks ([bp7/src/block/])

    The block-type-specific data of the previous node, bundle age and hop count
    blocks is itself a CBOR item inside a byte string, so serializing a block
    calls [serde_cbor] again: everything here is over an arbitrary [SerdeCbor]. *)
From S2P Require Import Prelude RustStr Cbor CborRfc Flags CrcTime Endpoint PrimaryBlock.
Import Crc.

Record PayloadBlock := { data : bytes }.
Record PreviousNodeBlock := { previous_node : Endpoint }.
Record BundleAgeBlock := { age : Z }.
Record HopCountBlock := { limit : Z; count : Z }.
Record UnkownBlock := { unkown_type : Z; unkown_data : bytes }.

Inductive Block :=
| Payload (b : PayloadBlock)
| PreviousNode (b : PreviousNodeBlock)
| BundleAge (b : BundleAgeBlock)
| HopCount (b : HopCountBlock)
| Unkown (b : UnkownBlock).

Record CanonicalBlock := {
  block : Block;
  block_number : Z;
  block_flags : Z;
  block_crc : CRCType;
}.

#[export] Instance PayloadBlock_eq_dec : EqDecision PayloadBlock.
Proof. solve_decision. Defined.
#[export] Instance PreviousNodeBlock_eq_dec : EqDecision PreviousNodeBlock.
Proof. solve_decision. Defined.
#[export] Instance BundleAgeBlock_eq_dec : EqDecision BundleAgeBlock.
Proof. solve_decision. Defined.
#[export] Instance HopCountBlock_eq_dec : EqDecision HopCountBlock.
Proof. solve_decision. Defined.
#[export] Instance UnkownBlock_eq_dec : EqDecision UnkownBlock.
Proof. solve_decision. Defined.
#[export] Instance Block_eq_dec : EqDecision Block.
Proof. solve_decision. Defined.
#[export] Instance CanonicalBlock_eq_dec : EqDecision CanonicalBlock.
Proof. solve_decision. Defined.

Definition is_payload (b : Block) : bool := match b with Payload _ => true | _ => false end.

(** [impl Clone for Block]: cloning a payload block panics. *)
Definition clone_block {E} (b : Block) : outcome E Block :=
  match b with Payload _ => Panic | b => Ok b end.

Definition clone_canonical {E} (b : CanonicalBlock) : outcome E CanonicalBlock :=
  blk ← clone_block (block b);
  Ok {| block := blk; block_number := block_number b;
        block_flags := block_flags b; block_crc := block_crc b |}.

(** [BlockType] *)
Inductive BlockType := TPayload | TPreviousNode | TBundleAge | THopCount.

Definition block_type_num (t : BlockType) : Z :=
  match t with TPayload => 1 | TPreviousNode => 6 | TBundleAge => 7 | THopCount => 10 end.

(** [BlockType::try_from] *)
Definition block_type_of (n : Z) : option BlockType :=
  if n =? 1 then Some TPayload else if n =? 6 then Some TPreviousNode
  else if n =? 7 then Some TBundleAge else if n =? 10 then Some THopCount else None.

Section cbor.
Context `{!SerdeCbor}.

(** ** Block-type-specific data *)

Definition serialize_payload (b : PayloadBlock) : item := Bytes (data b).
Definition serialize_unkown (b : UnkownBlock) : item := Bytes (unkown_data b).

Definition serialize_previous_node (b : PreviousNodeBlock) : item :=
  Bytes (to_vec (Endpoint.serialize (previous_node b))).

Definition deserialize_previous_node (v : item) : serde PreviousNodeBlock :=
  e ← Endpoint.deserialize v; Ok {| previous_node := e |}.

Definition serialize_bundle_age (b : BundleAgeBlock) : item := Bytes (to_vec (Uint (age b))).

Definition deserialize_bundle_age (v : item) : serde BundleAgeBlock :=
  n ← de_u64 v; Ok {| age := n |}.

Definition serialize_hop_count (b : HopCountBlock) : item :=
  Bytes (to_vec (Arr (Some 2) [Uint (limit b); Uint (count b)])).

Definition visit_hop_count (hint : option Z) (seq : list item)
    : serde (HopCountBlock * list item) :=
  size ← ok_or hint (ECustom "Hop Count Block must know the length of its contents");
  if negb (size =? 2) then Err (EInvalidLength size) else
  '(l, seq) ← next_field "Error for field 'limit'" de_u8 seq;
  '(c, seq) ← next_field "Error for field 'count'" de_u8 seq;
  Ok ({| limit := l; count := c |}, seq).

Definition deserialize_hop_count : item → serde HopCountBlock :=
  deserialize_seq visit_hop_count.

(** ** [impl Serialize for CanonicalBlock] *)

Definition block_data (b : Block) : Z * item :=
  match b with
  | Payload b => (block_type_num TPayload, serialize_payload b)
  | PreviousNode b => (block_type_num TPreviousNode, serialize_previous_node b)
  | BundleAge b => (block_type_num TBundleAge, serialize_bundle_age b)
  | HopCount b => (block_type_num THopCount, serialize_hop_count b)
  | Unkown b => (unkown_type b, serialize_unkown b)
  end.

Definition serialize_block (b : CanonicalBlock) : serde item :=
  let len := if no_crc (block_crc b) then 5 else 6 in
  let '(blocktype, content) := block_data (block b) in
  sum ← (if no_crc (block_crc b) then Ok [] else
           x ← Crc.serialize_value (block_crc b); Ok [x]);
  Ok (Arr (Some len)
        ([Uint blocktype;
          Uint (block_number b);
          BlockFlags.serialize (block_flags b);
          Crc.serialize (block_crc b);
          content] ++ sum)).

(** ** [BlockVisitor::visit_seq] *)

(** [PreviousNodeBlock::try_from(data)] and the like: [from_slice], its error
    wrapped by [Error::custom]. *)
Definition inner {A} (de : item → serde A) (bs : bytes) : serde A :=
  match from_slice_with de bs with
  | Err _ => Err (ECustom "inner")
  | r => r
  end.

Definition read_block (num : Z) (bs : bytes) : serde Block :=
  match block_type_of num with
  | Some TPayload => Ok (Payload {| data := bs |})
  | Some TPreviousNode => PreviousNode <$> inner deserialize_previous_node bs
  | Some TBundleAge => BundleAge <$> inner deserialize_bundle_age bs
  | Some THopCount => HopCount <$> inner deserialize_hop_count bs
  | None => Ok (Unkown {| unkown_type := num; unkown_data := bs |})
  end.

Definition visit_block (hint : option Z) (seq : list item)
    : serde (CanonicalBlock * list item) :=
  size ← ok_or hint (ECustom "Canonical Block must know the length of its contents");
  if negb ((5 <=? size) && (size <=? 6)) then Err (EInvalidLength size) else
  '(block_type_num, seq) ← next_field "Error for field 'block_type'" de_u64 seq;
  '(number, seq) ← next_field "Error for field 'block_number'" de_u64 seq;
  '(flags, seq) ← next_field "Error for field 'block_flags'" BlockFlags.deserialize seq;
  '(crc, seq) ← next_field "Error for field 'crc_type'" Crc.deserialize seq;
  '(data_bytes, seq) ← next_field "Error for field 'data'" de_bytes seq;
  blk ← read_block block_type_num data_bytes;
  '(crc, seq) ←
    (if size =? 6 then Crc.deserialize_value crc seq else Ok (crc, seq));
  Ok ({| block := blk; block_number := number; block_flags := flags; block_crc := crc |}, seq).

Definition deserialize_block : item → serde CanonicalBlock := deserialize_seq visit_block.

(** [impl Validate for CanonicalBlock]: not implemented yet in the source. *)
Definition validate_block (_ : CanonicalBlock) : bool := true.
End cbor.

(** What the Rust types guarantee of a block; an unknown block has a type
    number of its own. *)
Definition block_ok (b : Block) : Prop :=
  match b with
  | Payload b => bytes_ok (data b) ∧ zlen (data b) < 2 ^ 63
  | PreviousNode b => Endpoint.ok (previous_node b)
  | BundleAge b => u64_ok (age b)
  | HopCount b => u8_ok (limit b) ∧ u8_ok (count b)
  | Unkown b =>
      u64_ok (unkown_type b) ∧ block_type_of (unkown_type b) = None ∧
      bytes_ok (unkown_data b) ∧ zlen (unkown_data b) < 2 ^ 63
  end.

Definition canonical_ok (b : CanonicalBlock) : Prop :=
  block_ok (block b) ∧ u64_ok (block_number b) ∧ BlockFlags.ok (block_flags b) ∧
  Crc.ok (block_crc b).

Section lemmas.
Context `{!SerdeCbor, !SerdeCborLaws}.

Lemma endpoint_size_bound e : Endpoint.ok e → item_size (Endpoint.serialize e) < 2 ^ 63 + 64.
Proof.
  destruct e as [[u]|[n s]]; simpl Endpoint.ok.
  - intros (_&_&?). unfold Endpoint.serialize, DTN.serialize. simpl DTN.uri.
    pose proof (head_size_bound (zlen u)). pose proof (head_size_bound 0).
    pose proof (head_size_bound 1). pose proof (head_size_bound 2).
    case_match; cbn [item_size fold_right]; lia.
  - intros [??]. unfold Endpoint.serialize, IPN.serialize. cbn [IPN.node IPN.service].
    pose proof (head_size_bound n). pose proof (head_size_bound s).
    cbn [item_size fold_right length].
    change (zlen (str "node")) with 4. change (zlen (str "service")) with 7.
    change (Z.of_nat 2) with 2.
    rewrite !(head_size_small 4), !(head_size_small 7), !(head_size_small 2) by lia. lia.
Qed.

(** The content of every block is a byte string that can be written. *)
Lemma block_data_ok b : block_ok b →
  u64_ok (block_data b).1 ∧
  ∃ bs, (block_data b).2 = Bytes bs ∧ bytes_ok bs ∧ zlen bs < 2 ^ 64.
Proof.
  assert (∀ v, item_wf v → item_size v < 2 ^ 63 + 64 →
    bytes_ok (to_vec v) ∧ zlen (to_vec v) < 2 ^ 64) as Hv.
  { intros v Hw Hs. split; [by apply to_vec_bytes_ok|]. rewrite length_to_vec by done. lia. }
  destruct b as [b|b|b|b|b]; intros Hb; simpl in Hb |- *;
    (split; [unfold block_type_num, u64_ok; try lia; apply Hb|]); eexists; (split; [reflexivity|]).
  - split; [apply Hb|]. destruct Hb. lia.
  - apply Hv; [by apply endpoint_serialize_wf|by apply endpoint_size_bound].
  - apply Hv; [done|]. simpl. pose proof (head_size_bound (age b)). lia.
  - unfold u8_ok in Hb. apply Hv; [wf_seq; simpl; unfold u64_ok; lia|].
    simpl. pose proof (head_size_bound (limit b)). pose proof (head_size_bound (count b)).
    rewrite (head_size_small 2) by lia. lia.
  - destruct Hb as (?&?&?&?). split; [done|lia].
Qed.

Lemma serialize_block_wf b : canonical_ok b → ∃ v, serialize_block b = Ok v ∧ item_wf v.
Proof.
  intros (Hb & Hn & Hf & Hc). destruct (block_data_ok (block b) Hb) as (Ht & bs & Hd & Hbs & Hl).
  unfold serialize_block. destruct (block_data (block b)) as [t content]. simpl in Hd, Ht. subst content.
  assert (item_wf (BlockFlags.serialize (block_flags b))) by (simpl; auto with dtn).
  assert (item_wf (Bytes bs)) by done. pose proof (Crc.crc_serialize_wf (block_crc b)).
  unfold no_crc. destruct (decide (block_crc b = NoCRC)).
  - rewrite bool_decide_eq_true_2 by done. ored. eexists. split; [reflexivity|]. by wf_seq.
  - rewrite bool_decide_eq_false_2 by done.
    assert (∃ x, Crc.serialize_value (block_crc b) = Ok x ∧ item_wf x) as (x & Hx & ?).
    { destruct (block_crc b); [done|..]; eexists; (split; [reflexivity|]); by eapply Crc.serialize_value_wf. }
    rewrite Hx. ored. eexists. split; [reflexivity|]. by wf_seq.
Qed.

Lemma inner_to_vec {A} (de : item → serde A) v a :
  item_wf v → de v = Ok a → inner de (to_vec v) = Ok a.
Proof. intros Hv Hd. unfold inner. rewrite from_slice_with_to_vec by done. by rewrite Hd. Qed.

(** Reading the content of a block gives the block back. *)
Lemma read_block_data b bs : block_ok b →
  (block_data b).2 = Bytes bs → read_block (block_data b).1 bs = Ok b.
Proof.
  destruct b as [[d]|[e]|[a]|[l c]|[t d]]; intros Hb [= <-]; simpl; try done.
  - unfold read_block. simpl. rewrite (inner_to_vec _ _ {| previous_node := e |}); [done| |].
    + by apply endpoint_serialize_wf.
    + unfold deserialize_previous_node. by rewrite endpoint_deserialize_serialize.
  - unfold read_block. simpl. rewrite (inner_to_vec _ _ {| age := a |}); [done|apply Hb|done].
  - unfold read_block. simpl. simpl in Hb. unfold u8_ok in Hb.
    rewrite (inner_to_vec _ _ {| limit := l; count := c |}); [done| |].
    + wf_seq; simpl; unfold u64_ok; lia.
    + unfold deserialize_hop_count, deserialize_seq, visit_hop_count, next_field. simpl.
      destruct (Z.ltb_spec l 256); [|lia]. simpl. destruct (Z.ltb_spec c 256); [done|lia].
  - unfold read_block. destruct Hb as (_ & Ht & _). simpl in Ht. by rewrite Ht.
Qed.

Lemma deserialize_serialize_block b v :
  canonical_ok b → block_crc b = NoCRC → serialize_block b = Ok v → deserialize_block v = Ok b.
Proof.
  intros (Hb & _ & Hf & _) Hc Hv. destruct (block_data_ok (block b) Hb) as (_ & bs & Hd & _).
  pose proof (read_block_data (block b) bs Hb Hd) as Hr.
  unfold serialize_block in Hv. rewrite Hc in Hv. change (no_crc NoCRC) with true in Hv.
  destruct (block_data (block b)) as [t content]. simpl in Hd, Hr. subst content.
  assert (v = Arr (Some 5) [Uint t; Uint (block_number b); BlockFlags.serialize (block_flags b);
    Crc.serialize NoCRC; Bytes bs]) as -> by (by injection Hv).
  unfold deserialize_block, deserialize_seq, visit_block. ored.
  change (negb ((5 <=? 5) && (5 <=? 6))) with false. cbv iota.
  rewrite next_field_u64. ored. rewrite next_field_u64. ored.
  rewrite (next_field_cons _ _ _ _ _ (block_flags_de_ser _ Hf)). ored.
  rewrite (next_field_cons _ _ _ _ _ (Crc.crc_deserialize_serialize NoCRC)). ored.
  rewrite (next_field_cons _ de_bytes (Bytes bs) _ bs) by done. ored. rewrite Hr. ored.
  change (5 =? 6) with false. cbv iota. destruct b; simpl in *; by subst.
Qed.
End lemmas.
