(* ===== verification/Bundle.v ===== *)
(** * Bundles ([bp7/src/bundle.rs], all but fragmentation) *)
From S2P Require Import Prelude RustStr Cbor CborRfc Flags CrcTime Endpoint PrimaryBlock Block.
Import Crc Time.

Record Bundle := {
  primary_block : PrimaryBlock;
  blocks : list CanonicalBlock;
}.

#[export] Instance Bundle_eq_dec : EqDecision Bundle.
Proof. solve_decision. Defined.

Section bundle.
Context `{!SerdeCbor}.

(** [for block in &self.blocks { seq.serialize_element(&block)?; }] *)
Fixpoint serialize_blocks (bs : list CanonicalBlock) : serde (list item) :=
  match bs with
  | [] => Ok []
  | b :: bs => v ← serialize_block b; vs ← serialize_blocks bs; Ok (v :: vs)
  end.

(** [impl Serialize for Bundle]: an indefinite-length array. *)
Definition serialize_bundle (b : Bundle) : serde item :=
  p ← Primary.serialize (primary_block b);
  vs ← serialize_blocks (blocks b);
  Ok (Arr None (p :: vs)).

(** [while let Some(block) = seq.next_element()? { blocks.push(block); }] *)
Fixpoint visit_blocks (seq : list item) : serde (list CanonicalBlock) :=
  match seq with
  | [] => Ok []
  | v :: seq => b ← deserialize_block v; bs ← visit_blocks seq; Ok (b :: bs)
  end.

(** [BundleVisitor::visit_seq] *)
Definition visit_bundle (_ : option Z) (seq : list item) : serde (Bundle * list item) :=
  '(p, seq) ← next_field "Error for field 'primary_block'" Primary.deserialize seq;
  bs ← visit_blocks seq;
  match bs with
  | [] => Err (EInvalidLength 0)
  | _ => Ok ({| primary_block := p; blocks := bs |}, [])
  end.

Definition deserialize_bundle : item → serde Bundle := deserialize_seq visit_bundle.

(** [impl Validate for Bundle] *)
Fixpoint validate_blocks (bs : list CanonicalBlock) : bool :=
  match bs with
  | [] => true
  | b :: bs => if negb (validate_block b) then false else validate_blocks bs
  end.

Definition validate_bundle (b : Bundle) : bool :=
  if negb (Primary.validate (primary_block b)) then false else validate_blocks (blocks b).

(** [TryFrom<&[u8]> for Bundle] and [TryFrom<&Bundle> for Vec<u8>] *)
Definition bundle_of_bytes (bs : bytes) : serde Bundle := from_slice_with deserialize_bundle bs.

Definition bytes_of_bundle (b : Bundle) : serde bytes := to_vec <$> serialize_bundle b.

(** [Bundle::as_hex]: two upper-case hexadecimal digits per byte. *)
Definition hex_digit (d : Z) : Z := if d <? 10 then 48 + d else 55 + d.
Definition as_hex (b : Bundle) : serde bytes :=
  vec ← bytes_of_bundle b;
  Ok (concat (map (λ c, [hex_digit (c / 16); hex_digit (c mod 16)]) vec)).
End bundle.

(** ** Access to and update of blocks *)

(** [max + 1] over the block numbers, [1] for no blocks. *)
Definition next_block_number (b : Bundle) : Z :=
  wrap64 (fold_right Z.max 0 (map block_number (blocks b)) + 1).

Fixpoint find_payload (bs : list CanonicalBlock) : option CanonicalBlock :=
  match bs with
  | [] => None
  | b :: bs => if is_payload (block b) then Some b else find_payload bs
  end.

Definition payload_canonical_block {E} (b : Bundle) : outcome E CanonicalBlock :=
  unwrap (find_payload (blocks b)).

Definition payload_block {E} (b : Bundle) : outcome E PayloadBlock :=
  cb ← payload_canonical_block b;
  match block cb with Payload p => Ok p | _ => Panic end.

Definition with_block (blk : Block) (cb : CanonicalBlock) : CanonicalBlock :=
  {| block := blk; block_number := block_number cb;
     block_flags := block_flags cb; block_crc := block_crc cb |}.

(** The loop of [set_previous_node]: update the first previous node block. *)
Fixpoint update_previous_node (e : Endpoint) (bs : list CanonicalBlock)
    : option (list CanonicalBlock) :=
  match bs with
  | [] => None
  | b :: bs =>
      match block b with
      | PreviousNode _ => Some (with_block (PreviousNode {| previous_node := e |}) b :: bs)
      | _ => cons b <$> update_previous_node e bs
      end
  end.

Definition set_previous_node (e : Endpoint) (b : Bundle) : Bundle :=
  match update_previous_node e (blocks b) with
  | Some bs => {| primary_block := primary_block b; blocks := bs |}
  | None =>
      {| primary_block := primary_block b;
         blocks := blocks b ++
           [{| block := PreviousNode {| previous_node := e |};
               block_number := next_block_number b;
               block_flags := BlockFlags.empty;
               block_crc := NoCRC |}] |}
  end.

(** The loop of [inc_hop_count]: the first hop count block is incremented (the
    [u8] wraps in a release build); the result is [count <= limit]. *)
Fixpoint update_hop_count (bs : list CanonicalBlock) : option (bool * list CanonicalBlock) :=
  match bs with
  | [] => None
  | b :: bs =>
      match block b with
      | HopCount v =>
          let c := wrap8 (count v + 1) in
          Some (c <=? limit v,
                with_block (HopCount {| limit := limit v; count := c |}) b :: bs)
      | _ => '(r, bs) ← update_hop_count bs; Some (r, b :: bs)
      end
  end.

Definition inc_hop_count (hop_limit : Z) (b : Bundle) : bool * Bundle :=
  match update_hop_count (blocks b) with
  | Some (r, bs) => (r, {| primary_block := primary_block b; blocks := bs |})
  | None =>
      (true,
       {| primary_block := primary_block b;
          blocks := blocks b ++
            [{| block := HopCount {| limit := hop_limit; count := 0 |};
                block_number := next_block_number b;
                block_flags := BlockFlags.empty;
                block_crc := NoCRC |}] |})
  end.

(** ** Well-formed bundles *)

Definition bundle_ok (b : Bundle) : Prop :=
  Primary.ok (primary_block b) ∧ Forall canonical_ok (blocks b) ∧ blocks b ≠ [].

Definition bundle_no_crc (b : Bundle) : Prop :=
  crc (primary_block b) = NoCRC ∧ Forall (λ cb, block_crc cb = NoCRC) (blocks b).

(** Block numbers identify blocks. *)
Definition block_numbers_unique (b : Bundle) : Prop := NoDup (map block_number (blocks b)).

Section lemmas.
Context `{!SerdeCbor, !SerdeCborLaws}.

Lemma serialize_blocks_wf bs : Forall canonical_ok bs →
  ∃ vs, serialize_blocks bs = Ok vs ∧ Forall item_wf vs ∧ length vs = length bs.
Proof.
  induction 1 as [|b bs Hb _ IH]; simpl; [by exists []|].
  destruct (serialize_block_wf b Hb) as (v & -> & Hv).
  destruct IH as (vs & -> & Hvs & Hl). ored. exists (v :: vs).
  split; [done|]. split; [by constructor|]. simpl. by rewrite Hl.
Qed.

Lemma serialize_bundle_wf b : bundle_ok b →
  ∃ p vs, Primary.serialize (primary_block b) = Ok p ∧ serialize_blocks (blocks b) = Ok vs ∧
    serialize_bundle b = Ok (Arr None (p :: vs)) ∧ item_wf (Arr None (p :: vs)).
Proof.
  intros (Hp & Hbs & _). destruct (Primary.primary_serialize_wf _ Hp) as (p & Ep & Hpw).
  destruct (serialize_blocks_wf _ Hbs) as (vs & Evs & Hvs & _).
  exists p, vs. unfold serialize_bundle. rewrite Ep, Evs. split_and!; try done.
  apply item_wf_arr. split; [done|]. by constructor.
Qed.

Lemma visit_serialize_blocks bs vs :
  Forall canonical_ok bs → Forall (λ cb, block_crc cb = NoCRC) bs →
  serialize_blocks bs = Ok vs → visit_blocks vs = Ok bs.
Proof.
  intros Hok. revert vs. induction Hok as [|b bs Hb _ IH]; intros vs Hn Hvs; simpl in Hvs.
  { by simplify_eq. }
  apply Forall_cons in Hn as [Hc Hn].
  apply bind_Ok in Hvs as (v & Ev & Hvs). apply bind_Ok in Hvs as (vs' & Evs & Hvs).
  simplify_eq. simpl. rewrite (deserialize_serialize_block b v) by done. ored.
  by rewrite (IH vs').
Qed.
End lemmas.

(** ** A bundle of the repository's serialization test *)

Module TestBundle.
Definition endpoint (s : string) : Endpoint := EDTN {| DTN.uri := str s |}.

Definition primary (flags : Z) : PrimaryBlock :=
  {| version := 7;
     bundle_processing_flags := flags;
     crc := NoCRC;
     destination_endpoint := endpoint "//node31/mavlink";
     source_node := endpoint "//node2/incoming";
     report_to := endpoint "//node2/incoming";
     creation_timestamp :=
       {| creation_time := {| timestamp := 681253789438 |}; sequence_number := 0 |};
     lifetime := 3600000;
     fragment_offset := None;
     total_data_length := None |}.

Definition bundle (payload : bytes) : Bundle :=
  {| primary_block := primary (Z.lor BundleFlags.MUST_NOT_FRAGMENT
                                 BundleFlags.BUNDLE_DELIVERY_STATUS_REQUESTED);
     blocks := [{| block := HopCount {| limit := 32; count := 0 |}; block_number := 2;
                   block_flags := BlockFlags.empty; block_crc := NoCRC |};
                {| block := Payload {| data := payload |}; block_number := 1;
                   block_flags := BlockFlags.empty; block_crc := NoCRC |}] |}.

(** The bytes [BUNDLE_SRC] of [bp7/tests/serialization_test.rs]. *)
Example test_rand_bundle_1 :
  bytes_of_bundle (bundle [67; 65; 66; 67]) = Ok
    [0x9F; 0x88; 0x07; 0x1A; 0x00; 0x02; 0x00; 0x04; 0x00; 0x82; 0x01; 0x70; 0x2F; 0x2F; 0x6E;
     0x6F; 0x64; 0x65; 0x33; 0x31; 0x2F; 0x6D; 0x61; 0x76; 0x6C; 0x69; 0x6E; 0x6B; 0x82; 0x01;
     0x70; 0x2F; 0x2F; 0x6E; 0x6F; 0x64; 0x65; 0x32; 0x2F; 0x69; 0x6E; 0x63; 0x6F; 0x6D; 0x69;
     0x6E; 0x67; 0x82; 0x01; 0x70; 0x2F; 0x2F; 0x6E; 0x6F; 0x64; 0x65; 0x32; 0x2F; 0x69; 0x6E;
     0x63; 0x6F; 0x6D; 0x69; 0x6E; 0x67; 0x82; 0x1B; 0x00; 0x00; 0x00; 0x9E; 0x9D; 0xE3; 0xDE;
     0xFE; 0x00; 0x1A; 0x00; 0x36; 0xEE; 0x80; 0x85; 0x0A; 0x02; 0x00; 0x00; 0x44; 0x82; 0x18;
     0x20; 0x00; 0x85; 0x01; 0x01; 0x00; 0x00; 0x44; 0x43; 0x41; 0x42; 0x43; 0xFF].
Proof. vm_compute. reflexivity. Qed.

Lemma bundle_ok_test : bundle_ok (bundle [67; 65; 66; 67]).
Proof. solve_ok. Qed.

(** The same bundle with a CRC-16 on its primary block. *)
Definition crc_bundle : Bundle :=
  {| primary_block :=
       {| version := 7; bundle_processing_flags := 0; crc := CRC16 0x55 0xAA;
          destination_endpoint := endpoint "//node31/mavlink";
          source_node := endpoint "//node2/incoming"; report_to := endpoint "//node2/incoming";
          creation_timestamp :=
            {| creation_time := {| timestamp := 681253789438 |}; sequence_number := 0 |};
          lifetime := 3600000; fragment_offset := None; total_data_length := None |};
     blocks := blocks (bundle [67; 65; 66; 67]) |}.
End TestBundle.

(** What is written is read back. *)
Lemma bundle_write_read `{!SerdeCbor, !SerdeCborLaws} b :
  bundle_ok b → bundle_no_crc b →
  ∃ bs, bytes_of_bundle b = Ok bs ∧ bytes_ok bs ∧ bundle_of_bytes bs = Ok b.
Proof.
  intros Hok [Hp Hn]. destruct (serialize_bundle_wf b Hok) as (p & vs & Ep & Evs & Eb & Hw).
  exists (to_vec (Arr None (p :: vs))). unfold bytes_of_bundle, bundle_of_bytes. rewrite Eb.
  split; [done|]. split; [by apply to_vec_bytes_ok|]. rewrite from_slice_with_to_vec by done.
  destruct Hok as (Hpo & Hbs & Hne). apply deserialize_seq_Ok. do 2 eexists. split; [done|].
  unfold visit_bundle.
  rewrite (next_field_cons _ _ _ _ _ (Primary.primary_deserialize_serialize _ _ Hpo Hp Ep)). ored.
  rewrite (visit_serialize_blocks _ _ Hbs Hn Evs). ored.
  destruct b as [pb [|x bs]]; done.
Qed.

(** Serialization round trip: a bundle without checksums is written, and reading
    the bytes gives exactly the bundle.  (Claim C4.) *)
Theorem bundle_roundtrip `{!SerdeCbor, !SerdeCborLaws} b :
  bundle_ok b → bundle_no_crc b →
  ∃ bs, bytes_of_bundle b = Ok bs ∧ bytes_ok bs ∧ bundle_of_bytes bs = Ok b.
Proof. apply bundle_write_read. Qed.

Lemma bundle_roundtrip_witness :
  ∃ bs, bytes_of_bundle (TestBundle.bundle [67; 65; 66; 67]) = Ok bs ∧ bytes_ok bs ∧
    bundle_of_bytes bs = Ok (TestBundle.bundle [67; 65; 66; 67]).
Proof.
  apply (bundle_roundtrip (TestBundle.bundle [67; 65; 66; 67])).
  - apply TestBundle.bundle_ok_test.
  - split; [done|]. repeat constructor.
Defined.

(** Checksums do not survive: a bundle whose primary block carries a CRC is
    written without error, but reading the bytes back is rejected, because the
    checksum is written as an array of numbers and read as a byte string. *)
Theorem crc_bundle_unreadable `{!SerdeCbor, !SerdeCborLaws} b :
  bundle_ok b → crc (primary_block b) ≠ NoCRC →
  ∃ bs, bytes_of_bundle b = Ok bs ∧ bundle_of_bytes bs = Err EInvalidType.
Proof.
  intros Hok Hc. destruct (serialize_bundle_wf b Hok) as (p & vs & Ep & Evs & Eb & Hw).
  exists (to_vec (Arr None (p :: vs))). unfold bytes_of_bundle, bundle_of_bytes. rewrite Eb.
  split; [done|]. rewrite from_slice_with_to_vec by done.
  destruct Hok as (Hpo & _ & _).
  unfold deserialize_bundle, deserialize_seq, visit_bundle, next_field. simpl.
  by rewrite (Primary.deserialize_serialize_crc _ _ Hpo Hc Ep).
Qed.

Lemma crc_bundle_unreadable_witness :
  ∃ bs, bytes_of_bundle TestBundle.crc_bundle = Ok bs ∧ bundle_of_bytes bs = Err EInvalidType.
Proof. apply (crc_bundle_unreadable TestBundle.crc_bundle); [solve_ok|done]. Defined.

(** ** Updates on the way through a node *)

(** The previous node and the hop count a receiver reads: the first block of the
    kind. *)
Fixpoint previous_node_of (bs : list CanonicalBlock) : option Endpoint :=
  match bs with
  | [] => None
  | b :: bs =>
      match block b with PreviousNode v => Some (previous_node v) | _ => previous_node_of bs end
  end.

Fixpoint hop_count_of (bs : list CanonicalBlock) : option HopCountBlock :=
  match bs with
  | [] => None
  | b :: bs => match block b with HopCount v => Some v | _ => hop_count_of bs end
  end.

(** The blocks that are not of the kind that is updated. *)
Definition is_previous_node (b : Block) : bool :=
  match b with PreviousNode _ => true | _ => false end.
Definition is_hop_count (b : Block) : bool :=
  match b with HopCount _ => true | _ => false end.
Definition others (p : Block → bool) (bs : list CanonicalBlock) : list CanonicalBlock :=
  List.filter (λ b, negb (p (block b))) bs.

Lemma block_number_le_max x bs :
  x ∈ map block_number bs → x ≤ fold_right Z.max 0 (map block_number bs).
Proof.
  induction bs as [|b bs IH]; simpl; [by intros ?%not_elem_of_nil|].
  intros [->|Hx]%elem_of_cons; [lia|]. specialize (IH Hx). lia.
Qed.

Lemma next_block_number_fresh b :
  Forall (λ cb, 0 ≤ block_number cb < 2 ^ 64 - 1) (blocks b) →
  next_block_number b ∉ map block_number (blocks b).
Proof.
  intros Hb Hin. pose proof (block_number_le_max _ _ Hin) as Hle. unfold next_block_number in *.
  assert (0 ≤ fold_right Z.max 0 (map block_number (blocks b)) < 2 ^ 64 - 1).
  { clear -Hb. induction Hb as [|x bs Hx _ IH]; simpl; [done|lia]. }
  unfold wrap64 in Hle. rewrite Z.mod_small in Hle by lia. lia.
Qed.

Lemma NoDup_block_number_snoc b cb :
  block_number cb = next_block_number b →
  Forall (λ cb, 0 ≤ block_number cb < 2 ^ 64 - 1) (blocks b) →
  block_numbers_unique b → NoDup (map block_number (blocks b ++ [cb])).
Proof.
  intros Hn Hb Hu. rewrite map_app. simpl. apply NoDup_app. split; [done|].
  split; [|apply NoDup_singleton]. intros x Hx ->%list_elem_of_singleton.
  rewrite Hn in Hx. by eapply next_block_number_fresh.
Qed.

Lemma update_previous_node_Some e bs bs' :
  update_previous_node e bs = Some bs' →
  previous_node_of bs' = Some e ∧ map block_number bs' = map block_number bs ∧
  others is_previous_node bs' = others is_previous_node bs ∧
  (Endpoint.ok e → Forall canonical_ok bs → Forall canonical_ok bs').
Proof.
  revert bs'. induction bs as [|b bs IH]; intros bs' H; simpl in H; [done|].
  destruct b as [blk n f c]. destruct blk; simpl in *;
    try (apply fmap_Some in H as (bs1 & H1 & ->); destruct (IH _ H1) as (?&?&Ho&Hok);
         simpl; split_and!; [done|congruence|unfold others in *; simpl; congruence|];
         intros He [? ?]%Forall_cons; constructor; [done|by apply Hok]).
  simplify_eq/=. split_and!; [done..|].
  intros He [(?&?&?&?) ?]%Forall_cons. constructor; [|done]. done.
Qed.

Lemma update_previous_node_None e bs :
  update_previous_node e bs = None → previous_node_of bs = None.
Proof.
  induction bs as [|b bs IH]; simpl; [done|]. destruct (block b); try done;
    intros H%fmap_None; auto.
Qed.

Lemma previous_node_of_snoc bs cb e :
  previous_node_of bs = None → block cb = PreviousNode {| previous_node := e |} →
  previous_node_of (bs ++ [cb]) = Some e.
Proof.
  intros H Hc. induction bs as [|b bs IH]; simpl in *; [by rewrite Hc|].
  destruct (block b); auto; done.
Qed.

Lemma others_snoc p bs cb : p (block cb) = true → others p (bs ++ [cb]) = others p bs.
Proof. intros H. unfold others. rewrite List.filter_app. simpl. rewrite H. simpl. apply app_nil_r. Qed.

Lemma update_hop_count_Some bs r bs' :
  update_hop_count bs = Some (r, bs') →
  (∃ v, hop_count_of bs = Some v ∧
    hop_count_of bs' = Some {| limit := limit v; count := wrap8 (count v + 1) |} ∧
    r = (wrap8 (count v + 1) <=? limit v)) ∧
  map block_number bs' = map block_number bs ∧
  others is_hop_count bs' = others is_hop_count bs ∧
  (Forall canonical_ok bs → Forall canonical_ok bs').
Proof.
  revert r bs'. induction bs as [|b bs IH]; intros r bs' H; simpl in H; [done|].
  destruct b as [blk n f c]. destruct blk as [?|?|?|v|?]; simpl in *;
    try (destruct (update_hop_count bs) as [[r1 bs1]|] eqn:H1; simplify_eq/=;
         destruct (IH _ _ eq_refl) as (?&?&Ho&Hok); split_and!;
         [done|congruence|unfold others in *; simpl; congruence|];
         intros [? ?]%Forall_cons; constructor; [done|by apply Hok]).
  simplify_eq/=. split_and!; [by eexists|done..|].
  intros [([? ?]&?&?&?) ?]%Forall_cons. constructor; [|done].
  split; [|done]. split; [done|]. apply wrap8_ok.
Qed.

Lemma update_hop_count_None bs : update_hop_count bs = None ↔ hop_count_of bs = None.
Proof.
  induction bs as [|b bs IH]; simpl; [done|]. destruct (block b); try done;
    rewrite <-IH; by destruct (update_hop_count bs) as [[]|].
Qed.

Lemma hop_count_of_snoc bs cb v :
  hop_count_of bs = None → block cb = HopCount v → hop_count_of (bs ++ [cb]) = Some v.
Proof.
  intros H Hc. induction bs as [|b bs IH]; simpl in *; [by rewrite Hc|].
  destruct (block b); auto; done.
Qed.

Lemma inc_hop_count_blocks l b v :
  hop_count_of (blocks b) = Some v →
  (inc_hop_count l b).1 = (wrap8 (count v + 1) <=? limit v) ∧
  hop_count_of (blocks (inc_hop_count l b).2) =
    Some {| limit := limit v; count := wrap8 (count v + 1) |}.
Proof.
  intros Hv. unfold inc_hop_count. destruct (update_hop_count (blocks b)) as [[r bs]|] eqn:E.
  - destruct (update_hop_count_Some _ _ _ E) as ((v' & ? & ? & ?) & _). simplify_eq. done.
  - apply update_hop_count_None in E. congruence.
Qed.

(** An update of the bundle on its way: the primary block, the payload and the
    checksums stay. *)
Record same_content (b b' : Bundle) : Prop := {
  sc_primary : primary_block b' = primary_block b;
  sc_payload : find_payload (blocks b') = find_payload (blocks b);
  sc_no_crc : bundle_no_crc b → bundle_no_crc b';
}.

Lemma find_payload_others p bs :
  (∀ x, p x = true → is_payload x = false) → find_payload (others p bs) = find_payload bs.
Proof.
  intros Hp. induction bs as [|b bs IH]; simpl; [done|]. destruct (p (block b)) eqn:E; simpl.
  - by rewrite (Hp _ E).
  - by rewrite IH.
Qed.

Lemma hop_count_of_others bs : hop_count_of (others is_previous_node bs) = hop_count_of bs.
Proof. induction bs as [|b bs IH]; simpl; [done|]. destruct (block b) eqn:E; simpl; by rewrite ?E. Qed.

Lemma previous_node_of_others bs : previous_node_of (others is_hop_count bs) = previous_node_of bs.
Proof. induction bs as [|b bs IH]; simpl; [done|]. destruct (block b) eqn:E; simpl; by rewrite ?E. Qed.

Lemma update_previous_node_crc e bs bs' :
  update_previous_node e bs = Some bs' → map block_crc bs' = map block_crc bs.
Proof.
  revert bs'. induction bs as [|b bs IH]; intros bs' H; simpl in H; [done|].
  destruct (block b); try (apply fmap_Some in H as (bs1 & H1 & ->); simpl; by rewrite (IH _ H1)).
  by simplify_eq/=.
Qed.

Lemma update_hop_count_crc bs r bs' :
  update_hop_count bs = Some (r, bs') → map block_crc bs' = map block_crc bs.
Proof.
  revert r bs'. induction bs as [|b bs IH]; intros r bs' H; simpl in H; [done|].
  destruct (block b); try (destruct (update_hop_count bs) as [[r1 bs1]|]; simplify_eq/=;
    by rewrite (IH _ _ eq_refl)).
  by simplify_eq/=.
Qed.

Lemma no_crc_map bs :
  Forall (λ cb, block_crc cb = NoCRC) bs ↔ Forall (λ c, c = NoCRC) (map block_crc bs).
Proof. by rewrite Forall_map. Qed.

Lemma set_previous_node_others e b :
  others is_previous_node (blocks (set_previous_node e b)) = others is_previous_node (blocks b).
Proof.
  unfold set_previous_node. destruct (update_previous_node e (blocks b)) eqn:E; simpl.
  - by destruct (update_previous_node_Some _ _ _ E) as (_&_&?&_).
  - by rewrite others_snoc.
Qed.

Lemma set_previous_node_same e b :
  same_content b (set_previous_node e b) ∧
  (bundle_ok b → Endpoint.ok e → bundle_ok (set_previous_node e b)) ∧
  previous_node_of (blocks (set_previous_node e b)) = Some e ∧
  hop_count_of (blocks (set_previous_node e b)) = hop_count_of (blocks b).
Proof.
  pose proof (set_previous_node_others e b) as Ho.
  assert (Hpn : ∀ x, is_previous_node x = true → is_payload x = false) by (by intros []).
  split_and!.
  - split.
    + unfold set_previous_node. by destruct (update_previous_node e (blocks b)).
    + by rewrite <-(find_payload_others _ (blocks b) Hpn), <-Ho, find_payload_others.
    + intros [Hc Hbs]. unfold set_previous_node. destruct (update_previous_node e (blocks b)) eqn:E.
      * split; [done|]. apply no_crc_map. simpl. rewrite (update_previous_node_crc _ _ _ E).
        by apply no_crc_map.
      * split; [done|]. simpl. apply Forall_app. split; [done|by constructor].
  - intros (Hp & Hbs & Hne) He. unfold set_previous_node.
    destruct (update_previous_node e (blocks b)) as [bs|] eqn:E.
    + destruct (update_previous_node_Some _ _ _ E) as (?&?&?&Hok). split_and!; simpl; auto.
      intros ->. destruct (blocks b); naive_solver.
    + split_and!; simpl; [done| |by destruct (blocks b)]. apply Forall_app. split; [done|].
      apply Forall_singleton. unfold canonical_ok. simpl. split_and!; [done|apply wrap64_ok|done|done].
  - unfold set_previous_node. destruct (update_previous_node e (blocks b)) as [bs|] eqn:E; simpl.
    + by destruct (update_previous_node_Some _ _ _ E) as (?&_).
    + eapply previous_node_of_snoc; [|done]. by eapply update_previous_node_None.
  - by rewrite <-(hop_count_of_others (blocks b)), <-Ho, hop_count_of_others.
Qed.

Lemma inc_hop_count_same l b :
  same_content b (inc_hop_count l b).2 ∧ (bundle_ok b → u8_ok l → bundle_ok (inc_hop_count l b).2) ∧
  previous_node_of (blocks (inc_hop_count l b).2) = previous_node_of (blocks b).
Proof.
  assert (Ho : others is_hop_count (blocks (inc_hop_count l b).2) = others is_hop_count (blocks b)).
  { unfold inc_hop_count. destruct (update_hop_count (blocks b)) as [[r bs]|] eqn:E; simpl.
    - by destruct (update_hop_count_Some _ _ _ E) as (_&_&?&_).
    - by rewrite others_snoc. }
  assert (Hpn : ∀ x, is_hop_count x = true → is_payload x = false) by (by intros []).
  split_and!.
  - split.
    + unfold inc_hop_count. by destruct (update_hop_count (blocks b)) as [[]|].
    + by rewrite <-(find_payload_others _ (blocks b) Hpn), <-Ho, find_payload_others.
    + intros [Hc Hbs]. unfold inc_hop_count. destruct (update_hop_count (blocks b)) as [[r bs]|] eqn:E.
      * split; [done|]. apply no_crc_map. simpl. rewrite (update_hop_count_crc _ _ _ E).
        by apply no_crc_map.
      * split; [done|]. simpl. apply Forall_app. split; [done|by constructor].
  - intros (Hp & Hbs & Hne) Hl. unfold inc_hop_count.
    destruct (update_hop_count (blocks b)) as [[r bs]|] eqn:E.
    + destruct (update_hop_count_Some _ _ _ E) as (_&Hm&_&Hok). split_and!; simpl; auto.
      intros ->. simpl in Hm. by destruct (blocks b).
    + split_and!; simpl; [done| |by destruct (blocks b)]. apply Forall_app. split; [done|].
      apply Forall_singleton. unfold canonical_ok. simpl. split_and!; [done|done|apply wrap64_ok|done|done].
  - by rewrite <-(previous_node_of_others (blocks b)), <-Ho, previous_node_of_others.
Qed.

(** [inc_hop_count] at each of [n] further nodes: the last result. *)
Fixpoint travel (l : Z) (n : nat) (b : Bundle) : bool * Bundle :=
  match n with
  | O => inc_hop_count l b
  | S n => travel l n (inc_hop_count l b).2
  end.

(** Recording the previous node: afterwards the bundle names exactly the given
    endpoint, every block of another kind is untouched, the primary block is
    untouched, and well-formedness and unique block numbers are preserved. *)
Theorem set_previous_node_spec e b :
  bundle_ok b → Endpoint.ok e → block_numbers_unique b →
  Forall (λ cb, block_number cb < 2 ^ 64 - 1) (blocks b) →
  let b' := set_previous_node e b in
  previous_node_of (blocks b') = Some e ∧
  others is_previous_node (blocks b') = others is_previous_node (blocks b) ∧
  primary_block b' = primary_block b ∧ bundle_ok b' ∧ block_numbers_unique b'.
Proof.
  intros Hok He Hu Hn. destruct (set_previous_node_same e b) as ([Hp _ _] & Hok' & He' & _).
  split_and!; [done|apply set_previous_node_others|done|auto|].
  unfold block_numbers_unique, set_previous_node.
  destruct (update_previous_node e (blocks b)) as [bs|] eqn:E; simpl.
  - destruct (update_previous_node_Some _ _ _ E) as (_&Hm&_). by rewrite Hm.
  - apply NoDup_block_number_snoc; [done| |done].
    apply Forall_forall. intros cb Hcb. destruct Hok as (_ & Hbs & _). rewrite Forall_forall in Hbs, Hn.
    destruct (Hbs _ Hcb) as (_ & [? _] & _). specialize (Hn _ Hcb). simpl in *. lia.
Qed.

Lemma set_previous_node_spec_witness :
  let b := TestBundle.bundle [67; 65; 66; 67] in
  let b' := set_previous_node (TestBundle.endpoint "//node7") b in
  previous_node_of (blocks b') = Some (TestBundle.endpoint "//node7") ∧
  others is_previous_node (blocks b') = others is_previous_node (blocks b) ∧
  primary_block b' = primary_block b ∧ bundle_ok b' ∧ block_numbers_unique b'.
Proof.
  apply (set_previous_node_spec (TestBundle.endpoint "//node7") (TestBundle.bundle [67; 65; 66; 67])).
  - apply TestBundle.bundle_ok_test.
  - solve_ok.
  - apply (bool_decide_unpack _). vm_compute. done.
  - repeat constructor.
Defined.

(** The hop limit: a bundle whose hop count block has limit [L] and count [c] is
    still forwarded after [n + 1] more nodes exactly if [c + n + 1 <= L], as long
    as the count fits its byte; so a bundle takes [L - c] more hops and no more. *)
Theorem hop_limit_enforced l b v n :
  hop_count_of (blocks b) = Some v → 0 ≤ count v → count v + Z.of_nat n + 1 ≤ 255 →
  (travel l n b).1 = (count v + Z.of_nat n + 1 <=? limit v) ∧
  hop_count_of (blocks (travel l n b).2) =
    Some {| limit := limit v; count := count v + Z.of_nat n + 1 |}.
Proof.
  revert b v. induction n as [|n IH]; intros b v Hv Hc Hn; cbn [travel].
  - destruct (inc_hop_count_blocks l b v Hv) as [-> ->].
    rewrite wrap8_small, Z.add_0_r; [done|]. unfold u8_ok. lia.
  - destruct (inc_hop_count_blocks l b v Hv) as [_ H].
    rewrite wrap8_small in H by (unfold u8_ok; lia).
    destruct (IH _ _ H) as [-> ->]; simpl; [lia..|].
    replace (count v + 1 + Z.of_nat n + 1) with (count v + Z.of_nat (S n) + 1) by lia. done.
Qed.

Lemma hop_limit_enforced_witness :
  (travel 32 31 (TestBundle.bundle [])).1 = true ∧ (travel 32 32 (TestBundle.bundle [])).1 = false.
Proof.
  split.
  - by apply (hop_limit_enforced 32 (TestBundle.bundle []) {| limit := 32; count := 0 |} 31).
  - by apply (hop_limit_enforced 32 (TestBundle.bundle []) {| limit := 32; count := 0 |} 32).
Defined.

(** Hop limit 255 is not enforced: the counter wraps, so every increment of such
    a bundle allows it to go on. *)
Theorem hop_limit_255_unbounded l n b v :
  hop_count_of (blocks b) = Some v → limit v = 255 → (travel l n b).1 = true.
Proof.
  revert b v. induction n as [|n IH]; intros b v Hv Hl; cbn [travel];
    destruct (inc_hop_count_blocks l b v Hv) as [Hr H].
  - rewrite Hr. pose proof (wrap8_ok (count v + 1)) as [_ ?]. apply Z.leb_le. lia.
  - by apply (IH _ _ H).
Qed.

(** A bundle that has already taken 255 hops. *)
Lemma hop_limit_255_unbounded_witness :
  (travel 32 1000 {| primary_block := TestBundle.primary 0;
                     blocks := [{| block := HopCount {| limit := 255; count := 255 |};
                                   block_number := 2; block_flags := BlockFlags.empty;
                                   block_crc := NoCRC |}] |}).1 = true.
Proof. eapply hop_limit_255_unbounded; reflexivity. Defined.
