(* ===== verification/AdminRecord.v ===== *)
(** * Administrative records ([bp7/src/administrative_record]) *)
From S2P Require Import Prelude RustStr Cbor CborRfc CrcTime Endpoint PrimaryBlock.
Import Time.

Record BundleStatusItem := {
  is_asserted : bool;
  status_timestamp : option DtnTime;
}.

Inductive BundleStatusReason :=
| NoAdditionalInformation
| LifetimeExpired
| ForwardedOverUnideirectionLink
| TransmissionCanceled
| DepletedStorage
| DestinationEndpointIDUnavailable
| NoKnownRouteToDestinationFromHere
| NoTimelyContactWithNextNodeOnRoute
| BlockUnintelligible
| HopLimitExceeded
| TrafficPared
| BlockUnsupported.

Record BundleStatusInformation := {
  received_bundle : BundleStatusItem;
  forwarded_bundle : BundleStatusItem;
  delivered_bundle : BundleStatusItem;
  deleted_bundle : BundleStatusItem;
}.

Record BundleStatusReport := {
  status_information : BundleStatusInformation;
  reason : BundleStatusReason;
  bundle_source : Endpoint;
  bundle_creation_timestamp : CreationTimestamp;
  report_fragment_offset : option Z;
  fragment_length : option Z;
}.

Inductive AdministrativeRecord := ABundleStatusReport (e : BundleStatusReport).

#[export] Instance BundleStatusItem_eq_dec : EqDecision BundleStatusItem.
Proof. solve_decision. Defined.
#[export] Instance BundleStatusReason_eq_dec : EqDecision BundleStatusReason.
Proof. solve_decision. Defined.
#[export] Instance BundleStatusInformation_eq_dec : EqDecision BundleStatusInformation.
Proof. solve_decision. Defined.
#[export] Instance BundleStatusReport_eq_dec : EqDecision BundleStatusReport.
Proof. solve_decision. Defined.
#[export] Instance AdministrativeRecord_eq_dec : EqDecision AdministrativeRecord.
Proof. solve_decision. Defined.

(** ** Status items *)

Definition serialize_status_item (i : BundleStatusItem) : item :=
  match is_asserted i, status_timestamp i with
  | true, Some t => Arr (Some 2) [Bool true; serialize_time t]
  | a, _ => Arr (Some 1) [Bool a]
  end.

Definition visit_status_item (hint : option Z) (seq : list item)
    : serde (BundleStatusItem * list item) :=
  length ← ok_or hint (ECustom "CBOR Array for BundleStatusItem must have a size hint");
  if 2 <? length then Err (EInvalidLength length) else
  '(is_asserted, seq) ← next_field "Error for field 'is_asserted'" de_bool seq;
  '(timestamp, seq) ←
    (if (length =? 2) && is_asserted then next_element deserialize_time seq
     else Ok (None, seq));
  Ok ({| is_asserted := is_asserted; status_timestamp := timestamp |}, seq).

Definition deserialize_status_item : item → serde BundleStatusItem :=
  deserialize_seq visit_status_item.

(** ** Reasons: [serde_repr] at [u64] *)

Definition reason_code (r : BundleStatusReason) : Z :=
  match r with
  | NoAdditionalInformation => 0
  | LifetimeExpired => 1
  | ForwardedOverUnideirectionLink => 2
  | TransmissionCanceled => 3
  | DepletedStorage => 4
  | DestinationEndpointIDUnavailable => 5
  | NoKnownRouteToDestinationFromHere => 6
  | NoTimelyContactWithNextNodeOnRoute => 7
  | BlockUnintelligible => 8
  | HopLimitExceeded => 9
  | TrafficPared => 10
  | BlockUnsupported => 11
  end.

Definition all_reasons : list BundleStatusReason :=
  [NoAdditionalInformation; LifetimeExpired; ForwardedOverUnideirectionLink;
   TransmissionCanceled; DepletedStorage; DestinationEndpointIDUnavailable;
   NoKnownRouteToDestinationFromHere; NoTimelyContactWithNextNodeOnRoute;
   BlockUnintelligible; HopLimitExceeded; TrafficPared; BlockUnsupported].

Definition reason_of_code (n : Z) : option BundleStatusReason :=
  List.find (λ r, reason_code r =? n) all_reasons.

Definition deserialize_reason (v : item) : serde BundleStatusReason :=
  n ← de_u64 v; ok_or (reason_of_code n) (ECustom "invalid value").

(** ** Status information *)

Definition serialize_status_information (i : BundleStatusInformation) : item :=
  Arr (Some 4) [serialize_status_item (received_bundle i);
                serialize_status_item (forwarded_bundle i);
                serialize_status_item (delivered_bundle i);
                serialize_status_item (deleted_bundle i)].

Definition visit_status_information (hint : option Z) (seq : list item)
    : serde (BundleStatusInformation * list item) :=
  length ← ok_or hint (ECustom "CBOR Array for BundleStatusInformation must have a size hint");
  if negb (length =? 4) then Err (EInvalidLength length) else
  '(r, seq) ← next_field "Error for field 'received_bundle'" deserialize_status_item seq;
  '(f, seq) ← next_field "Error for field 'forwarded_bundle'" deserialize_status_item seq;
  '(d, seq) ← next_field "Error for field 'delivered_bundle'" deserialize_status_item seq;
  '(x, seq) ← next_field "Error for field 'deleted_bundle'" deserialize_status_item seq;
  Ok ({| received_bundle := r; forwarded_bundle := f;
         delivered_bundle := d; deleted_bundle := x |}, seq).

Definition deserialize_status_information : item → serde BundleStatusInformation :=
  deserialize_seq visit_status_information.

(** ** Status reports *)

Definition serialize_status_report (r : BundleStatusReport) : item :=
  let common := [serialize_status_information (status_information r);
                 Uint (reason_code (reason r));
                 Endpoint.serialize (bundle_source r);
                 serialize (bundle_creation_timestamp r)] in
  match report_fragment_offset r, fragment_length r with
  | Some o, Some l => Arr (Some 6) (common ++ [Uint o; Uint l])
  | _, _ => Arr (Some 4) common
  end.

Definition visit_status_report (hint : option Z) (seq : list item)
    : serde (BundleStatusReport * list item) :=
  length ← ok_or hint (ECustom "CBOR Array for BundleStatusReport must have a size hint");
  if negb (length =? 4) && negb (length =? 6) then Err (EInvalidLength length) else
  '(i, seq) ← next_field "Error for field 'status_information'" deserialize_status_information seq;
  '(r, seq) ← next_field "Error for field 'reason'" deserialize_reason seq;
  '(s, seq) ← next_field "Error for field 'bundle_source'" Endpoint.deserialize seq;
  '(t, seq) ← next_field "Error for field 'bundle_creation_timestamp'" deserialize seq;
  '(fo, fl, seq) ←
    (if length =? 6 then
       '(o, seq) ← next_field "Error for field 'fragment_offset'" de_u64 seq;
       '(l, seq) ← next_field "Error for field 'fragment_length'" de_u64 seq;
       Ok (Some o, Some l, seq)
     else Ok (None, None, seq));
  Ok ({| status_information := i; reason := r; bundle_source := s;
         bundle_creation_timestamp := t; report_fragment_offset := fo;
         fragment_length := fl |}, seq).

Definition deserialize_status_report : item → serde BundleStatusReport :=
  deserialize_seq visit_status_report.

(** ** Records *)

Definition record_type_bundle_status_report : Z := 1.

Definition serialize_record (r : AdministrativeRecord) : item :=
  match r with
  | ABundleStatusReport e =>
      Arr (Some 2) [Uint record_type_bundle_status_report; serialize_status_report e]
  end.

Definition deserialize_record_type (v : item) : serde unit :=
  n ← de_u64 v;
  if n =? record_type_bundle_status_report then Ok tt else Err (ECustom "invalid value").

Definition visit_record (_ : option Z) (seq : list item)
    : serde (AdministrativeRecord * list item) :=
  '(_, seq) ← next_field "Error for field 'administrative_record_type'"
                deserialize_record_type seq;
  '(r, seq) ← next_field "Error for field 'bundle_status_report'" deserialize_status_report seq;
  Ok (ABundleStatusReport r, seq).

Definition deserialize_record : item → serde AdministrativeRecord := deserialize_seq visit_record.

(** [TryFrom<&Vec<u8>> for AdministrativeRecord] and back. *)
Definition record_of_bytes `{!SerdeCbor} (bs : bytes) : serde AdministrativeRecord :=
  from_slice_with deserialize_record bs.
Definition bytes_of_record `{!SerdeCbor} (r : AdministrativeRecord) : serde bytes :=
  Ok (to_vec (serialize_record r)).

(** ** Round trip *)

(** A timestamp is only written for an asserted item, and the two fragment fields
    only together. *)
Definition status_item_ok (i : BundleStatusItem) : Prop :=
  match status_timestamp i with
  | Some t => is_asserted i = true ∧ u64_ok (timestamp t)
  | None => True
  end.

Definition status_report_ok (r : BundleStatusReport) : Prop :=
  status_item_ok (received_bundle (status_information r)) ∧
  status_item_ok (forwarded_bundle (status_information r)) ∧
  status_item_ok (delivered_bundle (status_information r)) ∧
  status_item_ok (deleted_bundle (status_information r)) ∧
  Endpoint.ok (bundle_source r) ∧ Time.ok (bundle_creation_timestamp r) ∧
  match report_fragment_offset r, fragment_length r with
  | Some o, Some l => u64_ok o ∧ u64_ok l
  | None, None => True
  | _, _ => False
  end.

Lemma status_item_roundtrip i : status_item_ok i →
  deserialize_status_item (serialize_status_item i) = Ok i ∧ item_wf (serialize_status_item i).
Proof.
  destruct i as [[] [[t]|]]; unfold status_item_ok; simpl; intros H; split; try done.
  all: try by destruct H.
Qed.

Lemma reason_roundtrip r : deserialize_reason (Uint (reason_code r)) = Ok r.
Proof. by destruct r. Qed.

Lemma reason_code_u64 r : u64_ok (reason_code r).
Proof. by destruct r. Qed.

Lemma status_information_roundtrip i :
  status_item_ok (received_bundle i) → status_item_ok (forwarded_bundle i) →
  status_item_ok (delivered_bundle i) → status_item_ok (deleted_bundle i) →
  deserialize_status_information (serialize_status_information i) = Ok i ∧
  item_wf (serialize_status_information i).
Proof.
  intros [H1 W1]%status_item_roundtrip [H2 W2]%status_item_roundtrip
         [H3 W3]%status_item_roundtrip [H4 W4]%status_item_roundtrip.
  split; [|by wf_seq]. apply deserialize_seq_Ok. do 2 eexists. split; [done|].
  unfold visit_status_information. ored. simpl (negb _). cbv iota.
  rewrite (next_field_cons _ _ _ _ _ H1). ored. rewrite (next_field_cons _ _ _ _ _ H2). ored.
  rewrite (next_field_cons _ _ _ _ _ H3). ored. rewrite (next_field_cons _ _ _ _ _ H4). ored.
  by destruct i.
Qed.

Lemma status_report_roundtrip r : status_report_ok r →
  deserialize_status_report (serialize_status_report r) = Ok r ∧
  item_wf (serialize_status_report r).
Proof.
  intros (H1&H2&H3&H4&He&Ht&Hf).
  destruct (status_information_roundtrip _ H1 H2 H3 H4) as [Hi Wi].
  pose proof (endpoint_serialize_wf _ He) as We.
  pose proof (Time.time_serialize_wf _ Ht) as Wt.
  pose proof (reason_code_u64 (reason r)) as Wr.
  destruct r as [i rs e t [o|] [l|]]; unfold serialize_status_report;
    cbn [status_information reason bundle_source bundle_creation_timestamp
         report_fragment_offset fragment_length app] in *; try done.
  all: split; [|try destruct Hf; by wf_seq].
  all: apply deserialize_seq_Ok; do 2 eexists; (split; [done|]).
  all: unfold visit_status_report; ored; simpl (negb _); simpl (andb _ _); cbv iota.
  all: rewrite (next_field_cons _ _ _ _ _ Hi); ored.
  all: rewrite (next_field_cons _ _ _ _ _ (reason_roundtrip rs)); ored.
  all: rewrite (next_field_cons _ _ _ _ _ (endpoint_deserialize_serialize _)); ored.
  all: rewrite (next_field_cons _ _ _ _ _ (Time.time_deserialize_serialize t)); ored.
  all: done.
Qed.

(** The status report of the repository's unit test, byte for byte. *)
Module TestReport.
Definition asserted (t : Z) : BundleStatusItem :=
  {| is_asserted := true; status_timestamp := Some {| timestamp := t |} |}.
Definition not_asserted : BundleStatusItem :=
  {| is_asserted := false; status_timestamp := None |}.
Definition report : BundleStatusReport :=
  {| status_information :=
       {| received_bundle := asserted 123456789; forwarded_bundle := not_asserted;
          delivered_bundle := not_asserted; deleted_bundle := not_asserted |};
     reason := DepletedStorage;
     bundle_source := EDTN {| DTN.uri := str "//test/abc" |};
     bundle_creation_timestamp :=
       {| creation_time := {| timestamp := 123456789 |}; sequence_number := 987654321 |};
     report_fragment_offset := None;
     fragment_length := None |}.

Example serialize_bundle_status_report :
  to_vec (serialize_status_report report) =
    [0x84; 0x84; 0x82; 0xF5; 0x1A; 0x07; 0x5B; 0xCD; 0x15; 0x81; 0xF4; 0x81; 0xF4; 0x81; 0xF4;
     0x04; 0x82; 0x01; 0x6A; 0x2F; 0x2F; 0x74; 0x65; 0x73; 0x74; 0x2F; 0x61; 0x62; 0x63; 0x82;
     0x1A; 0x07; 0x5B; 0xCD; 0x15; 0x1A; 0x3A; 0xDE; 0x68; 0xB1].
Proof. vm_compute. reflexivity. Qed.
End TestReport.

(** What is written is read back. *)
Lemma record_write_read `{!SerdeCbor, !SerdeCborLaws} r :
  status_report_ok r →
  ∃ bs, bytes_of_record (ABundleStatusReport r) = Ok bs ∧ bytes_ok bs ∧
    record_of_bytes bs = Ok (ABundleStatusReport r).
Proof.
  intros [Hr Hw]%status_report_roundtrip.
  assert (item_wf (serialize_record (ABundleStatusReport r))) as W by (by wf_seq).
  eexists. split; [done|]. split; [by apply to_vec_bytes_ok|].
  unfold record_of_bytes. rewrite from_slice_with_to_vec by done.
  apply deserialize_seq_Ok. do 2 eexists. split; [done|]. unfold visit_record.
  rewrite (next_field_cons _ _ _ _ tt) by done. ored.
  by rewrite (next_field_cons _ _ _ _ _ Hr).
Qed.

(** An administrative record survives the wire: reading the written bytes gives
    the record.  (Claim C40.) *)
Theorem admin_record_roundtrip `{!SerdeCbor, !SerdeCborLaws} r :
  status_report_ok r →
  ∃ bs, bytes_of_record (ABundleStatusReport r) = Ok bs ∧ bytes_ok bs ∧
    record_of_bytes bs = Ok (ABundleStatusReport r).
Proof. apply record_write_read. Qed.

Lemma admin_record_roundtrip_witness :
  ∃ bs, bytes_of_record (ABundleStatusReport TestReport.report) = Ok bs ∧ bytes_ok bs ∧
    record_of_bytes bs = Ok (ABundleStatusReport TestReport.report).
Proof. apply (admin_record_roundtrip TestReport.report). solve_ok. Defined.
