(* ===== verification/Fragment.v ===== *)
(** * Fragmentation and reassembly ([Bundle::fragment],
      [Bundle::can_reassemble_bundles], [Bundle::reassemble_bundles])

    Sizes of data in memory ([len()], sums of such sizes) stay below [2^64] and
    are plain integers; offsets and lengths that come from the wire are kept at
    their width ([wrap64]). *)
From Stdlib Require Import Sorting.Sorted.
From S2P Require Import Prelude RustStr Cbor CborRfc Flags CrcTime Endpoint PrimaryBlock Block.
From S2P Require Import Bundle.
Import Crc Time.

Inductive FragmentationError :=
| FSerializationError (e : serde_error)
| CanNotFragmentThatSmall (n : Z)
| MustNotFragment
| BundleInvalid.

#[export] Instance FragmentationError_eq_dec : EqDecision FragmentationError.
Proof. solve_decision. Defined.

Abbreviation frag A := (outcome FragmentationError A).

Definition BUNDLE_SERIALIZATION_OVERHEAD : Z := 2.
Definition PAYLOAD_BLOCK_SERIALIZATION_OVERHEAD : Z := 128.

Definition must_replicate (b : CanonicalBlock) : bool :=
  contains (block_flags b) BlockFlags.MUST_REPLICATE_TO_ALL_FRAGMENTS.

(** [iter().cloned().collect()] and [Vec::clone]. *)
Definition clone_blocks {E} (bs : list CanonicalBlock) : outcome E (list CanonicalBlock) :=
  mapM clone_canonical bs.

(** Slicing [&data[a..b]]. *)
Definition slice {A} (a b : Z) (l : list A) : list A :=
  take (Z.to_nat (b - a)) (drop (Z.to_nat a) l).

Section fragment.
Context `{!SerdeCbor}.

(** The loop over the blocks that adds up the size of the first and of the later
    fragments without payload. *)
Fixpoint add_block_sizes (bs : list CanonicalBlock) (first min : Z) : frag (Z * Z) :=
  match bs with
  | [] => Ok (first, min)
  | b :: bs =>
      if is_payload (block b) then add_block_sizes bs first min else
      v ← map_err FSerializationError (serialize_block b);
      let block_size := zlen (to_vec v) in
      add_block_sizes bs (first + block_size)
        (if must_replicate b then min + block_size else min)
  end.

(** What the fragmentation loop uses and does not change. *)
Record fragmentation := {
  max_size : Z;
  first_fragment_min_size : Z;
  fragment_min_size : Z;
  global_payload_offset : Z;
  new_primary_block : PrimaryBlock;
  first_fragment_blocks : list CanonicalBlock;
  fragment_blocks : list CanonicalBlock;
  payload_template : CanonicalBlock;
  payload_data : bytes;
}.

(** One iteration of the loop at [current_payload_offset]. *)
Definition fragment_step (f : fragmentation) (off : Z) : frag (Bundle * Z) :=
  let payload_length := zlen (payload_data f) in
  blocks ← clone_blocks (if off =? 0 then first_fragment_blocks f else fragment_blocks f);
  let fragment_size :=
    if off =? 0 then first_fragment_min_size f else fragment_min_size f in
  let n := Z.min (payload_length - off) (max_size f - fragment_size) in
  assert (1 <=? n);;
  let fragment :=
    {| primary_block :=
         with_fragment (bundle_processing_flags (new_primary_block f))
           (Some (wrap64 (global_payload_offset f + off)))
           (total_data_length (new_primary_block f)) (new_primary_block f);
       blocks := blocks ++
         [with_block (Payload {| data := slice off (off + n) (payload_data f) |})
            (payload_template f)] |} in
  bs ← map_err FSerializationError (bytes_of_bundle fragment);
  assert (zlen bs <=? max_size f);;
  Ok (fragment, n).

(** [while current_payload_offset < payload_length]: every iteration consumes at
    least one byte, so the payload length bounds the iterations. *)
Fixpoint fragment_loop (fuel : nat) (f : fragmentation) (off : Z) : frag (list Bundle) :=
  match fuel with
  | O => Ok []
  | S fuel =>
      if off <? zlen (payload_data f) then
        '(b, n) ← fragment_step f off;
        bs ← fragment_loop fuel f (off + n);
        Ok (b :: bs)
      else Ok []
  end.

(** [Bundle::fragment] *)
Definition fragment (self : Bundle) (max : Z) : frag (list Bundle * Z * Z) :=
  vec ← map_err FSerializationError (bytes_of_bundle self);
  assert (max <? zlen vec);;
  let pb := primary_block self in
  if contains (bundle_processing_flags pb) BundleFlags.MUST_NOT_FRAGMENT
  then Err MustNotFragment else
  if contains (bundle_processing_flags pb) BundleFlags.FRAGMENT
     && (is_none (fragment_offset pb) || is_none (total_data_length pb))
  then Err BundleInvalid else
  p ← map_err FSerializationError (Primary.serialize pb);
  let min0 := zlen (to_vec p) + PAYLOAD_BLOCK_SERIALIZATION_OVERHEAD
              + BUNDLE_SERIALIZATION_OVERHEAD in
  '(first_min, min) ← add_block_sizes (blocks self) min0 min0;
  if (max <? first_min) || (max <? min) then Err (CanNotFragmentThatSmall first_min) else
  payload ← payload_block self;
  first_blocks ← clone_blocks (List.filter (λ b, negb (is_payload (block b))) (blocks self));
  later_blocks ← clone_blocks
    (List.filter (λ b, negb (is_payload (block b)) && negb (must_replicate b)) (blocks self));
  template ← payload_canonical_block self;
  let f :=
    {| max_size := max;
       first_fragment_min_size := first_min;
       fragment_min_size := min;
       global_payload_offset := default 0 (fragment_offset pb);
       new_primary_block :=
         with_fragment (Z.lor (bundle_processing_flags pb) BundleFlags.FRAGMENT) (Some 0)
           (Some (default (zlen (data payload)) (total_data_length pb))) pb;
       first_fragment_blocks := first_blocks;
       fragment_blocks := later_blocks;
       payload_template := template;
       payload_data := data payload |} in
  fragments ← fragment_loop (length (data payload)) f 0;
  Ok (fragments, first_min, min).

(** ** Reassembly *)

(** [bundles.sort_by(..)], a stable sort on the fragment offset: an element goes
    before the elements with a larger offset. *)
Definition offset_key (b : Bundle) : Z := default 0 (fragment_offset (primary_block b)).

Fixpoint insert_by_offset (b : Bundle) (l : list Bundle) : list Bundle :=
  match l with
  | [] => [b]
  | c :: l => if offset_key b <=? offset_key c then b :: c :: l else c :: insert_by_offset b l
  end.

Definition sort_by_offset (l : list Bundle) : list Bundle := foldr insert_by_offset [] l.

(** The [try_fold] over the sorted (offset, length) pairs; [None] is [Break]. *)
Fixpoint try_fold (acc : Z) (l : list (Z * Z)) : option Z :=
  match l with
  | [] => Some acc
  | (offset, len) :: l =>
      if offset <? acc then try_fold (Z.max acc (wrap64 (offset + len))) l
      else if acc =? offset then try_fold (wrap64 (offset + len)) l
      else None
  end.

Definition offset_and_len {E} (b : Bundle) : outcome E (Z * Z) :=
  o ← unwrap (fragment_offset (primary_block b));
  p ← payload_block b;
  Ok (o, zlen (data p)).

(** [can_reassemble_bundles]: the answer and the bundles, which it sorts.  The
    comparator unwraps the offset of every bundle; with a single bundle the next
    statement unwraps its offset. *)
Definition can_reassemble_bundles {E} (bundles : list Bundle)
    : outcome E (bool * list Bundle) :=
  match bundles with
  | [] => Ok (false, bundles)
  | first :: _ =>
      assert (contains (bundle_processing_flags (primary_block first)) BundleFlags.FRAGMENT);;
      assert (forallb (λ b, Primary.equals_ignoring_fragment_offset
                              (primary_block first) (primary_block b)) bundles);;
      total ← unwrap (total_data_length (primary_block first));
      assert (forallb (λ b, is_some (fragment_offset (primary_block b))) bundles);;
      let bundles := sort_by_offset bundles in
      o ← unwrap ((bundles !! 0%nat) ≫= λ b, fragment_offset (primary_block b));
      if negb (o =? 0) then Ok (false, bundles) else
      ranges ← mapM offset_and_len bundles;
      Ok (match try_fold 0 ranges with Some len => len =? total | None => false end, bundles)
  end.

(** The loop of [reassemble_bundles] over the remaining fragments. *)
Fixpoint extend_data {E} (data0 : bytes) (bundles : list Bundle) : outcome E bytes :=
  match bundles with
  | [] => Ok data0
  | b :: bundles =>
      o ← unwrap (fragment_offset (primary_block b));
      p ← payload_block b;
      if wrap64 (o + zlen (data p)) <? zlen data0 then extend_data data0 bundles else
      let start := wrap64 (zlen data0 - o) in
      assert (start <=? zlen (data p));;
      extend_data (data0 ++ drop (Z.to_nat start) (data p)) bundles
  end.

Definition set_payload (d : bytes) (cb : CanonicalBlock) : CanonicalBlock :=
  match block cb with Payload _ => with_block (Payload {| data := d |}) cb | _ => cb end.

(** [Bundle::reassemble_bundles]; the error value is the given bundles. *)
Definition reassemble_bundles (bundles : list Bundle) : outcome (list Bundle) bytes :=
  '(can, bundles) ← can_reassemble_bundles bundles;
  if negb can then Err bundles else
  match bundles with
  | [] => Panic
  | main :: rest =>
      _ ← unwrap (total_data_length (primary_block main));
      let pb := primary_block main in
      let main_primary :=
        with_fragment (flags_remove (bundle_processing_flags pb) BundleFlags.FRAGMENT)
          None None pb in
      p ← payload_block main;
      d ← extend_data (data p) rest;
      unwrap_ok (bytes_of_bundle
        {| primary_block := main_primary; blocks := map (set_payload d) (blocks main) |})
  end.
End fragment.

(** ** The unit tests of [bundle.rs] *)
Module TestFragment.
(** [get_bundle_data] and [get_test_bundle] *)
Definition get_bundle_data : bytes := map (λ i, Z.of_nat i mod 256) (seq 0 1024).
Definition get_test_bundle (d : bytes) : Bundle :=
  {| primary_block := TestBundle.primary BundleFlags.BUNDLE_DELIVERY_STATUS_REQUESTED;
     blocks := blocks (TestBundle.bundle d) |}.

Definition fragments_of (b : Bundle) (max : Z) : list Bundle :=
  match fragment b max with Ok (fs, _, _) => fs | _ => [] end.

Definition swap_halves {A} (l : list A) : list A := drop 2 l ++ take 2 l.

Example fragment_bundle :
  length (fragments_of (get_test_bundle get_bundle_data) 256) = 23%nat.
Proof. vm_compute. reflexivity. Qed.

Example reassmeble_double_fragment_bundle :
  let fragments := concat (map (λ f, fragments_of f 600)
                     (fragments_of (get_test_bundle get_bundle_data) 750)) in
  length fragments = 4%nat ∧
  (bs ← reassemble_bundles (swap_halves fragments); Ok bs) =
  match bytes_of_bundle (get_test_bundle get_bundle_data) with Ok bs => Ok bs | _ => Panic end.
Proof. vm_compute. split; reflexivity. Qed.
End TestFragment.

(** ** Ranges

    The specification of completeness: every byte of [0..total] lies in a range
    and no range reaches past [total]. *)

Definition in_range (p : Z) (r : Z * Z) : Prop := r.1 ≤ p < r.1 + r.2.

Definition complete (total : Z) (rs : list (Z * Z)) : Prop :=
  Forall (λ r, r.1 + r.2 ≤ total) rs ∧ ∀ p, 0 ≤ p < total → Exists (in_range p) rs.

Definition range_ok (r : Z * Z) : Prop := 0 ≤ r.1 ∧ 0 ≤ r.2 ∧ r.1 + r.2 < 2 ^ 64.

#[export] Instance complete_perm total : Proper ((≡ₚ) ==> iff) (complete total).
Proof.
  intros l l' Hl. unfold complete. setoid_rewrite Exists_exists. rewrite Hl.
  by setoid_rewrite Hl.
Qed.

Lemma range_wrap r : range_ok r → wrap64 (r.1 + r.2) = r.1 + r.2.
Proof. intros (?&?&?). apply wrap64_small. unfold u64_ok. lia. Qed.

Abbreviation range_le := (λ r s : Z * Z, r.1 ≤ s.1) (only parsing).

(** A finished fold has met every position it passed. *)
Lemma try_fold_sound l acc r :
  Forall range_ok l → try_fold acc l = Some r →
  acc ≤ r ∧ Forall (λ x, x.1 + x.2 ≤ r) l ∧ ∀ p, acc ≤ p < r → Exists (in_range p) l.
Proof.
  revert acc. induction l as [|[o n] l IH]; intros acc Hl H; simpl in H.
  { simplify_eq. split_and!; [done|constructor|lia]. }
  apply Forall_cons in Hl as [Hr Hl]. pose proof (range_wrap _ Hr) as Hw. simpl in Hw.
  rewrite Hw in H. destruct Hr as (?&?&?); simpl in *.
  case_match eqn:E1; [|case_match eqn:E2; [|done]].
  - destruct (IH _ Hl H) as (Ha & Hf & Hc). split_and!; [lia| |].
    + constructor; [simpl; lia|done].
    + intros p Hp. destruct (decide (p < o + n)) as [Hn|Hn].
      * left. unfold in_range. simpl. lia.
      * right. apply Hc. lia.
  - destruct (IH _ Hl H) as (Ha & Hf & Hc). split_and!; [lia| |].
    + constructor; [simpl; lia|done].
    + intros p Hp. destruct (decide (p < o + n)) as [Hn|Hn].
      * left. unfold in_range. simpl. lia.
      * right. apply Hc. lia.
Qed.

(** On sorted ranges the fold only stops at a position no range covers. *)
Lemma try_fold_complete l acc total :
  Forall range_ok l → StronglySorted range_le l → acc ≤ total →
  Forall (λ x, x.1 + x.2 ≤ total) l → (∀ p, acc ≤ p < total → Exists (in_range p) l) →
  try_fold acc l = Some total.
Proof.
  revert acc. induction l as [|[o n] l IH]; intros acc Hl Hs Ha Ht Hc; simpl.
  { destruct (decide (acc = total)) as [->|]; [done|].
    assert (acc ≤ acc < total) as Hp%Hc by lia. by apply Exists_nil in Hp. }
  apply Forall_cons in Hl as [Hr Hl]. apply Forall_cons in Ht as [Ht1 Ht].
  apply StronglySorted_inv in Hs as [Hs Hle].
  pose proof (range_wrap _ Hr) as Hw. simpl in Hw. rewrite Hw.
  destruct Hr as (?&?&?); simpl in *.
  assert (Hc' : ∀ p, acc ≤ p → o + n ≤ p < total → Exists (in_range p) l).
  { intros p ??. assert (acc ≤ p < total) as Hp%Hc by lia. apply Exists_cons in Hp as [Hp|Hp]; [|done].
    unfold in_range in Hp. simpl in Hp. lia. }
  case_match eqn:E1; [|case_match eqn:E2].
  - apply IH; try done; [lia|]. intros. apply Hc'; lia.
  - apply IH; try done. intros. apply Hc'; lia.
  - assert (acc ≤ acc < total) as Hp%Hc by lia. exfalso. apply Exists_cons in Hp as [Hp|Hp].
    + unfold in_range in Hp. simpl in Hp. lia.
    + apply Exists_exists in Hp as ([o' n'] & Hin & Hp). unfold in_range in Hp. simpl in Hp.
      rewrite Forall_forall in Hle. specialize (Hle _ Hin). simpl in Hle. lia.
Qed.

(** ** The stable sort *)

Lemma insert_by_offset_perm b l : insert_by_offset b l ≡ₚ b :: l.
Proof.
  induction l as [|c l IH]; simpl; [done|]. case_match; [done|].
  rewrite IH. apply Permutation_swap.
Qed.

Lemma sort_by_offset_perm l : sort_by_offset l ≡ₚ l.
Proof. induction l as [|b l IH]; simpl; [done|]. by rewrite insert_by_offset_perm, IH. Qed.

Abbreviation offset_le := (λ a b : Bundle, offset_key a ≤ offset_key b) (only parsing).

Lemma insert_by_offset_sorted b l :
  StronglySorted offset_le l → StronglySorted offset_le (insert_by_offset b l).
Proof.
  induction 1 as [|c l Hs IH Hf]; simpl; [repeat constructor|]. case_match eqn:E.
  - constructor; [by constructor|]. constructor; [lia|].
    eapply Forall_impl; [done|]. simpl. lia.
  - constructor; [done|]. rewrite insert_by_offset_perm. constructor; [lia|done].
Qed.

Lemma sort_by_offset_sorted l : StronglySorted offset_le (sort_by_offset l).
Proof. induction l; simpl; [constructor|by apply insert_by_offset_sorted]. Qed.

(** ** Fragments of one bundle *)

(** The bytes of the payload block of a bundle that has one. *)
Definition payload_bytes (b : Bundle) : bytes :=
  match payload_block (E := Empty_set) b with Ok p => data p | _ => [] end.

Definition range_of (b : Bundle) : Z * Z := (offset_key b, zlen (payload_bytes b)).

(** [b] is a fragment of the bundle with primary block [pb] and payload length
    [total]. *)
Record fragment_of (pb : PrimaryBlock) (total : Z) (b : Bundle) : Prop := {
  fragment_of_primary : ∃ o, primary_block b =
    with_fragment (Z.lor (bundle_processing_flags pb) BundleFlags.FRAGMENT)
      (Some o) (Some total) pb;
  fragment_of_payload : is_Some (find_payload (blocks b));
  fragment_of_range : range_ok (range_of b);
}.

Lemma find_payload_Payload bs cb :
  find_payload bs = Some cb → ∃ p, block cb = Payload p.
Proof.
  induction bs as [|c bs IH]; simpl; [done|]. case_match eqn:E; [|done].
  intros [= <-]. destruct (block c); try done. by eexists.
Qed.

Lemma payload_block_Ok {E} b :
  is_Some (find_payload (blocks b)) →
  ∃ p, payload_block (E := E) b = Ok p ∧ payload_bytes b = data p.
Proof.
  intros [cb Hcb]. unfold payload_bytes, payload_block, payload_canonical_block.
  rewrite Hcb. ored. destruct (find_payload_Payload _ _ Hcb) as [p ->]. eauto.
Qed.

Lemma lor_FRAGMENT_contains f : contains (Z.lor f BundleFlags.FRAGMENT) BundleFlags.FRAGMENT = true.
Proof.
  unfold BundleFlags.FRAGMENT. change 0x1 with (2 ^ 0). rewrite contains_bit by done.
  by rewrite Z.lor_spec, orb_true_r.
Qed.

Section fragment_of.
Context (pb : PrimaryBlock) (total : Z).

Lemma fragment_of_offset b : fragment_of pb total b →
  fragment_offset (primary_block b) = Some (offset_key b).
Proof. intros [[o Hp] _ _]. unfold offset_key. by rewrite Hp. Qed.

Lemma fragment_of_total b : fragment_of pb total b →
  total_data_length (primary_block b) = Some total.
Proof. intros [[o Hp] _ _]. by rewrite Hp. Qed.

Lemma fragment_of_flags b : fragment_of pb total b →
  bundle_processing_flags (primary_block b) =
  Z.lor (bundle_processing_flags pb) BundleFlags.FRAGMENT.
Proof. intros [[o Hp] _ _]. by rewrite Hp. Qed.

Lemma fragment_of_equals b c : fragment_of pb total b → fragment_of pb total c →
  Primary.equals_ignoring_fragment_offset (primary_block b) (primary_block c) = true.
Proof.
  intros [[o Hp] _ _] [[o' Hp'] _ _]. apply bool_decide_eq_true. by rewrite Hp, Hp'.
Qed.

Lemma offset_and_len_Ok {E} b : fragment_of pb total b →
  offset_and_len (E := E) b = Ok (range_of b).
Proof.
  intros H. unfold offset_and_len. rewrite (fragment_of_offset b H). ored.
  destruct (payload_block_Ok (E := E) b) as (p & -> & Hp); [by destruct H|]. ored.
  unfold range_of. by rewrite Hp.
Qed.

Lemma mapM_offset_and_len {E} bs : Forall (fragment_of pb total) bs →
  mapM (offset_and_len (E := E)) bs = Ok (map range_of bs).
Proof.
  induction 1 as [|b bs Hb _ IH]; simpl; [done|].
  rewrite offset_and_len_Ok by done. ored. by rewrite IH.
Qed.

Lemma ranges_sorted bs : StronglySorted offset_le bs → StronglySorted range_le (map range_of bs).
Proof.
  induction 1 as [|b bs Hs IH Hf]; simpl; constructor; [done|].
  apply Forall_map. eapply Forall_impl; [done|]. done.
Qed.

Lemma ranges_ok bs : Forall (fragment_of pb total) bs → Forall range_ok (map range_of bs).
Proof. intros H. apply Forall_map. eapply Forall_impl; [done|]. intros b Hb. by destruct Hb. Qed.

(** The answer of [can_reassemble_bundles] without its guards. *)
Lemma can_reassemble_eq {E} bs :
  Forall (fragment_of pb total) bs → bs ≠ [] →
  can_reassemble_bundles (E := E) bs =
  Ok (bool_decide (try_fold 0 (map range_of (sort_by_offset bs)) = Some total),
      sort_by_offset bs).
Proof.
  intros Hf Hne. pose proof (sort_by_offset_perm bs) as Hp.
  assert (Forall (fragment_of pb total) (sort_by_offset bs)) as Hs by by rewrite Hp.
  destruct bs as [|first bs]; [done|]. unfold can_reassemble_bundles.
  pose proof Hf as [Hfirst _]%Forall_cons.
  rewrite (fragment_of_flags _ Hfirst), lor_FRAGMENT_contains. ored.
  assert (∀ (P : Bundle → bool), (∀ b, fragment_of pb total b → P b = true) →
            forallb P (first :: bs) = true) as Hall.
  { intros P HP. apply List.forallb_forall. intros b Hb%list_elem_of_In.
    rewrite Forall_forall in Hf. auto. }
  rewrite (Hall (λ b, Primary.equals_ignoring_fragment_offset _ _)) by eauto using fragment_of_equals.
  ored. rewrite (fragment_of_total _ Hfirst). ored.
  rewrite (Hall (λ b, is_some _)) by (intros b Hb; by rewrite (fragment_of_offset _ Hb)). ored.
  destruct (sort_by_offset (first :: bs)) as [|b l] eqn:El.
  { by apply Permutation_nil_cons in Hp. }
  cbn [lookup list_lookup]. ored. pose proof Hs as [Hb _]%Forall_cons.
  rewrite (fragment_of_offset _ Hb), mapM_offset_and_len by done. ored.
  assert (0 ≤ offset_key b) as Hpos by (by destruct Hb as [_ _ [? _]]).
  case_match eqn:E0.
  - f_equal. f_equal. symmetry. apply bool_decide_eq_false. cbn [map try_fold range_of].
    destruct (offset_key b <? 0) eqn:E1; [lia|]. destruct (0 =? offset_key b) eqn:E2; [lia|done].
  - f_equal. f_equal. destruct (try_fold 0 _) as [len|]; [|by rewrite bool_decide_eq_false_2].
    destruct (Z.eqb_spec len total) as [->|]; [by rewrite bool_decide_eq_true_2|].
    rewrite bool_decide_eq_false_2; [done|congruence].
Qed.

Lemma try_fold_iff_complete bs :
  Forall (fragment_of pb total) bs → bs ≠ [] →
  try_fold 0 (map range_of (sort_by_offset bs)) = Some total ↔ complete total (map range_of bs).
Proof.
  intros Hf Hne. pose proof (sort_by_offset_perm bs) as Hp. rewrite <-Hp at 2.
  assert (Forall (fragment_of pb total) (sort_by_offset bs)) as Hs by by rewrite Hp.
  pose proof (ranges_ok _ Hs) as Hr. split.
  - intros (?&?&?)%try_fold_sound; [|done]. by split.
  - intros [Ht Hc]. apply try_fold_complete; try done.
    + apply ranges_sorted, sort_by_offset_sorted.
    + destruct (sort_by_offset bs) as [|b l]; [by apply Permutation_nil in Hp|].
      apply Forall_cons in Ht as [Ht _]. apply Forall_cons in Hr as [(?&?&?) _]. lia.
Qed.
End fragment_of.

(** ** Slices of a payload *)

(** [b] carries the bytes of [d] at its offset. *)
Definition slice_of (d : bytes) (b : Bundle) : Prop :=
  offset_key b + zlen (payload_bytes b) ≤ zlen d ∧
  payload_bytes b = slice (offset_key b) (offset_key b + zlen (payload_bytes b)) d.

Lemma slice_app {A} (a b c : Z) (l : list A) :
  0 ≤ a ≤ b → b ≤ c → slice a b l ++ slice b c l = slice a c l.
Proof.
  intros Hab Hbc. unfold slice.
  replace (Z.to_nat b) with (Z.to_nat a + Z.to_nat (b - a))%nat by lia.
  rewrite <-drop_drop.
  replace (Z.to_nat (c - a)) with (Z.to_nat (b - a) + Z.to_nat (c - b))%nat by lia.
  by rewrite take_take_drop.
Qed.

Lemma slice_0 {A} n (l : list A) : slice 0 n l = take (Z.to_nat n) l.
Proof. unfold slice. rewrite Z.sub_0_r. done. Qed.

Lemma slice_full {A} (l : list A) : slice 0 (zlen l) l = l.
Proof. rewrite slice_0, Nat2Z.id. apply firstn_all. Qed.

Lemma length_slice {A} a b (l : list A) :
  0 ≤ a ≤ b → b ≤ zlen l → zlen (slice a b l) = b - a.
Proof. intros. unfold slice. rewrite length_take, length_drop. lia. Qed.

Lemma drop_slice {A} a b c (l : list A) :
  0 ≤ a ≤ b → b ≤ c → drop (Z.to_nat (b - a)) (slice a c l) = slice b c l.
Proof.
  intros. unfold slice. rewrite skipn_firstn_comm, drop_drop. f_equal; [lia|]. f_equal. lia.
Qed.

(** Extending a prefix of [d] with slices of [d] the range fold accepts gives
    the longer prefix. *)
Lemma extend_data_slices {E} pb total d bs k r :
  Forall (fragment_of pb total) bs → Forall (slice_of d) bs → 0 ≤ k ≤ zlen d → zlen d < 2 ^ 64 →
  try_fold k (map range_of bs) = Some r →
  extend_data (E := E) (slice 0 k d) bs = Ok (slice 0 r d).
Proof.
  intros Hf Hs. revert k. induction Hf as [|b bs Hb Hf IH]; intros k Hk Hd Hr; simpl.
  { simpl in Hr. by simplify_eq. }
  apply Forall_cons in Hs as [[Hlen Hdata] Hs]. specialize (IH Hs).
  rewrite (fragment_of_offset _ _ _ Hb). ored.
  destruct (payload_block_Ok (E := E) b) as (p & -> & Hp); [by destruct Hb|]. ored.
  rewrite <-Hp. destruct Hb as [_ _ Hrg]. pose proof (range_wrap _ Hrg) as Hw.
  destruct Hrg as (?&?&?); simpl in *.
  rewrite length_slice, Z.sub_0_r, Hw by lia. simpl in Hr. rewrite Hw in Hr.
  assert (Hext : offset_key b ≤ k → k ≤ offset_key b + zlen (payload_bytes b) →
    try_fold (offset_key b + zlen (payload_bytes b)) (map range_of bs) = Some r →
    (assert (wrap64 (k - offset_key b) <=? zlen (payload_bytes b));;
     extend_data (E := E) (slice 0 k d ++ drop (Z.to_nat (wrap64 (k - offset_key b)))
       (payload_bytes b)) bs) = Ok (slice 0 r d)).
  { intros Ho Hn Hr'. rewrite wrap64_small by (unfold u64_ok; lia).
    rewrite (proj2 (Z.leb_le _ _)) by lia. ored. rewrite Hdata, drop_slice by lia.
    rewrite slice_app by lia. apply IH; [lia|done..]. }
  destruct (offset_key b + zlen (payload_bytes b) <? k) eqn:E1;
    destruct (offset_key b <? k) eqn:E2.
  - rewrite Z.max_l in Hr by lia. by apply IH.
  - lia.
  - rewrite Z.max_r in Hr by lia. apply Hext; [lia..|done].
  - destruct (k =? offset_key b) eqn:E3; [|done]. apply Hext; [lia..|done].
Qed.

(** The bundle a complete set of fragments stands for: the first fragment's
    blocks with the whole payload. *)
Definition defragmented (pb : PrimaryBlock) (main : Bundle) (d : bytes) : Bundle :=
  {| primary_block := with_fragment
       (flags_remove (Z.lor (bundle_processing_flags pb) BundleFlags.FRAGMENT)
          BundleFlags.FRAGMENT) None None pb;
     blocks := map (set_payload d) (blocks main) |}.

Lemma set_payload_ok d cb :
  bytes_ok d → zlen d < 2 ^ 63 → canonical_ok cb → canonical_ok (set_payload d cb).
Proof.
  intros ?? (Hb&?&?&?). unfold set_payload. destruct (block cb) eqn:E;
    unfold canonical_ok; simpl; rewrite ?E; done.
Qed.

Lemma with_fragment_ok pb f o t :
  Primary.ok pb → BundleFlags.ok f →
  match o, t with Some o, Some t => u64_ok o ∧ u64_ok t | None, None => True | _, _ => False end →
  Primary.ok (with_fragment f o t pb).
Proof. intros (?&?&?&?&?&?&?&?&_) ??. unfold Primary.ok. simpl. split_and!; done. Qed.

Lemma lor_FRAGMENT_ok f : BundleFlags.ok f → BundleFlags.ok (Z.lor f BundleFlags.FRAGMENT).
Proof. unfold BundleFlags.ok. intros H. rewrite Z.land_lor_distr_l, H. done. Qed.

Lemma remove_FRAGMENT_ok f : BundleFlags.ok f → BundleFlags.ok (flags_remove f BundleFlags.FRAGMENT).
Proof.
  unfold BundleFlags.ok, flags_remove. intros H. apply Z.bits_inj'. intros n Hn.
  rewrite Z.land_spec, Z.ldiff_spec. apply (f_equal (λ z, Z.testbit z n)) in H.
  rewrite Z.land_spec in H.
  by destruct (Z.testbit f n), (Z.testbit BundleFlags.all n), (Z.testbit BundleFlags.FRAGMENT n).
Qed.

Lemma defragmented_ok pb main d :
  Primary.ok pb → Forall canonical_ok (blocks main) → blocks main ≠ [] →
  bytes_ok d → zlen d < 2 ^ 63 → bundle_ok (defragmented pb main d).
Proof.
  intros Hp Hb Hne Hd Hl. split_and!; simpl.
  - apply with_fragment_ok; [done| |done]. apply remove_FRAGMENT_ok, lor_FRAGMENT_ok.
    by destruct Hp as (_&?&_).
  - apply Forall_map. eapply Forall_impl; [done|]. intros. by apply set_payload_ok.
  - by destruct (blocks main).
Qed.

Lemma payload_bytes_defragmented pb main d :
  is_Some (find_payload (blocks main)) → payload_bytes (defragmented pb main d) = d.
Proof.
  intros Hp. unfold payload_bytes, payload_block, payload_canonical_block. simpl.
  induction (blocks main) as [|[[p|?|?|?|?] ???] bl IH]; [by destruct Hp|done|by apply IH..].
Qed.

Section reassembly.
Context `{!SerdeCbor, !SerdeCborLaws}.

Lemma reassemble_slices pb d bs :
  bs ≠ [] → Primary.ok pb → bytes_ok d → zlen d < 2 ^ 63 →
  Forall (fragment_of pb (zlen d)) bs → Forall (slice_of d) bs →
  Forall (λ b, Forall canonical_ok (blocks b)) bs →
  complete (zlen d) (map range_of bs) →
  ∃ main bytes, main ∈ bs ∧ offset_key main = 0 ∧
    bytes_of_bundle (defragmented pb main d) = Ok bytes ∧
    reassemble_bundles bs = Ok bytes.
Proof.
  intros Hne Hpb Hd Hdl Hf Hs Hok Hc. pose proof (sort_by_offset_perm bs) as Hp.
  pose proof (proj2 (try_fold_iff_complete pb (zlen d) bs Hf Hne) Hc) as Htf.
  unfold reassemble_bundles. rewrite (can_reassemble_eq pb (zlen d)) by done.
  rewrite bool_decide_eq_true_2 by done. ored. cbn [negb].
  destruct (sort_by_offset bs) as [|main rest] eqn:El; [by apply Permutation_nil in Hp|].
  assert (main ∈ bs) as Hin by (rewrite <-Hp; left).
  rewrite <-Hp in Hf, Hs, Hok. apply Forall_cons in Hf as [Hm Hf]. apply Forall_cons in Hs as [[? Hsm] Hs].
  apply Forall_cons in Hok as [Hmok _]. rewrite (fragment_of_total _ _ _ Hm). ored.
  pose proof (fragment_of_payload _ _ _ Hm) as Hpay.
  destruct (payload_block_Ok (E := list Bundle) main Hpay) as (p & -> & Hpd). ored. rewrite <-Hpd.
  pose proof (fragment_of_range _ _ _ Hm) as Hrg. pose proof (range_wrap _ Hrg) as Hw.
  destruct Hrg as (?&?&?); cbn [map try_fold range_of fst snd] in *.
  rewrite Hw in Htf. destruct (offset_key main <? 0) eqn:E1; [lia|].
  destruct (0 =? offset_key main) eqn:E2; [|done]. apply Z.eqb_eq in E2. rewrite <-E2 in *.
  rewrite Z.add_0_l in *. rewrite Hsm.
  erewrite extend_data_slices; [|done..|lia|lia|done]. ored. rewrite slice_full.
  destruct (serialize_bundle_wf (defragmented pb main d)) as (q & vs & _ & _ & Hb & _).
  { apply defragmented_ok; try done. destruct Hpay as [? Hpay]. by destruct (blocks main). }
  destruct (fragment_of_primary _ _ _ Hm) as [o Hprim]. rewrite Hprim.
  eexists main, _. split_and!; [done|done|unfold bytes_of_bundle; by rewrite Hb|].
  unfold bytes_of_bundle, defragmented in *. cbn [bundle_processing_flags with_fragment].
  change (with_fragment ?f None None (with_fragment ?a ?b ?c ?p))
    with (with_fragment f None None p). by rewrite Hb.
Qed.

Lemma reassemble_incomplete pb (d : bytes) bs :
  bs ≠ [] → Forall (fragment_of pb (zlen d)) bs → ¬ complete (zlen d) (map range_of bs) →
  reassemble_bundles bs = Err (sort_by_offset bs).
Proof.
  intros Hne Hf Hc. unfold reassemble_bundles. rewrite (can_reassemble_eq pb (zlen d)) by done.
  rewrite bool_decide_eq_false_2; [done|]. by rewrite (try_fold_iff_complete pb).
Qed.
End reassembly.

(** ** What [fragment] builds *)

Abbreviation no_payload := (Forall (λ b : CanonicalBlock, is_payload (block b) = false)).

Lemma clone_canonical_id {E} b :
  is_payload (block b) = false → clone_canonical (E := E) b = Ok b.
Proof. destruct b as [blk n f c]. unfold clone_canonical. by destruct blk. Qed.

Lemma clone_blocks_id {E} bs : no_payload bs → clone_blocks (E := E) bs = Ok bs.
Proof.
  unfold clone_blocks. induction 1 as [|b bs Hb _ IH]; simpl; [done|].
  rewrite clone_canonical_id by done. ored. by rewrite IH.
Qed.

Lemma filter_no_payload (p : CanonicalBlock → bool) bs :
  (∀ b, p b = true → is_payload (block b) = false) → no_payload (List.filter p bs).
Proof.
  intros Hp. apply Forall_forall. intros b Hb%list_elem_of_In.
  apply List.filter_In in Hb as [_ Hb]. auto.
Qed.

Lemma find_payload_app bs cb :
  no_payload bs → is_payload (block cb) = true → find_payload (bs ++ [cb]) = Some cb.
Proof. intros Hbs Hcb. induction Hbs as [|b bs Hb _ IH]; simpl; [by rewrite Hcb|by rewrite Hb]. Qed.

(** The fragment of [n] bytes at [off]. *)
Definition fragment_at (f : fragmentation) (off n : Z) : Bundle :=
  {| primary_block :=
       with_fragment (bundle_processing_flags (new_primary_block f))
         (Some (wrap64 (global_payload_offset f + off)))
         (total_data_length (new_primary_block f)) (new_primary_block f);
     blocks := (if off =? 0 then first_fragment_blocks f else fragment_blocks f) ++
       [with_block (Payload {| data := slice off (off + n) (payload_data f) |})
          (payload_template f)] |}.

Record fragmentation_ok (f : fragmentation) : Prop := {
  fragmentation_first : no_payload (first_fragment_blocks f);
  fragmentation_later : no_payload (fragment_blocks f);
  fragmentation_offset : 0 ≤ global_payload_offset f;
  fragmentation_end : global_payload_offset f + zlen (payload_data f) < 2 ^ 64;
}.

Section chain.
Context `{!SerdeCbor}.

(** The fragments from [off] to the end of the payload. *)
Inductive fragment_chain (f : fragmentation) : Z → list Bundle → Prop :=
| chain_nil : fragment_chain f (zlen (payload_data f)) []
| chain_cons off n bytes bs :
    0 ≤ off → 1 ≤ n → off + n ≤ zlen (payload_data f) →
    bytes_of_bundle (fragment_at f off n) = Ok bytes → zlen bytes ≤ max_size f →
    fragment_chain f (off + n) bs → fragment_chain f off (fragment_at f off n :: bs).

Lemma fragment_step_Ok f off b n :
  fragmentation_ok f → fragment_step f off = Ok (b, n) →
  1 ≤ n ∧ n ≤ zlen (payload_data f) - off ∧ b = fragment_at f off n ∧
  ∃ bytes, bytes_of_bundle b = Ok bytes ∧ zlen bytes ≤ max_size f.
Proof.
  intros [Hf Hl _ _] Hx. unfold fragment_step in Hx.
  apply bind_Ok in Hx as (bl & Hbl & Hx). rewrite clone_blocks_id in Hbl by (by case_match).
  injection Hbl as <-.
  apply bind_Ok in Hx as ([] & Hn%assert_Ok & Hx). apply bind_Ok in Hx as (bytes & Hb & Hx).
  apply bind_Ok in Hx as ([] & Hs%assert_Ok & Hx). injection Hx as <- <-.
  apply Z.leb_le in Hn, Hs. split_and!; [lia|lia|done|]. exists bytes. split; [|done].
  by destruct (bytes_of_bundle _); simplify_eq/=.
Qed.

Lemma fragment_loop_chain fuel f off bs :
  fragmentation_ok f → 0 ≤ off ≤ zlen (payload_data f) →
  zlen (payload_data f) - off ≤ Z.of_nat fuel →
  fragment_loop fuel f off = Ok bs → fragment_chain f off bs.
Proof.
  intros Hf. revert off bs. induction fuel as [|fuel IH]; intros off bs Ho Hfu Hx; simpl in Hx.
  { simplify_eq. replace off with (zlen (payload_data f)) by lia. constructor. }
  case_match eqn:E.
  - apply bind_Ok in Hx as ([b n] & Hs & Hx). apply bind_Ok in Hx as (bs' & Hl & Hx). simplify_eq.
    destruct (fragment_step_Ok f off b n Hf Hs) as (?&?&->&bytes&?&?).
    econstructor; try done; [lia..|]. apply IH; [lia..|done].
  - simplify_eq. replace off with (zlen (payload_data f)) by lia. constructor.
Qed.

Section fragment_at.
Context (f : fragmentation) (Hf : fragmentation_ok f).

Lemma payload_bytes_at off n :
  payload_bytes (fragment_at f off n) = slice off (off + n) (payload_data f).
Proof.
  destruct Hf. unfold payload_bytes, payload_block, payload_canonical_block, fragment_at. simpl.
  rewrite find_payload_app; [done|by case_match|done].
Qed.

Lemma range_of_at off n :
  0 ≤ off → 0 ≤ n → off + n ≤ zlen (payload_data f) →
  range_of (fragment_at f off n) = (global_payload_offset f + off, n).
Proof.
  intros. unfold range_of. rewrite payload_bytes_at, length_slice by lia.
  destruct Hf. unfold offset_key, fragment_at. simpl.
  rewrite wrap64_small by (unfold u64_ok; lia). f_equal; lia.
Qed.

Lemma offset_key_at off n :
  0 ≤ off → 0 ≤ n → off + n ≤ zlen (payload_data f) →
  offset_key (fragment_at f off n) = global_payload_offset f + off.
Proof. intros. by apply (f_equal fst (range_of_at off n ltac:(lia) ltac:(lia) ltac:(lia))). Qed.

Lemma payload_length_at off n :
  0 ≤ off → 0 ≤ n → off + n ≤ zlen (payload_data f) →
  zlen (payload_bytes (fragment_at f off n)) = n.
Proof. intros. by apply (f_equal snd (range_of_at off n ltac:(lia) ltac:(lia) ltac:(lia))). Qed.

Lemma fragment_of_at pb total off n :
  new_primary_block f =
    with_fragment (Z.lor (bundle_processing_flags pb) BundleFlags.FRAGMENT)
      (Some 0) (Some total) pb →
  0 ≤ off → 0 ≤ n → off + n ≤ zlen (payload_data f) →
  fragment_of pb total (fragment_at f off n).
Proof.
  intros Hpb ???. split.
  - eexists. simpl. by rewrite Hpb.
  - simpl. rewrite find_payload_app; [done| |done]. destruct Hf. by case_match.
  - rewrite range_of_at by lia. destruct Hf. unfold range_ok. simpl. lia.
Qed.
End fragment_at.
End chain.

(** Payload length the fragments of [b] announce. *)
Definition total_length (b : Bundle) : Z :=
  default (zlen (payload_bytes b)) (total_data_length (primary_block b)).

Definition extension_blocks (b : Bundle) : list CanonicalBlock :=
  List.filter (λ b, negb (is_payload (block b))) (blocks b).

Section fragment_spec.
Context `{!SerdeCbor}.

(** [f] is the setting of the fragmentation loop for [b]. *)
Record fragmentation_of (b : Bundle) (max : Z) (f : fragmentation) : Prop := {
  fo_max : max_size f = max;
  fo_offset : global_payload_offset f = offset_key b;
  fo_primary : new_primary_block f =
    with_fragment (Z.lor (bundle_processing_flags (primary_block b)) BundleFlags.FRAGMENT)
      (Some 0) (Some (total_length b)) (primary_block b);
  fo_first : first_fragment_blocks f = extension_blocks b;
  fo_later : fragment_blocks f =
    List.filter (λ b, negb (is_payload (block b)) && negb (must_replicate b)) (blocks b);
  fo_template : find_payload (blocks b) = Some (payload_template f);
  fo_data : payload_data f = payload_bytes b;
}.

Lemma fragmentation_of_ok b max f :
  fragmentation_of b max f → bundle_ok b → offset_key b + zlen (payload_bytes b) < 2 ^ 64 →
  fragmentation_ok f.
Proof.
  intros [] ((_&_&_&_&_&_&_&_&Hfr)&_&_) Hlen. split.
  - rewrite fo_first0. apply filter_no_payload. intros cb. by destruct (is_payload _).
  - rewrite fo_later0. apply filter_no_payload. intros cb. by destruct (is_payload _).
  - rewrite fo_offset0. unfold offset_key.
    destruct (fragment_offset _) as [o|], (total_data_length _); simpl; try done.
    by destruct Hfr as [[? _] _].
  - by rewrite fo_offset0, fo_data0.
Qed.

Lemma fragment_Ok b max frags m1 m2 :
  fragment b max = Ok (frags, m1, m2) →
  ∃ f, fragmentation_of b max f ∧ fragment_loop (length (payload_data f)) f 0 = Ok frags ∧
    contains (bundle_processing_flags (primary_block b)) BundleFlags.MUST_NOT_FRAGMENT = false.
Proof.
  intros Hx. unfold fragment in Hx. apply bind_Ok in Hx as (vec & _ & Hx).
  apply bind_Ok in Hx as ([] & _ & Hx).
  case_match eqn:Emnf; [done|]. case_match; [done|].
  apply bind_Ok in Hx as (p & _ & Hx). apply bind_Ok in Hx as ([first min] & _ & Hx).
  case_match; [done|]. apply bind_Ok in Hx as (payload & Hpay & Hx).
  apply bind_Ok in Hx as (fb & Hfb & Hx). apply bind_Ok in Hx as (lb & Hlb & Hx).
  apply bind_Ok in Hx as (tmpl & Htm & Hx). apply bind_Ok in Hx as (fs & Hfs & Hx).
  simplify_eq. unfold payload_canonical_block in Htm. apply unwrap_Ok in Htm.
  rewrite clone_blocks_id in Hfb, Hlb
    by (apply filter_no_payload; intros cb; by destruct (is_payload _)).
  simplify_eq.
  assert (data payload = payload_bytes b) as Hd.
  { destruct (payload_block_Ok (E := FragmentationError) b) as (p' & Hp' & ->); [by eexists|].
    congruence. }
  rewrite Hd in Hfs. eexists. split_and!; [|exact Hfs|done]. by split.
Qed.
End fragment_spec.

(** Consecutive, non-empty fragments from offset [off] on. *)
Fixpoint contiguous (off : Z) (bs : list Bundle) : Prop :=
  match bs with
  | [] => True
  | b :: bs => offset_key b = off ∧ payload_bytes b ≠ [] ∧ contiguous (off + zlen (payload_bytes b)) bs
  end.

Section chain_spec.
Context `{!SerdeCbor} (f : fragmentation) (Hf : fragmentation_ok f).

Lemma chain_concat off bs : fragment_chain f off bs →
  concat (map payload_bytes bs) = slice off (zlen (payload_data f)) (payload_data f).
Proof.
  induction 1 as [|off n bytes bs ????? Hc IH]; simpl.
  - unfold slice. by rewrite Z.sub_diag.
  - rewrite IH, payload_bytes_at, slice_app by (done || lia). done.
Qed.

Lemma chain_contiguous off bs : fragment_chain f off bs →
  contiguous (global_payload_offset f + off) bs.
Proof.
  induction 1 as [|off n bytes bs ????? Hc IH]; cbn [contiguous]; [done|].
  rewrite offset_key_at by (done || lia).
  pose proof (payload_length_at f Hf off n) as Hn. rewrite Hn by lia. split_and!; [done| |].
  - intros E. rewrite E in Hn. specialize (Hn ltac:(lia) ltac:(lia) ltac:(lia)). simpl in Hn. lia.
  - by rewrite <-Z.add_assoc.
Qed.

Lemma chain_Forall (P : Bundle → Prop) off bs : fragment_chain f off bs →
  (∀ o n bytes, off ≤ o → 1 ≤ n → o + n ≤ zlen (payload_data f) →
     bytes_of_bundle (fragment_at f o n) = Ok bytes → zlen bytes ≤ max_size f →
     0 ≤ o → P (fragment_at f o n)) →
  Forall P bs.
Proof.
  induction 1 as [|off n bytes bs ????? Hc IH]; intros HP; constructor.
  - by eapply HP.
  - apply IH. intros. eapply HP; try done; lia.
Qed.

Lemma chain_covers off bs : fragment_chain f off bs → 0 ≤ off →
  ∀ p, global_payload_offset f + off ≤ p < global_payload_offset f + zlen (payload_data f) →
  Exists (in_range p) (map range_of bs).
Proof.
  induction 1 as [|off n bytes bs ????? Hc IH]; intros Ho p Hp; simpl; [lia|].
  rewrite range_of_at by (done || lia).
  destruct (decide (p < global_payload_offset f + off + n)).
  - left. unfold in_range. simpl. lia.
  - right. apply IH; lia.
Qed.

Lemma chain_first bs b : fragment_chain f 0 bs → b ∈ bs → offset_key b = global_payload_offset f →
  ∃ n, b = fragment_at f 0 n.
Proof.
  intros Hc Hb Ho. inversion Hc as [|? n bytes bs' ????? Hc']; subst; [by apply not_elem_of_nil in Hb|].
  apply elem_of_cons in Hb as [->|Hb]; [by eexists|].
  pose proof (chain_Forall (λ b, global_payload_offset f < offset_key b) _ _ Hc') as HF.
  rewrite Forall_forall in HF. apply HF in Hb; [lia|]. intros o m ???????.
  rewrite offset_key_at by (done || lia). lia.
Qed.
End chain_spec.

Lemma extension_blocks_payload_last exts p b :
  blocks b = exts ++ [p] → no_payload exts → is_payload (block p) = true →
  extension_blocks b = exts ∧ find_payload (blocks b) = Some p.
Proof.
  intros Hb He Hp. unfold extension_blocks. rewrite Hb. split; [|by apply find_payload_app].
  rewrite List.filter_app. simpl. rewrite Hp. simpl. rewrite app_nil_r.
  clear Hb. induction He as [|c bs Hc _ IH]; simpl; [done|]. rewrite Hc. simpl. by rewrite IH.
Qed.

Lemma map_set_payload_id d bs : no_payload bs → map (set_payload d) bs = bs.
Proof.
  induction 1 as [|c bs Hc _ IH]; simpl; [done|]. rewrite IH. unfold set_payload.
  by destruct (block c).
Qed.

Lemma remove_lor_FRAGMENT f :
  contains f BundleFlags.FRAGMENT = false →
  flags_remove (Z.lor f BundleFlags.FRAGMENT) BundleFlags.FRAGMENT = f.
Proof.
  unfold BundleFlags.FRAGMENT, flags_remove. change 0x1 with (2 ^ 0).
  rewrite contains_bit by done. intros Hc. apply Z.bits_inj'. intros n Hn.
  rewrite Z.ldiff_spec, Z.lor_spec, Z.pow2_bits_eqb by done.
  destruct (Z.eqb_spec 0 n) as [<-|]; [by rewrite Hc|]. by rewrite orb_false_r, andb_true_r.
Qed.

Lemma find_payload_elem bs cb : find_payload bs = Some cb → cb ∈ bs.
Proof.
  induction bs as [|c bs IH]; simpl; [done|]. case_match; intros; simplify_eq; [left|right; auto].
Qed.

Lemma payload_bytes_ok b :
  bundle_ok b → bytes_ok (payload_bytes b) ∧ zlen (payload_bytes b) < 2 ^ 63.
Proof.
  intros (_ & Hb & _). unfold payload_bytes, payload_block, payload_canonical_block.
  destruct (find_payload (blocks b)) as [cb|] eqn:E; ored; [|by split; [constructor|]].
  destruct (find_payload_Payload _ _ E) as [p Hp]. rewrite Hp.
  rewrite Forall_forall in Hb. destruct (Hb _ (find_payload_elem _ _ E)) as [H _].
  by rewrite Hp in H.
Qed.

Section roundtrip.
Context `{!SerdeCbor}.

Lemma fragment_canonical_ok b max f off n :
  bundle_ok b → fragmentation_of b max f → Forall canonical_ok (blocks (fragment_at f off n)).
Proof.
  intros Hok []. destruct (payload_bytes_ok _ Hok) as [??]. destruct Hok as (_ & Hb & _).
  simpl. apply Forall_app. rewrite Forall_forall in Hb. split.
  - rewrite fo_first0, fo_later0. unfold extension_blocks.
    case_match; apply Forall_forall; intros cb Hcb%list_elem_of_In;
      apply List.filter_In in Hcb as [?%list_elem_of_In _]; auto.
  - apply Forall_singleton. rewrite fo_data0.
    destruct (Hb _ (find_payload_elem _ _ fo_template0)) as (_&?&?&?).
    unfold canonical_ok. simpl. split_and!; try done.
    + by apply bytes_ok_take, bytes_ok_drop.
    + unfold slice. rewrite length_take, length_drop. lia.
Qed.

(** A fragment has checksums only where the bundle has. *)
Lemma fragment_at_no_crc b max f off n :
  bundle_no_crc b → fragmentation_of b max f → bundle_no_crc (fragment_at f off n).
Proof.
  intros [Hp Hb] []. split; simpl; [by rewrite fo_primary0|]. rewrite Forall_forall in Hb.
  apply Forall_app. split.
  - rewrite fo_first0, fo_later0. unfold extension_blocks.
    case_match; apply Forall_forall; intros cb Hcb%list_elem_of_In;
      apply List.filter_In in Hcb as [?%list_elem_of_In _]; auto.
  - apply Forall_singleton. simpl. apply Hb. by apply find_payload_elem.
Qed.

Lemma primary_fragment_ok b max f off n :
  bundle_ok b → fragmentation_of b max f → u64_ok (total_length b) →
  Primary.ok (primary_block (fragment_at f off n)).
Proof.
  intros (Hp & _ & _) [] Ht. simpl. rewrite fo_primary0. simpl.
  apply with_fragment_ok; [|by apply lor_FRAGMENT_ok; destruct Hp as (_&?&_)|].
  - apply with_fragment_ok; [done|by apply lor_FRAGMENT_ok; destruct Hp as (_&?&_)|done].
  - split; [apply wrap64_ok|done].
Qed.
End roundtrip.

(** Fragmentation partitions the payload: when [fragment] succeeds, every
    fragment is a fragment of this bundle of at most [max] bytes, the fragments
    are non-empty and follow each other from the bundle's own offset on, and
    their payloads in order are the payload of the bundle. *)
Theorem fragment_partitions_payload `{!SerdeCbor} b max frags m1 m2 :
  bundle_ok b → offset_key b + zlen (payload_bytes b) < 2 ^ 64 →
  fragment b max = Ok (frags, m1, m2) →
  concat (map payload_bytes frags) = payload_bytes b ∧
  contiguous (offset_key b) frags ∧
  Forall (fragment_of (primary_block b) (total_length b)) frags ∧
  Forall (λ g, ∃ bytes, bytes_of_bundle g = Ok bytes ∧ zlen bytes ≤ max) frags.
Proof.
  intros Hok Hlen Hfr. destruct (fragment_Ok _ _ _ _ _ Hfr) as (f & Hfo & Hl & _).
  pose proof (fragmentation_of_ok _ _ _ Hfo Hok Hlen) as Hf.
  apply fragment_loop_chain in Hl; [|done|lia..]. split_and!.
  - rewrite (chain_concat f Hf _ _ Hl), slice_full. by destruct Hfo.
  - pose proof (chain_contiguous f Hf _ _ Hl) as Hc. rewrite Z.add_0_r in Hc.
    by destruct Hfo as [_ <- _ _ _ _ _].
  - eapply (chain_Forall f); [done|]. intros. apply fragment_of_at; try done; [|lia].
    by destruct Hfo.
  - eapply (chain_Forall f); [done|]. intros. destruct Hfo as [<- _ _ _ _ _ _]. eauto.
Qed.

(** All fragments, in any order and number, are a complete set of slices. *)
Lemma chain_complete_slices `{!SerdeCbor} b max f frags frags' :
  bundle_ok b → fragmentation_of b max f → fragmentation_ok f → fragment_chain f 0 frags →
  (∀ g, g ∈ frags' ↔ g ∈ frags) → payload_bytes b ≠ [] → offset_key b = 0 →
  total_length b = zlen (payload_bytes b) →
  frags' ≠ [] ∧ Forall (fragment_of (primary_block b) (zlen (payload_bytes b))) frags' ∧
  Forall (slice_of (payload_bytes b)) frags' ∧
  Forall (λ g, Forall canonical_ok (blocks g)) frags' ∧
  complete (zlen (payload_bytes b)) (map range_of frags').
Proof.
  intros Hok Hfo Hf Hl Hin Hne Hkey Htot.
  pose proof (fo_data _ _ _ Hfo) as Hdata. pose proof (fo_offset _ _ _ Hfo) as Hglob.
  rewrite Hkey in Hglob.
  assert (∀ P : Bundle → Prop, Forall P frags → Forall P frags') as Hsub.
  { intros P. rewrite !Forall_forall. intros H1 g Hg%Hin. auto. }
  assert (∀ p, 0 ≤ p < zlen (payload_bytes b) → Exists (in_range p) (map range_of frags')) as Hcov.
  { intros p Hp. pose proof (chain_covers f Hf _ _ Hl ltac:(lia) p) as Hc.
    rewrite Hglob, Hdata in Hc. specialize (Hc ltac:(lia)).
    rewrite Exists_exists in *. destruct Hc as (r & Hr & Hpr). exists r. split; [|done].
    apply list_elem_of_fmap in Hr as (g & -> & Hg). apply list_elem_of_fmap. exists g. by rewrite Hin. }
  split_and!; try (apply Hsub, (chain_Forall f _ _ _ Hl); intros).
  - intros ->. destruct (payload_bytes b) as [|x l]; [done|].
    specialize (Hcov 0 ltac:(simpl; lia)). by apply Exists_nil in Hcov.
  - apply fragment_of_at; try done; [|lia]. rewrite <-Htot. by destruct Hfo.
  - split; rewrite offset_key_at, payload_length_at, Hglob by (done || lia).
    + rewrite <-Hdata. lia.
    + by rewrite payload_bytes_at, Hdata.
  - by eapply fragment_canonical_ok.
  - split; [|done]. apply Forall_map, Hsub, (chain_Forall f _ _ _ Hl). intros. unfold compose.
    rewrite range_of_at, Hglob by (done || lia). simpl. rewrite <-Hdata. lia.
Qed.


(** Reassembly is attempted exactly when it is possible: for fragments of one
    bundle, overlapping or repeated or out of order, [can_reassemble_bundles]
    answers [true] iff every byte of the payload is covered (and nothing reaches
    past the announced length), and it leaves the fragments themselves as they
    are, sorted by offset.  (Claim C20.) *)
Theorem can_reassemble_iff_complete {E} pb total bs :
  bs ≠ [] → Forall (fragment_of pb total) bs →
  ∃ r sorted, can_reassemble_bundles (E := E) bs = Ok (r, sorted) ∧
    sorted ≡ₚ bs ∧ StronglySorted offset_le sorted ∧
    (r = true ↔ complete total (map range_of bs)).
Proof.
  intros Hne Hf. rewrite (can_reassemble_eq pb total) by done. eexists _, _. split; [done|].
  split; [apply sort_by_offset_perm|]. split; [apply sort_by_offset_sorted|].
  rewrite bool_decide_eq_true. by apply (try_fold_iff_complete pb).
Qed.

(** Reassembling any complete set of slices of a payload [d], also overlapping
    ones, gives the bundle with the payload [d] and the blocks of a fragment at
    offset 0; an incomplete set is handed back unchanged but sorted. *)
Theorem reassemble_slices_spec `{!SerdeCbor, !SerdeCborLaws} pb d bs :
  bs ≠ [] → Primary.ok pb → bytes_ok d → zlen d < 2 ^ 63 →
  Forall (fragment_of pb (zlen d)) bs → Forall (slice_of d) bs →
  Forall (λ b, Forall canonical_ok (blocks b)) bs →
  (complete (zlen d) (map range_of bs) →
     ∃ main bytes, main ∈ bs ∧ offset_key main = 0 ∧
       bytes_of_bundle (defragmented pb main d) = Ok bytes ∧ reassemble_bundles bs = Ok bytes) ∧
  (¬ complete (zlen d) (map range_of bs) → reassemble_bundles bs = Err (sort_by_offset bs)).
Proof.
  intros. split; [by apply reassemble_slices|by apply (reassemble_incomplete pb)].
Qed.

(** *** Witnesses: the bundle of the unit tests *)
Module FragmentWitness.
Import TestFragment.
Definition b : Bundle := get_test_bundle get_bundle_data.

Lemma b_ok : bundle_ok b.
Proof. solve_ok. Qed.

(** Two overlapping fragments of the payload [1;2;3;4;5], in the wrong order. *)
Definition small (off : Z) (d : bytes) : Bundle :=
  {| primary_block := with_fragment 0x20001 (Some off) (Some 5) (primary_block b);
     blocks := [{| block := Payload {| data := d |}; block_number := 1;
                   block_flags := BlockFlags.empty; block_crc := NoCRC |}] |}.
Definition small_pb : PrimaryBlock := with_fragment 0x20000 None None (primary_block b).

Lemma small_fragment_of off d :
  range_ok (off, zlen d) → fragment_of small_pb 5 (small off d).
Proof. intros Hr. split; [by exists off|by eexists|done]. Qed.
End FragmentWitness.

Lemma fragment_partitions_payload_witness :
  let b := FragmentWitness.b in let frags := TestFragment.fragments_of b 256 in
  concat (map payload_bytes frags) = payload_bytes b ∧
  contiguous (offset_key b) frags ∧
  Forall (fragment_of (primary_block b) (total_length b)) frags ∧
  Forall (λ g, ∃ bytes, bytes_of_bundle g = Ok bytes ∧ zlen bytes ≤ 256) frags.
Proof.
  eapply (fragment_partitions_payload FragmentWitness.b 256 _ 221 211).
  - apply FragmentWitness.b_ok.
  - vm_compute. reflexivity.
  - vm_compute. reflexivity.
Defined.


Lemma can_reassemble_iff_complete_witness :
  ∃ r sorted, can_reassemble_bundles (E := unit)
      [FragmentWitness.small 2 [3; 4; 5]; FragmentWitness.small 0 [1; 2; 3]] = Ok (r, sorted) ∧
    sorted ≡ₚ [FragmentWitness.small 2 [3; 4; 5]; FragmentWitness.small 0 [1; 2; 3]] ∧
    StronglySorted offset_le sorted ∧ (r = true ↔ complete 5 [(2, 3); (0, 3)]).
Proof.
  apply (can_reassemble_iff_complete FragmentWitness.small_pb 5); [done|].
  repeat constructor; by apply FragmentWitness.small_fragment_of.
Defined.

Lemma reassemble_slices_spec_witness :
  ∃ main bytes, main ∈ [FragmentWitness.small 2 [3; 4; 5]; FragmentWitness.small 0 [1; 2; 3]] ∧
    offset_key main = 0 ∧
    bytes_of_bundle (defragmented FragmentWitness.small_pb main [1; 2; 3; 4; 5]) = Ok bytes ∧
    reassemble_bundles [FragmentWitness.small 2 [3; 4; 5]; FragmentWitness.small 0 [1; 2; 3]]
      = Ok bytes.
Proof.
  apply (reassemble_slices_spec FragmentWitness.small_pb [1; 2; 3; 4; 5]).
  - done.
  - solve_ok.
  - solve_ok.
  - reflexivity.
  - repeat constructor; by apply FragmentWitness.small_fragment_of.
  - unfold slice_of. repeat (apply Forall_cons_2; [split; vm_compute; congruence|]). constructor.
  - solve_ok.
  - split; [repeat constructor; vm_compute; congruence|]. intros p Hp.
    destruct (Z_lt_le_dec p 2); [apply Exists_cons_tl, Exists_cons_hd|apply Exists_cons_hd];
      unfold in_range; vm_compute range_of; simpl; change (zlen [1; 2; 3; 4; 5]) with 5 in Hp; lia.
Defined.
