(* ===== verification/FragmentSize.v ===== *)
(** * Sizes of fragments: fragmentation succeeds

    The number of bytes of a bundle in terms of its blocks, the bounds behind
    the constant [PAYLOAD_BLOCK_SERIALIZATION_OVERHEAD], and total correctness of
    [Bundle::fragment]. *)
From Stdlib Require Import Sorting.Sorted.
From S2P Require Import Prelude RustStr Cbor CborRfc Flags CrcTime Endpoint PrimaryBlock Block.
From S2P Require Import Bundle.
From S2P Require Import Fragment.
Import Crc Time.

Lemma head_size_lor_1 f : 0 ≤ f → head_size (Z.lor f 1) = head_size f.
Proof.
  intros Hf. destruct f as [|p|p]; [done| |lia]. destruct p as [p|p|]; [done| |done].
  change (Z.lor (Z.pos p~0) 1) with (Z.pos p~1). rewrite (Pos2Z.inj_xI p), (Pos2Z.inj_xO p).
  assert (0 < Z.pos p) as Hp by done. revert Hp. generalize (Z.pos p). intros k Hk.
  unfold head_size.
  repeat match goal with |- context [?a <? ?b] => destruct (Z.ltb_spec a b) end; lia.
Qed.

Lemma item_size_arr n es : 0 ≤ n < 24 → item_size (Arr (Some n) es) = 1 + items_size es.
Proof. intros. cbn [item_size]. rewrite head_size_small by lia. done. Qed.

Lemma items_size_cons e es : items_size (e :: es) = item_size e + items_size es.
Proof. done. Qed.

Definition crc_size (c : CRCType) : Z :=
  match Crc.serialize_value c with Ok v => item_size v | _ => 0 end.

Lemma crc_size_bound c : Crc.ok c → 0 ≤ crc_size c ≤ 9.
Proof.
  destruct c as [|b0 b1|b0 b1 b2 b3]; unfold crc_size; simpl; [lia| |].
  - intros [??]. unfold u8_ok in *. unfold head_size. simpl. repeat case_match; lia.
  - intros (?&?&?&?). unfold u8_ok in *. unfold head_size. simpl. repeat case_match; lia.
Qed.

Definition fragment_fields_size (pb : PrimaryBlock) : Z :=
  match fragment_offset pb, total_data_length pb with
  | Some o, Some t => head_size o + head_size t
  | _, _ => 0
  end.

Section sizes.
Context `{!SerdeCbor, !SerdeCborLaws}.

Definition primary_size (pb : PrimaryBlock) : Z :=
  match Primary.serialize pb with Ok v => item_size v | _ => 0 end.

Definition block_size (b : CanonicalBlock) : Z :=
  match serialize_block b with Ok v => item_size v | _ => 0 end.

Definition blocks_size (bs : list CanonicalBlock) : Z := foldr Z.add 0 (map block_size bs).

Lemma primary_size_eq pb : Primary.ok pb →
  primary_size pb =
  1 + items_size (Primary.fields pb) + fragment_fields_size pb + crc_size (crc pb).
Proof.
  intros (_&_&Hc&_&_&_&_&_&Hf). unfold primary_size, Primary.serialize, crc_size, fragment_fields_size.
  destruct (fragment_offset pb) as [o|], (total_data_length pb) as [t|]; try done; ored; cbn [is_some];
    unfold no_crc; destruct (crc pb) as [|b0 b1|b0 b1 b2 b3]; ored; cbn [Crc.serialize_value];
    ored; simpl bool_decide; cbn [andb negb is_none is_some]; ored;
    rewrite item_size_arr by lia; rewrite !items_size_app; unfold items_size;
    cbn [fold_right item_size]; lia.
Qed.

Lemma block_size_nonneg b : 0 ≤ block_size b.
Proof. unfold block_size. destruct (serialize_block b); [apply item_size_nonneg|lia..]. Qed.

Lemma blocks_size_nonneg bs : 0 ≤ blocks_size bs.
Proof.
  induction bs as [|b bs IH]; unfold blocks_size in *; simpl; [lia|].
  pose proof (block_size_nonneg b). lia.
Qed.

Lemma blocks_size_app bs1 bs2 : blocks_size (bs1 ++ bs2) = blocks_size bs1 + blocks_size bs2.
Proof. unfold blocks_size. induction bs1 as [|b bs IH]; simpl; [lia|]. rewrite IH. lia. Qed.

Lemma serialize_blocks_size bs : Forall canonical_ok bs →
  ∃ vs, serialize_blocks bs = Ok vs ∧ items_size vs = blocks_size bs.
Proof.
  induction 1 as [|b bs Hb _ IH]; simpl; [by exists []|].
  destruct (serialize_block_wf b Hb) as (v & Hv & _). destruct IH as (vs & -> & Hvs).
  rewrite Hv. ored. exists (v :: vs). split; [done|].
  rewrite items_size_cons. unfold blocks_size, block_size in *. simpl. rewrite Hv. lia.
Qed.

(** The length of a serialized bundle. *)
Lemma bytes_of_bundle_size b : bundle_ok b →
  ∃ bytes, bytes_of_bundle b = Ok bytes ∧
    zlen bytes = 2 + primary_size (primary_block b) + blocks_size (blocks b).
Proof.
  intros Hok. destruct (serialize_bundle_wf b Hok) as (p & vs & Hp & Hvs & Hb & Hw).
  exists (to_vec (Arr None (p :: vs))). unfold bytes_of_bundle. rewrite Hb. split; [done|].
  rewrite length_to_vec by done. destruct Hok as (_ & Hbs & _).
  destruct (serialize_blocks_size _ Hbs) as (vs' & Hvs' & Hsz).
  rewrite Hvs in Hvs'. injection Hvs' as <-.
  unfold primary_size. rewrite Hp, <-Hsz.
  change (item_size (Arr None (p :: vs))) with (2 + items_size (p :: vs)).
  rewrite items_size_cons. lia.
Qed.

(** A fragment's primary block is at most 18 bytes longer: two integers. *)
Lemma primary_size_fragment pb o t :
  Primary.ok pb → u64_ok o → u64_ok t →
  primary_size (with_fragment (Z.lor (bundle_processing_flags pb) BundleFlags.FRAGMENT)
                  (Some o) (Some t) pb) ≤ primary_size pb + 18.
Proof.
  intros Hok Ho Ht. rewrite !primary_size_eq; [|done|].
  2: { apply with_fragment_ok; [done| |done]. apply lor_FRAGMENT_ok. by destruct Hok as (_&?&_). }
  assert (0 ≤ bundle_processing_flags pb) as Hfl.
  { destruct Hok as (_&Hfl&_). by apply bundle_flags_u64 in Hfl as [? _]. }
  assert (0 ≤ fragment_fields_size pb) as Hfs.
  { unfold fragment_fields_size. destruct (fragment_offset pb) as [o'|], (total_data_length pb) as [t'|];
      try lia. pose proof (head_size_bound o'). pose proof (head_size_bound t'). lia. }
  assert (fragment_fields_size (with_fragment (Z.lor (bundle_processing_flags pb)
            BundleFlags.FRAGMENT) (Some o) (Some t) pb) ≤ 18).
  { unfold fragment_fields_size. simpl.
    pose proof (head_size_bound o). pose proof (head_size_bound t). lia. }
  unfold Primary.fields. cbn [version bundle_processing_flags crc destination_endpoint source_node
    report_to creation_timestamp lifetime with_fragment].
  rewrite !items_size_cons. unfold BundleFlags.serialize. cbn [item_size].
  unfold BundleFlags.FRAGMENT in *. rewrite head_size_lor_1 by done. lia.
Qed.

(** A payload block is at most 39 bytes longer than its payload. *)
Lemma payload_block_size_bound cb d :
  canonical_ok cb → block_size (with_block (Payload {| data := d |}) cb) ≤ zlen d + 39.
Proof.
  intros (_&_&_&Hc). pose proof (crc_size_bound _ Hc) as Hcs. unfold crc_size in Hcs.
  unfold block_size, serialize_block. cbn [block block_number block_flags block_crc with_block block_data].
  pose proof (head_size_bound (block_number cb)). pose proof (head_size_bound (block_flags cb)).
  pose proof (head_size_bound (zlen d)).
  unfold no_crc. destruct (block_crc cb) as [|b0 b1|b0 b1 b2 b3]; simpl bool_decide;
    cbn [Crc.serialize_value] in *; ored; ored; rewrite item_size_arr by lia; cbn [app];
    rewrite !items_size_cons; cbn [item_size items_size fold_right serialize_payload data
      BlockFlags.serialize Crc.serialize block_type_num] in *; unfold items_size; cbn [fold_right];
    rewrite ?(head_size_small 1), ?(head_size_small 0), ?(head_size_small 2) in * by lia; lia.
Qed.

(** The sums the first loop of [fragment] computes. *)
Lemma add_block_sizes_eq bs first min : Forall canonical_ok bs →
  add_block_sizes bs first min =
  Ok (first + blocks_size (List.filter (λ b, negb (is_payload (block b))) bs),
      min + blocks_size (List.filter (λ b, negb (is_payload (block b)) && must_replicate b) bs)).
Proof.
  intros Hbs. revert first min. induction Hbs as [|b bs Hb _ IH]; intros first min; simpl.
  { unfold blocks_size. simpl. by rewrite !Z.add_0_r. }
  destruct (is_payload (block b)); simpl; [apply IH|].
  destruct (serialize_block_wf b Hb) as (v & Hv & Hw). rewrite Hv. ored. rewrite IH.
  rewrite length_to_vec by done. unfold blocks_size.
  destruct (must_replicate b); simpl; unfold block_size; rewrite Hv; do 2 f_equal; lia.
Qed.
End sizes.

(** ** Total correctness of [fragment] *)

(** The extension blocks the source counts for, and the ones it puts into, the
    fragments after the first. *)
Definition counted_later (b : Bundle) : list CanonicalBlock :=
  List.filter (λ b, negb (is_payload (block b)) && must_replicate b) (blocks b).
Definition carried_later (b : Bundle) : list CanonicalBlock :=
  List.filter (λ b, negb (is_payload (block b)) && negb (must_replicate b)) (blocks b).

Section succeeds.
Context `{!SerdeCbor, !SerdeCborLaws}.

(** The values of [first_fragment_min_size] and [fragment_min_size]. *)
Definition first_min_size (b : Bundle) : Z :=
  primary_size (primary_block b) + 128 + 2 + blocks_size (extension_blocks b).
Definition later_min_size (b : Bundle) : Z :=
  primary_size (primary_block b) + 128 + 2 + blocks_size (counted_later b).

Lemma counted_carried b :
  blocks_size (extension_blocks b) = blocks_size (counted_later b) + blocks_size (carried_later b).
Proof.
  unfold extension_blocks, counted_later, carried_later, blocks_size.
  induction (blocks b) as [|c bs IH]; simpl; [done|].
  destruct (is_payload (block c)), (must_replicate c); simpl; lia.
Qed.

Lemma later_le_first b : later_min_size b ≤ first_min_size b.
Proof.
  unfold later_min_size, first_min_size. pose proof (counted_carried b).
  pose proof (blocks_size_nonneg (carried_later b)). lia.
Qed.

Lemma fragment_at_ok b max f off n :
  bundle_ok b → fragmentation_of b max f → u64_ok (total_length b) →
  bundle_ok (fragment_at f off n).
Proof.
  intros Hok Hfo Ht. split_and!.
  - by eapply primary_fragment_ok.
  - by eapply fragment_canonical_ok.
  - simpl. intros E. by apply app_eq_nil in E as [_ ?].
Qed.

(** The size of a fragment with [n] bytes of payload. *)
Lemma fragment_at_size b max f off n bytes :
  bundle_ok b → fragmentation_of b max f → fragmentation_ok f → u64_ok (total_length b) →
  0 ≤ off → 0 ≤ n → off + n ≤ zlen (payload_data f) →
  bytes_of_bundle (fragment_at f off n) = Ok bytes →
  zlen bytes ≤ primary_size (primary_block b) + 59 + n +
    blocks_size (if off =? 0 then extension_blocks b else carried_later b).
Proof.
  intros Hok Hfo Hf Ht Ho Hn Hle Hb.
  destruct (bytes_of_bundle_size _ (fragment_at_ok _ _ _ off n Hok Hfo Ht)) as (bytes' & Hb' & Hsz).
  rewrite Hb' in Hb. injection Hb as ->. rewrite Hsz. clear Hsz Hb'. simpl.
  rewrite blocks_size_app.
  replace (if off =? 0 then first_fragment_blocks f else fragment_blocks f)
    with (if off =? 0 then extension_blocks b else carried_later b)
    by (destruct Hfo; by case_match).
  rewrite (fo_primary _ _ _ Hfo).
  change (with_fragment ?a ?c ?d (with_fragment _ _ _ ?p)) with (with_fragment a c d p).
  cbn [bundle_processing_flags total_data_length with_fragment].
  pose proof (primary_size_fragment (primary_block b)
    (wrap64 (global_payload_offset f + off)) (total_length b)
    (proj1 Hok) (wrap64_ok _) Ht) as Hps.
  assert (canonical_ok (payload_template f)) as Htok.
  { destruct Hok as (_ & Hbs & _). rewrite Forall_forall in Hbs.
    apply Hbs, find_payload_elem. by destruct Hfo. }
  pose proof (payload_block_size_bound (payload_template f)
    (slice off (off + n) (payload_data f)) Htok) as Hpl.
  rewrite length_slice in Hpl by lia.
  unfold blocks_size at 2. simpl. lia.
Qed.

(** What is assumed of the bundle and the maximal size. *)
Record can_fragment (b : Bundle) (max : Z) : Prop := {
  cf_ok : bundle_ok b;
  cf_total : u64_ok (total_length b);
  cf_end : offset_key b + zlen (payload_bytes b) < 2 ^ 64;
  cf_payload : is_Some (find_payload (blocks b));
  cf_max : first_min_size b < max;
  cf_replicated : blocks_size (carried_later b) ≤ blocks_size (counted_later b) + 64;
}.

Lemma fragment_step_succeeds b max f off :
  can_fragment b max → fragmentation_of b max f →
  first_fragment_min_size f = first_min_size b → fragment_min_size f = later_min_size b →
  0 ≤ off < zlen (payload_data f) →
  ∃ n, 1 ≤ n ∧ off + n ≤ zlen (payload_data f) ∧ fragment_step f off = Ok (fragment_at f off n, n).
Proof.
  intros [Hok Htot Hend Hpay Hmax Hrep] Hfo Hm1 Hm2 Hoff.
  pose proof (fragmentation_of_ok _ _ _ Hfo Hok Hend) as Hf. pose proof (later_le_first b).
  set (n := Z.min (zlen (payload_data f) - off)
              (max_size f - if off =? 0 then first_fragment_min_size f else fragment_min_size f)).
  pose proof (fo_max _ _ _ Hfo) as Hmx.
  assert (1 ≤ n) by (unfold n; case_match; lia).
  assert (off + n ≤ zlen (payload_data f)) by lia.
  exists n. split_and!; [done..|].
  unfold fragment_step. rewrite clone_blocks_id by (destruct Hf; by case_match). ored. fold n.
  rewrite (proj2 (Z.leb_le 1 n)) by done. ored.
  destruct (bytes_of_bundle_size _ (fragment_at_ok _ _ _ off n Hok Hfo Htot)) as (bytes & Hb & _).
  pose proof (fragment_at_size b max f off n bytes Hok Hfo Hf Htot ltac:(lia) ltac:(lia) ltac:(lia) Hb)
    as Hsz.
  unfold fragment_at in Hb. rewrite Hb. ored.
  assert (zlen bytes ≤ max_size f) as Hle.
  { pose proof (counted_carried b). pose proof (blocks_size_nonneg (counted_later b)).
    unfold first_min_size, later_min_size in *. unfold n in Hsz. case_match; lia. }
  rewrite (proj2 (Z.leb_le _ _)) by done. done.
Qed.

Lemma fragment_loop_succeeds b max f fuel off :
  can_fragment b max → fragmentation_of b max f →
  first_fragment_min_size f = first_min_size b → fragment_min_size f = later_min_size b →
  0 ≤ off → ∃ frags, fragment_loop fuel f off = Ok frags.
Proof.
  intros Hc Hfo H1 H2. revert off. induction fuel as [|fuel IH]; intros off Ho; simpl; [by eexists|].
  destruct (Z.ltb_spec off (zlen (payload_data f))); [|by eexists].
  destruct (fragment_step_succeeds b max f off) as (n & ? & ? & ->); try done.
  ored. destruct (IH (off + n)) as [frags ->]; [lia|]. by eexists.
Qed.
End succeeds.

Lemma primary_size_to_vec `{!SerdeCbor, !SerdeCborLaws} pb :
  Primary.ok pb → ∃ p, Primary.serialize pb = Ok p ∧ zlen (to_vec p) = primary_size pb.
Proof.
  intros Hp. destruct (Primary.primary_serialize_wf pb Hp) as (p & Hs & Hw).
  exists p. split; [done|]. unfold primary_size. by rewrite Hs, length_to_vec.
Qed.

(** [fragment] past its checks: the loop with the computed minimal sizes. *)
Lemma fragment_unfold `{!SerdeCbor, !SerdeCborLaws} b max bytes :
  bundle_ok b → is_Some (find_payload (blocks b)) →
  bytes_of_bundle b = Ok bytes → max < zlen bytes →
  contains (bundle_processing_flags (primary_block b)) BundleFlags.MUST_NOT_FRAGMENT = false →
  (contains (bundle_processing_flags (primary_block b)) BundleFlags.FRAGMENT = true →
     fragment_offset (primary_block b) ≠ None) →
  first_min_size b ≤ max →
  ∃ f, fragmentation_of b max f ∧ first_fragment_min_size f = first_min_size b ∧
    fragment_min_size f = later_min_size b ∧
    fragment b max = (frags ← fragment_loop (length (payload_data f)) f 0;
                      Ok (frags, first_min_size b, later_min_size b)).
Proof.
  intros Hok Hpay Hbytes Hlen Hmnf Hfr Hmin. unfold fragment. rewrite Hbytes. ored.
  rewrite (proj2 (Z.ltb_lt _ _)) by done. ored. rewrite Hmnf.
  destruct (contains _ BundleFlags.FRAGMENT && _) eqn:E.
  { apply andb_true_iff in E as [E1 E2]. specialize (Hfr E1). pose proof Hok as ((_&_&_&_&_&_&_&_&Ht)&_).
    by destruct (fragment_offset _), (total_data_length _). }
  destruct (primary_size_to_vec (primary_block b)) as (p & -> & Hp); [by destruct Hok|]. ored.
  rewrite add_block_sizes_eq by apply Hok. ored. rewrite Hp.
  fold (extension_blocks b) (counted_later b).
  unfold PAYLOAD_BLOCK_SERIALIZATION_OVERHEAD, BUNDLE_SERIALIZATION_OVERHEAD.
  fold (first_min_size b) (later_min_size b). pose proof (later_le_first b).
  rewrite (proj2 (Z.ltb_ge max (first_min_size b))) by done.
  rewrite (proj2 (Z.ltb_ge max (later_min_size b))) by lia. cbn [orb].
  destruct (payload_block_Ok (E := FragmentationError) b Hpay) as (pl & -> & Hpd). ored.
  rewrite !clone_blocks_id by (apply filter_no_payload; intros cb; by destruct (is_payload _)). ored.
  destruct Hpay as [tmpl Ht]. unfold payload_canonical_block. rewrite Ht. ored. rewrite <-Hpd.
  exists {| max_size := max; first_fragment_min_size := first_min_size b;
            fragment_min_size := later_min_size b; global_payload_offset := offset_key b;
            new_primary_block :=
              with_fragment (Z.lor (bundle_processing_flags (primary_block b)) BundleFlags.FRAGMENT)
                (Some 0) (Some (total_length b)) (primary_block b);
            first_fragment_blocks := extension_blocks b; fragment_blocks := carried_later b;
            payload_template := tmpl; payload_data := payload_bytes b |}.
  split_and!; [by split|done..].
Qed.

(** The loop returns, with the fragments of the whole payload. *)
Lemma fragment_returns `{!SerdeCbor, !SerdeCborLaws} b max bytes :
  can_fragment b max → bytes_of_bundle b = Ok bytes → max < zlen bytes →
  contains (bundle_processing_flags (primary_block b)) BundleFlags.MUST_NOT_FRAGMENT = false →
  (contains (bundle_processing_flags (primary_block b)) BundleFlags.FRAGMENT = true →
     fragment_offset (primary_block b) ≠ None) →
  ∃ f frags, fragmentation_of b max f ∧ fragmentation_ok f ∧ fragment_chain f 0 frags ∧
    fragment b max = Ok (frags, first_min_size b, later_min_size b).
Proof.
  intros Hc Hb Hlen Hmnf Hfr. pose proof Hc as [Hok Htot Hend Hpay Hmax Hrep].
  destruct (fragment_unfold b max bytes) as (f & Hfo & H1 & H2 & ->); try done; [lia|].
  destruct (fragment_loop_succeeds b max f (length (payload_data f)) 0) as [frags Hl]; try done.
  pose proof (fragmentation_of_ok _ _ _ Hfo Hok Hend) as Hf.
  exists f, frags. rewrite Hl. split_and!; try done. apply fragment_loop_chain in Hl; [done..|lia|lia].
Qed.


(** A size that is exactly the minimum is not rejected but panics: with
    [max = first_min_size b] the guard [first_fragment_min_size > max_size] lets
    the bundle pass and the assertion that a fragment carries payload fails. *)
Theorem fragment_exact_minimum_panics `{!SerdeCbor, !SerdeCborLaws} b bytes :
  bundle_ok b → is_Some (find_payload (blocks b)) → payload_bytes b ≠ [] →
  bytes_of_bundle b = Ok bytes → first_min_size b < zlen bytes →
  contains (bundle_processing_flags (primary_block b)) BundleFlags.MUST_NOT_FRAGMENT = false →
  (contains (bundle_processing_flags (primary_block b)) BundleFlags.FRAGMENT = true →
     fragment_offset (primary_block b) ≠ None) →
  offset_key b + zlen (payload_bytes b) < 2 ^ 64 →
  fragment b (first_min_size b) = Panic.
Proof.
  intros Hok Hpay Hne Hb Hlen Hmnf Hfr Hend.
  destruct (fragment_unfold b (first_min_size b) bytes) as (f & Hfo & H1 & H2 & ->); try done.
  pose proof (fragmentation_of_ok _ _ _ Hfo Hok Hend) as Hf.
  pose proof (fo_data _ _ _ Hfo) as Hd. pose proof (fo_max _ _ _ Hfo) as Hm.
  destruct (length (payload_data f)) as [|k] eqn:El.
  { rewrite Hd in El. by destruct (payload_bytes b). }
  simpl. rewrite El. simpl. unfold fragment_step. simpl.
  rewrite clone_blocks_id by (by destruct Hf). ored. rewrite Hm, H1, Z.sub_diag.
  destruct (Z.min _ 0) eqn:Emin; simpl; try done. lia.
Qed.

(** Blocks that must be replicated are not: every fragment but the first carries
    exactly the extension blocks that are not flagged
    [MUST_REPLICATE_TO_ALL_FRAGMENTS]. *)
Theorem fragment_drops_replicated_blocks `{!SerdeCbor} b max frags m1 m2 g :
  bundle_ok b → offset_key b + zlen (payload_bytes b) < 2 ^ 64 →
  fragment b max = Ok (frags, m1, m2) → g ∈ frags → offset_key g ≠ offset_key b →
  ∃ pl, blocks g = carried_later b ++ [pl] ∧ is_payload (block pl) = true.
Proof.
  intros Hok Hend Hfr Hg Ho. destruct (fragment_Ok _ _ _ _ _ Hfr) as (f & Hfo & Hl & _).
  pose proof (fragmentation_of_ok _ _ _ Hfo Hok Hend) as Hf.
  apply fragment_loop_chain in Hl; [|done|lia..].
  assert (Forall (λ g, offset_key g ≠ offset_key b →
    ∃ pl, blocks g = carried_later b ++ [pl] ∧ is_payload (block pl) = true) frags) as HF.
  { eapply (chain_Forall f); [done|]. intros o n ??????? Hne.
    rewrite offset_key_at, (fo_offset _ _ _ Hfo) in Hne by (done || lia).
    eexists. simpl. destruct (o =? 0) eqn:E0; [lia|]. rewrite (fo_later _ _ _ Hfo). done. }
  rewrite Forall_forall in HF. auto.
Qed.

(** *** Witnesses *)
Module SizeWitness.
Definition b : Bundle := FragmentWitness.b.

Lemma b_can_fragment : can_fragment b 256.
Proof.
  split.
  - apply FragmentWitness.b_ok.
  - solve_ok.
  - vm_compute. reflexivity.
  - by eexists.
  - vm_compute. reflexivity.
  - vm_compute. congruence.
Qed.

(** The same bundle with a hop count block that must be replicated. *)
Definition replicated : Bundle :=
  {| primary_block := primary_block b;
     blocks := [{| block := HopCount {| limit := 32; count := 0 |}; block_number := 2;
                   block_flags := BlockFlags.MUST_REPLICATE_TO_ALL_FRAGMENTS;
                   block_crc := NoCRC |};
                {| block := Payload {| data := TestFragment.get_bundle_data |}; block_number := 1;
                   block_flags := BlockFlags.empty; block_crc := NoCRC |}] |}.
End SizeWitness.


Lemma fragment_exact_minimum_panics_witness :
  fragment SizeWitness.b (first_min_size SizeWitness.b) = Panic.
Proof.
  eapply (fragment_exact_minimum_panics SizeWitness.b).
  - apply FragmentWitness.b_ok.
  - by eexists.
  - vm_compute. congruence.
  - vm_compute. reflexivity.
  - vm_compute. reflexivity.
  - reflexivity.
  - done.
  - vm_compute. reflexivity.
Defined.

(** The second fragment has only its payload block. *)
Lemma fragment_drops_replicated_blocks_witness :
  ∃ g pl, TestFragment.fragments_of SizeWitness.replicated 512 !! 1%nat = Some g ∧
    blocks g = carried_later SizeWitness.replicated ++ [pl] ∧ is_payload (block pl) = true ∧
    carried_later SizeWitness.replicated = [].
Proof.
  destruct (TestFragment.fragments_of SizeWitness.replicated 512 !! 1%nat) as [g|] eqn:E;
    [|vm_compute in E; congruence].
  destruct (fragment_drops_replicated_blocks SizeWitness.replicated 512
    (TestFragment.fragments_of SizeWitness.replicated 512) 221 221 g) as (pl & Hb & Hp).
  - solve_ok.
  - vm_compute. reflexivity.
  - vm_compute. reflexivity.
  - by eapply list_elem_of_lookup_2.
  - vm_compute in E. injection E as <-. vm_compute. congruence.
  - exists g, pl. split; [done|]. split; [done|]. split; [done|]. vm_compute. reflexivity.
Defined.
