(* ===== verification/TcpclMessages.v ===== *)
(** * TCPCL messages and their codec ([tcpcl/src/v4/messages/])

    A decoder reads from a [BytesMut]: a computation on the buffer that returns a
    value and the rest, fails with an [Errors] value, or panics (reading past the
    end, slicing out of range).  After an error the framed reader stops, so the
    buffer of a failed decode is not kept. *)
From S2P Require Import Prelude RustStr Flags.

(** [messages::Errors]; the content of an [std::io::Error] is not used. *)
Inductive MsgErrors :=
| IoError
| InvalidMessageType (t : Z)
| InvalidHeader
| UnkownCriticalSessionExtension (t : Z)
| UnkownCriticalTransferExtension (t : Z)
| SegmentTooLong
| NodeIdInvalid
| InvalidACKValue.

#[export] Instance MsgErrors_eq_dec : EqDecision MsgErrors.
Proof. solve_decision. Defined.

(** ** Reading and writing buffers *)

Definition dec (A : Type) : Type := bytes → outcome MsgErrors (A * bytes).

#[export] Instance dec_ret : MRet dec := fun A a s => Ok (a, s).
#[export] Instance dec_bind : MBind dec := fun A B f m s =>
  match m s with Ok (a, s) => f a s | Err e => Err e | Panic => Panic end.

Definition dec_fail {A} (e : MsgErrors) : dec A := λ _, Err e.
Definition dec_panic {A} : dec A := λ _, Panic.
Definition remaining : dec Z := λ s, Ok (zlen s, s).

(** [get_u8], [get_u16], [get_u32], [get_u64]: big-endian, panic when short. *)
Definition get_be (n : nat) : dec Z := λ s,
  if (length s <? n)%nat then Panic else Ok (be_val (take n s), drop n s).
Definition get_u8 : dec Z := get_be 1.
Definition get_u16 : dec Z := get_be 2.
Definition get_u32 : dec Z := get_be 4.
Definition get_u64 : dec Z := get_be 8.

(** [src.get(0..n).unwrap()] followed by [advance(n)]; [advance(n)]. *)
Definition get_slice (n : Z) : dec bytes := λ s,
  if zlen s <? n then Panic else Ok (take (Z.to_nat n) s, drop (Z.to_nat n) s).
Definition advance (n : Z) : dec unit := λ s,
  if zlen s <? n then Panic else Ok (tt, drop (Z.to_nat n) s).

(** [src[a..b]] without moving the cursor. *)
Definition index (a b : Z) : dec bytes := λ s,
  if zlen s <? b then Panic else Ok (take (Z.to_nat (b - a)) (drop (Z.to_nat a) s), s).

(** [uN::try_from(n).unwrap()] and the big-endian bytes. *)
Definition put_len {E} (w : nat) (n : Z) : outcome E bytes :=
  if n <? 256 ^ Z.of_nat w then Ok (be_bytes w n) else Panic.

(** ** Contact header *)
Module ContactHeaderMsg.
Definition CAN_TLS : Z := 0x01.
Definition DTN_MAGIC_BYTES : bytes := [0x64; 0x74; 0x6E; 0x21].

Record ContactHeader := { magic : bytes; version : Z; flags : Z }.

Definition new (can_tls : bool) : ContactHeader :=
  {| magic := DTN_MAGIC_BYTES; version := 4;
     flags := if can_tls then Z.lor 0 CAN_TLS else 0 |}.

Definition can_tls (h : ContactHeader) : bool := contains (flags h) CAN_TLS.

Definition decode : dec (option ContactHeader) :=
  r ← remaining;
  if r <? 6 then mret None else
  magic ← get_slice 4;
  if bool_decide (magic ≠ DTN_MAGIC_BYTES) then dec_fail InvalidHeader else
  version ← get_u8;
  flags ← get_u8;
  mret (Some {| magic := magic; version := version;
                flags := from_bits_truncate CAN_TLS flags |}).

Definition encode (h : ContactHeader) : bytes := magic h ++ be_bytes 1 (version h) ++ be_bytes 1 (flags h).

Definition ok (h : ContactHeader) : Prop :=
  magic h = DTN_MAGIC_BYTES ∧ u8_ok (version h) ∧ from_bits_truncate CAN_TLS (flags h) = flags h.
End ContactHeaderMsg.

(** ** Message types *)
Inductive MessageType :=
| TSessInit | TSessTerm | TXferSegment | TXferAck | TXferRefuse | TKeepalive | TMsgReject.

Definition message_type_num (t : MessageType) : Z :=
  match t with
  | TSessInit => 0x07 | TSessTerm => 0x05 | TXferSegment => 0x01 | TXferAck => 0x02
  | TXferRefuse => 0x03 | TKeepalive => 0x04 | TMsgReject => 0x06
  end.

Definition message_type_of (n : Z) : option MessageType :=
  if n =? 0x07 then Some TSessInit else if n =? 0x05 then Some TSessTerm
  else if n =? 0x01 then Some TXferSegment else if n =? 0x02 then Some TXferAck
  else if n =? 0x03 then Some TXferRefuse else if n =? 0x04 then Some TKeepalive
  else if n =? 0x06 then Some TMsgReject else None.

#[export] Instance MessageType_eq_dec : EqDecision MessageType.
Proof. solve_decision. Defined.

(** ** MSG_REJECT *)
Module MsgRejectMsg.
Inductive ReasonCode := Unkown | MessageTypeUnkown | MessageUnsupported | MessageUnexpected.

Definition reason_num (r : ReasonCode) : Z :=
  match r with
  | Unkown => 0 | MessageTypeUnkown => 1 | MessageUnsupported => 2 | MessageUnexpected => 3
  end.
(** [try_into().unwrap_or(Unkown)] *)
Definition reason_of (n : Z) : ReasonCode :=
  if n =? 1 then MessageTypeUnkown else if n =? 2 then MessageUnsupported
  else if n =? 3 then MessageUnexpected else Unkown.

Record MsgReject := { reason : ReasonCode; message_header : Z }.

Definition decode : dec (option MsgReject) :=
  r ← remaining;
  if r <? 2 then mret None else
  reason ← get_u8;
  message_header ← get_u8;
  mret (Some {| reason := reason_of reason; message_header := message_header |}).

Definition encode (m : MsgReject) : bytes :=
  be_bytes 1 (reason_num (reason m)) ++ be_bytes 1 (message_header m).

Definition ok (m : MsgReject) : Prop := u8_ok (message_header m).
End MsgRejectMsg.

(** ** SESS_TERM *)
Module SessTermMsg.
Definition REPLY : Z := 0x01.

Inductive ReasonCode :=
| Unkown | IdleTimeout | VersionMissmatch | Busy | ContactFailure | ResourceExhaustion.

Definition reason_num (r : ReasonCode) : Z :=
  match r with
  | Unkown => 0 | IdleTimeout => 1 | VersionMissmatch => 2 | Busy => 3
  | ContactFailure => 4 | ResourceExhaustion => 5
  end.
Definition reason_of (n : Z) : ReasonCode :=
  if n =? 1 then IdleTimeout else if n =? 2 then VersionMissmatch else if n =? 3 then Busy
  else if n =? 4 then ContactFailure else if n =? 5 then ResourceExhaustion else Unkown.

Record SessTerm := { flags : Z; reason : ReasonCode }.

Definition new (reason : ReasonCode) (reply : bool) : SessTerm :=
  {| flags := if reply then REPLY else 0; reason := reason |}.

Definition decode : dec (option SessTerm) :=
  r ← remaining;
  if r <? 2 then mret None else
  flags ← get_u8;
  reason ← get_u8;
  mret (Some {| flags := from_bits_truncate REPLY flags; reason := reason_of reason |}).

Definition encode (m : SessTerm) : bytes :=
  be_bytes 1 (flags m) ++ be_bytes 1 (reason_num (reason m)).

Definition ok (m : SessTerm) : Prop := from_bits_truncate REPLY (flags m) = flags m.
End SessTermMsg.

(** ** Extension items: the layout is shared by sessions and transfers *)
Definition CRITICAL : Z := 0x01.

Record Extension := { ext_flags : Z; extension_type : Z; ext_value : bytes }.

(** [SessionExtension::write], [TransferExtension::write] *)
Definition write_extension {E} (e : Extension) : outcome E bytes :=
  n ← put_len 2 (zlen (ext_value e));
  Ok (be_bytes 1 (ext_flags e) ++ be_bytes 2 (extension_type e) ++ n ++ ext_value e).

Fixpoint write_extensions {E} (es : list Extension) : outcome E bytes :=
  match es with
  | [] => Ok []
  | e :: es => b ← write_extension e; bs ← write_extensions es; Ok (b ++ bs)
  end.

(** The loop [while src.remaining() > target_remaining] of both decoders: an item
    takes at least five bytes, so the buffer bounds the iterations. *)
Fixpoint decode_extensions (decode_one : dec Extension) (critical : Z → MsgErrors)
    (fuel : nat) (target_remaining : Z) : dec (list Extension) :=
  match fuel with
  | O => mret []
  | S fuel =>
      r ← remaining;
      if target_remaining <? r then
        se ← decode_one;
        if contains (ext_flags se) CRITICAL then dec_fail (critical (extension_type se)) else
        rest ← decode_extensions decode_one critical fuel target_remaining;
        mret (se :: rest)
      else mret []
  end.

(** ** SESS_INIT *)
Module SessInitMsg.
Definition KEEPALIVE_DEFAULT_INTERVAL : Z := 60.
Definition MAX_SEGMENT_MRU : Z := 100 * 1024.
Definition MAX_TRANSFER_MRU : Z := 1024 * 1024.

(** [SessionExtension::decode] *)
Definition decode_extension : dec Extension :=
  flags ← get_u8;
  extension_type ← get_u16;
  value_length ← get_u16;
  value ← get_slice value_length;
  mret {| ext_flags := from_bits_truncate CRITICAL flags;
          extension_type := extension_type; ext_value := value |}.

Record SessInit := {
  keepalive_interval : Z;
  segment_mru : Z;
  transfer_mru : Z;
  node_id : bytes;
  session_extensions : list Extension;
}.

Definition new (node_id : bytes) : SessInit :=
  {| keepalive_interval := KEEPALIVE_DEFAULT_INTERVAL; segment_mru := MAX_SEGMENT_MRU;
     transfer_mru := MAX_TRANSFER_MRU; node_id := node_id; session_extensions := [] |}.

Definition decode : dec (option SessInit) :=
  r ← remaining;
  if r <? 24 then mret None else
  l1 ← index 18 20;
  let node_id_length := be_val l1 in
  l2 ← index (20 + node_id_length) (24 + node_id_length);
  let session_extensions_length := be_val l2 in
  let min_size := 2 + 8 + 8 + 2 + 4 + node_id_length + session_extensions_length in
  if r <? min_size then mret None else
  keepalive_interval ← get_u16;
  segment_mru ← get_u64;
  transfer_mru ← get_u64;
  advance 2;;
  node_id ← get_slice node_id_length;
  if negb (utf8_valid node_id) then dec_fail NodeIdInvalid else
  advance 4;;
  r ← remaining;
  session_extensions ←
    decode_extensions decode_extension UnkownCriticalSessionExtension (Z.to_nat r)
      (r - session_extensions_length);
  mret (Some {| keepalive_interval := keepalive_interval; segment_mru := segment_mru;
                transfer_mru := transfer_mru; node_id := node_id;
                session_extensions := session_extensions |}).

Definition encode {E} (m : SessInit) : outcome E bytes :=
  n ← put_len 2 (zlen (node_id m));
  es ← write_extensions (session_extensions m);
  k ← put_len 4 (zlen es);
  Ok (be_bytes 2 (keepalive_interval m) ++ be_bytes 8 (segment_mru m) ++
      be_bytes 8 (transfer_mru m) ++ n ++ node_id m ++ k ++ es).
End SessInitMsg.

(** ** XFER_SEGMENT and XFER_ACK *)
Module XferMsg.
Definition END : Z := 0x01.
Definition START : Z := 0x02.
Definition all_flags : Z := Z.lor END START.

Record XferSegment := {
  seg_flags : Z;
  seg_transfer_id : Z;
  transfer_extensions : list Extension;
  seg_data : bytes;
}.

Record XferAck := { ack_flags : Z; ack_transfer_id : Z; acknowleged_length : Z }.

#[export] Instance XferAck_eq_dec : EqDecision XferAck.
Proof. solve_decision. Defined.

Definition new_segment (flags transfer_id : Z) (data : bytes) : XferSegment :=
  {| seg_flags := flags; seg_transfer_id := transfer_id; transfer_extensions := [];
     seg_data := data |}.

Definition to_xfer_ack (x : XferSegment) (len : Z) : XferAck :=
  {| ack_flags := seg_flags x; ack_transfer_id := seg_transfer_id x; acknowleged_length := len |}.

(** [TransferExtension::decode]: the value starts as [value_length] zero bytes,
    and [put] appends the bytes read to them. *)
Definition decode_extension : dec Extension :=
  flags ← get_u8;
  extension_type ← get_u16;
  value_length ← get_u16;
  r ← remaining;
  (if value_length <=? r then mret tt else dec_panic);;
  value ← get_slice value_length;
  mret {| ext_flags := from_bits_truncate CRITICAL flags;
          extension_type := extension_type;
          ext_value := replicate (Z.to_nat value_length) 0 ++ value |}.

(** The size of the frame without its data, and whether the buffer of [r] bytes
    is too short for it. *)
Definition min_segment_size (flags r : Z) : dec (Z * bool) :=
  if contains flags START then
    l ← index 9 13;
    let min_size := 1 + 8 + 8 + 4 + be_val l in
    mret (min_size, r <? min_size)
  else mret (1 + 8 + 8, false).

Definition decode : dec (option XferSegment) :=
  r ← remaining;
  if r <? 10 then mret None else
  b0 ← index 0 1;
  let flags := from_bits_truncate all_flags (be_val b0) in
  min ← min_segment_size flags r;
  if (min : Z * bool).2 then mret None else
  let min_size := min.1 in
  l ← index (min_size - 8) min_size;
  let data_length := be_val l in
  if SessInitMsg.MAX_SEGMENT_MRU <? data_length then dec_fail SegmentTooLong else
  if r <? min_size + data_length then mret None else
  advance 1;;
  transfer_id ← get_u64;
  transfer_extensions ←
    (if contains flags START then
       r ← remaining;
       (if 12 <=? r then mret tt else dec_panic);;
       transfer_extensions_length ← get_u32;
       r ← remaining;
       (if transfer_extensions_length <=? r then mret tt else dec_panic);;
       decode_extensions decode_extension UnkownCriticalTransferExtension (Z.to_nat r)
         (r - transfer_extensions_length)
     else mret []);
  advance 8;;
  r ← remaining;
  (if data_length <=? r then mret tt else dec_panic);;
  data ← get_slice data_length;
  mret (Some {| seg_flags := flags; seg_transfer_id := transfer_id;
                transfer_extensions := transfer_extensions; seg_data := data |}).

Definition encode {E} (m : XferSegment) : outcome E bytes :=
  ext ← (if contains (seg_flags m) START then
           es ← write_extensions (transfer_extensions m);
           k ← put_len 4 (zlen es);
           Ok (k ++ es)
         else Ok []);
  Ok (be_bytes 1 (seg_flags m) ++ be_bytes 8 (seg_transfer_id m) ++ ext ++
      be_bytes 8 (zlen (seg_data m)) ++ seg_data m).

(** [XferAck::decode] *)
Definition decode_ack : dec (option XferAck) :=
  r ← remaining;
  if r <? 9 then mret None else
  flags ← get_u8;
  transfer_id ← get_u64;
  acknowleged_length ← get_u64;
  mret (Some {| ack_flags := from_bits_truncate all_flags flags;
                ack_transfer_id := transfer_id; acknowleged_length := acknowleged_length |}).

Definition encode_ack (m : XferAck) : bytes :=
  be_bytes 1 (ack_flags m) ++ be_bytes 8 (ack_transfer_id m) ++ be_bytes 8 (acknowleged_length m).
End XferMsg.

(** ** XFER_REFUSE *)
Module XferRefuseMsg.
Inductive ReasonCode :=
| Unkown | Completed | NoResources | Retransmit | NotAcceptable | ExtensionFailure
| SessionTerminating.

Definition reason_num (r : ReasonCode) : Z :=
  match r with
  | Unkown => 0 | Completed => 1 | NoResources => 2 | Retransmit => 3 | NotAcceptable => 4
  | ExtensionFailure => 5 | SessionTerminating => 6
  end.
Definition reason_of (n : Z) : ReasonCode :=
  if n =? 1 then Completed else if n =? 2 then NoResources else if n =? 3 then Retransmit
  else if n =? 4 then NotAcceptable else if n =? 5 then ExtensionFailure
  else if n =? 6 then SessionTerminating else Unkown.

Record XferRefuse := { reason : ReasonCode; transfer_id : Z }.

Definition new (transfer_id : Z) : XferRefuse := {| reason := Unkown; transfer_id := transfer_id |}.

Definition decode : dec (option XferRefuse) :=
  r ← remaining;
  if r <? 5 then mret None else
  reason ← get_u8;
  transfer_id ← get_u64;
  mret (Some {| reason := reason_of reason; transfer_id := transfer_id |}).

Definition encode (m : XferRefuse) : bytes :=
  be_bytes 1 (reason_num (reason m)) ++ be_bytes 8 (transfer_id m).
End XferRefuseMsg.

(** ** All messages and the codec *)
Inductive Messages :=
| MContactHeader (m : ContactHeaderMsg.ContactHeader)
| MSessInit (m : SessInitMsg.SessInit)
| MSessTerm (m : SessTermMsg.SessTerm)
| MKeepalive
| MMsgReject (m : MsgRejectMsg.MsgReject)
| MXferSegment (m : XferMsg.XferSegment)
| MXferAck (m : XferMsg.XferAck)
| MXferRefuse (m : XferRefuseMsg.XferRefuse).

Definition get_message_type {E} (m : Messages) : outcome E MessageType :=
  match m with
  | MContactHeader _ => Panic
  | MSessInit _ => Ok TSessInit
  | MSessTerm _ => Ok TSessTerm
  | MKeepalive => Ok TKeepalive
  | MMsgReject _ => Ok TMsgReject
  | MXferSegment _ => Ok TXferSegment
  | MXferAck _ => Ok TXferAck
  | MXferRefuse _ => Ok TXferRefuse
  end.

Record Codec := { contact_header_done : bool; curr_message_type : option MessageType }.

Definition Codec_default : Codec := {| contact_header_done := false; curr_message_type := None |}.

(** The decoder of each message type. *)
Definition decode_body (t : MessageType) : dec (option Messages) :=
  let lift {A} (c : A → Messages) (d : dec (option A)) : dec (option Messages) :=
    o ← d; mret (c <$> o) in
  match t with
  | TSessInit => lift MSessInit SessInitMsg.decode
  | TSessTerm => lift MSessTerm SessTermMsg.decode
  | TXferSegment => lift MXferSegment XferMsg.decode
  | TXferAck => lift MXferAck XferMsg.decode_ack
  | TXferRefuse => lift MXferRefuse XferRefuseMsg.decode
  | TKeepalive => mret (Some MKeepalive)
  | TMsgReject => lift MMsgReject MsgRejectMsg.decode
  end.

(** [Decoder::decode]: the message, if a whole one is there, and the codec. *)
Definition decode (c : Codec) : dec (option Messages * Codec) :=
  if negb (contact_header_done c) then
    h ← ContactHeaderMsg.decode;
    mret (MContactHeader <$> h,
          match h with
          | Some _ => {| contact_header_done := true; curr_message_type := curr_message_type c |}
          | None => c
          end)
  else
    r ← remaining;
    if r =? 0 then mret (None, c) else
    t ← (match curr_message_type c with
         | Some t => mret t
         | None =>
             n ← get_u8;
             match message_type_of n with
             | Some t => mret t
             | None => dec_fail (InvalidMessageType n)
             end
         end);
    o ← decode_body t;
    mret (o, {| contact_header_done := contact_header_done c;
                curr_message_type := match o with Some _ => None | None => Some t end |}).

(** [Encoder::encode] *)
Definition encode {E} (m : Messages) : outcome E bytes :=
  let tag t body := Ok (be_bytes 1 (message_type_num t) ++ body) in
  match m with
  | MContactHeader m => Ok (ContactHeaderMsg.encode m)
  | MSessInit m => body ← SessInitMsg.encode m; tag TSessInit body
  | MSessTerm m => tag TSessTerm (SessTermMsg.encode m)
  | MKeepalive => tag TKeepalive []
  | MMsgReject m => tag TMsgReject (MsgRejectMsg.encode m)
  | MXferSegment m => body ← XferMsg.encode m; tag TXferSegment body
  | MXferAck m => tag TXferAck (XferMsg.encode_ack m)
  | MXferRefuse m => tag TXferRefuse (XferRefuseMsg.encode m)
  end.

(** [FramedRead] on a buffer that gets no further data: decode until no whole
    message is left.  Every message takes at least one byte. *)
Fixpoint decode_stream (fuel : nat) (c : Codec) (s : bytes)
    : outcome MsgErrors (list Messages * Codec * bytes) :=
  match fuel with
  | O => Ok ([], c, s)
  | S fuel =>
      '(o, c, s) ← decode c s;
      match o with
      | None => Ok ([], c, s)
      | Some m => '(ms, c, s) ← decode_stream fuel c s; Ok (m :: ms, c, s)
      end
  end.

(** ** Lemmas on reading *)

Lemma dec_bind_Ok {A B} (m : dec A) (f : A → dec B) s a s' :
  m s = Ok (a, s') → (m ≫= f) s = f a s'.
Proof. unfold mbind, dec_bind. by intros ->. Qed.

Lemma remaining_bind {B} (f : Z → dec B) s : (remaining ≫= f) s = f (zlen s) s.
Proof. done. Qed.

Lemma mret_bind {A B} (a : A) (f : A → dec B) s : (mret a ≫= f) s = f a s.
Proof. done. Qed.

Lemma get_be_app w z s : 0 ≤ z < 256 ^ Z.of_nat w → get_be w (be_bytes w z ++ s) = Ok (z, s).
Proof.
  intros Hz. unfold get_be. rewrite (proj2 (Nat.ltb_ge _ _)).
  2: { rewrite length_app, length_be_bytes. lia. }
  rewrite take_app_len, drop_app_len, be_val_bytes_small by (done || by rewrite length_be_bytes).
  done.
Qed.

Lemma get_slice_app n l s : n = zlen l → get_slice n (l ++ s) = Ok (l, s).
Proof.
  intros ->. unfold get_slice. rewrite (proj2 (Z.ltb_ge _ _)) by (rewrite length_app; lia).
  by rewrite take_app_len, drop_app_len by lia.
Qed.

Lemma advance_app n l s : n = zlen l → advance n (l ++ s) = Ok (tt, s).
Proof.
  intros ->. unfold advance. rewrite (proj2 (Z.ltb_ge _ _)) by (rewrite length_app; lia).
  by rewrite drop_app_len by lia.
Qed.

Lemma index_app a b l1 l2 l3 :
  a = zlen l1 → b = a + zlen l2 → index a b (l1 ++ l2 ++ l3) = Ok (l2, l1 ++ l2 ++ l3).
Proof.
  intros -> ->. unfold index. rewrite (proj2 (Z.ltb_ge _ _)) by (rewrite !length_app; lia).
  rewrite drop_app_len by lia. by rewrite take_app_len by lia.
Qed.

(** [read_be]: the next field of the buffer is a big-endian integer. *)
Ltac read_be :=
  first
    [ rewrite remaining_bind
    | rewrite mret_bind
    | erewrite dec_bind_Ok by (apply get_be_app; first [done|lia]) ].

Lemma put_len_Ok {E} w n bs :
  put_len (E := E) w n = Ok bs → n < 256 ^ Z.of_nat w ∧ bs = be_bytes w n.
Proof. unfold put_len. case_match eqn:H; [|done]. intros [= <-]. split; [lia|done]. Qed.

(** ** Well-formed messages *)

Definition ext_ok (e : Extension) : Prop :=
  ext_flags e = 0 ∧ u16_ok (extension_type e) ∧ zlen (ext_value e) < 2 ^ 16.

Lemma write_extensions_Ok {E} es :
  Forall ext_ok es →
  ∃ bs, write_extensions (E := E) es = Ok bs ∧ 5 * zlen es ≤ zlen bs.
Proof.
  induction 1 as [|e es (Hf & Ht & Hv) _ IH]; simpl; [by exists []|].
  unfold write_extension, put_len. rewrite (proj2 (Z.ltb_lt _ _)) by done. ored.
  destruct IH as (bs & -> & Hl). ored. eexists. split; [done|].
  rewrite !length_app. simpl in *. rewrite ?length_app in *. simpl in *. lia.
Qed.

(** Reading written extension items back. *)
Lemma decode_extensions_write {E} decode_one critical es bs fuel rest :
  (∀ e b s, ext_ok e → write_extension (E := E) e = Ok b → decode_one (b ++ s) = Ok (e, s)) →
  Forall ext_ok es → write_extensions (E := E) es = Ok bs → (length es ≤ fuel)%nat →
  decode_extensions decode_one critical fuel (zlen rest) (bs ++ rest) = Ok (es, rest).
Proof.
  intros Hone Hes. revert fuel bs. induction Hes as [|e es He Hes IH]; intros fuel bs Hw Hfu; simpl in Hw.
  { simplify_eq. destruct fuel; simpl; [done|]. rewrite remaining_bind.
    by rewrite (proj2 (Z.ltb_ge _ _)) by (simpl; lia). }
  apply bind_Ok in Hw as (b & Hb & Hw). apply bind_Ok in Hw as (bs' & Hbs & Hw). simplify_eq.
  destruct fuel as [|fuel]; simpl in Hfu; [lia|]. cbn [decode_extensions]. rewrite remaining_bind.
  assert (5 ≤ zlen b) as Hlb.
  { unfold write_extension in Hb. apply bind_Ok in Hb as (n & [_ ->]%put_len_Ok & Hb).
    apply Ok_inj in Hb as <-. rewrite !length_app, !length_be_bytes. lia. }
  rewrite (proj2 (Z.ltb_lt _ _)) by (rewrite !length_app; lia). rewrite <-app_assoc.
  rewrite (dec_bind_Ok _ _ _ _ _ (Hone e b _ He Hb)). destruct He as [-> _].
  change (contains 0 CRITICAL) with false. cbv iota. rewrite (dec_bind_Ok _ _ _ es rest); [done|]. apply IH; [done|lia].
Qed.

Lemma session_extension_roundtrip {E} e b s :
  ext_ok e → write_extension (E := E) e = Ok b → SessInitMsg.decode_extension (b ++ s) = Ok (e, s).
Proof.
  intros (Hf & Ht & Hv) Hb. unfold write_extension in Hb.
  apply bind_Ok in Hb as (n & [_ ->]%put_len_Ok & Hb). apply Ok_inj in Hb as <-.
  unfold SessInitMsg.decode_extension, get_u8, get_u16. rewrite <-!app_assoc.
  unfold u16_ok in Ht. rewrite Hf. do 3 read_be.
  rewrite (dec_bind_Ok _ _ _ _ _ (get_slice_app _ _ _ eq_refl)).
  destruct e as [f t v]. simpl in *. by subst.
Qed.

Definition sess_init_ok (m : SessInitMsg.SessInit) : Prop :=
  u16_ok (SessInitMsg.keepalive_interval m) ∧ u64_ok (SessInitMsg.segment_mru m) ∧
  u64_ok (SessInitMsg.transfer_mru m) ∧ utf8_valid (SessInitMsg.node_id m) = true ∧
  zlen (SessInitMsg.node_id m) < 2 ^ 16 ∧ Forall ext_ok (SessInitMsg.session_extensions m) ∧
  match write_extensions (E := unit) (SessInitMsg.session_extensions m) with
  | Ok bs => zlen bs < 2 ^ 32 | _ => False
  end.

Definition flags_ok (all f : Z) : Prop := from_bits_truncate all f = f.

Definition segment_ok (m : XferMsg.XferSegment) : Prop :=
  flags_ok XferMsg.all_flags (XferMsg.seg_flags m) ∧ u64_ok (XferMsg.seg_transfer_id m) ∧
  XferMsg.transfer_extensions m = [] ∧ zlen (XferMsg.seg_data m) ≤ SessInitMsg.MAX_SEGMENT_MRU.

Definition ack_ok (m : XferMsg.XferAck) : Prop :=
  flags_ok XferMsg.all_flags (XferMsg.ack_flags m) ∧ u64_ok (XferMsg.ack_transfer_id m) ∧
  u64_ok (XferMsg.acknowleged_length m).

(** The messages of a session after the contact header. *)
Definition message_ok (m : Messages) : Prop :=
  match m with
  | MContactHeader _ => False
  | MSessInit m => sess_init_ok m
  | MSessTerm m => SessTermMsg.ok m
  | MKeepalive => True
  | MMsgReject m => MsgRejectMsg.ok m
  | MXferSegment m => segment_ok m
  | MXferAck m => ack_ok m
  | MXferRefuse m => u64_ok (XferRefuseMsg.transfer_id m)
  end.

Lemma flags_ok_u8 all f : flags_ok all f → 0 ≤ all < 256 → 0 ≤ f < 256.
Proof. intros <- ?. pose proof (truncate_bound all f). lia. Qed.

(** [read_all] runs a decoder over the fields in front of it. *)
Ltac read_all :=
  unfold get_u8, get_u16, get_u32, get_u64;
  repeat first [read_be | rewrite (dec_bind_Ok _ _ _ _ _ (get_slice_app _ _ _ eq_refl))].

Lemma contact_header_roundtrip m s :
  ContactHeaderMsg.ok m →
  ContactHeaderMsg.decode (ContactHeaderMsg.encode m ++ s) = Ok (Some m, s).
Proof.
  intros (Hm & Hv & Hf). unfold ContactHeaderMsg.decode, ContactHeaderMsg.encode.
  rewrite remaining_bind, Hm, (proj2 (Z.ltb_ge _ _)).
  2: { rewrite !length_app, !length_be_bytes. simpl. lia. }
  rewrite <-!app_assoc. unfold u8_ok in Hv.
  pose proof (flags_ok_u8 _ _ Hf ltac:(vm_compute; split; congruence)).
  erewrite dec_bind_Ok by (by apply get_slice_app).
  rewrite bool_decide_eq_false_2 by naive_solver. read_all.
  rewrite Hf. destruct m. simpl in *. by subst.
Qed.

Lemma sess_term_roundtrip m s :
  SessTermMsg.ok m → SessTermMsg.decode (SessTermMsg.encode m ++ s) = Ok (Some m, s).
Proof.
  intros Hf. unfold SessTermMsg.decode, SessTermMsg.encode.
  rewrite remaining_bind, (proj2 (Z.ltb_ge _ _)).
  2: { rewrite !length_app, !length_be_bytes. simpl. lia. }
  rewrite <-!app_assoc. pose proof (flags_ok_u8 _ _ Hf ltac:(vm_compute; split; congruence)).
  assert (0 ≤ SessTermMsg.reason_num (SessTermMsg.reason m) < 256) by by destruct (SessTermMsg.reason m).
  read_all. unfold SessTermMsg.ok in Hf. rewrite Hf. by destruct m as [? []].
Qed.

Lemma msg_reject_roundtrip m s :
  MsgRejectMsg.ok m → MsgRejectMsg.decode (MsgRejectMsg.encode m ++ s) = Ok (Some m, s).
Proof.
  intros Hf. unfold MsgRejectMsg.ok, u8_ok in Hf. unfold MsgRejectMsg.decode, MsgRejectMsg.encode.
  rewrite remaining_bind, (proj2 (Z.ltb_ge _ _)).
  2: { rewrite !length_app, !length_be_bytes. simpl. lia. }
  rewrite <-!app_assoc.
  assert (0 ≤ MsgRejectMsg.reason_num (MsgRejectMsg.reason m) < 256)
    by by destruct (MsgRejectMsg.reason m).
  read_all. by destruct m as [[] ?].
Qed.

Lemma xfer_refuse_roundtrip m s :
  u64_ok (XferRefuseMsg.transfer_id m) →
  XferRefuseMsg.decode (XferRefuseMsg.encode m ++ s) = Ok (Some m, s).
Proof.
  intros Hf. unfold u64_ok in Hf. unfold XferRefuseMsg.decode, XferRefuseMsg.encode.
  rewrite remaining_bind, (proj2 (Z.ltb_ge _ _)).
  2: { rewrite !length_app, !length_be_bytes. simpl. lia. }
  rewrite <-!app_assoc.
  assert (0 ≤ XferRefuseMsg.reason_num (XferRefuseMsg.reason m) < 256)
    by by destruct (XferRefuseMsg.reason m).
  read_all. by destruct m as [[] ?].
Qed.

Lemma xfer_ack_roundtrip m s :
  ack_ok m → XferMsg.decode_ack (XferMsg.encode_ack m ++ s) = Ok (Some m, s).
Proof.
  intros (Hf & Ht & Ha). unfold u64_ok in *. unfold XferMsg.decode_ack, XferMsg.encode_ack.
  rewrite remaining_bind, (proj2 (Z.ltb_ge _ _)).
  2: { rewrite !length_app, !length_be_bytes. simpl. lia. }
  rewrite <-!app_assoc. pose proof (flags_ok_u8 _ _ Hf ltac:(vm_compute; split; congruence)).
  read_all. unfold flags_ok in Hf. rewrite Hf. by destruct m.
Qed.

(** A segment frame without extension items up to its data. *)
Definition segment_ext (f : Z) : bytes := if contains f XferMsg.START then be_bytes 4 0 else [].
Definition segment_header (f t n : Z) : bytes :=
  be_bytes 1 f ++ be_bytes 8 t ++ segment_ext f ++ be_bytes 8 n.

Lemma encode_segment {E} m : XferMsg.transfer_extensions m = [] →
  XferMsg.encode (E := E) m =
  Ok (segment_header (XferMsg.seg_flags m) (XferMsg.seg_transfer_id m) (zlen (XferMsg.seg_data m))
      ++ XferMsg.seg_data m).
Proof.
  intros He. unfold XferMsg.encode, segment_header, segment_ext. rewrite He.
  destruct (contains _ _); ored; f_equal; by rewrite <-!app_assoc.
Qed.

Lemma segment_header_length f t n : zlen (segment_header f t n) = 17 + zlen (segment_ext f).
Proof. unfold segment_header. rewrite !length_app, !length_be_bytes. lia. Qed.

Lemma segment_ext_length f :
  zlen (segment_ext f) = if contains f XferMsg.START then 4 else 0.
Proof. unfold segment_ext. by case_match. Qed.

Lemma min_segment_size_header f t n tail :
  XferMsg.min_segment_size f (zlen (segment_header f t n ++ tail)) (segment_header f t n ++ tail) =
  Ok ((17 + zlen (segment_ext f), false), segment_header f t n ++ tail).
Proof.
  unfold XferMsg.min_segment_size. pose proof (segment_header_length f t n) as Hl.
  rewrite segment_ext_length in *. unfold segment_header, segment_ext in *.
  destruct (contains f XferMsg.START); [|done].
  rewrite <-!app_assoc in *. rewrite (app_assoc (be_bytes 1 f) (be_bytes 8 t)).
  erewrite dec_bind_Ok by (by apply index_app).
  rewrite be_val_bytes_small by (by simpl). unfold mret, dec_ret. simpl (1 + _).
  rewrite (proj2 (Z.ltb_ge _ _)); [done|]. rewrite !length_app, !length_be_bytes. lia.
Qed.

(** What follows the checks of [XferSegment::decode]: the fields of the frame. *)
Lemma segment_fields f t n tail :
  0 ≤ f < 256 → u64_ok t → u64_ok n → n ≤ zlen tail →
  (advance 1;;
   transfer_id ← get_u64;
   transfer_extensions ←
     (if contains f XferMsg.START then
        r ← remaining;
        (if 12 <=? r then mret tt else dec_panic);;
        transfer_extensions_length ← get_u32;
        r ← remaining;
        (if transfer_extensions_length <=? r then mret tt else dec_panic);;
        decode_extensions XferMsg.decode_extension UnkownCriticalTransferExtension (Z.to_nat r)
          (r - transfer_extensions_length)
      else mret []);
   advance 8;;
   r ← remaining;
   (if n <=? r then mret tt else dec_panic);;
   data ← get_slice n;
   mret (Some {| XferMsg.seg_flags := f; XferMsg.seg_transfer_id := transfer_id;
                 XferMsg.transfer_extensions := transfer_extensions;
                 XferMsg.seg_data := data |})) (segment_header f t n ++ tail) =
  Ok (Some (XferMsg.new_segment f t (take (Z.to_nat n) tail)), drop (Z.to_nat n) tail).
Proof.
  intros Hf Ht Hn Hle. unfold segment_header, u64_ok in *. rewrite <-!app_assoc.
  erewrite dec_bind_Ok by (by apply (advance_app 1 (be_bytes 1 f))). read_all.
  match goal with |- (?m ≫= _) _ = _ =>
    assert (m (segment_ext f ++ be_bytes 8 n ++ tail) = Ok ([], be_bytes 8 n ++ tail)) as Hext
  end.
  { unfold segment_ext. destruct (contains f XferMsg.START); [|done]. rewrite remaining_bind.
    rewrite (proj2 (Z.leb_le _ _)) by (rewrite !length_app, !length_be_bytes; lia).
    read_all. rewrite (proj2 (Z.leb_le _ _)) by lia. read_all. rewrite Z.sub_0_r.
    destruct (Z.to_nat _); [done|]. cbn [decode_extensions]. by rewrite remaining_bind, Z.ltb_irrefl. }
  rewrite (dec_bind_Ok _ _ _ _ _ Hext). clear Hext.
  erewrite dec_bind_Ok by (by apply (advance_app 8 (be_bytes 8 n))). rewrite remaining_bind.
  rewrite (proj2 (Z.leb_le _ _)) by lia. rewrite mret_bind.
  unfold get_slice, mbind, dec_bind. by rewrite (proj2 (Z.ltb_ge _ _)) by lia.
Qed.

(** [XferSegment::decode] behind a whole header: it waits for the data. *)
Lemma xfer_segment_decode f t n tail :
  flags_ok XferMsg.all_flags f → u64_ok t → 0 ≤ n ≤ SessInitMsg.MAX_SEGMENT_MRU →
  XferMsg.decode (segment_header f t n ++ tail) =
  if zlen tail <? n then Ok (None, segment_header f t n ++ tail)
  else Ok (Some (XferMsg.new_segment f t (take (Z.to_nat n) tail)), drop (Z.to_nat n) tail).
Proof.
  intros Hf Ht Hn. pose proof (flags_ok_u8 _ _ Hf ltac:(vm_compute; split; congruence)) as Hf8.
  pose proof (segment_header_length f t n) as Hl.
  assert (u64_ok n) as Hn64 by (unfold u64_ok, SessInitMsg.MAX_SEGMENT_MRU in *; lia).
  unfold XferMsg.decode. rewrite remaining_bind.
  rewrite (proj2 (Z.ltb_ge _ _)) by (rewrite length_app; lia).
  erewrite dec_bind_Ok; [|unfold segment_header; rewrite <-!app_assoc; by apply (index_app 0 1 [])].
  rewrite app_nil_l, be_val_bytes_small by (by simpl). unfold flags_ok in Hf. rewrite Hf.
  replace (be_bytes 1 f ++ be_bytes 8 t ++ segment_ext f ++ be_bytes 8 n ++ tail)
    with (segment_header f t n ++ tail) by (unfold segment_header; by rewrite <-!app_assoc).
  rewrite (dec_bind_Ok _ _ _ _ _ (min_segment_size_header f t n tail)). cbn [fst snd].
  erewrite dec_bind_Ok.
  2: { unfold segment_header. rewrite <-!app_assoc, (app_assoc (be_bytes 1 f) (be_bytes 8 t)),
         (app_assoc (_ ++ _) (segment_ext f)).
       apply (index_app _ _ ((be_bytes 1 f ++ be_bytes 8 t) ++ segment_ext f) (be_bytes 8 n));
         rewrite ?length_app, ?length_be_bytes; lia. }
  rewrite be_val_bytes_small by (unfold u64_ok in Hn64; simpl; lia).
  rewrite (proj2 (Z.ltb_ge SessInitMsg.MAX_SEGMENT_MRU _)) by lia.
  replace (((be_bytes 1 f ++ be_bytes 8 t) ++ segment_ext f) ++ be_bytes 8 n ++ tail)
    with (segment_header f t n ++ tail) by (unfold segment_header; by rewrite <-!app_assoc).
  rewrite length_app, Nat2Z.inj_add, Hl.
  destruct (Z.ltb_spec (zlen tail) n) as [Hs|Hs].
  - by rewrite (proj2 (Z.ltb_lt _ _)) by lia.
  - rewrite (proj2 (Z.ltb_ge _ _)) by lia. by apply segment_fields.
Qed.

Lemma xfer_segment_roundtrip {E} m bs s :
  segment_ok m → XferMsg.encode (E := E) m = Ok bs → XferMsg.decode (bs ++ s) = Ok (Some m, s).
Proof.
  intros (Hf & Ht & He & Hd) Hb. rewrite encode_segment in Hb by done. apply Ok_inj in Hb as <-.
  rewrite <-app_assoc, xfer_segment_decode by (done || lia).
  rewrite (proj2 (Z.ltb_ge _ _)) by (rewrite length_app; lia).
  rewrite take_app_len, drop_app_len by lia. destruct m. simpl in *. by subst.
Qed.

Lemma sess_init_roundtrip {E} m bs s :
  sess_init_ok m → SessInitMsg.encode (E := E) m = Ok bs →
  SessInitMsg.decode (bs ++ s) = Ok (Some m, s).
Proof.
  intros (Hk & Hs & Ht & Hu & Hn & He & Hel) Hb. unfold u16_ok, u64_ok in *.
  destruct m as [k sm tm nid es]. unfold SessInitMsg.encode in Hb.
  cbn [SessInitMsg.keepalive_interval SessInitMsg.segment_mru SessInitMsg.transfer_mru
       SessInitMsg.node_id SessInitMsg.session_extensions] in *.
  apply bind_Ok in Hb as (n & [Hn' ->]%put_len_Ok & Hb).
  apply bind_Ok in Hb as (eb & Heb & Hb). apply bind_Ok in Hb as (kb & [Hkb ->]%put_len_Ok & Hb).
  apply Ok_inj in Hb as <-. rewrite <-!app_assoc.
  destruct (write_extensions_Ok (E := E) es He) as (eb' & Heb' & Hlen).
  rewrite Heb in Heb'. injection Heb' as <-.
  unfold SessInitMsg.decode. rewrite remaining_bind.
  rewrite (proj2 (Z.ltb_ge _ _)) by (rewrite !length_app, !length_be_bytes; lia).
  set (hd := be_bytes 2 k ++ be_bytes 8 sm ++ be_bytes 8 tm).
  replace (be_bytes 2 k ++ be_bytes 8 sm ++ be_bytes 8 tm ++ be_bytes 2 (zlen nid) ++ nid ++
           be_bytes 4 (zlen eb) ++ eb ++ s)
    with (hd ++ be_bytes 2 (zlen nid) ++ nid ++ be_bytes 4 (zlen eb) ++ eb ++ s)
    by (unfold hd; by rewrite <-!app_assoc).
  assert (zlen hd = 18) as Hhd by (unfold hd; rewrite !length_app, !length_be_bytes; lia).
  erewrite dec_bind_Ok by (apply (index_app _ _ hd (be_bytes 2 (zlen nid))); [done|by rewrite length_be_bytes]).
  rewrite be_val_bytes_small by lia.
  rewrite (app_assoc hd), (app_assoc (hd ++ _) nid).
  erewrite dec_bind_Ok by (apply (index_app _ _ ((hd ++ be_bytes 2 (zlen nid)) ++ nid)
    (be_bytes 4 (zlen eb))); rewrite ?length_app, ?length_be_bytes; lia).
  rewrite be_val_bytes_small by lia.
  rewrite (proj2 (Z.ltb_ge _ _)) by (rewrite !length_app, !length_be_bytes; lia).
  unfold hd. rewrite <-!app_assoc. clear Hhd hd. unfold get_u16, get_u64. do 3 read_be.
  erewrite dec_bind_Ok by (by apply (advance_app 2 (be_bytes 2 (zlen nid)))).
  rewrite (dec_bind_Ok _ _ _ _ _ (get_slice_app _ _ _ eq_refl)). rewrite Hu. cbn [negb].
  erewrite dec_bind_Ok by (by apply (advance_app 4 (be_bytes 4 (zlen eb)))). rewrite remaining_bind.
  replace (zlen (eb ++ s) - zlen eb) with (zlen s) by (rewrite length_app; lia).
  erewrite dec_bind_Ok; [|eapply (decode_extensions_write (E := E)); [|done..|]].
  - done.
  - intros e b s' Hx Hy. by eapply session_extension_roundtrip.
  - rewrite length_app. lia.
Qed.

(** ** The codec *)

Lemma encode_Ok {E} m : message_ok m → ∃ bs, encode (E := E) m = Ok bs.
Proof.
  destruct m; simpl; intros Hm; try done; try by eexists.
  - destruct Hm as (_&_&_&_&Hn&He&Hl). unfold SessInitMsg.encode, put_len.
    rewrite (proj2 (Z.ltb_lt _ _)) by lia. ored.
    destruct (write_extensions_Ok (E := E) _ He) as (bs & Hbs & _).
    assert (zlen bs < 2 ^ 32).
    { destruct (write_extensions_Ok (E := unit) _ He) as (bs' & Hbs' & _). rewrite Hbs' in Hl.
      enough (bs = bs') as -> by done. clear Hl. revert bs bs' Hbs Hbs'.
      induction (SessInitMsg.session_extensions m) as [|e es IH]; intros bs bs' H1 H2; simpl in *; [congruence|].
      unfold write_extension, put_len in *. apply Forall_cons in He as [(_&_&Hv) He].
      rewrite (proj2 (Z.ltb_lt _ _)) in H1, H2 by done. ored.
      obind. simplify_eq. f_equal. by apply IH. }
    rewrite Hbs. ored. rewrite (proj2 (Z.ltb_lt _ _)) by lia. by eexists.
  - destruct Hm as (_&_&He&_). unfold XferMsg.encode. rewrite He. case_match; by eexists.
Qed.

Definition session_codec : Codec := {| contact_header_done := true; curr_message_type := None |}.

(** [Encoder::encode] for a sequence of messages. *)
Fixpoint encode_all {E} (ms : list Messages) : outcome E bytes :=
  match ms with
  | [] => Ok []
  | m :: ms => b ← encode m; bs ← encode_all ms; Ok (b ++ bs)
  end.

Lemma message_type_roundtrip t : message_type_of (message_type_num t) = Some t.
Proof. by destruct t. Qed.

(** Reading one tagged message in a session. *)
Lemma decode_tagged t body m s :
  decode_body t (body ++ s) = Ok (Some m, s) →
  decode session_codec ((be_bytes 1 (message_type_num t) ++ body) ++ s) =
  Ok ((Some m, session_codec), s).
Proof.
  intros Hb. unfold decode. cbn [contact_header_done session_codec negb curr_message_type].
  rewrite remaining_bind. rewrite <-app_assoc.
  destruct (Z.eqb_spec (zlen (be_bytes 1 (message_type_num t) ++ body ++ s)) 0) as [H|_].
  { rewrite length_app, length_be_bytes in H. lia. }
  erewrite dec_bind_Ok; [|erewrite dec_bind_Ok by (apply get_be_app; by destruct t);
    by rewrite message_type_roundtrip].
  by rewrite (dec_bind_Ok _ _ _ _ _ Hb).
Qed.

Lemma codec_roundtrip {E} m bs s :
  message_ok m → encode (E := E) m = Ok bs →
  decode session_codec (bs ++ s) = Ok ((Some m, session_codec), s).
Proof.
  intros Hm Hb. destruct m as [m|m|m| |m|m|m|m]; cbn [message_ok encode] in *; [done|..].
  - apply bind_Ok in Hb as (body & Hbody & Hb). apply Ok_inj in Hb as <-. apply decode_tagged.
    unfold decode_body. by erewrite dec_bind_Ok by (by eapply sess_init_roundtrip).
  - apply Ok_inj in Hb as <-. apply decode_tagged.
    unfold decode_body. by erewrite dec_bind_Ok by (by eapply sess_term_roundtrip).
  - apply Ok_inj in Hb as <-. by apply decode_tagged.
  - apply Ok_inj in Hb as <-. apply decode_tagged.
    unfold decode_body. by erewrite dec_bind_Ok by (by eapply msg_reject_roundtrip).
  - apply bind_Ok in Hb as (body & Hbody & Hb). apply Ok_inj in Hb as <-. apply decode_tagged.
    unfold decode_body. by erewrite dec_bind_Ok by (by eapply xfer_segment_roundtrip).
  - apply Ok_inj in Hb as <-. apply decode_tagged.
    unfold decode_body. by erewrite dec_bind_Ok by (by eapply xfer_ack_roundtrip).
  - apply Ok_inj in Hb as <-. apply decode_tagged.
    unfold decode_body. by erewrite dec_bind_Ok by (by eapply xfer_refuse_roundtrip).
Qed.

Lemma encode_all_Ok {E} ms : Forall message_ok ms → ∃ bs, encode_all (E := E) ms = Ok bs.
Proof.
  induction 1 as [|m ms Hm _ [bs IH]]; simpl; [by eexists|].
  destruct (encode_Ok (E := E) m Hm) as [b ->]. ored. rewrite IH. by eexists.
Qed.

Lemma encode_length {E} m bs : message_ok m → encode (E := E) m = Ok bs → (1 ≤ length bs)%nat.
Proof.
  intros Hm Hb. destruct m; cbn [encode message_ok] in *; [done|..]; obind;
    apply Ok_inj in Hb as <-; rewrite length_app, length_be_bytes; lia.
Qed.

Lemma decode_stream_session {E} ms bs fuel :
  Forall message_ok ms → encode_all (E := E) ms = Ok bs → (length bs < fuel)%nat →
  decode_stream fuel session_codec bs = Ok (ms, session_codec, []).
Proof.
  intros Hms. revert bs fuel. induction Hms as [|m ms Hm Hms IH]; intros bs fuel Hb Hfu; simpl in Hb.
  { apply Ok_inj in Hb as <-. by destruct fuel. }
  apply bind_Ok in Hb as (b & Hbm & Hb). apply bind_Ok in Hb as (bs' & Hbs & Hb).
  apply Ok_inj in Hb as <-. pose proof (encode_length m b Hm Hbm).
  destruct fuel as [|fuel]; [lia|]. rewrite length_app in Hfu. cbn [decode_stream].
  rewrite (codec_roundtrip m b bs') by done. ored. rewrite (IH bs') by (done || lia). done.
Qed.

(** The wire format is faithful: a contact header followed by any session
    messages is written, and the receiving codec reads exactly these messages, in
    order, with nothing left over.  (Claim C39.) *)
Theorem tcpcl_stream_roundtrip {E} h ms :
  ContactHeaderMsg.ok h → Forall message_ok ms →
  ∃ bs, encode_all (E := E) (MContactHeader h :: ms) = Ok bs ∧
    decode_stream (S (length bs)) Codec_default bs = Ok (MContactHeader h :: ms, session_codec, []).
Proof.
  intros Hh Hms. destruct (encode_all_Ok (E := E) ms Hms) as [bs Hbs].
  exists (ContactHeaderMsg.encode h ++ bs). cbn [encode_all encode]. ored. rewrite Hbs. split; [done|].
  cbn [decode_stream]. unfold decode. cbn [contact_header_done Codec_default negb].
  rewrite (dec_bind_Ok _ _ _ _ _ (contact_header_roundtrip h bs Hh)). ored.
  unfold mret, dec_ret. ored. fold session_codec.
  rewrite (decode_stream_session (E := E) ms bs); [done..|].
  rewrite length_app. unfold ContactHeaderMsg.encode. rewrite !length_app, !length_be_bytes. lia.
Qed.

(** [decide_field] decides a bound of a concrete message field. *)
Ltac decide_field :=
  first [ apply Forall_nil_2 | reflexivity | vm_compute; reflexivity
        | vm_compute; split; congruence | vm_compute; congruence ].

Module MessageWitness.
Definition segment : Messages := MXferSegment (XferMsg.new_segment XferMsg.all_flags 7 [1; 2; 3]).
Definition ack : XferMsg.XferAck :=
  {| XferMsg.ack_flags := 3; XferMsg.ack_transfer_id := 7; XferMsg.acknowleged_length := 3 |}.
Definition messages : list Messages :=
  [MSessInit (SessInitMsg.new (str "dtn://node1")); segment; MXferAck ack; MKeepalive;
   MSessTerm (SessTermMsg.new SessTermMsg.IdleTimeout false)].
Lemma messages_ok : Forall message_ok messages.
Proof.
  unfold messages. repeat apply Forall_cons_2; try apply Forall_nil_2.
  - unfold message_ok, sess_init_ok. split_and!; decide_field.
  - unfold message_ok, segment_ok. split_and!; decide_field.
  - unfold message_ok, ack_ok. split_and!; decide_field.
  - done.
  - reflexivity.
Qed.
End MessageWitness.

Lemma tcpcl_stream_roundtrip_witness :
  ∃ bs, encode_all (E := unit)
      (MContactHeader (ContactHeaderMsg.new true) :: MessageWitness.messages) = Ok bs ∧
    decode_stream (S (length bs)) Codec_default bs =
    Ok (MContactHeader (ContactHeaderMsg.new true) :: MessageWitness.messages, session_codec, []).
Proof.
  apply (tcpcl_stream_roundtrip (ContactHeaderMsg.new true)).
  - split; [done|]. split; [by vm_compute|done].
  - apply MessageWitness.messages_ok.
Defined.

(** ** Partial frames: what a TCP read may deliver *)

(** A transfer segment split anywhere in its data is waited for: the codec keeps
    the bytes, remembers the message type, and reads the very segment once the
    rest has arrived. *)
Theorem split_segment_is_read {E} m bs k :
  segment_ok m → encode (E := E) (MXferSegment m) = Ok bs → (22 ≤ k < length bs)%nat →
  ∃ c kept, decode session_codec (take k bs) = Ok ((None, c), kept) ∧
    decode c (kept ++ drop k bs) = Ok ((Some (MXferSegment m), session_codec), []).
Proof.
  intros Hm Hb Hk. pose proof Hm as (Hf & Ht & He & Hd). cbn [encode] in Hb.
  apply bind_Ok in Hb as (body & Hbody & Hb). apply Ok_inj in Hb as <-.
  pose proof Hbody as Hbody'. rewrite encode_segment in Hbody' by done. apply Ok_inj in Hbody'.
  set (f := XferMsg.seg_flags m) in *. set (t := XferMsg.seg_transfer_id m) in *.
  set (d := XferMsg.seg_data m) in *. pose proof (segment_header_length f t (zlen d)) as Hl.
  rewrite segment_ext_length in Hl.
  destruct k as [|k]; [lia|].
  change (be_bytes 1 (message_type_num TXferSegment) ++ body) with (1 :: body) in *.
  cbn [take drop] in *. simpl length in Hk.
  exists {| contact_header_done := true; curr_message_type := Some TXferSegment |}, (take k body).
  assert (zlen (segment_header f t (zlen d)) ≤ 21) as Hl21 by (case_match; lia).
  assert (take k body = segment_header f t (zlen d) ++ take (k - length (segment_header f t (zlen d))) d)
    as Htake by (rewrite <-Hbody'; apply take_app_ge; lia).
  split.
  - unfold decode. cbn [contact_header_done session_codec negb curr_message_type].
    rewrite remaining_bind. destruct (Z.eqb_spec (zlen (1 :: take k body)) 0); [simpl in *; lia|].
    erewrite dec_bind_Ok; [|by erewrite dec_bind_Ok by (by apply (get_be_app 1 1))].
    assert (XferMsg.decode (take k body) = Ok (None, take k body)) as Hd0.
    { rewrite Htake, xfer_segment_decode by (done || lia).
      rewrite (proj2 (Z.ltb_lt _ _)); [done|]. rewrite length_take.
      assert (length body = length (segment_header f t (zlen d)) + length d)%nat
        by (rewrite <-Hbody', length_app; done). lia. }
    unfold decode_body. by rewrite (dec_bind_Ok _ _ _ None (take k body))
      by (by rewrite (dec_bind_Ok _ _ _ _ _ Hd0)).
  - rewrite take_drop. unfold decode. cbn [contact_header_done negb curr_message_type].
    rewrite remaining_bind. destruct (Z.eqb_spec (zlen body) 0); [lia|]. rewrite mret_bind.
    pose proof (xfer_segment_roundtrip m body [] Hm Hbody) as Hd0. rewrite app_nil_r in Hd0.
    unfold decode_body. by rewrite (dec_bind_Ok _ _ _ (Some (MXferSegment m)) [])
      by (by rewrite (dec_bind_Ok _ _ _ _ _ Hd0)).
Qed.

Lemma split_segment_is_read_witness :
  ∃ c kept, decode session_codec
      [1; 3; 0; 0; 0; 0; 0; 0; 0; 7; 0; 0; 0; 0; 0; 0; 0; 0; 0; 0; 0; 3; 1] = Ok ((None, c), kept) ∧
    decode c (kept ++ [2; 3]) = Ok ((Some MessageWitness.segment, session_codec), []).
Proof.
  apply (split_segment_is_read (E := unit) (XferMsg.new_segment XferMsg.all_flags 7 [1; 2; 3])
    [1; 3; 0; 0; 0; 0; 0; 0; 0; 7; 0; 0; 0; 0; 0; 0; 0; 0; 0; 0; 0; 3; 1; 2; 3] 23).
  - unfold segment_ok. split_and!; decide_field.
  - reflexivity.
  - simpl. lia.
Defined.

Lemma get_be_short w s : (length s < w)%nat → get_be w s = Panic.
Proof. intros. unfold get_be. by rewrite (proj2 (Nat.ltb_lt _ _)) by lia. Qed.

Lemma get_be_long w s : (w ≤ length s)%nat → get_be w s = Ok (be_val (take w s), drop w s).
Proof. intros. unfold get_be. by rewrite (proj2 (Nat.ltb_ge _ _)) by lia. Qed.

Lemma dec_bind_Panic {A B} (m : dec A) (f : A → dec B) s : m s = Panic → (m ≫= f) s = Panic.
Proof. unfold mbind, dec_bind. by intros ->. Qed.

Lemma index_short a b s : zlen s < b → index a b s = Panic.
Proof. intros. unfold index. by rewrite (proj2 (Z.ltb_lt _ _)). Qed.

(** Partial frames panic: the length checks of three decoders are shorter than
    what they read, so an XFER_ACK of which 9 to 16 bytes have arrived, an
    XFER_REFUSE of which 5 to 8, and an XFER_SEGMENT of which 10 to 12 bytes have
    arrived panics instead of waiting, whatever the bytes are. *)
Theorem partial_frames_panic s :
  (9 ≤ length s < 17 → XferMsg.decode_ack s = Panic)%nat ∧
  (5 ≤ length s < 9 → XferRefuseMsg.decode s = Panic)%nat ∧
  (10 ≤ length s < 13 → XferMsg.decode s = Panic)%nat.
Proof.
  split_and!; intros Hl.
  - unfold XferMsg.decode_ack. rewrite remaining_bind, (proj2 (Z.ltb_ge _ _)) by lia.
    erewrite dec_bind_Ok by (apply get_be_long; lia).
    erewrite dec_bind_Ok by (apply get_be_long; rewrite ?length_drop; lia).
    apply dec_bind_Panic, get_be_short. rewrite !length_drop. lia.
  - unfold XferRefuseMsg.decode. rewrite remaining_bind, (proj2 (Z.ltb_ge _ _)) by lia.
    erewrite dec_bind_Ok by (apply get_be_long; lia).
    apply dec_bind_Panic, get_be_short. rewrite length_drop. lia.
  - unfold XferMsg.decode. rewrite remaining_bind, (proj2 (Z.ltb_ge _ _)) by lia.
    erewrite dec_bind_Ok by (unfold index; by rewrite (proj2 (Z.ltb_ge _ _)) by lia).
    unfold XferMsg.min_segment_size at 1. case_match.
    + apply dec_bind_Panic, dec_bind_Panic, index_short. lia.
    + rewrite mret_bind. cbn [fst snd]. apply dec_bind_Panic, index_short. lia.
Qed.

(** The value of a transfer extension comes out behind as many zero bytes:
    [vec![0; n]] is filled by [put], which appends. *)
Theorem transfer_extension_padded {E} e b s :
  ext_ok e → write_extension (E := E) e = Ok b →
  XferMsg.decode_extension (b ++ s) =
  Ok ({| ext_flags := 0; extension_type := extension_type e;
         ext_value := replicate (length (ext_value e)) 0 ++ ext_value e |}, s).
Proof.
  intros (Hf & Ht & Hv) Hb. unfold write_extension in Hb.
  apply bind_Ok in Hb as (n & [_ ->]%put_len_Ok & Hb). apply Ok_inj in Hb as <-.
  unfold XferMsg.decode_extension, get_u8, get_u16. rewrite <-!app_assoc.
  unfold u16_ok in Ht. rewrite Hf. do 4 read_be.
  rewrite (proj2 (Z.leb_le _ _)) by (rewrite length_app; lia). rewrite mret_bind.
  rewrite (dec_bind_Ok _ _ _ _ _ (get_slice_app _ _ _ eq_refl)). by rewrite Nat2Z.id.
Qed.

Lemma transfer_extension_padded_witness :
  XferMsg.decode_extension [0; 0; 1; 0; 2; 5; 6] =
  Ok ({| ext_flags := 0; extension_type := 1; ext_value := [0; 0; 5; 6] |}, []).
Proof.
  apply (transfer_extension_padded (E := unit)
    {| ext_flags := 0; extension_type := 1; ext_value := [5; 6] |} [0; 0; 1; 0; 2; 5; 6] []).
  - split; [done|]. split; by vm_compute.
  - reflexivity.
Defined.
