(* ===== verification/TcpclStateMachine.v ===== *)
(** * The TCPCL session state machine ([tcpcl/src/v4/statemachine.rs])

    One [Definition] per method of [StateMachine].  A method that panics loses
    the machine ([Panic]); the two results of [decode_message] (the new state and
    the message or error) are returned together because the state also changes
    when an error is returned. *)
From S2P Require Import Prelude RustStr Flags TcpclMessages.
Import SessInitMsg (SessInit, segment_mru, transfer_mru, node_id, keepalive_interval).
Import XferMsg (XferAck, ack_transfer_id, acknowleged_length).

(** [transfer.rs] *)
Record Transfer := { transfer_id : Z; transfer_data : bytes }.

Record TransferTracker := { transfer : Transfer; pos : Z; pos_acked : Z }.

Inductive States :=
| ActiveSendContactHeader
| PassiveWaitContactHeader
| ActiveWaitContactHeader
| PassiveSendContactHeader
| ActiveSendSessInit
| PassiveWaitSessInit
| ActiveWaitSessInit
| PassiveSendSessInit
| SessionEstablished
| SendXferAck (ack : XferAck)
| SendXferSegments (trk : TransferTracker)
| SendXferSegmentsAndAck (trk : TransferTracker) (ack : XferAck)
| SendKeepalive (s : States)
| SendSessTerm (r : option SessTermMsg.ReasonCode)
| WaitSessTerm
| SendMsgReject (r : MsgRejectMsg.ReasonCode) (t : Z)
| ConnectionClose
| ShouldNeverExist.

Record StateMachine := {
  state : States;
  sm_can_tls : bool;
  my_node_id : bytes;
  last_used_transfer_id : Z;
  my_contact_header : option ContactHeaderMsg.ContactHeader;
  peer_contact_header : option ContactHeaderMsg.ContactHeader;
  my_sess_init : option SessInit;
  peer_sess_init : option SessInit;
  terminating : bool;
}.

(** [crate::errors::Errors] *)
Inductive Errors :=
| MessageTypeInappropriate (t : MessageType)
| RemoteRejected
| DoesNotSpeakTCPCL
| TLSNameMissmatch (id : bytes)
| MessageError (e : MsgErrors).

Inductive TransferSendErrors := BundleTooLarge (max_size : Z).

(** Field updates. *)
Definition set_state (s : States) (m : StateMachine) : StateMachine :=
  {| state := s; sm_can_tls := sm_can_tls m; my_node_id := my_node_id m;
     last_used_transfer_id := last_used_transfer_id m;
     my_contact_header := my_contact_header m; peer_contact_header := peer_contact_header m;
     my_sess_init := my_sess_init m; peer_sess_init := peer_sess_init m;
     terminating := terminating m |}.
Definition set_terminating (b : bool) (m : StateMachine) : StateMachine :=
  {| state := state m; sm_can_tls := sm_can_tls m; my_node_id := my_node_id m;
     last_used_transfer_id := last_used_transfer_id m;
     my_contact_header := my_contact_header m; peer_contact_header := peer_contact_header m;
     my_sess_init := my_sess_init m; peer_sess_init := peer_sess_init m; terminating := b |}.
Definition set_headers (mine peer : option ContactHeaderMsg.ContactHeader) (m : StateMachine)
    : StateMachine :=
  {| state := state m; sm_can_tls := sm_can_tls m; my_node_id := my_node_id m;
     last_used_transfer_id := last_used_transfer_id m;
     my_contact_header := mine; peer_contact_header := peer;
     my_sess_init := my_sess_init m; peer_sess_init := peer_sess_init m;
     terminating := terminating m |}.
Definition set_sess_inits (mine peer : option SessInit) (m : StateMachine) : StateMachine :=
  {| state := state m; sm_can_tls := sm_can_tls m; my_node_id := my_node_id m;
     last_used_transfer_id := last_used_transfer_id m;
     my_contact_header := my_contact_header m; peer_contact_header := peer_contact_header m;
     my_sess_init := mine; peer_sess_init := peer; terminating := terminating m |}.
Definition set_last_id (i : Z) (m : StateMachine) : StateMachine :=
  {| state := state m; sm_can_tls := sm_can_tls m; my_node_id := my_node_id m;
     last_used_transfer_id := i;
     my_contact_header := my_contact_header m; peer_contact_header := peer_contact_header m;
     my_sess_init := my_sess_init m; peer_sess_init := peer_sess_init m;
     terminating := terminating m |}.

Definition new_machine (s : States) (node_id : bytes) (can_tls : bool) : StateMachine :=
  {| state := s; sm_can_tls := can_tls; my_node_id := node_id; last_used_transfer_id := 0;
     my_contact_header := None; peer_contact_header := None;
     my_sess_init := None; peer_sess_init := None; terminating := false |}.
Definition new_active : bytes → bool → StateMachine := new_machine ActiveSendContactHeader.
Definition new_passive : bytes → bool → StateMachine := new_machine PassiveWaitContactHeader.

(** [send_complete] *)
Definition send_complete {E} (m : StateMachine) : outcome E StateMachine :=
  match state m with
  | ActiveSendContactHeader => Ok (set_state ActiveWaitContactHeader m)
  | PassiveSendContactHeader => Ok (set_state PassiveWaitSessInit m)
  | ActiveSendSessInit => Ok (set_state ActiveWaitSessInit m)
  | PassiveSendSessInit | SendXferAck _ => Ok (set_state SessionEstablished m)
  | SendXferSegmentsAndAck trk _ => Ok (set_state (SendXferSegments trk) m)
  | SendXferSegments trk =>
      if (pos trk =? zlen (transfer_data (transfer trk))) && (pos trk =? pos_acked trk)
      then Ok (set_state SessionEstablished m)
      else Ok (set_state (SendXferSegments trk) m)
  | SendKeepalive s => Ok (set_state s m)
  | SendSessTerm _ =>
      if terminating m then Ok (set_state ConnectionClose m)
      else Ok (set_state WaitSessTerm (set_terminating true m))
  | SendMsgReject _ _ => Ok (set_state ConnectionClose (set_terminating true m))
  | _ => Panic
  end.

(** [send_message]: the messages given to the writer and the new machine.  The
    writer is taken to accept them; if it fails the session ends. *)
Definition send_message {E} (m : StateMachine) : outcome E (list Messages * StateMachine) :=
  match state m with
  | ActiveSendContactHeader | PassiveSendContactHeader =>
      let ch := ContactHeaderMsg.new (sm_can_tls m) in
      m ← send_complete (set_headers (Some ch) (peer_contact_header m) m);
      Ok ([MContactHeader ch], m)
  | ActiveSendSessInit | PassiveSendSessInit =>
      let si := SessInitMsg.new (my_node_id m) in
      m ← send_complete (set_sess_inits (Some si) (peer_sess_init m) m);
      Ok ([MSessInit si], m)
  | SendXferAck ack | SendXferSegmentsAndAck _ ack =>
      m ← send_complete m;
      Ok ([MXferAck ack], m)
  | SendSessTerm r =>
      let st := SessTermMsg.new (default SessTermMsg.Unkown r) (terminating m) in
      m ← send_complete m;
      Ok ([MSessTerm st], m)
  | SendXferSegments trk =>
      let data := transfer_data (transfer trk) in
      peer ← unwrap (peer_sess_init m);
      let end_pos := Z.min (wrap64 (pos trk + segment_mru peer)) (zlen data) in
      if pos trk =? zlen data then Ok ([], m) else
      (* data[pos..end_pos] *)
      assert ((pos trk <=? end_pos) && (end_pos <=? zlen data));;
      let d := take (Z.to_nat (end_pos - pos trk)) (drop (Z.to_nat (pos trk)) data) in
      let flags := Z.lor (if pos trk =? 0 then XferMsg.START else 0)
                         (if end_pos =? zlen data then XferMsg.END else 0) in
      let seg := XferMsg.new_segment flags (transfer_id (transfer trk)) d in
      let trk := {| transfer := transfer trk; pos := end_pos; pos_acked := pos_acked trk |} in
      m ← send_complete (set_state (SendXferSegments trk) m);
      Ok ([MXferSegment seg], m)
  | SendKeepalive _ =>
      m ← send_complete m;
      Ok ([MKeepalive], m)
  | SendMsgReject r t =>
      let mr := {| MsgRejectMsg.reason := r; MsgRejectMsg.message_header := t |} in
      m ← send_complete m;
      Ok ([MMsgReject mr], m)
  | _ => Panic
  end.

(** [decode_message] returns the message or an error. *)
Abbreviation decoded := (Messages + Errors)%type.

(** The XFER_ACK arm. *)
Definition decode_ack {E} (xa : XferAck) (m : StateMachine) : outcome E (StateMachine * decoded) :=
  let on_ack (trk : TransferTracker) (rebuild : TransferTracker → States) (finished : States) :=
    assert (transfer_id (transfer trk) =? ack_transfer_id xa);;
    let trk := {| transfer := transfer trk; pos := pos trk; pos_acked := acknowleged_length xa |} in
    let m := set_state (rebuild trk) m in
    if pos trk <? pos_acked trk then Ok (m, inr (MessageError InvalidACKValue)) else
    if pos_acked trk =? zlen (transfer_data (transfer trk))
    then Ok (set_state finished m, inl (MXferAck xa))
    else Ok (m, inl (MXferAck xa)) in
  match state m with
  | SendXferSegments trk => on_ack trk SendXferSegments SessionEstablished
  | SendXferSegmentsAndAck trk ack =>
      on_ack trk (λ trk, SendXferSegmentsAndAck trk ack) (SendXferAck ack)
  | _ =>
      Ok (set_state (SendMsgReject MsgRejectMsg.MessageUnexpected (message_type_num TXferAck)) m,
          inr (MessageTypeInappropriate TXferAck))
  end.

Definition is_sending_xfer (s : States) : bool :=
  match s with SendXferSegments _ | SendXferSegmentsAndAck _ _ => true | _ => false end.

(** [Ok(m) => ...], the last arm: the message does not fit the state. *)
Definition inappropriate {E} (msg : Messages) (m : StateMachine)
    : outcome E (StateMachine * decoded) :=
  t ← get_message_type msg;
  Ok (set_state (SendMsgReject MsgRejectMsg.MessageUnexpected (message_type_num t)) m,
      inr (MessageTypeInappropriate t)).

Definition decode_in_session {E} (message : Messages + MsgErrors) (m : StateMachine)
    : outcome E (StateMachine * decoded) :=
  match message with
  | inr (InvalidMessageType t) =>
      Ok (set_state (SendMsgReject MsgRejectMsg.MessageTypeUnkown t) m,
          inr (MessageError (InvalidMessageType t)))
  | inr e => Ok (m, inr (MessageError e))
  | inl (MSessInit si) =>
      match state m with
      | ActiveWaitSessInit =>
          Ok (set_state SessionEstablished (set_sess_inits (my_sess_init m) (Some si) m),
              inl (MSessInit si))
      | PassiveWaitSessInit =>
          Ok (set_state PassiveSendSessInit (set_sess_inits (my_sess_init m) (Some si) m),
              inl (MSessInit si))
      | _ => inappropriate (MSessInit si) m
      end
  | inl (MSessTerm st) =>
      match state m with
      | WaitSessTerm => Ok (set_state ConnectionClose m, inl (MSessTerm st))
      | SessionEstablished | SendXferSegments _ | SendXferSegmentsAndAck _ _ =>
          Ok (set_terminating true
                (set_state (SendSessTerm (Some (SessTermMsg.reason st))) m), inl (MSessTerm st))
      | _ => inappropriate (MSessTerm st) m
      end
  | inl (MXferSegment x) =>
      match state m with
      | SessionEstablished | SendXferSegments _ | SendXferSegmentsAndAck _ _ =>
          Ok (m, inl (MXferSegment x))
      | _ => inappropriate (MXferSegment x) m
      end
  | inl (MXferAck xa) => decode_ack xa m
  | inl MKeepalive => Ok (m, inl MKeepalive)
  | inl (MMsgReject r) => Ok (m, inl (MMsgReject r))
  | inl msg => inappropriate msg m
  end.

(** [decode_message] *)
Definition decode_message {E} (message : Messages + MsgErrors) (m : StateMachine)
    : outcome E (StateMachine * decoded) :=
  match state m with
  | PassiveWaitContactHeader | ActiveWaitContactHeader =>
      match message with
      | inl (MContactHeader ch) =>
          let m' := set_headers (my_contact_header m) (Some ch) m in
          Ok (match state m with
              | PassiveWaitContactHeader => set_state PassiveSendContactHeader m'
              | _ => set_state ActiveSendSessInit m'
              end, inl (MContactHeader ch))
      | inr InvalidHeader => Ok (m, inr DoesNotSpeakTCPCL)
      | _ => Panic
      end
  | ActiveWaitSessInit | PassiveWaitSessInit | WaitSessTerm | SessionEstablished
  | SendXferSegments _ | SendXferSegmentsAndAck _ _ | SendKeepalive _ =>
      decode_in_session message m
  | _ => Panic
  end.

(** [get_interests]: readable and writable. *)
Record Interest := { is_readable : bool; is_writable : bool }.
Definition READABLE : Interest := {| is_readable := true; is_writable := false |}.
Definition WRITABLE : Interest := {| is_readable := false; is_writable := true |}.
Definition READABLE_WRITABLE : Interest := {| is_readable := true; is_writable := true |}.

Definition get_interests {E} (m : StateMachine) : outcome E Interest :=
  match state m with
  | ActiveSendContactHeader | PassiveSendContactHeader | ActiveSendSessInit
  | PassiveSendSessInit | SendXferAck _ | SendSessTerm _ | SendXferSegmentsAndAck _ _
  | SendKeepalive _ | SendMsgReject _ _ => Ok WRITABLE
  | PassiveWaitContactHeader | ActiveWaitContactHeader | ActiveWaitSessInit
  | PassiveWaitSessInit | SessionEstablished | WaitSessTerm => Ok READABLE
  | SendXferSegments trk =>
      Ok (if pos trk <? zlen (transfer_data (transfer trk)) then READABLE_WRITABLE else READABLE)
  | ConnectionClose | ShouldNeverExist => Panic
  end.

Definition is_established (m : StateMachine) : bool :=
  match state m with SessionEstablished => true | _ => false end.
Definition could_send_transfer (m : StateMachine) : bool := is_established m.
Definition should_close (m : StateMachine) : bool :=
  match state m with ConnectionClose => true | _ => false end.
Definition connection_closing (m : StateMachine) : bool :=
  match state m with SendSessTerm _ | WaitSessTerm | ConnectionClose => true | _ => false end.
Definition sm_contact_header_done (m : StateMachine) : bool :=
  match state m with
  | ActiveSendContactHeader | ActiveWaitContactHeader
  | PassiveSendContactHeader | PassiveWaitContactHeader => false
  | _ => true
  end.

(** [send_transfer]: the result and the new machine. *)
Definition send_transfer {E} (data : bytes) (m : StateMachine)
    : outcome E (StateMachine * option TransferSendErrors) :=
  peer ← unwrap (peer_sess_init m);
  if transfer_mru peer <? zlen data then Ok (m, Some (BundleTooLarge (transfer_mru peer))) else
  let tracker :=
    {| transfer := {| transfer_id := last_used_transfer_id m; transfer_data := data |};
       pos := 0; pos_acked := 0 |} in
  let m := set_last_id (wrap64 (last_used_transfer_id m + 1)) m in
  match state m with
  | SendXferAck ack => Ok (set_state (SendXferSegmentsAndAck tracker ack) m, None)
  | SessionEstablished => Ok (set_state (SendXferSegments tracker) m, None)
  | _ => Panic
  end.

Definition send_ack {E} (ack : XferAck) (m : StateMachine) : outcome E StateMachine :=
  match state m with
  | SendXferSegments trk => Ok (set_state (SendXferSegmentsAndAck trk ack) m)
  | SessionEstablished => Ok (set_state (SendXferAck ack) m)
  | _ => Panic
  end.

Definition send_keepalive (m : StateMachine) : StateMachine :=
  set_state (SendKeepalive (state m)) m.

Definition close_connection {E} (reason : option SessTermMsg.ReasonCode) (m : StateMachine)
    : outcome E StateMachine :=
  assert (is_established m);; Ok (set_state (SendSessTerm reason) m).

Definition get_peer_node_id {E} (m : StateMachine) : outcome E bytes :=
  assert (is_established m);; p ← unwrap (peer_sess_init m); Ok (node_id p).
Definition get_peer_mru {E} (m : StateMachine) : outcome E Z :=
  assert (is_established m);; p ← unwrap (peer_sess_init m); Ok (transfer_mru p).
Definition get_keepalive_interval {E} (m : StateMachine) : outcome E (option Z) :=
  assert (is_established m);;
  mine ← unwrap (my_sess_init m);
  p ← unwrap (peer_sess_init m);
  let keepalive := Z.min (keepalive_interval mine) (keepalive_interval p) in
  Ok (if keepalive =? 0 then None else Some keepalive).
Definition should_use_tls {E} (m : StateMachine) : outcome E bool :=
  match my_contact_header m, peer_contact_header m with
  | Some mine, Some p => Ok (ContactHeaderMsg.can_tls mine && ContactHeaderMsg.can_tls p)
  | _, _ => Panic
  end.

(** ** Invariant *)

Definition have_headers (m : StateMachine) : Prop :=
  is_Some (my_contact_header m) ∧ is_Some (peer_contact_header m).
Definition have_inits (m : StateMachine) : Prop :=
  is_Some (my_sess_init m) ∧ is_Some (peer_sess_init m).
Definition session_up (m : StateMachine) : Prop := have_headers m ∧ have_inits m.

(** A transfer in progress: acknowledged, sent and total lengths are ordered, the
    transfer fits the peer's MRU, and the next segment end does not overflow. *)
Definition tracker_ok (p : SessInit) (trk : TransferTracker) : Prop :=
  let len := zlen (transfer_data (transfer trk)) in
  0 ≤ pos_acked trk ≤ pos trk ∧ pos trk ≤ len ∧ len ≤ transfer_mru p ∧ len < 2 ^ 63 ∧
  (pos trk = 0 ∨ pos trk = len ∨ segment_mru p < len).

Definition sending_ok (m : StateMachine) (trk : TransferTracker) : Prop :=
  match peer_sess_init m with Some p => tracker_ok p trk | None => False end.

(** What each state guarantees. *)
Fixpoint state_ok (m : StateMachine) (s : States) : Prop :=
  match s with
  | ActiveSendContactHeader | PassiveWaitContactHeader => True
  | ActiveWaitContactHeader => is_Some (my_contact_header m)
  | PassiveSendContactHeader => is_Some (peer_contact_header m)
  | ActiveSendSessInit | PassiveWaitSessInit => have_headers m
  | ActiveWaitSessInit => have_headers m ∧ is_Some (my_sess_init m)
  | PassiveSendSessInit => have_headers m ∧ is_Some (peer_sess_init m)
  | SessionEstablished | SendXferAck _ | SendSessTerm _ | WaitSessTerm => session_up m
  | SendXferSegments trk | SendXferSegmentsAndAck trk _ => session_up m ∧ sending_ok m trk
  | SendKeepalive s => session_up m ∧ state_ok m s
  | SendMsgReject _ _ | ConnectionClose => have_headers m
  | ShouldNeverExist => False
  end.

Definition sess_init_u64 (p : SessInit) : Prop :=
  u64_ok (segment_mru p) ∧ u64_ok (transfer_mru p).

Record machine_ok (m : StateMachine) : Prop := {
  machine_state : state_ok m (state m);
  machine_peer : ∀ p, peer_sess_init m = Some p → sess_init_u64 p;
  machine_headers : have_inits m → have_headers m;
}.

(** The steps a session takes with its machine, under the guards of
    [drive_statemachine]. *)
Definition message_u64 (msg : Messages + MsgErrors) : Prop :=
  match msg with
  | inl (MSessInit si) => sess_init_u64 si
  | inl (MXferAck xa) => u64_ok (acknowleged_length xa)
  | _ => True
  end.

Inductive sm_step (m : StateMachine) : StateMachine → Prop :=
| step_send E F i msgs m' :
    get_interests (E := F) m = Ok i → is_writable i = true →
    send_message (E := E) m = Ok (msgs, m') → sm_step m m'
| step_receive E F i msg m' r :
    get_interests (E := F) m = Ok i → is_readable i = true → message_u64 msg →
    decode_message (E := E) msg m = Ok (m', r) →
    r ≠ inr (MessageError InvalidACKValue) → sm_step m m'
| step_transfer E data m' r :
    could_send_transfer m = true → zlen data < 2 ^ 63 →
    send_transfer (E := E) data m = Ok (m', r) → sm_step m m'
| step_send_ack E ack m' :
    send_ack (E := E) ack m = Ok m' → sm_step m m'
| step_keepalive :
    have_inits m → should_close m = false → sm_step m (send_keepalive m)
| step_close E reason m' :
    close_connection (E := E) reason m = Ok m' → sm_step m m'.

Inductive sm_reachable : StateMachine → Prop :=
| reach_active id tls : sm_reachable (new_active id tls)
| reach_passive id tls : sm_reachable (new_passive id tls)
| reach_step m m' : sm_reachable m → sm_step m m' → sm_reachable m'.

Lemma state_ok_session m s :
  session_up m → match s with SendXferSegments _ | SendXferSegmentsAndAck _ _ | SendKeepalive _
                   | ShouldNeverExist => False | _ => True end → state_ok m s.
Proof. intros [[??] [??]]. destruct s; simpl; done. Qed.

(** [state_ok] looks only at the headers and session parameters. *)
Lemma state_ok_ext m m' s :
  my_contact_header m = my_contact_header m' → peer_contact_header m = peer_contact_header m' →
  my_sess_init m = my_sess_init m' → peer_sess_init m = peer_sess_init m' →
  state_ok m s → state_ok m' s.
Proof.
  intros H1 H2 H3 H4. induction s; simpl; unfold session_up, have_headers, have_inits, sending_ok;
    rewrite <-?H1, <-?H2, <-?H3, <-?H4; try done. naive_solver.
Qed.

Lemma machine_ok_set_state m s : machine_ok m → state_ok m s → machine_ok (set_state s m).
Proof. intros [_ H1 H2] Hs. split; [|exact H1|exact H2]. by eapply state_ok_ext; [..|exact Hs]. Qed.

Lemma machine_ok_terminating m b : machine_ok m → machine_ok (set_terminating b m).
Proof. intros [Hs H1 H2]. split; [|exact H1|exact H2]. by eapply state_ok_ext; [..|exact Hs]. Qed.

Lemma machine_ok_last_id m i : machine_ok m → machine_ok (set_last_id i m).
Proof. intros [Hs H1 H2]. split; [|exact H1|exact H2]. by eapply state_ok_ext; [..|exact Hs]. Qed.

(** The end of the next segment. *)
Lemma segment_end_ok p trk :
  sess_init_u64 p → tracker_ok p trk → pos trk ≠ zlen (transfer_data (transfer trk)) →
  let len := zlen (transfer_data (transfer trk)) in
  let e := Z.min (wrap64 (pos trk + segment_mru p)) len in
  e = Z.min (pos trk + segment_mru p) len ∧ pos trk ≤ e ≤ len ∧
  tracker_ok p {| transfer := transfer trk; pos := e; pos_acked := pos_acked trk |}.
Proof.
  intros [[??] [??]] (?&?&?&?&Hcase) Hne. simpl.
  rewrite wrap64_small by (unfold u64_ok; lia).
  split; [done|]. split; [lia|]. unfold tracker_ok. simpl. lia.
Qed.

Lemma send_segment_ok {E} m trk :
  machine_ok m → state m = SendXferSegments trk →
  ∃ msgs m', send_message (E := E) m = Ok (msgs, m') ∧ machine_ok m'.
Proof.
  intros Hm Hs. pose proof Hm as [Hok Hpeer Hh]. rewrite Hs in Hok.
  destruct Hok as [Hup Hsend]. unfold send_message. rewrite Hs. unfold sending_ok in Hsend.
  destruct (peer_sess_init m) as [p|] eqn:Ep; [|done]. ored. specialize (Hpeer p eq_refl).
  destruct (Z.eqb_spec (pos trk) (zlen (transfer_data (transfer trk)))) as [|Hne]; [by eauto|].
  destruct (segment_end_ok p trk Hpeer Hsend Hne) as (_ & Hpos & Htok). simpl in Hpos.
  rewrite (proj2 (Z.leb_le (pos trk) _)), (proj2 (Z.leb_le _ (zlen _))) by lia. cbn [andb]. ored.
  unfold send_complete at 1. cbn [state set_state].
  match goal with |- context [if ?b && ?c then _ else _] => destruct (b && c) end;
    ored; eexists _, _; (split; [done|]);
    (apply machine_ok_set_state; [apply machine_ok_set_state; [done|]|]); simpl;
    unfold sending_ok; simpl; rewrite ?Ep; by try (split; [exact Hup|]).
Qed.

(** Learning a header or session parameters keeps what was known. *)
Lemma machine_ok_headers m h p s :
  machine_ok m → state_ok (set_headers h p m) s → (have_inits m → is_Some h ∧ is_Some p) →
  machine_ok (set_state s (set_headers h p m)).
Proof.
  intros [_ H1 H2] Hs Hi. split; [|exact H1|exact Hi]. by eapply state_ok_ext; [..|exact Hs].
Qed.

Lemma machine_ok_inits m a b s :
  have_headers m → state_ok (set_sess_inits a b m) s → (∀ p, b = Some p → sess_init_u64 p) →
  machine_ok (set_state s (set_sess_inits a b m)).
Proof. intros Hh Hs Hb. split; [|exact Hb|done]. by eapply state_ok_ext; [..|exact Hs]. Qed.

(** A machine that wants to write can: [send_message] does not panic and keeps
    the invariant. *)
Lemma send_message_ok {E F} m i :
  machine_ok m → get_interests (E := F) m = Ok i → is_writable i = true →
  ∃ msgs m', send_message (E := E) m = Ok (msgs, m') ∧ machine_ok m'.
Proof.
  intros Hm Hi Hw. pose proof Hm as [Hok Hpeer Hh]. unfold get_interests in Hi.
  destruct (state m) eqn:Hs; try (apply Ok_inj in Hi; subst i; done); try done;
    try (by eapply send_segment_ok); simpl in Hok;
    unfold send_message, send_complete; cbn [state set_headers set_sess_inits]; rewrite ?Hs; ored.
  - eexists _, _. split; [done|]. apply machine_ok_headers; [done|simpl; done|].
    intros [? ?]%Hh. done.
  - eexists _, _. split; [done|]. apply machine_ok_headers; [done|simpl; done|]. done.
  - eexists _, _. split; [done|]. apply machine_ok_inits; [done|simpl; by split|done].
  - destruct Hok as [??]. eexists _, _. split; [done|]. apply machine_ok_inits; [done|simpl|done].
    split; [done|]. by split.
  - eexists _, _. split; [done|]. by apply machine_ok_set_state.
  - eexists _, _. split; [done|]. by apply machine_ok_set_state.
  - destruct Hok as [??]. eexists _, _. split; [done|]. by apply machine_ok_set_state.
  - case_match; ored; eexists _, _; (split; [done|]); apply machine_ok_set_state;
      auto using machine_ok_terminating; by destruct Hok.
  - eexists _, _. split; [done|]. apply machine_ok_set_state; [|done]. by apply machine_ok_terminating.
Qed.

(** Messages a machine may receive without panicking: before the contact header
    only a contact header (or an invalid one), an acknowledgement only for the
    transfer being sent, and no second contact header. *)
Definition receivable (m : StateMachine) (msg : Messages + MsgErrors) : Prop :=
  match state m, msg with
  | (PassiveWaitContactHeader | ActiveWaitContactHeader), inl (MContactHeader _)
  | (PassiveWaitContactHeader | ActiveWaitContactHeader), inr InvalidHeader => True
  | (PassiveWaitContactHeader | ActiveWaitContactHeader), _ => False
  | _, inl (MContactHeader _) => False
  | SendXferSegments trk, inl (MXferAck xa) => transfer_id (transfer trk) = ack_transfer_id xa
  | _, _ => True
  end.

Lemma inappropriate_ok {E} msg m :
  machine_ok m → have_headers m → (∀ h, msg ≠ MContactHeader h) →
  ∃ m' r, inappropriate (E := E) msg m = Ok (m', r) ∧ machine_ok m'.
Proof.
  intros Hm Hh Hc. unfold inappropriate. destruct msg; simpl; try (by destruct (Hc m0)); ored;
    eexists _, _; (split; [done|]); by apply machine_ok_set_state.
Qed.

Lemma decode_ack_ok {E} xa m :
  machine_ok m → have_headers m → u64_ok (acknowleged_length xa) →
  match state m with
  | SendXferSegments trk => transfer_id (transfer trk) = ack_transfer_id xa
  | SendXferSegmentsAndAck _ _ => False
  | _ => True end →
  ∃ m' r, decode_ack (E := E) xa m = Ok (m', r) ∧
    (r ≠ inr (MessageError InvalidACKValue) → machine_ok m').
Proof.
  intros Hm Hh Hxa Hid. pose proof Hm as [Hok Hpeer _]. unfold decode_ack.
  destruct (state m) as [| | | | | | | | |ack|trk|trk ack| | | | | |] eqn:Hs; try done;
    try (eexists _, _; split; [done|]; intros _; by apply machine_ok_set_state).
  rewrite Hid, Z.eqb_refl. ored. cbn [pos pos_acked transfer]. destruct Hok as [Hup Hsend].
  destruct (Z.ltb_spec (pos trk) (acknowleged_length xa)).
  { by eexists _, _. }
  case_match; eexists _, _; (split; [done|]); intros _.
  - apply machine_ok_set_state; [|done]. apply machine_ok_set_state; [done|]. simpl. split; [done|].
    unfold sending_ok in *. destruct (peer_sess_init m); [|done].
    unfold tracker_ok, u64_ok in *. simpl. lia.
  - apply machine_ok_set_state; [done|]. simpl. split; [done|].
    unfold sending_ok in *. destruct (peer_sess_init m); [|done].
    unfold tracker_ok, u64_ok in *. simpl. lia.
Qed.

Lemma decode_in_session_ok {E} msg m :
  machine_ok m → have_headers m → message_u64 msg → receivable m msg →
  match state m with
  | ActiveWaitSessInit | PassiveWaitSessInit | WaitSessTerm | SessionEstablished
  | SendXferSegments _ => True | _ => False end →
  ∃ m' r, decode_in_session (E := E) msg m = Ok (m', r) ∧
    (r ≠ inr (MessageError InvalidACKValue) → machine_ok m').
Proof.
  intros Hm Hh Hu Hr Hst. pose proof Hm as [Hok Hpeer _].
  assert (∀ a, (∀ h, a ≠ MContactHeader h) → ∃ m' r, inappropriate (E := E) a m = Ok (m', r) ∧
            (r ≠ inr (MessageError InvalidACKValue) → machine_ok m')) as Hin.
  { intros a Ha. destruct (inappropriate_ok (E := E) a m) as (m' & r & H1 & H2); eauto. }
  assert (∀ r : decoded, ∃ m' r', @Ok E _ (m, r) = Ok (m', r') ∧
            (r' ≠ inr (MessageError InvalidACKValue) → machine_ok m')) as Hsame by eauto.
  destruct msg as [[h|si|st| |mr|x|xa|xr]|e]; cbn [decode_in_session]; auto.
  - unfold receivable in Hr. by destruct (state m).
  - destruct (state m) eqn:Hs; try done; auto; simpl in Hok;
      eexists _, _; (split; [done|]); intros _; destruct Hok as [??] || idtac;
      apply machine_ok_inits; simpl; try done; try (intros p [= <-]; done); split; try done;
      split; done.
  - destruct (state m) eqn:Hs; try done; auto; simpl in Hok; eexists _, _; (split; [done|]); intros _;
      try apply machine_ok_terminating; (apply machine_ok_set_state; [done|]); simpl; try done;
      by destruct Hok.
  - destruct (state m) eqn:Hs; try done; auto.
  - apply decode_ack_ok; try done. unfold receivable in Hr. by destruct (state m).
  - destruct e; auto. eexists _, _. split; [done|]. intros _. by apply machine_ok_set_state.
Qed.

(** A machine that wants to read can: [decode_message] does not panic. *)
Lemma decode_message_ok {E F} m i msg :
  machine_ok m → get_interests (E := F) m = Ok i → is_readable i = true →
  message_u64 msg → receivable m msg →
  ∃ m' r, decode_message (E := E) msg m = Ok (m', r) ∧
    (r ≠ inr (MessageError InvalidACKValue) → machine_ok m').
Proof.
  intros Hm Hi Hrd Hu Hr. pose proof Hm as [Hok Hpeer Hh]. unfold get_interests in Hi.
  unfold decode_message.
  destruct (state m) eqn:Hs; try (apply Ok_inj in Hi; subst i; done); try done; simpl in Hok;
    try (apply decode_in_session_ok; rewrite ?Hs; try done; by repeat destruct Hok as [Hok ?]).
  - unfold receivable in Hr. rewrite Hs in Hr. destruct msg as [[]|[]]; try done.
    + eexists _, _. split; [done|]. intros _. apply machine_ok_headers; [done|simpl; done|].
      intros [??]%Hh. done.
    + eexists _, _. split; [done|]. intros _. done.
  - unfold receivable in Hr. rewrite Hs in Hr. destruct msg as [[]|[]]; try done.
    + eexists _, _. split; [done|]. intros _. apply machine_ok_headers; [done|simpl; by split|].
      intros [??]%Hh. done.
    + eexists _, _. split; [done|]. intros _. done.
Qed.

Lemma sm_step_ok m m' : machine_ok m → sm_step m m' → machine_ok m'.
Proof.
  intros Hm Hst. pose proof Hm as [Hok Hpeer Hh]. destruct Hst as
    [E F i msgs m' Hi Hw Hsend|E F i msg m' r Hi Hrd Hu Hd Hr|E data m' r Hc Hl Hs|E ack m' Hs|Hin Hc|E reason m' Hs].
  - destruct (send_message_ok (E := E) m i Hm Hi Hw) as (? & ? & Hx & ?).
    rewrite Hsend in Hx. by simplify_eq.
  - rename Hd into Hd'.
    (* a returned result means that the message was receivable *)
    assert (receivable m msg) as Hrec.
    { unfold receivable, decode_message in *. destruct (state m) eqn:Hs; try done;
        destruct msg as [[]|[]]; try done; simpl in Hd'.
      unfold decode_ack in Hd'. rewrite Hs in Hd'.
      by apply bind_Ok in Hd' as ([] & ?%assert_Ok%Z.eqb_eq & _). }
    destruct (decode_message_ok (E := E) m i msg Hm Hi Hrd Hu Hrec) as (m2 & r2 & Hd2 & Hm2).
    rewrite Hd' in Hd2. apply Ok_inj in Hd2. simplify_eq. auto.
  - unfold send_transfer in Hs. apply bind_Ok in Hs as (p & Hp%unwrap_Ok & Hs).
    unfold could_send_transfer, is_established in Hc. destruct (state m) eqn:Hst; try done.
    case_match eqn:El; [by simplify_eq|]. cbn [state set_last_id] in Hs. rewrite Hst in Hs. simplify_eq.
    apply machine_ok_set_state; [by apply machine_ok_last_id|]. simpl.
    split; [done|]. unfold sending_ok. simpl. rewrite Hp. unfold tracker_ok. simpl. lia.
  - unfold send_ack in Hs. destruct (state m) eqn:Hst; simplify_eq; by apply machine_ok_set_state.
  - apply machine_ok_set_state; [done|]. simpl. split; [by split; [apply Hh|]|done].
  - unfold close_connection in Hs. apply bind_Ok in Hs as ([] & Ha%assert_Ok & Hs). simplify_eq.
    unfold is_established in Ha. destruct (state m) eqn:Hst; try done.
Qed.

Lemma reachable_ok m : sm_reachable m → machine_ok m.
Proof.
  induction 1 as [id tls|id tls|m m' _ IH Hs]; [split; simpl; try done..|by eapply sm_step_ok].
  - by intros [[??] _].
  - by intros [[??] _].
Qed.


(** ** The handshake *)

(** What one side writes is what the other side reads. *)
Definition deliver {E} (msgs : list Messages) (m : StateMachine) : outcome E StateMachine :=
  foldl (λ acc msg, m ← acc; '(m, r) ← decode_message (inl msg) m;
                    match r with inl _ => Ok m | inr _ => Panic end) (Ok m) msgs.

(** One exchange: [a] writes, [b] reads. *)
Definition exchange {E} (a b : StateMachine) : outcome E (StateMachine * StateMachine) :=
  '(msgs, a) ← send_message a;
  b ← deliver msgs b;
  Ok (a, b).

(** Contact headers and then session parameters, active side first. *)
Definition handshake {E} (a p : StateMachine) : outcome E (StateMachine * StateMachine) :=
  '(a, p) ← exchange a p;
  '(p, a) ← exchange p a;
  '(a, p) ← exchange a p;
  '(p, a) ← exchange p a;
  Ok (a, p).

(** Two new machines establish the session: both end up established, each with
    the node id of the other and the announced parameters, agreeing on TLS (used
    iff both sides offer it) and on the keepalive interval.  (Claim C38.) *)
Theorem handshake_establishes {E} id_a id_p tls_a tls_p :
  ∃ a p, handshake (E := E) (new_active id_a tls_a) (new_passive id_p tls_p) = Ok (a, p) ∧
    is_established a = true ∧ is_established p = true ∧
    get_peer_node_id (E := E) a = Ok id_p ∧ get_peer_node_id (E := E) p = Ok id_a ∧
    get_peer_mru (E := E) a = Ok SessInitMsg.MAX_TRANSFER_MRU ∧
    get_keepalive_interval (E := E) a = Ok (Some 60) ∧
    get_keepalive_interval (E := E) p = Ok (Some 60) ∧
    should_use_tls (E := E) a = Ok (tls_a && tls_p) ∧
    should_use_tls (E := E) p = Ok (tls_a && tls_p).
Proof.
  eexists _, _. split; [reflexivity|]. split_and!; try reflexivity; by destruct tls_a, tls_p.
Qed.

(** ** Sending a transfer *)

(** The machine writes segments as long as it is interested in writing. *)
Fixpoint send_segments {E} (fuel : nat) (m : StateMachine)
    : outcome E (list Messages * StateMachine) :=
  match fuel with
  | O => Ok ([], m)
  | S fuel =>
      i ← get_interests m;
      if is_writable i then
        '(msgs, m) ← send_message m;
        '(rest, m) ← send_segments fuel m;
        Ok (msgs ++ rest, m)
      else Ok ([], m)
  end.

(** The segments of [d] from byte [p] on in pieces of [mru] bytes. *)
Fixpoint segments (fuel : nat) (mru id p : Z) (d : bytes) : list XferMsg.XferSegment :=
  match fuel with
  | O => []
  | S fuel =>
      if p <? zlen d then
        let e := Z.min (p + mru) (zlen d) in
        XferMsg.new_segment
          (Z.lor (if p =? 0 then XferMsg.START else 0) (if e =? zlen d then XferMsg.END else 0))
          id (take (Z.to_nat (e - p)) (drop (Z.to_nat p) d))
        :: segments fuel mru id e d
      else []
  end.

Definition tracking (m : StateMachine) (id : Z) (d : bytes) (p : Z) : StateMachine :=
  set_state (SendXferSegments {| transfer := {| transfer_id := id; transfer_data := d |};
                                 pos := p; pos_acked := 0 |}) m.

Lemma send_one_segment {E} m peer id d p :
  peer_sess_init m = Some peer → 0 < segment_mru peer → 0 ≤ p < zlen d → zlen d < 2 ^ 63 →
  u64_ok (segment_mru peer) → (p = 0 ∨ segment_mru peer < zlen d) →
  let e := Z.min (p + segment_mru peer) (zlen d) in
  send_message (E := E) (tracking m id d p) =
  Ok ([MXferSegment (XferMsg.new_segment
         (Z.lor (if p =? 0 then XferMsg.START else 0) (if e =? zlen d then XferMsg.END else 0))
         id (take (Z.to_nat (e - p)) (drop (Z.to_nat p) d)))], tracking m id d e).
Proof.
  intros Hp Hmru Hpd Hd [_ Hu] Hcase. simpl. unfold send_message, tracking.
  cbn [state set_state transfer transfer_data peer_sess_init]. rewrite Hp. ored.
  cbn [pos pos_acked transfer transfer_id transfer_data].
  rewrite wrap64_small by (unfold u64_ok; lia).
  rewrite (proj2 (Z.eqb_neq p (zlen d))) by lia.
  rewrite (proj2 (Z.leb_le p _)), (proj2 (Z.leb_le _ (zlen d))) by lia. cbn [andb]. ored.
  unfold send_complete. cbn [state set_state pos pos_acked transfer transfer_data].
  rewrite (proj2 (Z.eqb_neq (Z.min _ _) 0)) by lia. by rewrite andb_false_r.
Qed.

Lemma send_segments_eq {E} m peer id d fuel p :
  peer_sess_init m = Some peer → 0 < segment_mru peer → 0 ≤ p ≤ zlen d → zlen d < 2 ^ 63 →
  u64_ok (segment_mru peer) → (p = 0 ∨ p = zlen d ∨ segment_mru peer < zlen d) →
  zlen d - p ≤ Z.of_nat fuel →
  send_segments (E := E) fuel (tracking m id d p) =
  Ok (map MXferSegment (segments fuel (segment_mru peer) id p d), tracking m id d (zlen d)).
Proof.
  intros Hp Hmru Hpd Hd Hu. revert p Hpd. induction fuel as [|fuel IH]; intros p Hpd Hcase Hf.
  { simpl. replace p with (zlen d) by lia. done. }
  cbn [send_segments segments]. unfold get_interests at 1.
  cbn [state tracking set_state pos transfer transfer_data]. ored.
  destruct (Z.ltb_spec p (zlen d)).
  - cbn [is_writable READABLE_WRITABLE].
    rewrite (send_one_segment m peer) by (done || lia). ored.
    rewrite IH by (done || lia). done.
  - cbn [is_writable READABLE]. replace p with (zlen d) by lia. done.
Qed.

Lemma segments_concat fuel mru id p d :
  0 < mru → 0 ≤ p → zlen d - p ≤ Z.of_nat fuel →
  concat (map XferMsg.seg_data (segments fuel mru id p d)) = drop (Z.to_nat p) d.
Proof.
  intros Hm. revert p. induction fuel as [|fuel IH]; intros p Hp Hf; simpl.
  { rewrite drop_ge by lia. done. }
  destruct (Z.ltb_spec p (zlen d)); simpl; [|rewrite drop_ge by lia; done].
  rewrite IH by lia.
  replace (drop (Z.to_nat (Z.min (p + mru) (zlen d))) d)
    with (drop (Z.to_nat (Z.min (p + mru) (zlen d) - p)) (drop (Z.to_nat p) d)).
  { apply take_drop. }
  rewrite drop_drop. f_equal. lia.
Qed.


(** An empty bundle is never sent: the request is accepted, but the machine is
    not interested in writing and takes no further transfer, so the sender waits
    for an acknowledgement of a segment the peer never gets. *)
Theorem empty_transfer_stalls {E} m peer :
  state m = SessionEstablished → peer_sess_init m = Some peer → 0 ≤ transfer_mru peer →
  ∃ m', send_transfer (E := E) [] m = Ok (m', None) ∧
    get_interests (E := E) m' = Ok READABLE ∧ could_send_transfer m' = false.
Proof.
  intros Hs Hp Hm. unfold send_transfer. rewrite Hp. ored. simpl length.
  rewrite (proj2 (Z.ltb_ge _ _)) by (simpl; lia). cbn [state set_last_id]. rewrite Hs.
  eexists. split_and!; reflexivity.
Qed.

Lemma empty_transfer_stalls_witness :
  ∃ m', send_transfer (E := unit) []
      (set_state SessionEstablished (set_sess_inits None (Some (SessInitMsg.new [])) (new_active [] false)))
      = Ok (m', None) ∧
    get_interests (E := unit) m' = Ok READABLE ∧ could_send_transfer m' = false.
Proof. eapply empty_transfer_stalls; [reflexivity|reflexivity|]. vm_compute. congruence. Defined.

(** A peer can crash a sending session: an acknowledgement for another transfer
    id fails the assertion. *)
Theorem foreign_ack_panics {E} m trk xa :
  state m = SendXferSegments trk → transfer_id (transfer trk) ≠ ack_transfer_id xa →
  decode_message (E := E) (inl (MXferAck xa)) m = Panic.
Proof.
  intros Hs Hid. unfold decode_message, decode_in_session, decode_ack. rewrite Hs.
  rewrite (proj2 (Z.eqb_neq (transfer_id (transfer trk)) (ack_transfer_id xa))) by done. reflexivity.
Qed.

Lemma foreign_ack_panics_witness :
  decode_message (E := unit)
    (inl (MXferAck {| XferMsg.ack_flags := 0; XferMsg.ack_transfer_id := 9;
                      XferMsg.acknowleged_length := 0 |}))
    (tracking (new_active [] false) 3 [1] 0) = Panic.
Proof. eapply foreign_ack_panics; [reflexivity|]. simpl. lia. Defined.
