(* ===== verification/TcpclSession.v ===== *)
(** * TCPCL sessions ([tcpcl/src/session.rs])

    [drive_statemachine] is a loop: a prologue that reacts to the state of the
    machine, then a [select!] over reading, writing, a transfer request, the
    keepalive timer and the close channel.  Each arm is an event here; the
    scheduler picks any enabled one.  The socket, the TLS library, certificate
    parsing and the clock are inputs of the events; the channels to the
    application are outputs. *)
From S2P Require Import Prelude RustStr Flags TcpclMessages TcpclStateMachine.
Import XferMsg (XferAck, XferSegment, seg_flags, seg_transfer_id, seg_data, to_xfer_ack).

(** [crate::errors::ErrorType] *)
Inductive ErrorType := IOError | SSLError | TCPCLError (e : Errors) | DnsError.

(** A request on the send channel; its result sender is identified by it. *)
Record TransferRequest := { bundle_data : bytes; result_sender : Z }.

Inductive Output :=
| OUpgradeTls
| OEstablished (peer_endpoint : bytes) (max_bundle_size : Z)
| OWrite (msg : Messages)
| OReceived (t : Transfer)
| OResult (r : TransferRequest) (e : option TransferSendErrors).

Definition STARTUP_IDLE_INTERVAL : Z := 60.

Record TCPCLSession := {
  statemachine : StateMachine;
  receiving_transfer : option Transfer;
  connection_peer_endpoint : option bytes;
  connection_max_bundle_size : option Z;
  established_channel : bool;
  send_channel_receiver : bool;
  keepalive_timer : option Z;
  last_received_keepalive : Z;
  initialized_keepalive : bool;
  initialized_tls : bool;
  transfer_result_sender : option TransferRequest;
}.

(** The state before the first iteration: [new]/[connect] and the head of
    [drive_statemachine] at time [now]. *)
Definition new_session (m : StateMachine) (now : Z) : TCPCLSession :=
  {| statemachine := m; receiving_transfer := None; connection_peer_endpoint := None;
     connection_max_bundle_size := None; established_channel := true;
     send_channel_receiver := true; keepalive_timer := Some STARTUP_IDLE_INTERVAL;
     last_received_keepalive := now; initialized_keepalive := false; initialized_tls := false;
     transfer_result_sender := None |}.

Definition with_machine (m : StateMachine) (s : TCPCLSession) : TCPCLSession :=
  {| statemachine := m; receiving_transfer := receiving_transfer s;
     connection_peer_endpoint := connection_peer_endpoint s;
     connection_max_bundle_size := connection_max_bundle_size s;
     established_channel := established_channel s;
     send_channel_receiver := send_channel_receiver s; keepalive_timer := keepalive_timer s;
     last_received_keepalive := last_received_keepalive s;
     initialized_keepalive := initialized_keepalive s; initialized_tls := initialized_tls s;
     transfer_result_sender := transfer_result_sender s |}.
Definition with_receiving (t : option Transfer) (s : TCPCLSession) : TCPCLSession :=
  {| statemachine := statemachine s; receiving_transfer := t;
     connection_peer_endpoint := connection_peer_endpoint s;
     connection_max_bundle_size := connection_max_bundle_size s;
     established_channel := established_channel s;
     send_channel_receiver := send_channel_receiver s; keepalive_timer := keepalive_timer s;
     last_received_keepalive := last_received_keepalive s;
     initialized_keepalive := initialized_keepalive s; initialized_tls := initialized_tls s;
     transfer_result_sender := transfer_result_sender s |}.
Definition with_result (r : option TransferRequest) (s : TCPCLSession) : TCPCLSession :=
  {| statemachine := statemachine s; receiving_transfer := receiving_transfer s;
     connection_peer_endpoint := connection_peer_endpoint s;
     connection_max_bundle_size := connection_max_bundle_size s;
     established_channel := established_channel s;
     send_channel_receiver := send_channel_receiver s; keepalive_timer := keepalive_timer s;
     last_received_keepalive := last_received_keepalive s;
     initialized_keepalive := initialized_keepalive s; initialized_tls := initialized_tls s;
     transfer_result_sender := r |}.
Definition with_tls_done (s : TCPCLSession) : TCPCLSession :=
  {| statemachine := statemachine s; receiving_transfer := receiving_transfer s;
     connection_peer_endpoint := connection_peer_endpoint s;
     connection_max_bundle_size := connection_max_bundle_size s;
     established_channel := established_channel s;
     send_channel_receiver := send_channel_receiver s; keepalive_timer := keepalive_timer s;
     last_received_keepalive := last_received_keepalive s;
     initialized_keepalive := initialized_keepalive s; initialized_tls := true;
     transfer_result_sender := transfer_result_sender s |}.
Definition with_established (id : bytes) (mru : Z) (s : TCPCLSession) : TCPCLSession :=
  {| statemachine := statemachine s; receiving_transfer := receiving_transfer s;
     connection_peer_endpoint := Some id; connection_max_bundle_size := Some mru;
     established_channel := false;
     send_channel_receiver := send_channel_receiver s; keepalive_timer := keepalive_timer s;
     last_received_keepalive := last_received_keepalive s;
     initialized_keepalive := initialized_keepalive s; initialized_tls := initialized_tls s;
     transfer_result_sender := transfer_result_sender s |}.
Definition with_keepalive (timer : option Z) (s : TCPCLSession) : TCPCLSession :=
  {| statemachine := statemachine s; receiving_transfer := receiving_transfer s;
     connection_peer_endpoint := connection_peer_endpoint s;
     connection_max_bundle_size := connection_max_bundle_size s;
     established_channel := established_channel s;
     send_channel_receiver := send_channel_receiver s; keepalive_timer := timer;
     last_received_keepalive := last_received_keepalive s;
     initialized_keepalive := true; initialized_tls := initialized_tls s;
     transfer_result_sender := transfer_result_sender s |}.
Definition with_last_keepalive (now : Z) (s : TCPCLSession) : TCPCLSession :=
  {| statemachine := statemachine s; receiving_transfer := receiving_transfer s;
     connection_peer_endpoint := connection_peer_endpoint s;
     connection_max_bundle_size := connection_max_bundle_size s;
     established_channel := established_channel s;
     send_channel_receiver := send_channel_receiver s; keepalive_timer := keepalive_timer s;
     last_received_keepalive := now;
     initialized_keepalive := initialized_keepalive s; initialized_tls := initialized_tls s;
     transfer_result_sender := transfer_result_sender s |}.
Definition with_send_channel_closed (s : TCPCLSession) : TCPCLSession :=
  {| statemachine := statemachine s; receiving_transfer := receiving_transfer s;
     connection_peer_endpoint := connection_peer_endpoint s;
     connection_max_bundle_size := connection_max_bundle_size s;
     established_channel := established_channel s;
     send_channel_receiver := false; keepalive_timer := keepalive_timer s;
     last_received_keepalive := last_received_keepalive s;
     initialized_keepalive := initialized_keepalive s; initialized_tls := initialized_tls s;
     transfer_result_sender := transfer_result_sender s |}.

Abbreviation sess A := (outcome ErrorType A).

(** ** The prologue of an iteration; [tls_ok] is the outcome of the upgrade. *)

Definition init_tls (tls_ok : bool) (s : TCPCLSession) : sess (TCPCLSession * list Output) :=
  if negb (initialized_tls s) && sm_contact_header_done (statemachine s) then
    tls ← should_use_tls (statemachine s);
    if (tls : bool) then if tls_ok then Ok (with_tls_done s, [OUpgradeTls]) else Err SSLError
    else Ok (with_tls_done s, [])
  else Ok (s, []).

Definition announce_established (s : TCPCLSession) : sess (TCPCLSession * list Output) :=
  if is_established (statemachine s) && established_channel s then
    id ← get_peer_node_id (statemachine s);
    mru ← get_peer_mru (statemachine s);
    Ok (with_established id mru s, [OEstablished id mru])
  else Ok (s, []).

Definition init_keepalive (s : TCPCLSession) : sess TCPCLSession :=
  if negb (initialized_keepalive s) && is_established (statemachine s) then
    interval ← get_keepalive_interval (statemachine s);
    Ok (with_keepalive interval s)
  else Ok s.

Definition report_result (s : TCPCLSession) : TCPCLSession * list Output :=
  match transfer_result_sender s with
  | Some r => if could_send_transfer (statemachine s)
              then (with_result None s, [OResult r None]) else (s, [])
  | None => (s, [])
  end.

Definition prologue (tls_ok : bool) (s : TCPCLSession) : sess (TCPCLSession * list Output) :=
  '(s, o1) ← init_tls tls_ok s;
  '(s, o2) ← announce_established s;
  s ← init_keepalive s;
  let '(s, o3) := report_result s in
  Ok (s, o1 ++ o2 ++ o3).

(** ** [read_message] *)

(** The XFER_SEGMENT arm: the acknowledgement to send, if any, and the transfer
    that is complete, if any. *)
Definition receive_segment (x : XferSegment) (s : TCPCLSession)
    : TCPCLSession * option XferAck * list Output :=
  let finish (t : Transfer) (ack : XferAck) :=
    if contains (seg_flags x) XferMsg.END
    then (with_receiving None s, Some ack, [OReceived t])
    else (with_receiving (Some t) s, Some ack, []) in
  match receiving_transfer s with
  | Some t =>
      if transfer_id t =? seg_transfer_id x then
        let t := {| transfer_id := transfer_id t;
                    transfer_data := transfer_data t ++ seg_data x |} in
        finish t (to_xfer_ack x (zlen (transfer_data t)))
      else (s, None, [])
  | None =>
      finish {| transfer_id := seg_transfer_id x; transfer_data := seg_data x |}
        (to_xfer_ack x (zlen (seg_data x)))
  end.

(** [read_message] at time [now] (in milliseconds); [cert_ok] is the result of
    [validate_peer_certificate] for the announced node id. *)
Definition read_message (now : Z) (cert_ok : bytes → bool) (message : Messages + MsgErrors)
    (s : TCPCLSession) : sess (TCPCLSession * list Output) :=
  '(m, msg) ← decode_message message (statemachine s);
  let s := with_machine m s in
  match msg with
  | inl (MContactHeader _) => Ok (s, [])
  | inl (MSessInit si) =>
      tls ← should_use_tls m;
      if (tls : bool) && negb (cert_ok (SessInitMsg.node_id si))
      then Err (TCPCLError (TLSNameMissmatch (SessInitMsg.node_id si)))
      else Ok (s, [])
  | inl (MSessTerm _) => Ok (s, [])
  | inl MKeepalive => Ok (with_last_keepalive now s, [])
  | inl (MXferSegment x) =>
      let '(s, ack, out) := receive_segment x s in
      match ack with
      | Some ack => m ← send_ack ack (statemachine s); Ok (with_machine m s, out)
      | None => Ok (s, out)
      end
  | inl (MXferAck _) => Ok (s, [])
  | inl (MXferRefuse _) => Ok (s, [])
  | inl (MMsgReject _) => Err (TCPCLError RemoteRejected)
  | inr (MessageError (InvalidMessageType _)) => Ok (s, [])
  | inr (MessageTypeInappropriate _) => Ok (s, [])
  | inr RemoteRejected => Ok (s, [])
  | inr (TLSNameMissmatch _) => Ok (s, [])
  | inr e => Err (TCPCLError e)
  end.

(** ** The arms of the [select!] *)

Inductive Event :=
| EvRead (now : Z) (cert_ok : bytes → bool) (read_out : option (Messages + MsgErrors))
| EvWrite (io_ok : bool)
| EvTransfer (transfer : option TransferRequest)
| EvTick (now : Z)
| EvClose.

(** The conditions after the [if] of each arm. *)
Definition enabled {E} (ev : Event) (s : TCPCLSession) : outcome E bool :=
  let m := statemachine s in
  i ← get_interests m;
  Ok match ev with
     | EvRead _ _ _ => is_readable i
     | EvWrite _ => is_writable i
     | EvTransfer _ => send_channel_receiver s && could_send_transfer m
     | EvTick _ => match keepalive_timer s with Some _ => true | None => false end
     | EvClose => negb (connection_closing m) && is_established m
     end.

(** The first statement of the timer arm: a peer that was silent for two
    intervals is disconnected. *)
Definition check_idle (now : Z) (s : TCPCLSession) : sess StateMachine :=
  let m := statemachine s in
  if is_established m then
    k ← get_keepalive_interval m;
    if default STARTUP_IDLE_INTERVAL k * 2 * 1000 <? now - last_received_keepalive s
    then close_connection (Some SessTermMsg.IdleTimeout) m
    else Ok m
  else Ok m.

(** What an arm leads to: the loop goes on, or the session is over. *)
Definition select_arm (ev : Event) (s : TCPCLSession)
    : sess (option TCPCLSession * list Output) :=
  let m := statemachine s in
  match ev with
  | EvRead _ _ None => Ok (None, [])
  | EvRead now cert_ok (Some message) =>
      '(s, out) ← read_message now cert_ok message s; Ok (Some s, out)
  | EvWrite io_ok =>
      '(msgs, m) ← send_message m;
      if (io_ok : bool) then Ok (Some (with_machine m s), map OWrite msgs) else Err IOError
  | EvTransfer (Some r) =>
      '(m, e) ← send_transfer (bundle_data r) m;
      match e with
      | Some e => Ok (Some (with_machine m s), [OResult r (Some e)])
      | None => Ok (Some (with_result (Some r) (with_machine m s)), [])
      end
  | EvTransfer None => Ok (Some (with_send_channel_closed s), [])
  | EvTick now =>
      m ← check_idle now s;
      let m := if initialized_keepalive s then send_keepalive m else m in
      Ok (Some (with_machine m s), [])
  | EvClose =>
      m ← close_connection (Some SessTermMsg.ResourceExhaustion) m;
      Ok (Some (with_machine m s), [])
  end.

(** One iteration: the prologue, the end of a closed session, or an arm. *)
Definition iteration (tls_ok : bool) (ev : Event) (s : TCPCLSession)
    : sess (option TCPCLSession * list Output) :=
  '(s, o1) ← prologue tls_ok s;
  if should_close (statemachine s) then Ok (None, o1) else
  '(s, o2) ← select_arm ev s;
  Ok (s, o1 ++ o2).

(** ** Receiving a transfer *)

Definition received (o : list Output) : list Transfer :=
  omap (λ o, match o with OReceived t => Some t | _ => None end) o.
Definition written (o : list Output) : list Messages :=
  omap (λ o, match o with OWrite m => Some m | _ => None end) o.

(** The receiver reads each segment and then writes its acknowledgement. *)
Fixpoint receive_all (segs : list XferSegment) (s : TCPCLSession)
    : sess (TCPCLSession * list Output) :=
  match segs with
  | [] => Ok (s, [])
  | x :: segs =>
      '(s1, o1) ← select_arm (EvRead 0 (λ _, true) (Some (inl (MXferSegment x)))) s;
      s1 ← unwrap s1;
      '(s2, o2) ← select_arm (EvWrite true) s1;
      s2 ← unwrap s2;
      '(s3, o3) ← receive_all segs s2;
      Ok (s3, o1 ++ o2 ++ o3)
  end.

(** Acknowledgements carry the number of bytes received so far. *)
Fixpoint acks_of (base : Z) (segs : list XferSegment) : list XferAck :=
  match segs with
  | [] => []
  | x :: segs =>
      to_xfer_ack x (base + zlen (seg_data x)) :: acks_of (base + zlen (seg_data x)) segs
  end.

Lemma set_state_id m : set_state (state m) m = m.
Proof. by destruct m. Qed.

Lemma with_machine_id s : with_machine (statemachine s) s = s.
Proof. by destruct s. Qed.

Lemma segment_flags_END (a b : bool) :
  contains (Z.lor (if a then XferMsg.START else 0) (if b then XferMsg.END else 0)) XferMsg.END = b.
Proof. by destruct a, b. Qed.

(** The transfer received so far: nothing before the first segment. *)
Definition partial (id p : Z) (d : bytes) : option Transfer :=
  if p =? 0 then None
  else Some {| transfer_id := id; transfer_data := take (Z.to_nat p) d |}.

Lemma receive_one s x id p d e :
  state (statemachine s) = SessionEstablished → receiving_transfer s = partial id p d →
  seg_transfer_id x = id → 0 ≤ p < e → e ≤ zlen d →
  seg_data x = take (Z.to_nat (e - p)) (drop (Z.to_nat p) d) →
  contains (seg_flags x) XferMsg.END = (e =? zlen d) →
  ∃ s1 o1, select_arm (EvRead 0 (λ _, true) (Some (inl (MXferSegment x)))) s = Ok (Some s1, o1) ∧
    select_arm (EvWrite true) s1 =
      Ok (Some (with_receiving (if e =? zlen d then None else partial id e d) s),
          [OWrite (MXferAck (to_xfer_ack x e))]) ∧
    o1 = if e =? zlen d then [OReceived {| transfer_id := id; transfer_data := d |}] else [].
Proof.
  intros Hst Hrec Hid Hp He Hx Hend.
  assert (take (Z.to_nat p) d ++ seg_data x = take (Z.to_nat e) d) as Happ.
  { rewrite Hx, take_take_drop. f_equal. lia. }
  assert (zlen (take (Z.to_nat e) d) = e) as Hlen by (rewrite length_take; lia).
  assert (receive_segment x (with_machine (statemachine s) s) =
    (with_receiving (if e =? zlen d then None else partial id e d) s, Some (to_xfer_ack x e),
     if e =? zlen d then [OReceived {| transfer_id := id; transfer_data := d |}] else [])) as Hrs.
  { rewrite with_machine_id. unfold receive_segment. rewrite Hrec, Hend. unfold partial.
    assert ((e =? 0) = false) as -> by lia.
    destruct (Z.eqb_spec p 0) as [->|]; simpl transfer_id; rewrite ?Hid, ?Z.eqb_refl;
      cbn [transfer_data]; [rewrite app_nil_l in Happ|]; rewrite Happ, Hlen;
      destruct (Z.eqb_spec e (zlen d)) as [->|]; rewrite ?Nat2Z.id, ?firstn_all; done. }
  cbn [select_arm]. unfold read_message, decode_message. rewrite Hst. unfold decode_in_session.
  rewrite Hst. ored. rewrite Hrs. unfold send_ack.
  change (statemachine (with_receiving _ s)) with (statemachine s). rewrite Hst. ored.
  eexists _, _. split; [done|]. split; [|done]. unfold send_message, send_complete.
  cbn [statemachine with_machine state set_state]. ored. cbn [map].
  do 3 f_equal. rewrite <-Hst. destruct s as [[]]. done.
Qed.

Lemma receive_segments fuel mru id p d s :
  0 < mru → 0 ≤ p < zlen d → zlen d - p ≤ Z.of_nat fuel →
  state (statemachine s) = SessionEstablished → receiving_transfer s = partial id p d →
  let segs := segments fuel mru id p d in
  ∃ out, receive_all segs s = Ok (with_receiving None s, out) ∧
    received out = [{| transfer_id := id; transfer_data := d |}] ∧
    written out = map MXferAck (acks_of p segs).
Proof.
  intros Hm. revert p s. induction fuel as [|fuel IH]; intros p s Hp Hf Hst Hrec; [lia|].
  cbn [segments]. rewrite (proj2 (Z.ltb_lt p (zlen d))) by lia.
  set (e := Z.min (p + mru) (zlen d)). cbn zeta. cbn [receive_all acks_of].
  match goal with |- context [XferMsg.new_segment ?f ?i ?b] => set (x := XferMsg.new_segment f i b) end.
  assert (zlen (seg_data x) = e - p) as Hlx.
  { simpl. rewrite length_take, length_drop. lia. }
  destruct (receive_one s x id p d e) as (s1 & o1 & H1 & H2 & Ho1); try done; try lia.
  { apply segment_flags_END. }
  rewrite H1. ored. rewrite H2. ored. rewrite Hlx. replace (p + (e - p)) with e by lia.
  destruct (Z.eqb_spec e (zlen d)) as [Hed|Hed].
  - assert (segments fuel mru id e d = []) as ->.
    { destruct fuel; simpl; [done|]. by rewrite (proj2 (Z.ltb_ge e (zlen d))) by lia. }
    cbn [receive_all acks_of]. ored. eexists. split; [done|]. rewrite Ho1. done.
  - destruct (IH e (with_receiving (partial id e d) s)) as (out & Hr & Hrc & Hw);
      [lia|lia|done|done|].
    rewrite Hr. ored. eexists. split; [done|]. rewrite Ho1. simpl.
    split; [done|]. by rewrite <-Hw.
Qed.

(** The sender after reading acknowledgements of growing length. *)
Lemma deliver_cons {E} msg msgs m :
  deliver (E := E) (msg :: msgs) m =
  ('(m, r) ← decode_message (inl msg) m;
   m ← (match r with inl _ => Ok m | inr _ => Panic end);
   deliver msgs m).
Proof.
  unfold deliver. simpl. destruct (decode_message (inl msg) m) as [[m' [r|r]]| |]; simpl; try done;
    by induction msgs.
Qed.

Definition tracking_acked (m : StateMachine) (id : Z) (d : bytes) (a : Z) : StateMachine :=
  set_state (SendXferSegments {| transfer := {| transfer_id := id; transfer_data := d |};
                                 pos := zlen d; pos_acked := a |}) m.

Lemma deliver_acks {E} m fuel mru id p d a :
  0 < mru → 0 ≤ p < zlen d → zlen d - p ≤ Z.of_nat fuel →
  deliver (E := E) (map MXferAck (acks_of p (segments fuel mru id p d))) (tracking_acked m id d a) =
  Ok (set_state SessionEstablished m).
Proof.
  intros Hm. revert p a. induction fuel as [|fuel IH]; intros p a Hp Hf; [lia|].
  cbn [segments]. rewrite (proj2 (Z.ltb_lt p (zlen d))) by lia.
  set (e := Z.min (p + mru) (zlen d)). cbn zeta. cbn [acks_of map].
  match goal with |- context [XferMsg.new_segment ?f ?i ?b] => set (x := XferMsg.new_segment f i b) end.
  assert (zlen (seg_data x) = e - p) as Hlx.
  { simpl. rewrite length_take, length_drop. lia. }
  rewrite Hlx. replace (p + (e - p)) with e by lia. rewrite deliver_cons.
  unfold decode_message, tracking_acked. cbn [state set_state decode_in_session].
  unfold decode_ack. cbn [state set_state transfer transfer_id transfer_data].
  change (XferMsg.ack_transfer_id (to_xfer_ack x e)) with id. rewrite Z.eqb_refl. ored.
  change (XferMsg.acknowleged_length (to_xfer_ack x e)) with e. cbn [pos pos_acked transfer transfer_data].
  rewrite (proj2 (Z.ltb_ge (zlen d) e)) by lia.
  destruct (Z.eqb_spec e (zlen d)) as [Hed|Hed]; ored.
  - assert (segments fuel mru id e d = []) as ->; [|done].
    destruct fuel; simpl; [done|]. by rewrite (proj2 (Z.ltb_ge e (zlen d))) by lia.
  - apply (IH e e); lia.
Qed.

(** A transfer arrives: over an established session a non-empty bundle that fits
    the peer's MRU is sent in segments, the receiver hands exactly its bytes to
    the application, once, and after reading the acknowledgements the sender is
    ready for the next transfer. *)
Theorem transfer_end_to_end m peer s d :
  state m = SessionEstablished → peer_sess_init m = Some peer →
  0 < SessInitMsg.segment_mru peer → u64_ok (SessInitMsg.segment_mru peer) →
  d ≠ [] → zlen d ≤ SessInitMsg.transfer_mru peer → zlen d < 2 ^ 63 →
  state (statemachine s) = SessionEstablished → receiving_transfer s = None →
  ∃ segs m1 m2 s' out acks,
    send_transfer (E := ErrorType) d m = Ok (m1, None) ∧
    send_segments (E := ErrorType) (length d) m1 = Ok (map MXferSegment segs, m2) ∧
    Forall (λ x, zlen (seg_data x) ≤ SessInitMsg.segment_mru peer) segs ∧
    receive_all segs s = Ok (s', out) ∧ is_established (statemachine s') = true ∧
    received out = [{| transfer_id := last_used_transfer_id m; transfer_data := d |}] ∧
    written out = map MXferAck acks ∧
    ∃ m3, deliver (E := ErrorType) (map MXferAck acks) m2 = Ok m3 ∧ could_send_transfer m3 = true.
Proof.
  intros Hst Hpeer Hmru Hu Hd Htm Hlen Hs Hr. set (id := last_used_transfer_id m).
  assert (0 < zlen d) by (destruct d; [done|simpl; lia]).
  set (mm := set_last_id (wrap64 (id + 1)) m).
  set (segs := segments (length d) (SessInitMsg.segment_mru peer) id 0 d).
  destruct (receive_segments (length d) (SessInitMsg.segment_mru peer) id 0 d s)
    as (out & Hrecv & Hrc & Hw); [lia..|done|done|].
  exists segs, (tracking mm id d 0), (tracking mm id d (zlen d)), (with_receiving None s), out,
    (acks_of 0 segs).
  split_and!; try done.
  - unfold send_transfer. rewrite Hpeer. ored.
    rewrite (proj2 (Z.ltb_ge _ _)) by lia. cbn [state set_last_id]. by rewrite Hst.
  - apply send_segments_eq; (done || lia || by left).
  - unfold segs. clear -Hmru. generalize 0. induction (length d) as [|n IH]; intros p; simpl; [constructor|].
    destruct (Z.ltb_spec p (zlen d)); constructor; [|apply IH].
    simpl. rewrite length_take, length_drop. lia.
  - unfold is_established. cbn [statemachine with_receiving]. by rewrite Hs.
  - exists (set_state SessionEstablished mm). split; [|done].
    apply (deliver_acks mm (length d) (SessInitMsg.segment_mru peer) id 0 d 0); lia.
Qed.

Module SessionWitness.
Definition pair : StateMachine * StateMachine :=
  match handshake (E := unit) (new_active (str "dtn://a") false) (new_passive (str "dtn://p") false) with
  | Ok r => r
  | _ => (new_active [] false, new_passive [] false)
  end.
Definition receiver : TCPCLSession := new_session pair.2 0.
End SessionWitness.

Lemma transfer_end_to_end_witness :
  ∃ segs m1 m2 s' out acks,
    send_transfer (E := ErrorType) [1; 2; 3] SessionWitness.pair.1 = Ok (m1, None) ∧
    send_segments (E := ErrorType) 3 m1 = Ok (map MXferSegment segs, m2) ∧
    Forall (λ x, zlen (seg_data x) ≤ SessInitMsg.MAX_SEGMENT_MRU) segs ∧
    receive_all segs SessionWitness.receiver = Ok (s', out) ∧
    is_established (statemachine s') = true ∧
    received out = [{| transfer_id := 0; transfer_data := [1; 2; 3] |}] ∧
    written out = map MXferAck acks ∧
    ∃ m3, deliver (E := ErrorType) (map MXferAck acks) m2 = Ok m3 ∧ could_send_transfer m3 = true.
Proof.
  apply (transfer_end_to_end SessionWitness.pair.1 (SessInitMsg.new (str "dtn://p"))
    SessionWitness.receiver [1; 2; 3]).
  - reflexivity.
  - reflexivity.
  - reflexivity.
  - split; by vm_compute.
  - done.
  - vm_compute. congruence.
  - reflexivity.
  - reflexivity.
  - reflexivity.
Defined.

(** ** Safety of a session *)

(** Events the scheduler may choose in [s], with data the codec can produce. *)
Definition event_ok (s : TCPCLSession) (ev : Event) : Prop :=
  enabled (E := unit) ev s = Ok true ∧
  match ev with
  | EvRead _ _ (Some msg) => message_u64 msg ∧ receivable (statemachine s) msg
  | EvTransfer (Some r) => zlen (bundle_data r) < 2 ^ 63
  | _ => True
  end.

Definition acks_read (ev : Event) : list XferAck :=
  match ev with EvRead _ _ (Some (inl (MXferAck xa))) => [xa] | _ => [] end.

(** Sessions that can be reached, with what they put out and the acknowledgements
    they read. *)
Inductive session_reachable : TCPCLSession → list Output → list XferAck → Prop :=
| session_active id tls now : session_reachable (new_session (new_active id tls) now) [] []
| session_passive id tls now : session_reachable (new_session (new_passive id tls) now) [] []
| session_iteration s out acks tls_ok ev s1 o1 s' o2 :
    session_reachable s out acks → prologue tls_ok s = Ok (s1, o1) →
    should_close (statemachine s1) = false → event_ok s1 ev →
    select_arm ev s1 = Ok (Some s', o2) →
    session_reachable s' (out ++ o1 ++ o2) (acks ++ acks_read ev).

(** The keepalive timer sends only after the session was established once. *)
Record session_ok (s : TCPCLSession) : Prop := {
  session_machine : sm_reachable (statemachine s);
  session_keepalive : initialized_keepalive s = true → have_inits (statemachine s);
}.

(** What the parts of the prologue leave alone. *)
Lemma init_tls_frame tls_ok s s' o :
  init_tls tls_ok s = Ok (s', o) →
  statemachine s' = statemachine s ∧ initialized_keepalive s' = initialized_keepalive s ∧
  transfer_result_sender s' = transfer_result_sender s.
Proof. unfold init_tls. intros H. repeat case_match; obind; repeat case_match; by simplify_eq. Qed.

Lemma announce_frame s s' o :
  announce_established s = Ok (s', o) →
  statemachine s' = statemachine s ∧ initialized_keepalive s' = initialized_keepalive s ∧
  transfer_result_sender s' = transfer_result_sender s.
Proof. unfold announce_established. intros H. case_match; obind; by simplify_eq. Qed.

Lemma init_keepalive_frame s s' :
  init_keepalive s = Ok s' →
  statemachine s' = statemachine s ∧ transfer_result_sender s' = transfer_result_sender s ∧
  (initialized_keepalive s' = true →
     initialized_keepalive s = true ∨ is_established (statemachine s) = true).
Proof.
  unfold init_keepalive. intros H. case_match eqn:E; obind; simplify_eq; [|by auto].
  apply andb_true_iff in E as [_ E]. by auto.
Qed.

Lemma prologue_frame tls_ok s s' o :
  prologue tls_ok s = Ok (s', o) →
  statemachine s' = statemachine s ∧
  (initialized_keepalive s' = true →
     initialized_keepalive s = true ∨ is_established (statemachine s) = true) ∧
  transfer_result_sender s' =
    (if could_send_transfer (statemachine s) then None else transfer_result_sender s) ∧
  ∀ r, OResult r None ∈ o → could_send_transfer (statemachine s) = true ∧
    transfer_result_sender s = Some r.
Proof.
  intros H. unfold prologue in H.
  apply bind_Ok in H as ([sa oa] & Ha & H). apply bind_Ok in H as ([sb ob] & Hb & H).
  apply bind_Ok in H as (sc & Hc & H).
  destruct (init_tls_frame _ _ _ _ Ha) as (Ma & Ka & Ra).
  destruct (announce_frame _ _ _ Hb) as (Mb & Kb & Rb).
  destruct (init_keepalive_frame _ _ Hc) as (Mc & Rc & Kc).
  assert (∀ r, OResult r None ∉ oa) as Hoa.
  { unfold init_tls in Ha. clear -Ha. repeat case_match; obind; repeat case_match; simplify_eq;
      intros r Hr; set_solver. }
  assert (∀ r, OResult r None ∉ ob) as Hob.
  { unfold announce_established in Hb. clear -Hb. case_match; obind; simplify_eq; intros r Hr; set_solver. }
  rewrite Mb, Ma, Kb, Ka in *. rewrite Rb, Ra in Rc.
  unfold report_result in H. rewrite Rc, Mc in H.
  destruct (transfer_result_sender s) as [rq|] eqn:Er; [destruct (could_send_transfer (statemachine s)) eqn:Ec|];
    simplify_eq; rewrite ?Er; split_and!; try done; try congruence.
  all: try (by case_match).
  all: intros r Hr; rewrite !elem_of_app in Hr; set_solver.
Qed.

(** The prologue does not panic; it can only fail in the TLS upgrade. *)
Lemma prologue_safe tls_ok s :
  machine_ok (statemachine s) → prologue tls_ok s = Err SSLError ∨ ∃ s' o, prologue tls_ok s = Ok (s', o).
Proof.
  intros [Hst _ _]. unfold prologue.
  assert (∀ sa, statemachine sa = statemachine s → ∃ sb ob, announce_established sa = Ok (sb, ob) ∧
    statemachine sb = statemachine s) as Hann.
  { intros sa Ma. unfold announce_established, get_peer_node_id, get_peer_mru, is_established. rewrite Ma.
    destruct (state (statemachine s)) eqn:Es; try (by destruct Hst); ored; try by eexists _, _.
    destruct Hst as [_ [_ [pi ->]]]. destruct (established_channel sa); ored; by eexists _, _. }
  assert (∀ sb, statemachine sb = statemachine s → ∃ sc, init_keepalive sb = Ok sc) as Hka.
  { intros sb Mb. unfold init_keepalive, get_keepalive_interval, is_established. rewrite Mb.
    destruct (state (statemachine s)) eqn:Es; try (by destruct Hst); rewrite ?andb_false_r;
      try by eexists.
    destruct Hst as [_ [[mi ->] [pi ->]]]. case_match; ored; by eexists. }
  assert (init_tls tls_ok s = Err SSLError ∨ ∃ sa oa, init_tls tls_ok s = Ok (sa, oa) ∧
    statemachine sa = statemachine s) as [->|(sa & oa & -> & Ma)].
  { unfold init_tls. destruct (negb (initialized_tls s) && sm_contact_header_done (statemachine s)) eqn:Et;
      [|right; by eexists _, _].
    apply andb_true_iff in Et as [_ Et].
    assert (have_headers (statemachine s)) as [[h1 H1] [h2 H2]].
    { unfold sm_contact_header_done in Et. destruct (state (statemachine s)); try done;
        by repeat destruct Hst as [Hst ?]. }
    unfold should_use_tls. rewrite H1, H2. ored. repeat case_match; auto; right; by eexists _, _. }
  { by left. }
  right. ored. destruct (Hann sa Ma) as (sb & ob & -> & Mb). ored.
  destruct (Hka sb Mb) as [sc ->]. ored. destruct (report_result sc). by eexists _, _.
Qed.

(** What [decode_message] did when it handed a message on. *)
Lemma decode_sess_init {E} msg m m' si :
  decode_message (E := E) msg m = Ok (m', inl (MSessInit si)) →
  state m' = SessionEstablished ∨ state m' = PassiveSendSessInit.
Proof.
  unfold decode_message, decode_in_session, decode_ack, inappropriate. intros H.
  destruct (state m) eqn:Es, msg as [[]|[]]; simpl in H; rewrite ?Es in H; simpl in H; simplify_eq;
    auto; obind; repeat case_match; simplify_eq; auto.
Qed.

Lemma decode_segment {E} msg m m' x :
  decode_message (E := E) msg m = Ok (m', inl (MXferSegment x)) →
  msg = inl (MXferSegment x) ∧ m' = m ∧ (state m = SessionEstablished ∨ is_sending_xfer (state m) = true).
Proof.
  unfold decode_message, decode_in_session, decode_ack, inappropriate. intros H.
  destruct (state m) eqn:Es, msg as [[]|[]]; simpl in H; rewrite ?Es in H; simpl in H; simplify_eq;
    auto; obind; repeat case_match; simplify_eq; auto.
Qed.

(** Steps keep the session parameters. *)
Lemma decode_inits {E} msg m m' r :
  decode_message (E := E) msg m = Ok (m', r) → have_inits m → have_inits m'.
Proof.
  unfold decode_message, decode_in_session, decode_ack, inappropriate, get_message_type, assert.
  intros H Hi. destruct (state m), msg as [[]|[]]; simpl in H; repeat case_match; simplify_eq/=;
    repeat case_match; simplify_eq/=; try done; destruct Hi; split; done.
Qed.

Lemma send_inits {E} m m' msgs :
  send_message (E := E) m = Ok (msgs, m') → have_inits m → have_inits m'.
Proof.
  unfold send_message, send_complete. intros H Hi. destruct (state m) eqn:Es; try done; simpl in H;
    rewrite ?Es in H; repeat first [progress obind | case_match]; simplify_eq/=; try done;
    destruct Hi; split; done.
Qed.

Section arms.
Context (s : TCPCLSession) (Hok : session_ok s).

Lemma read_safe now cert_ok msg :
  event_ok s (EvRead now cert_ok (Some msg)) →
  read_message now cert_ok msg s ≠ Panic ∧
  ∀ s' o, read_message now cert_ok msg s = Ok (s', o) → session_ok s'.
Proof.
  intros [Hen [Hu Hrec]]. unfold enabled in Hen. apply bind_Ok in Hen as (i & Hi & Hr).
  apply Ok_inj in Hr. pose proof (session_machine _ Hok) as Hreach.
  pose proof (reachable_ok _ Hreach) as Hm.
  destruct (decode_message_ok (E := ErrorType) _ _ msg Hm Hi Hr Hu Hrec) as (m' & r & Hd & Hm').
  pose proof (decode_inits _ _ _ _ Hd) as Hin.
  assert (r ≠ inr (MessageError InvalidACKValue) → session_ok (with_machine m' s)) as Hok'.
  { intros Hne. split; [|intros ?; by apply Hin, Hok]. eapply reach_step; [done|]. by eapply step_receive. }
  unfold read_message. rewrite Hd. ored.
  destruct r as [[h|si|st| |mr|x|xa|xr]|[mt| | |id|e]]; try (split; [done|]; intros ?? ?; simplify_eq; by apply Hok').
  - assert (have_headers m') as [[h1 H1] [h2 H2]].
    { destruct (Hm' ltac:(done)) as [Hst _ _].
      destruct (decode_sess_init _ _ _ _ Hd) as [E|E]; rewrite E in Hst; by destruct Hst. }
    unfold should_use_tls. rewrite H1, H2. ored. case_match; (split; [done|]); intros ?? ?; simplify_eq. by apply Hok'.
  - split; [done|]. intros ?? ?. simplify_eq. destruct (Hok' ltac:(done)). by split.
  - destruct (decode_segment _ _ _ _ Hd) as (_ & -> & Hst). clear Hd Hin Hm' Hok'.
    assert (∃ s1 ack out, receive_segment x (with_machine (statemachine s) s) = (s1, ack, out) ∧
      statemachine s1 = statemachine s ∧ initialized_keepalive s1 = initialized_keepalive s)
      as (s1 & ack & out & -> & E1 & E2).
    { unfold receive_segment. repeat case_match; by eexists _, _, _. }
    destruct ack as [ack|].
    2: { split; [done|]. intros ?? ?. simplify_eq. split; rewrite E1; [done|]. rewrite E2. apply Hok. }
    rewrite E1. assert (∃ m2, send_ack (E := ErrorType) ack (statemachine s) = Ok m2 ∧
      (have_inits (statemachine s) → have_inits m2)) as (m2 & Hs & Hi2).
    { unfold send_ack. unfold get_interests in Hi.
      destruct Hst as [->|Hx]; [by eexists|]. destruct (state (statemachine s)); try done; [by eexists|].
      apply Ok_inj in Hi. by subst i. }
    rewrite Hs. ored. split; [done|]. intros ?? ?. simplify_eq. split; simpl.
    + eapply reach_step; [done|]. by eapply step_send_ack.
    + rewrite E2. intros ?. by apply Hi2, Hok.
  - destruct e; (split; [done|]); intros ?? ?; simplify_eq; by apply Hok'.
Qed.

Lemma check_idle_safe now :
  should_close (statemachine s) = false →
  ∃ m', check_idle now s = Ok m' ∧ sm_reachable m' ∧ should_close m' = false ∧
    (have_inits (statemachine s) → have_inits m').
Proof.
  intros Hnc. pose proof (session_machine _ Hok) as Hreach. pose proof (reachable_ok _ Hreach) as Hm.
  unfold check_idle. destruct (is_established (statemachine s)) eqn:Ee; [|by eauto].
  destruct Hm as [Hst _ _]. unfold get_keepalive_interval, is_established in *.
  destruct (state (statemachine s)) eqn:Es; try done. destruct Hst as [_ [[mi ->] [p ->]]]. ored.
  match goal with |- context [if ?b then close_connection _ _ else _] => destruct b end; [|by eauto].
  unfold close_connection, is_established. rewrite Es. ored. eexists. split_and!; [done| |done|done].
  eapply reach_step; [done|]. eapply (step_close _ unit).
  unfold close_connection, is_established. by rewrite Es.
Qed.

Lemma transfer_safe rq :
  event_ok s (EvTransfer (Some rq)) →
  ∃ m' e, send_transfer (E := ErrorType) (bundle_data rq) (statemachine s) = Ok (m', e) ∧
    session_ok (with_machine m' s).
Proof.
  intros [Hen Hlen]. unfold enabled in Hen. apply bind_Ok in Hen as (i & Hi & Hr). apply Ok_inj in Hr.
  apply andb_true_iff in Hr as [_ Hc]. pose proof (session_machine _ Hok) as Hreach.
  pose proof (reachable_ok _ Hreach) as Hm.
  assert (∃ m' e, send_transfer (E := ErrorType) (bundle_data rq) (statemachine s) = Ok (m', e) ∧
    (have_inits (statemachine s) → have_inits m')) as (m' & e & Hs & Hin).
  { unfold send_transfer, could_send_transfer, is_established in *. destruct Hm as [Hst _ _].
    destruct (state (statemachine s)) eqn:Es; try done. destruct Hst as [_ [? [p Hp]]]. rewrite Hp. ored.
    case_match; [by eexists _, _|]. cbn [state set_last_id]. rewrite Es. by eexists _, _. }
  exists m', e. split; [done|]. split; simpl; [|intros ?; by apply Hin, Hok].
  eapply reach_step; [done|]. by eapply step_transfer.
Qed.

Lemma select_arm_safe ev :
  should_close (statemachine s) = false → event_ok s ev →
  select_arm ev s ≠ Panic ∧ ∀ s' o, select_arm ev s = Ok (Some s', o) → session_ok s'.
Proof.
  intros Hnc Hev. pose proof (session_machine _ Hok) as Hreach. pose proof (reachable_ok _ Hreach) as Hm.
  destruct ev as [now cert [msg|]|io|[rq|]|now|]; cbn [select_arm]; try (split; [done|]; intros; by simplify_eq).
  - destruct (read_safe now cert msg Hev) as [Hp Hs].
    destruct (read_message now cert msg s) as [[s1 o1]| |]; ored; try done.
    split; [done|]. intros ?? ?. simplify_eq. by eapply Hs.
  - destruct Hev as [Hen _]. unfold enabled in Hen. apply bind_Ok in Hen as (i & Hi & Hr). apply Ok_inj in Hr.
    destruct (send_message_ok (E := ErrorType) _ _ Hm Hi Hr) as (msgs & m' & Hs & _). rewrite Hs. ored.
    destruct io; (split; [done|]); intros ?? ?; simplify_eq. split; simpl.
    + eapply reach_step; [done|]. by eapply step_send.
    + intros ?. eapply send_inits; [done|]. by apply Hok.
  - destruct (transfer_safe rq Hev) as (m' & e & -> & [H1 H2]). ored.
    destruct e; (split; [done|]); intros ?? ?; simplify_eq; by split.
  - split; [done|]. intros ?? ?. simplify_eq. by destruct Hok; split.
  - destruct (check_idle_safe now) as (m' & -> & Hr & Hc & Hin); [done|].
    ored. split; [done|]. intros ?? ?. simplify_eq. split; simpl.
    + destruct (initialized_keepalive s) eqn:Ek; [|done].
      eapply reach_step; [done|]. apply step_keepalive; [by apply Hin, Hok|done].
    + intros Ek. rewrite Ek. by apply Hin, Hok.
  - destruct Hev as [Hen _]. unfold enabled in Hen. apply bind_Ok in Hen as (i & Hi & Hr). apply Ok_inj in Hr.
    apply andb_true_iff in Hr as [_ Hc]. unfold close_connection. rewrite Hc. ored. split; [done|].
    intros ?? ?. simplify_eq. split; simpl.
    + eapply reach_step; [done|]. eapply (step_close _ unit). unfold close_connection. by rewrite Hc.
    + by apply Hok.
Qed.
End arms.

Lemma prologue_ok tls_ok s s1 o1 : session_ok s → prologue tls_ok s = Ok (s1, o1) → session_ok s1.
Proof.
  intros [H1 H2] Hp. destruct (prologue_frame _ _ _ _ Hp) as (Hm & Hk & _ & _).
  split; rewrite Hm; [done|]. intros [Hx|Hx]%Hk; [by apply H2|].
  apply reachable_ok in H1 as [Hst _ _]. unfold is_established in Hx.
  destruct (state (statemachine s)); try done. by destruct Hst.
Qed.

Lemma session_reachable_ok s out acks : session_reachable s out acks → session_ok s.
Proof.
  induction 1 as [id tls now|id tls now|s out acks tls_ok ev s1 o1 s' o2 _ IH Hp Hc Hev Harm].
  - split; [constructor|done].
  - split; [constructor|done].
  - eapply select_arm_safe; [by eapply prologue_ok|done..].
Qed.

(** A session does not panic: in every reachable session the prologue of the
    next iteration succeeds (or the TLS upgrade fails), and unless the session is
    then closed, every arm the [select!] may choose runs without panicking, for
    every message that is receivable. *)
Theorem session_never_panics s out acks tls_ok :
  session_reachable s out acks →
  prologue tls_ok s = Err SSLError ∨
  ∃ s1 o1, prologue tls_ok s = Ok (s1, o1) ∧
    ∀ ev, event_ok s1 ev → iteration tls_ok ev s ≠ Panic.
Proof.
  intros Hr. pose proof (session_reachable_ok _ _ _ Hr) as Hok.
  pose proof (reachable_ok _ (session_machine _ Hok)) as Hm.
  destruct (prologue_safe tls_ok s Hm) as [?|(s1 & o1 & Hp)]; [by left|]. right.
  exists s1, o1. split; [done|]. intros ev Hev. unfold iteration. rewrite Hp. ored.
  destruct (should_close (statemachine s1)) eqn:Ec; [done|].
  destruct (select_arm_safe s1 (prologue_ok _ _ _ _ Hok Hp) ev Ec Hev) as [Hnp _].
  by destruct (select_arm ev s1) as [[? ?]| |].
Qed.

(** ** The result of a transfer *)

Definition fully_acked (acks : list XferAck) (r : TransferRequest) : Prop :=
  ∃ xa, xa ∈ acks ∧ XferMsg.acknowleged_length xa = zlen (bundle_data r).

(** Where the machine can be while the result of [r] is open. *)
Fixpoint pending_ok (acks : list XferAck) (r : TransferRequest) (st : States) : Prop :=
  match st with
  | SendXferSegments trk | SendXferSegmentsAndAck trk _ =>
      transfer_data (transfer trk) = bundle_data r
  | SendKeepalive st => pending_ok acks r st
  | SessionEstablished | SendXferAck _ => fully_acked acks r
  | SendSessTerm _ | WaitSessTerm | SendMsgReject _ _ | ConnectionClose => True
  | _ => False
  end.

Definition result_ok (acks : list XferAck) (s : TCPCLSession) : Prop :=
  match transfer_result_sender s with
  | Some r => pending_ok acks r (state (statemachine s))
  | None => True
  end.

Lemma fully_acked_app acks acks' r : fully_acked acks r → fully_acked (acks ++ acks') r.
Proof. intros (xa & Hin & Hl). exists xa. split; [|done]. apply elem_of_app. by left. Qed.

Lemma pending_ok_app acks acks' r st : pending_ok acks r st → pending_ok (acks ++ acks') r st.
Proof. induction st; simpl; auto using fully_acked_app. Qed.

(** Writing moves the machine on within the transfer. *)
Lemma send_message_pending {E} acks r m m' msgs :
  machine_ok m → pending_ok acks r (state m) →
  send_message (E := E) m = Ok (msgs, m') → pending_ok acks r (state m').
Proof.
  intros [Hst Hpeer _] Hp H. unfold send_message in H.
  destruct (state m) as [| | | | | | | | |ack|trk|trk ack|st|rs| |rs t| |] eqn:Es; try done;
    simpl in Hp; try (unfold send_complete in H; rewrite Es in H; ored; obind; simplify_eq/=; done).
  - apply bind_Ok in H as (p & Hpi%unwrap_Ok & H).
    destruct Hst as [_ Hsend]. unfold sending_ok in Hsend. rewrite Hpi in Hsend.
    case_match eqn:Epos; [simplify_eq; by rewrite Es|].
    apply Z.eqb_neq in Epos. destruct (segment_end_ok p trk (Hpeer _ Hpi) Hsend Epos) as (He & Hpos & _).
    apply bind_Ok in H as ([] & _ & H). apply bind_Ok in H as (m1 & Hc & H). simplify_eq.
    unfold send_complete in Hc. cbn [state set_state pos pos_acked transfer transfer_data] in Hc.
    destruct Hsend as (?&?&?&?&?).
    match type of Hc with context [if ?b && ?c then _ else _] => destruct (b && c) eqn:Eb end; simplify_eq; [|done].
    apply andb_true_iff in Eb as [E1%Z.eqb_eq E2%Z.eqb_eq]. exfalso. simpl in *. lia.
  - unfold send_complete in H. rewrite Es in H. obind. case_match; simplify_eq; done.
Qed.

(** Reading a message in a transfer: the transfer goes on, is acknowledged in
    full, or the session ends. *)
Lemma decode_message_pending {E} acks r m m' msg d :
  (∀ trk a, state m ≠ SendXferSegmentsAndAck trk a) →
  (∀ a, state m ≠ SendXferAck a) → state m ≠ SessionEstablished → (∀ st, state m ≠ SendKeepalive st) →
  pending_ok acks r (state m) → decode_message (E := E) msg m = Ok (m', d) →
  pending_ok (acks ++ match msg with inl (MXferAck xa) => [xa] | _ => [] end) r (state m').
Proof.
  intros H1 H2 H3 H4 Hp H. unfold decode_message in H.
  destruct (state m) as [| | | | | | | | |ack|trk|trk ack|st|rs| |rs t| |] eqn:Es; try done;
    try (by destruct (H1 _ _ eq_refl)); try (by destruct (H4 _ eq_refl)).
  - destruct msg as [[h|si|st| |mr|x|xa|xr]|e]; unfold decode_in_session, inappropriate in H; rewrite ?Es in H;
      simpl in H; try (destruct e); simplify_eq/=; rewrite ?Es; auto.
    unfold decode_ack in H. rewrite Es in H. apply bind_Ok in H as ([] & _ & H).
    cbn [pos pos_acked transfer transfer_data] in H.
    repeat case_match; simplify_eq/=; try done.
    exists xa. split; [set_solver|]. rewrite <-Hp. by apply Z.eqb_eq.
  - destruct msg as [[h|si|st| |mr|x|xa|xr]|e]; unfold decode_in_session, inappropriate, decode_ack in H;
      rewrite ?Es in H; simpl in H; try (destruct e); simplify_eq/=; rewrite ?Es; auto.
Qed.

Lemma send_ack_pending {E} acks r m m' ack :
  state m ≠ SessionEstablished →
  pending_ok acks r (state m) → send_ack (E := E) ack m = Ok m' → pending_ok acks r (state m').
Proof. intros Hne Hp H. unfold send_ack in H. destruct (state m); try done; by simplify_eq/=. Qed.

Lemma read_pending s now cert msg s' o acks r :
  event_ok s (EvRead now cert (Some msg)) → state (statemachine s) ≠ SessionEstablished →
  transfer_result_sender s = Some r → pending_ok acks r (state (statemachine s)) →
  read_message now cert msg s = Ok (s', o) →
  transfer_result_sender s' = Some r ∧
  pending_ok (acks ++ match msg with inl (MXferAck xa) => [xa] | _ => [] end) r (state (statemachine s')) ∧
  ∀ q, OResult q None ∉ o.
Proof.
  intros [Hen _] Hne Hr Hp H. unfold enabled in Hen. apply bind_Ok in Hen as (i & Hi & Hrd). apply Ok_inj in Hrd.
  unfold read_message in H. apply bind_Ok in H as ([m' d] & Hd & H).
  assert (pending_ok (acks ++ match msg with inl (MXferAck xa) => [xa] | _ => [] end) r (state m')) as Hp'.
  { eapply decode_message_pending; [..|done|done]; try done; unfold get_interests in Hi; intros; intros Es;
      rewrite Es in Hi; apply Ok_inj in Hi; by subst i. }
  destruct d as [[h|si|st| |mr|x|xa|xr]|[mt| | |id|e]]; try done;
    try (simplify_eq; split_and!; [done|done|set_solver]).
  - apply bind_Ok in H as (tls & _ & H). destruct (tls && negb _); simplify_eq. split_and!; [done|done|set_solver].
  - destruct (decode_segment _ _ _ _ Hd) as (-> & -> & Hst).
    assert (∃ s1 ack out, receive_segment x (with_machine (statemachine s) s) = (s1, ack, out) ∧
      statemachine s1 = statemachine s ∧ transfer_result_sender s1 = Some r ∧ ∀ q, OResult q None ∉ out)
      as (s1 & ack & out & Hs & E1 & E2 & E3).
    { unfold receive_segment. repeat case_match; eexists _, _, _; (split; [done|]); split_and!; try done; set_solver. }
    rewrite Hs in H. destruct ack as [ack|].
    + apply bind_Ok in H as (m2 & Ha & H). simplify_eq. split_and!; [done| |done].
      rewrite E1 in Ha. by eapply send_ack_pending.
    + simplify_eq. split_and!; [done| |done]. by rewrite E1.
  - destruct e; simplify_eq; split_and!; try done; set_solver.
Qed.

Lemma read_no_result s now cert msg s' o :
  read_message now cert msg s = Ok (s', o) →
  transfer_result_sender s' = transfer_result_sender s ∧ ∀ q, OResult q None ∉ o.
Proof.
  intros H. unfold read_message in H. apply bind_Ok in H as ([m' d] & _ & H).
  destruct d as [[h|si|st| |mr|x|xa|xr]|[mt| | |id|e]]; simplify_eq; try (split; [done|set_solver]).
  - apply bind_Ok in H as (tls & _ & H). case_match; simplify_eq. split; [done|set_solver].
  - assert (∃ s1 ack out, receive_segment x (with_machine m' s) = (s1, ack, out) ∧
      transfer_result_sender s1 = transfer_result_sender s ∧ ∀ q, OResult q None ∉ out)
      as (s1 & ack & out & Hs & E2 & E3).
    { unfold receive_segment. repeat case_match; eexists _, _, _; (split; [done|]); split_and!; try done; set_solver. }
    rewrite Hs in H. destruct ack; [apply bind_Ok in H as (m2 & _ & H)|]; by simplify_eq.
  - destruct e; simplify_eq; split; try done; set_solver.
Qed.

(** An arm keeps the invariant of the open result and reports no success. *)
Lemma select_arm_result s ev s' o acks :
  session_ok s → event_ok s ev →
  (could_send_transfer (statemachine s) = true → transfer_result_sender s = None) →
  result_ok acks s → select_arm ev s = Ok (Some s', o) →
  result_ok (acks ++ acks_read ev) s' ∧ ∀ q, OResult q None ∉ o.
Proof.
  intros Hok Hev Hnone Hres H. unfold result_ok in *.
  assert (∀ r, transfer_result_sender s = Some r → state (statemachine s) ≠ SessionEstablished) as Hne.
  { intros r Hr Es. unfold could_send_transfer, is_established in Hnone. rewrite Es in Hnone.
    rewrite Hnone in Hr; done. }
  destruct ev as [now cert [msg|]|io|[rq|]|now|]; cbn [select_arm acks_read] in *; try done.
  - apply bind_Ok in H as ([s1 o1] & Hr & H). simplify_eq.
    destruct (transfer_result_sender s) as [r|] eqn:Er.
    + destruct (read_pending _ _ _ _ _ _ acks r Hev (Hne r eq_refl) Er Hres Hr) as (-> & ? & ?). done.
    + destruct (read_no_result _ _ _ _ _ _ Hr) as [-> ?]. by rewrite Er.
  - apply bind_Ok in H as ([msgs m] & Hs & H). case_match; simplify_eq. rewrite app_nil_r. split; [|].
    + simpl. destruct (transfer_result_sender s); [|done].
      eapply send_message_pending; [|done..]. apply reachable_ok, Hok.
    + intros q Hq. apply list_elem_of_fmap in Hq as (? & ? & _). done.
  - apply bind_Ok in H as ([m e] & Hs & H). rewrite app_nil_r.
    destruct Hev as [Hen _]. unfold enabled in Hen. apply bind_Ok in Hen as (i & _ & Hc). apply Ok_inj in Hc.
    apply andb_true_iff in Hc as [_ Hc]. specialize (Hnone Hc). rewrite Hnone in *.
    destruct e; simplify_eq; simpl; [rewrite Hnone; split; [done|set_solver]|]. split; [|set_solver].
    unfold send_transfer in Hs. apply bind_Ok in Hs as (p & _ & Hs). case_match; [done|].
    cbn [state set_last_id] in Hs. unfold could_send_transfer, is_established in Hc.
    destruct (state (statemachine s)); try done. by simplify_eq.
  - simplify_eq. rewrite app_nil_r. split; [done|set_solver].
  - apply bind_Ok in H as (m & Hm & H). simplify_eq. rewrite app_nil_r. split; [|set_solver].
    cbn [transfer_result_sender with_machine statemachine]. destruct (transfer_result_sender s) as [r|] eqn:Er; [|done].
    assert (m = statemachine s) as ->.
    { unfold check_idle, is_established in Hm. specialize (Hne r eq_refl).
      destruct (state (statemachine s)); by simplify_eq. }
    destruct (initialized_keepalive s); done.
  - apply bind_Ok in H as (m & Hm & H). simplify_eq. rewrite app_nil_r. split; [|set_solver].
    cbn [transfer_result_sender with_machine statemachine]. destruct (transfer_result_sender s) as [r|] eqn:Er; [|done].
    unfold close_connection in Hm. apply bind_Ok in Hm as ([] & _ & Hm). by simplify_eq.
Qed.

(** Success is reported only after the peer acknowledged everything: if a session
    tells the sender of a bundle that its transfer succeeded, an acknowledgement
    for the full length of that bundle was read before, whatever else happened in
    between. *)
Theorem transfer_success_means_acked s out acks r :
  session_reachable s out acks → OResult r None ∈ out → fully_acked acks r.
Proof.
  intros Hr. assert (result_ok acks s ∧ ∀ q, OResult q None ∈ out → fully_acked acks q) as [_ H]; [|by auto].
  induction Hr as [id tls now|id tls now|s out acks tls_ok ev s1 o1 s' o2 Hr IH Hp Hc Hev Harm].
  - split; [done|set_solver].
  - split; [done|set_solver].
  - destruct IH as [Hres Hout]. pose proof (session_reachable_ok _ _ _ Hr) as Hok.
    destruct (prologue_frame _ _ _ _ Hp) as (Hm & _ & Ht & Ho).
    assert (result_ok acks s1) as Hres1.
    { unfold result_ok in *. rewrite Ht, Hm. case_match; [done|]. done. }
    destruct (select_arm_result s1 ev s' o2 acks) as [Hres2 Ho2]; try done.
    { by eapply prologue_ok. }
    { rewrite Hm, Ht. by intros ->. }
    split; [done|]. intros q [Hq|[Hq|Hq]%elem_of_app]%elem_of_app; [|destruct (Ho _ Hq) as [Hcs Hsd]|by destruct (Ho2 q)].
    + by apply fully_acked_app, Hout.
    + apply fully_acked_app. unfold result_ok in Hres. rewrite Hsd in Hres.
      unfold could_send_transfer, is_established in Hcs. by destruct (state (statemachine s)).
Qed.

Lemma session_never_panics_witness :
  prologue true (new_session (new_active (str "dtn://a") false) 0) = Err SSLError ∨
  ∃ s1 o1, prologue true (new_session (new_active (str "dtn://a") false) 0) = Ok (s1, o1) ∧
    ∀ ev, event_ok s1 ev → iteration true ev (new_session (new_active (str "dtn://a") false) 0) ≠ Panic.
Proof. apply (session_never_panics _ [] []). constructor. Defined.

(** A session that sends one bundle and reads its acknowledgement. *)
Module TransferRun.
Definition rq : TransferRequest := {| bundle_data := [1; 2; 3]; result_sender := 0 |}.
Definition read (m : Messages) : Event := EvRead 0 (λ _, true) (Some (inl m)).
Definition ack : XferAck :=
  {| XferMsg.ack_flags := 3; XferMsg.ack_transfer_id := 0; XferMsg.acknowleged_length := 3 |}.

(** [next H ev] extends the reachable session [H] by the event [ev]. *)
Ltac next H ev :=
  let H' := fresh in
  unshelve epose proof (session_iteration _ _ _ true ev _ _ _ _ H _ _ _ _) as H';
  [.. | vm_compute; reflexivity | reflexivity
   | split; [reflexivity | first [done | vm_compute; intuition congruence]]
   | vm_compute; reflexivity | ];
  clear H; rename H' into H.

Lemma run : ∃ s out acks, session_reachable s out acks ∧ OResult rq None ∈ out.
Proof.
  pose proof (session_active (str "dtn://a") false 0) as H.
  next H (EvWrite true).
  next H (read (MContactHeader (ContactHeaderMsg.new false))).
  next H (EvWrite true).
  next H (read (MSessInit (SessInitMsg.new (str "dtn://p")))).
  next H (EvTransfer (Some rq)).
  next H (EvWrite true).
  next H (read (MXferAck ack)).
  next H (EvTick 0).
  eexists _, _, _. split; [exact H|]. vm_compute. set_solver.
Qed.
End TransferRun.

Lemma transfer_success_means_acked_witness :
  ∃ s out acks, session_reachable s out acks ∧ OResult TransferRun.rq None ∈ out ∧
    fully_acked acks TransferRun.rq.
Proof.
  destruct TransferRun.run as (s & out & acks & H1 & H2). exists s, out, acks.
  split; [exact H1|]. split; [exact H2|].
  apply (transfer_success_means_acked s out acks TransferRun.rq H1 H2).
Defined.
