(* ===== verification/TcpclPair.v ===== *)
(** * Two TCPCL sessions on one connection (tcpcl/src/session.rs)

    The two ends of a connection, each running its loop, with the messages one has
    written and the other has not read yet between them.  A read takes the next
    message of the peer: the connection is reliable, and the codec gives back what
    was written (TcpclMessages).  Everything else may happen in any order at any
    time: timers, transfers, the close channel, a peer that is gone, a write that
    fails. *)
From S2P Require Import Prelude RustStr Flags TcpclMessages TcpclStateMachine TcpclSession.
Import XferMsg (XferAck, XferSegment, seg_flags, seg_transfer_id, seg_data, to_xfer_ack,
                ack_transfer_id, acknowleged_length).

(** ** One end *)

(** The session at the head of its loop, with everything it put out, read and took
    from its send channel so far; [over] when the loop has been left. *)
Record Side := {
  run : TCPCLSession;
  over : bool;
  outs : list Output;
  reads : list Messages;
  requests : list TransferRequest;
}.

Definition new_side (m : StateMachine) (now : Z) : Side :=
  {| run := new_session m now; over := false; outs := []; reads := []; requests := [] |}.

(** What an event reads from the peer and what it takes from the send channel. *)
Definition event_reads (ev : Event) : list Messages :=
  match ev with EvRead _ _ (Some (inl msg)) => [msg] | _ => [] end.
Definition event_requests (ev : Event) (o : list Output) : list TransferRequest :=
  match ev with
  | EvTransfer (Some r) => if o is [] then [r] else []
  | _ => []
  end.

Definition goes_on (ev : Event) (s : TCPCLSession) (o : list Output) (x : Side) : Side := {|
  run := s; over := false; outs := outs x ++ o; reads := reads x ++ event_reads ev;
  requests := requests x ++ event_requests ev o |}.
Definition is_over (o : list Output) (x : Side) : Side := {|
  run := run x; over := true; outs := outs x ++ o; reads := reads x; requests := requests x |}.

(** Events that the connection and the users of a session allow: a read gives the
    next message of the peer or the end of the stream, a bundle has a length. *)
Definition offered (wire : list Messages) (x : Side) (ev : Event) : Prop :=
  match ev with
  | EvRead _ _ (Some (inl msg)) => wire !! length (reads x) = Some msg
  | EvRead _ _ (Some (inr _)) => False
  | EvTransfer (Some r) => zlen (bundle_data r) < 2 ^ 63
  | _ => True
  end.

(** One turn of the loop, given the messages [wire] that the peer has written.  A
    write that fails may have sent its message. *)
Inductive side_step (wire : list Messages) (x : Side) : Side → Prop :=
| SideTurn tls_ok ev s1 o1 s' o2 :
    over x = false → prologue tls_ok (run x) = Ok (s1, o1) → should_close (statemachine s1) = false →
    enabled (E := unit) ev s1 = Ok true → offered wire x ev →
    select_arm ev s1 = Ok (Some s', o2) →
    side_step wire x (goes_on ev s' o2 (is_over o1 x))
| SideWriteFails tls_ok s1 o1 s' o2 :
    over x = false → prologue tls_ok (run x) = Ok (s1, o1) → should_close (statemachine s1) = false →
    enabled (E := unit) (EvWrite true) s1 = Ok true →
    select_arm (EvWrite true) s1 = Ok (Some s', o2) →
    side_step wire x (is_over (o1 ++ o2) x)
| SideEnds tls_ok ev s1 o1 r :
    over x = false → prologue tls_ok (run x) = Ok (s1, o1) →
    (should_close (statemachine s1) = true ∨
     enabled (E := unit) ev s1 = Ok true ∧ offered wire x ev ∧ select_arm ev s1 = r ∧
     ∀ s' o, r ≠ Ok (Some s', o)) →
    side_step wire x (is_over o1 x)
| SideTlsFails tls_ok e :
    over x = false → prologue tls_ok (run x) = Err e → side_step wire x (is_over [] x).

(** ** Both ends *)

Record Pair := { active : Side; passive : Side }.

Inductive pair_step (p : Pair) : Pair → Prop :=
| ActiveStep x : side_step (written (outs (passive p))) (active p) x →
    pair_step p {| active := x; passive := passive p |}
| PassiveStep x : side_step (written (outs (active p))) (passive p) x →
    pair_step p {| active := active p; passive := x |}.

Inductive pair_reachable : Pair → Prop :=
| pair_start id1 tls1 now1 id2 tls2 now2 :
    pair_reachable {| active := new_side (new_active id1 tls1) now1;
                      passive := new_side (new_passive id2 tls2) now2 |}
| pair_next p p' : pair_reachable p → pair_step p p' → pair_reachable p'.
