(* ===== verification/TcpclPairProps.v ===== *)
(** * What two connected sessions achieve

    Whatever the scheduler, the timers and the users do: no session panics, the
    transfers of one end arrive at the other one byte for byte, in order and once,
    and a transfer that is reported as successful has arrived. *)
From S2P Require Import Prelude RustStr Flags TcpclMessages TcpclStateMachine TcpclSession TcpclPair.
Import XferMsg (XferAck, XferSegment, seg_flags, seg_transfer_id, seg_data, to_xfer_ack,
                ack_transfer_id, acknowleged_length).
Import SessInitMsg (MAX_SEGMENT_MRU, MAX_TRANSFER_MRU).

(** ** The segments of a sequence of transfers *)

Definition pieces (id : Z) (d : bytes) : list XferSegment := segments (length d) MAX_SEGMENT_MRU id 0 d.

(** The transfers of the requests, the first of which has number [i]. *)
Fixpoint transfers_of (i : nat) (rqs : list TransferRequest) : list Transfer :=
  match rqs with
  | [] => []
  | r :: rqs => {| transfer_id := wrap64 (Z.of_nat i); transfer_data := bundle_data r |} :: transfers_of (S i) rqs
  end.
Definition pieces_of (ts : list Transfer) : list XferSegment :=
  concat (map (λ t, pieces (transfer_id t) (transfer_data t)) ts).
Definition acks_of_all (ts : list Transfer) : list XferAck :=
  concat (map (λ t, acks_of 0 (pieces (transfer_id t) (transfer_data t))) ts).

(** A segment at a receiver: the transfer under way, the acknowledgement and the
    transfer that is complete. *)
Definition take_segment (r : option Transfer) (x : XferSegment) : option Transfer * list XferAck * list Transfer :=
  let finish t :=
    let ack := to_xfer_ack x (zlen (transfer_data t)) in
    if contains (seg_flags x) XferMsg.END then (None, [ack], [t]) else (Some t, [ack], []) in
  match r with
  | Some t =>
      if transfer_id t =? seg_transfer_id x
      then finish {| transfer_id := transfer_id t; transfer_data := transfer_data t ++ seg_data x |}
      else (r, [], [])
  | None => finish {| transfer_id := seg_transfer_id x; transfer_data := seg_data x |}
  end.

Fixpoint take_segments (r : option Transfer) (l : list XferSegment) : option Transfer * list XferAck * list Transfer :=
  match l with
  | [] => (r, [], [])
  | x :: l =>
      let '(r, a, t) := take_segment r x in
      let '(r, a', t') := take_segments r l in
      (r, a ++ a', t ++ t')
  end.

Lemma take_segments_app r l1 l2 :
  take_segments r (l1 ++ l2) =
  let '(r, a, t) := take_segments r l1 in let '(r, a', t') := take_segments r l2 in (r, a ++ a', t ++ t').
Proof.
  revert r. induction l1 as [|x l1 IH]; intros r; simpl; [by destruct (take_segments r l2) as [[]]|].
  destruct (take_segment r x) as [[r1 a1] t1]. rewrite IH.
  destruct (take_segments r1 l1) as [[r2 a2] t2], (take_segments r2 l2) as [[r3 a3] t3]. by rewrite !app_assoc.
Qed.

Lemma receive_segment_take x s :
  let '(r, a, t) := take_segment (receiving_transfer s) x in
  receive_segment x s = (with_receiving r s, head a, map OReceived t) ∧ (length a ≤ 1)%nat.
Proof.
  unfold receive_segment, take_segment. destruct (receiving_transfer s) as [t|] eqn:Er.
  - destruct (transfer_id t =? seg_transfer_id x).
    + destruct (contains (seg_flags x) XferMsg.END); split; simpl; done || lia.
    + split; [|simpl; lia]. simpl. rewrite <-Er. by destruct s.
  - destruct (contains (seg_flags x) XferMsg.END); split; simpl; done || lia.
Qed.

(** ** Acknowledgements of a transfer *)

Lemma segments_end fuel mru id p d : zlen d ≤ p → segments fuel mru id p d = [].
Proof. intros H. destruct fuel; simpl; [done|]. by rewrite (proj2 (Z.ltb_ge p (zlen d))) by lia. Qed.

(** What is received of a transfer from byte [p] on. *)
Lemma take_pieces fuel mru id p d l :
  0 < mru → 0 ≤ p < zlen d → zlen d - p ≤ Z.of_nat fuel → l `prefix_of` segments fuel mru id p d →
  ∃ r, take_segments (partial id p d) l =
    (r, acks_of p l, if decide (length l = length (segments fuel mru id p d))
                     then [{| transfer_id := id; transfer_data := d |}] else []) ∧
  (length l = length (segments fuel mru id p d) → r = None).
Proof.
  intros Hm. revert p l. induction fuel as [|fuel IH]; intros p l Hp Hf Hl; [lia|].
  cbn [segments] in *. rewrite (proj2 (Z.ltb_lt p (zlen d))) in * by lia. cbn zeta in *.
  set (e := Z.min (p + mru) (zlen d)) in *.
  match type of Hl with _ `prefix_of` ?a :: _ => set (x := a) in * end.
  destruct l as [|y l]; [by eexists|]. pose proof (prefix_cons_inv_1 _ _ _ _ Hl) as ->.
  apply prefix_cons_inv_2 in Hl. cbn [take_segments acks_of].
  assert (zlen (seg_data x) = e - p) as Hlx by (simpl; rewrite length_take, length_drop; lia).
  assert (take (Z.to_nat p) d ++ seg_data x = take (Z.to_nat e) d) as Happ.
  { simpl. rewrite take_take_drop. f_equal. lia. }
  assert (take_segment (partial id p d) x =
    (if e =? zlen d then None else partial id e d, [to_xfer_ack x e],
     if e =? zlen d then [{| transfer_id := id; transfer_data := d |}] else [])) as ->.
  { unfold take_segment, partial. assert ((e =? 0) = false) as -> by lia.
    assert (contains (seg_flags x) XferMsg.END = (e =? zlen d)) as Hend by apply segment_flags_END.
    assert (zlen (take (Z.to_nat e) d) = e) as Hlen by (rewrite length_take; lia).
    change (seg_transfer_id x) with id.
    destruct (Z.eqb_spec p 0) as [Hp0|]; cbn [transfer_id transfer_data]; [|rewrite (Z.eqb_refl id)];
      cbn [transfer_data]; [assert (seg_data x = take (Z.to_nat e) d) as -> by (by rewrite <-Happ, Hp0)|rewrite Happ];
      rewrite Hend, Hlen; (destruct (Z.eqb_spec e (zlen d)) as [Hed|]; [rewrite Hed, Nat2Z.id, firstn_all|]; done). }
  rewrite Hlx. replace (p + (e - p)) with e by lia.
  destruct (Z.eqb_spec e (zlen d)) as [Hed|Hed].
  - rewrite (segments_end fuel mru id e d) in * by lia. apply prefix_nil_inv in Hl as ->.
    exists None. by rewrite decide_True.
  - destruct (IH e l) as (r & -> & Hr); [lia|lia|done|]. exists r. split.
    + f_equal. destruct (decide (length l = _)) as [E|Hne]; [by rewrite decide_True by (simpl; congruence)|].
      by rewrite decide_False by (simpl; congruence).
    + intros [= H]. by apply Hr.
Qed.

(** ** Acknowledgements of a sequence of transfers *)

Lemma prefix_of_app {A} (l a b : list A) :
  l `prefix_of` a ++ b → l `prefix_of` a ∨ ∃ l', l = a ++ l' ∧ l' `prefix_of` b.
Proof.
  intros [k Hk]. symmetry in Hk. destruct (app_eq_inv _ _ _ _ Hk) as [(k' & -> & ->)|(k' & -> & ->)].
  - right. exists k'. split; [done|by exists k].
  - left. by exists k'.
Qed.

Lemma prefix_same_length {A} (l k : list A) : l `prefix_of` k → length l = length k → l = k.
Proof. intros H Hl. apply prefix_length_eq; [done|lia]. Qed.

(** An empty transfer is never sent, so only the last one can be empty. *)
Fixpoint proper (ts : list Transfer) : Prop :=
  match ts with
  | [] => True
  | t :: ts => (ts = [] ∨ transfer_data t ≠ []) ∧ proper ts
  end.
Definition sendable (t : Transfer) : Prop := transfer_data t ≠ [].

Lemma proper_snoc ts t : proper (ts ++ [t]) ↔ Forall sendable ts.
Proof.
  induction ts as [|u ts IH]; simpl; [split; [constructor|auto]|].
  rewrite IH, Forall_cons. split; [|naive_solver]. intros [[H|H] ?]; [by destruct ts|done].
Qed.
Lemma sendable_proper ts : Forall sendable ts → proper ts.
Proof. induction 1; simpl; auto. Qed.

Lemma pieces_of_app ts us : pieces_of (ts ++ us) = pieces_of ts ++ pieces_of us.
Proof. unfold pieces_of. by rewrite map_app, concat_app. Qed.
Lemma acks_of_all_app ts us : acks_of_all (ts ++ us) = acks_of_all ts ++ acks_of_all us.
Proof. unfold acks_of_all. by rewrite map_app, concat_app. Qed.

Lemma pieces_of_one t : pieces_of [t] = pieces (transfer_id t) (transfer_data t).
Proof. unfold pieces_of. simpl. apply app_nil_r. Qed.
Lemma acks_of_all_one t : acks_of_all [t] = acks_of 0 (pieces (transfer_id t) (transfer_data t)).
Proof. unfold acks_of_all. simpl. apply app_nil_r. Qed.

Lemma length_acks_of b l : length (acks_of b l) = length l.
Proof. revert b. induction l; intros; simpl; auto. Qed.
Lemma length_acks_of_all ts : length (acks_of_all ts) = length (pieces_of ts).
Proof.
  induction ts as [|t ts IH]; [done|]. unfold acks_of_all, pieces_of in *. simpl.
  by rewrite !length_app, length_acks_of, IH.
Qed.
Lemma acks_of_prefix b l k : l `prefix_of` k → acks_of b l `prefix_of` acks_of b k.
Proof.
  revert b k. induction l as [|x l IH]; intros b k H; simpl; [apply prefix_nil|].
  destruct k as [|y k]; [by apply prefix_nil_not in H|].
  pose proof (prefix_cons_inv_1 _ _ _ _ H) as ->. apply prefix_cons_inv_2 in H. simpl. by apply prefix_cons, IH.
Qed.

Lemma MAX_SEGMENT_MRU_pos : 0 < MAX_SEGMENT_MRU.
Proof. done. Qed.
Lemma sendable_length t : sendable t → 0 < zlen (transfer_data t).
Proof. unfold sendable. destruct (transfer_data t); [done|simpl; lia]. Qed.

(** One transfer, from its first segment on. *)
Lemma take_one t l :
  sendable t → l `prefix_of` pieces (transfer_id t) (transfer_data t) →
  ∃ r, take_segments None l =
    (r, acks_of 0 l, if decide (length l = length (pieces (transfer_id t) (transfer_data t))) then [t] else []) ∧
  (length l = length (pieces (transfer_id t) (transfer_data t)) → r = None).
Proof.
  intros Ht%sendable_length Hl. destruct t as [id d].
  destruct (take_pieces (length d) MAX_SEGMENT_MRU id 0 d l) as (r & H & Hr);
    [apply MAX_SEGMENT_MRU_pos|simpl in *; lia|simpl in *; lia|done|]. by exists r.
Qed.

Lemma take_whole ts : Forall sendable ts → take_segments None (pieces_of ts) = (None, acks_of_all ts, ts).
Proof.
  induction 1 as [|t ts Ht _ IH]; [done|]. unfold pieces_of, acks_of_all in *. simpl.
  destruct (take_one t (pieces (transfer_id t) (transfer_data t)) Ht) as (r & H & Hr); [done|].
  rewrite take_segments_app, H, decide_True by done. rewrite (Hr eq_refl), IH. done.
Qed.

(** Of the segments of a sequence of transfers a receiver makes a beginning of the
    sequence, and acknowledges each of them. *)
Lemma take_prefix ts l :
  proper ts → l `prefix_of` pieces_of ts →
  ∃ r a dl, take_segments None l = (r, a, dl) ∧ dl `prefix_of` ts ∧ a `prefix_of` acks_of_all ts ∧
    length a = length l.
Proof.
  revert l. induction ts as [|t ts IH]; intros l Hp Hl.
  { apply prefix_nil_inv in Hl as ->. by exists None, [], []. }
  destruct Hp as [Hlast Hp]. unfold pieces_of in Hl. simpl in Hl.
  destruct (decide (transfer_data t = [])) as [He|Hne].
  { destruct Hlast as [->|?]; [|done]. rewrite He in Hl. apply prefix_nil_inv in Hl as ->.
    exists None, [], []. split_and!; [done|apply prefix_nil..|done]. }
  unfold acks_of_all. simpl. apply prefix_of_app in Hl as [Hl|(l' & -> & Hl)].
  - destruct (take_one t l Hne Hl) as (r & H & _). exists r, (acks_of 0 l), (if decide (length l = length (pieces (transfer_id t) (transfer_data t))) then [t] else []).
    split_and!; [done| |by apply prefix_app_r, acks_of_prefix|apply length_acks_of].
    case_match; [by exists ts|apply prefix_nil].
  - destruct (take_one t _ Hne (reflexivity _)) as (r & H & Hr). rewrite decide_True in H by done.
    rewrite (Hr eq_refl) in H. destruct (IH l' Hp Hl) as (r' & a & dl & H' & Hd & Ha & Hn).
    rewrite take_segments_app, H, H'. eexists _, _, _. split_and!; [done|by apply prefix_cons|by apply prefix_app|].
    by rewrite !length_app, length_acks_of, Hn.
Qed.

(** What was taken completely is delivered. *)
Lemma take_delivers ts l r a dl :
  Forall sendable ts → pieces_of ts `prefix_of` l → take_segments None l = (r, a, dl) → ts `prefix_of` dl.
Proof.
  intros Hs [k ->] H. rewrite take_segments_app, take_whole in H by done.
  destruct (take_segments None k) as [[r' a'] dl']. injection H as <- <- <-. by exists dl'.
Qed.

(** ** The lengths in acknowledgements *)

Definition total (l : list XferSegment) : Z := zlen (concat (map seg_data l)).

Lemma total_app l k : total (l ++ k) = total l + total k.
Proof. unfold total. rewrite map_app, concat_app, length_app. lia. Qed.

Lemma total_cons x l : total (x :: l) = zlen (seg_data x) + total l.
Proof. unfold total. simpl. rewrite length_app. lia. Qed.

Lemma total_pos l : Forall (λ x, 0 < zlen (seg_data x)) l → l ≠ [] → 0 < total l.
Proof. intros [|x l' Hx _] Hne; [done|]. rewrite total_cons. unfold total. lia. Qed.

Lemma segments_total fuel id p d :
  0 ≤ p ≤ zlen d → zlen d - p ≤ Z.of_nat fuel → total (segments fuel MAX_SEGMENT_MRU id p d) = zlen d - p.
Proof.
  intros Hp Hf. unfold total. rewrite segments_concat by (done || lia). rewrite length_drop. lia.
Qed.

Lemma segments_Forall fuel id p d :
  0 ≤ p → Forall (λ x, seg_transfer_id x = id ∧ 0 < zlen (seg_data x)) (segments fuel MAX_SEGMENT_MRU id p d).
Proof.
  pose proof MAX_SEGMENT_MRU_pos as Hm. revert p. induction fuel as [|fuel IH]; intros p Hp; simpl; [constructor|].
  destruct (Z.ltb_spec p (zlen d)); constructor; [|apply IH; lia]. split; [done|]. simpl.
  rewrite length_take, length_drop. lia.
Qed.

Lemma segments_fuel fuel fuel' id p d :
  0 ≤ p → zlen d - p ≤ Z.of_nat fuel → zlen d - p ≤ Z.of_nat fuel' →
  segments fuel MAX_SEGMENT_MRU id p d = segments fuel' MAX_SEGMENT_MRU id p d.
Proof.
  pose proof MAX_SEGMENT_MRU_pos as Hm.
  revert fuel' p. induction fuel as [|fuel IH]; intros fuel' p Hp Hf Hf'.
  { by rewrite !segments_end by lia. }
  destruct (Z.ltb_spec p (zlen d)) as [Hlt|Hge]; [|by rewrite !segments_end by lia].
  destruct fuel' as [|fuel']; [lia|]. simpl. rewrite (proj2 (Z.ltb_lt p (zlen d)) Hlt). f_equal. apply IH; lia.
Qed.

Lemma acks_of_lookup b l k xa :
  acks_of b l !! k = Some xa →
  ∃ x, l !! k = Some x ∧ xa = to_xfer_ack x (b + total (take (S k) l)).
Proof.
  revert b k. induction l as [|x l IH]; intros b k H; [done|]. destruct k as [|k]; simpl in H.
  - injection H as <-. exists x. split; [done|]. simpl. rewrite total_cons. do 2 f_equal. unfold total. simpl. lia.
  - destruct (IH _ _ H) as (y & Hy & ->). exists y. split; [done|]. simpl. rewrite total_cons. f_equal. lia.
Qed.

(** An acknowledgement of a transfer of which the pieces [P] are sent, up to byte [pos]. *)
Lemma ack_of_sent id d P pos k xa :
  0 ≤ pos ≤ zlen d → P ++ segments (length d) MAX_SEGMENT_MRU id pos d = pieces id d →
  (k < length P)%nat → acks_of 0 (pieces id d) !! k = Some xa →
  ack_transfer_id xa = id ∧ 0 ≤ acknowleged_length xa ≤ pos ∧
  (acknowleged_length xa = zlen d ↔ S k = length (pieces id d)).
Proof.
  intros Hpos HP Hk (x & Hx & ->)%acks_of_lookup. simpl.
  assert (Forall (λ x, seg_transfer_id x = id ∧ 0 < zlen (seg_data x)) (pieces id d)) as Hall by (by apply segments_Forall).
  assert (total (pieces id d) = zlen d) as Htot.
  { unfold pieces. rewrite segments_total by lia. lia. }
  pose proof (f_equal total HP) as Hsum. rewrite total_app, segments_total, Htot in Hsum by lia.
  rewrite Forall_lookup in Hall. split; [by apply (Hall _ _ Hx)|].
  assert (take (S k) (pieces id d) = take (S k) P) as Htk.
  { rewrite <-HP, take_app_le by lia. done. }
  split.
  - rewrite Htk. pose proof (f_equal total (take_drop (S k) P)) as Hs. rewrite total_app in Hs. unfold total in *. lia.
  - pose proof (f_equal total (take_drop (S k) (pieces id d))) as Hs. rewrite total_app in Hs. apply lookup_lt_Some in Hx. split.
    + intros Hlen. destruct (decide (drop (S k) (pieces id d) = [])) as [Hd|Hd].
      * apply (f_equal length) in Hd. rewrite length_drop in Hd. simpl in Hd. lia.
      * apply total_pos in Hd; [lia|]. apply Forall_drop, Forall_lookup. intros ? ? H. by eapply Hall.
    + intros Hl. rewrite drop_ge in Hs by lia. unfold total in *. simpl in Hs. lia.
Qed.

(** ** What holds of an end *)

Definition segs (ms : list Messages) : list XferSegment :=
  omap (λ m, match m with MXferSegment x => Some x | _ => None end) ms.
Definition acks (ms : list Messages) : list XferAck :=
  omap (λ m, match m with MXferAck a => Some a | _ => None end) ms.

Definition standard (p : SessInitMsg.SessInit) : Prop :=
  SessInitMsg.segment_mru p = MAX_SEGMENT_MRU ∧ SessInitMsg.transfer_mru p = MAX_TRANSFER_MRU.

(** The first message is the contact header, and the only one. *)
Definition later (m : Messages) : Prop :=
  match m with MContactHeader _ => False | MSessInit si => standard si | _ => True end.
Definition wire_ok (W : list Messages) : Prop :=
  match W with [] => True | MContactHeader _ :: W => Forall later W | _ => False end.

(** The state without the keepalives that go before it. *)
Fixpoint core (st : States) : States := match st with SendKeepalive st => core st | _ => st end.

Definition headers_ok (m : StateMachine) (st : States) : Prop :=
  match st with
  | ActiveSendContactHeader | PassiveWaitContactHeader =>
      my_contact_header m = None ∧ peer_contact_header m = None
  | ActiveWaitContactHeader => peer_contact_header m = None
  | PassiveSendContactHeader => my_contact_header m = None
  | _ => True
  end.

(** The sender of [ts] has sent [sent] and read [n] acknowledgements. *)
Definition sender_ok (ts : list Transfer) (sent : list XferSegment) (n : nat) (st : States) : Prop :=
  match st with
  | SendXferSegments trk | SendXferSegmentsAndAck trk _ =>
      let d := transfer_data (transfer trk) in
      ∃ ds, ts = ds ++ [transfer trk] ∧ Forall sendable ds ∧ 0 ≤ pos trk ≤ zlen d ∧
        sent ++ segments (length d) MAX_SEGMENT_MRU (transfer_id (transfer trk)) (pos trk) d = pieces_of ts ∧
        (length (pieces_of ds) ≤ n)%nat
  | SendSessTerm _ | WaitSessTerm | SendMsgReject _ _ | ConnectionClose | ShouldNeverExist => True
  | _ => sent = pieces_of ts ∧ n = length sent ∧ Forall sendable ts
  end.

(** The receiver of [got] is in the transfer [r], has sent the acknowledgements [a] and
    handed on [D]. *)
Definition pending_ack (st : States) : list XferAck :=
  match st with SendXferAck a | SendXferSegmentsAndAck _ a => [a] | _ => [] end.
Definition receiver_ok (got : list XferSegment) (r : option Transfer) (a : list XferAck) (D : list Transfer)
    (st : States) : Prop :=
  match st with
  | SendMsgReject _ _ | ConnectionClose | ShouldNeverExist => True
  | _ => take_segments None got = (r, a ++ pending_ack st, D)
  end.

(** What stays true when the loop has been left: [W] was written, [R] was read, [rqs]
    were accepted, [D] was handed on. *)
Record hist (W R : list Messages) (rqs : list TransferRequest) (D : list Transfer) : Prop := {
  hi_wire : wire_ok W;
  hi_sent : segs W `prefix_of` pieces_of (transfers_of 0 rqs);
  hi_proper : proper (transfers_of 0 rqs);
  hi_length : Forall (λ r, zlen (bundle_data r) < 2 ^ 63) rqs;
  hi_received : ∃ taken r a,
    taken `prefix_of` segs R ∧ take_segments None taken = (r, a, D) ∧ acks W `prefix_of` a;
}.

Record live (m : StateMachine) (r : option Transfer) (W R : list Messages) (rqs : list TransferRequest)
    (D : list Transfer) : Prop := {
  lv_my : my_contact_header m = None ↔ W = [];
  lv_theirs : peer_contact_header m = None ↔ R = [];
  lv_headers : headers_ok m (core (state m));
  lv_peer : ∀ p, peer_sess_init m = Some p → standard p;
  lv_id : last_used_transfer_id m = wrap64 (Z.of_nat (length rqs));
  lv_sender : sender_ok (transfers_of 0 rqs) (segs W) (length (acks R)) (core (state m));
  lv_receiver : receiver_ok (segs R) r (acks W) D (core (state m));
}.

Lemma segs_app l k : segs (l ++ k) = segs l ++ segs k.
Proof. apply omap_app. Qed.
Lemma acks_app l k : acks (l ++ k) = acks l ++ acks k.
Proof. apply omap_app. Qed.

Lemma wire_ok_snoc W m : wire_ok W → W ≠ [] → later m → wire_ok (W ++ [m]).
Proof. destruct W as [|[] W]; try done. simpl. intros H _ Hm. by apply Forall_app_2; [|constructor]. Qed.

Lemma core_not_keepalive st st' : core st ≠ SendKeepalive st'.
Proof. induction st; done. Qed.

Lemma transfers_of_app i l k : transfers_of i (l ++ k) = transfers_of i l ++ transfers_of (i + length l) k.
Proof.
  revert i. induction l as [|r l IH]; intros i; simpl; [by rewrite Nat.add_0_r|].
  rewrite IH. do 3 f_equal. lia.
Qed.
Lemma length_transfers_of i l : length (transfers_of i l) = length l.
Proof. revert i. induction l; intros; simpl; auto. Qed.

(** ** Changes of the state only *)

Section one_end.
Context (r : option Transfer) (W R : list Messages) (rqs : list TransferRequest) (D : list Transfer).

Lemma live_keepalive m : live m r W R rqs D → live (send_keepalive m) r W R rqs D.
Proof. intros [L1 L2 L3 L4 L5 L6 L7]. split; done. Qed.

(** A session that is about to end. *)
Lemma live_closing m reason :
  state m = SessionEstablished → live m r W R rqs D → live (set_state (SendSessTerm reason) m) r W R rqs D.
Proof.
  intros Hs [L1 L2 L3 L4 L5 L6 L7]. rewrite Hs in *. split; try done.
Qed.

Lemma live_check_idle s now m' :
  check_idle now s = Ok m' → live (statemachine s) r W R rqs D → live m' r W R rqs D.
Proof.
  intros H L. unfold check_idle, is_established in H. destruct (state (statemachine s)) eqn:Es; simplify_eq; try done.
  obind. case_match; simplify_eq; [|done]. unfold close_connection, is_established in H. rewrite Es in H.
  simpl in H. simplify_eq. by apply live_closing.
Qed.
End one_end.

(** ** A transfer is accepted *)

Lemma live_transfer r W R rqs D rq m m' :
  could_send_transfer m = true → live m r W R rqs D → hist W R rqs D → zlen (bundle_data rq) < 2 ^ 63 →
  send_transfer (E := ErrorType) (bundle_data rq) m = Ok (m', None) →
  live m' r W R (rqs ++ [rq]) D ∧ hist W R (rqs ++ [rq]) D.
Proof.
  intros Hc [L1 L2 L3 L4 L5 L6 L7] [H1 H2 H3 H4 H5] Hlen H.
  unfold send_transfer in H. apply bind_Ok in H as (p & Hp%unwrap_Ok & H). case_match; [done|].
  unfold could_send_transfer, is_established in Hc. cbn [state set_last_id] in H.
  destruct (state m) eqn:Es; try done. simplify_eq. destruct L6 as (Hsent & Hn & Hall).
  set (t := {| transfer_id := last_used_transfer_id m; transfer_data := bundle_data rq |}).
  assert (transfers_of 0 (rqs ++ [rq]) = transfers_of 0 rqs ++ [t]) as Hts.
  { rewrite transfers_of_app. simpl. unfold t. by rewrite L5. }
  split; split; try done.
  - cbn [last_used_transfer_id set_state set_last_id]. rewrite L5, length_app. simpl.
    unfold wrap64. rewrite Nat2Z.inj_add. rewrite Z.add_mod_idemp_l by done. done.
  - cbn [state set_state core sender_ok transfer pos]. exists (transfers_of 0 rqs). rewrite Hts.
    split_and!; [done|done|lia|unfold t; simpl; lia| |].
    + rewrite Hsent, pieces_of_app. f_equal. unfold pieces_of. simpl. by rewrite app_nil_r.
    + rewrite Hn, Hsent. done.
  - rewrite Hts, pieces_of_app. by apply prefix_app_r.
  - rewrite Hts. by apply proper_snoc.
  - by apply Forall_app_2; [|constructor].
Qed.

(** ** A message is written *)

(** The next segment. *)
Lemma live_send_segment r W R rqs D m m' msgs trk :
  machine_ok m → state m = SendXferSegments trk → live m r W R rqs D →
  send_message (E := ErrorType) m = Ok (msgs, m') →
  live m' r (W ++ msgs) R rqs D ∧ Forall later msgs ∧ acks msgs = [].
Proof.
  intros [Hst Hpeer _] Hs [L1 L2 L3 L4 L5 L6 L7] H. rewrite Hs in *. simpl in Hst, L6, L7.
  destruct Hst as [Hup Hsend]. unfold send_message in H. rewrite Hs in H. unfold sending_ok in Hsend.
  destruct (peer_sess_init m) as [p|] eqn:Ep; [|done]. ored. change (unwrap (Some p)) with (@Ok ErrorType _ p) in H.
  cbn [mbind outcome_bind] in H. destruct (L4 p eq_refl) as [Hmru _].
  case_match eqn:Epos; [simplify_eq; rewrite app_nil_r; split; [|done]; split; rewrite ?Hs, ?Ep; done|].
  apply Z.eqb_neq in Epos. destruct (segment_end_ok p trk (Hpeer p eq_refl) Hsend Epos) as (He & Hpos & _).
  simpl in He, Hpos. rewrite Hmru in *. set (e := Z.min _ _) in *.
  apply bind_Ok in H as ([] & _ & H). apply bind_Ok in H as (m1 & Hc & H). injection H as <- <-.
  unfold send_complete in Hc. cbn [state set_state pos pos_acked transfer transfer_data] in Hc.
  destruct Hsend as (Hack & Hlen & _). pose proof MAX_SEGMENT_MRU_pos as HM.
  rewrite (proj2 (Z.eqb_neq e (pos_acked trk))), andb_false_r in Hc by lia. injection Hc as <-.
  destruct L6 as (ds & Hts & Hds & Hp & Hsegs & Hn). split; [|split; [by repeat constructor|done]].
  split; try done.
  - destruct Hup as [[[h Hh] _] _]. cbn [my_contact_header set_state]. rewrite Hh. split; [done|].
    intros E. by apply app_eq_nil in E as [_ ?].
  - simpl. by rewrite Ep.
  - cbn [state set_state core sender_ok transfer pos]. cbn zeta. exists ds. split_and!; try done; try lia.
    rewrite segs_app, <-Hsegs, <-app_assoc. f_equal. simpl.
    rewrite (segments_fuel (length (transfer_data (transfer trk))) (S (length (transfer_data (transfer trk)))) _ (pos trk)) by lia.
    cbn [segments]. rewrite (proj2 (Z.ltb_lt (pos trk) _)) by lia. cbn zeta. by rewrite <-He.
  - rewrite acks_app. simpl. by rewrite app_nil_r.
Qed.


(** A message that is no segment was written after the contact header. *)
Ltac wrote :=
  split; [split; try done; simpl; rewrite ?segs_app, ?acks_app; simpl; by rewrite ?app_nil_r|];
  match goal with H : _ → Forall later _ → _ |- _ => apply H; [done|by repeat constructor] end.

Lemma live_send r W R rqs D m m' msgs i :
  machine_ok m → get_interests (E := ErrorType) m = Ok i → is_writable i = true →
  live m r W R rqs D → wire_ok W → send_message (E := ErrorType) m = Ok (msgs, m') →
  live m' r (W ++ msgs) R rqs D ∧ wire_ok (W ++ msgs).
Proof.
  intros Hm Hi Hw L HW H.
  assert (W ≠ [] → Forall later msgs → wire_ok (W ++ msgs)) as Hlater.
  { intros Hne Hl. destruct W as [|[] W]; try done. simpl in *. by apply Forall_app_2. }
  assert (have_headers m → W ≠ []) as Hsent.
  { intros [[h Hh] _] Hnil. apply (lv_my _ _ _ _ _ _ L) in Hnil. congruence. }
  pose proof Hm as [Hst _ _]. pose proof L as [L1 L2 L3 L4 L5 L6 L7].
  unfold get_interests in Hi.
  destruct (state m) as [| | | | | | | | |ack|trk|trk ack|st|rs| |rs t| |] eqn:Es;
    apply Ok_inj in Hi || done; subst i; try done.
  all: unfold send_message, send_complete in H; rewrite ?Es in H;
    cbn [state set_headers set_sess_inits mbind outcome_bind] in H; rewrite ?Es in H;
    cbn [mbind outcome_bind] in H.
  all: simpl in L3, L6, L7, Hst; rewrite ?app_nil_r in L7.
  all: try (assert (have_headers m) as Hh by first [exact Hst|exact (proj1 Hst)|exact (proj1 (proj1 Hst))]).
  all: try (specialize (Hsent Hh); assert (my_contact_header m = None ↔ W ++ msgs = []) as L1'
              by (rewrite L1; destruct W; [done|]; by split)).
  - injection H as <- <-. destruct L3 as [H1 H2]. apply L1 in H1 as ->. split; [|by simpl].
    by split; simpl.
  - injection H as <- <-. apply L1 in L3 as ->. split; [|by simpl]. by split; simpl.
  - injection H as <- <-. wrote.
  - injection H as <- <-. wrote.
  - injection H as <- <-. wrote.
  - destruct (live_send_segment r W R rqs D m m' msgs trk) as (? & ? & _); try done; [|by split; auto].
    unfold send_message. rewrite Es. exact H.
  - injection H as <- <-. wrote.
  - injection H as <- <-. wrote.
  - destruct (terminating m); injection H as <- <-; wrote.
  - injection H as <- <-. wrote.
Qed.

Lemma sender_prefix ts sent n st :
  match st with SendXferSegments _ | SessionEstablished => True | _ => False end →
  sender_ok ts sent n st → sent `prefix_of` pieces_of ts.
Proof. destruct st; try done; intros _; [by intros [-> _]|]. intros (ds & _ & _ & _ & <- & _). by apply prefix_app_r. Qed.

Lemma send_segment_msgs m m' msgs trk :
  state m = SendXferSegments trk → send_message (E := ErrorType) m = Ok (msgs, m') →
  acks msgs = [] ∧ (segs msgs = [] ∨ match state m' with SendXferSegments _ | SessionEstablished => True | _ => False end).
Proof.
  intros Es H. unfold send_message in H. rewrite Es in H. apply bind_Ok in H as (p & _ & H).
  case_match; [by simplify_eq; auto|]. apply bind_Ok in H as ([] & _ & H). apply bind_Ok in H as (m1 & Hc & H).
  simplify_eq. split; [done|]. right. unfold send_complete in Hc. cbn [state set_state] in Hc.
  case_match; by simplify_eq.
Qed.

Lemma hist_send r W R rqs D m m' msgs :
  live m r W R rqs D → live m' r (W ++ msgs) R rqs D → wire_ok (W ++ msgs) → hist W R rqs D →
  send_message (E := ErrorType) m = Ok (msgs, m') → hist (W ++ msgs) R rqs D.
Proof.
  intros L L' Hw [H1 H2 H3 H4 (tk & r0 & a & Htk & Hta & Ha)] H.
  pose proof (lv_receiver _ _ _ _ _ _ L) as L7. pose proof (lv_sender _ _ _ _ _ _ L') as L6.
  assert ((acks msgs = [] ∨ take_segments None (segs R) = (r, acks W ++ acks msgs, D)) ∧
          (segs msgs = [] ∨ segs (W ++ msgs) `prefix_of` pieces_of (transfers_of 0 rqs))) as [Hacks Hsegs].
  { assert ((∃ trk, state m = SendXferSegments trk) ∨ ¬ ∃ trk, state m = SendXferSegments trk) as [[trk Es]|Hno]
      by (destruct (state m); (left; by eexists) || (right; by intros [? [=]])).
    - destruct (send_segment_msgs _ _ _ _ Es H) as [-> Hm]. split; [by left|].
      destruct Hm as [->|Hm]; [by left|right]. eapply sender_prefix; [|exact L6].
      by destruct (state m').
    - unfold send_message, send_complete in H. destruct (state m); try done; simpl in L7;
        try (by destruct Hno; eauto); obind; repeat case_match; simplify_eq; simpl; auto. }
  rewrite segs_app in Hsegs.
  split; try done.
  - rewrite segs_app. destruct Hsegs as [->|?]; [by rewrite app_nil_r|done].
  - rewrite acks_app. destruct Hacks as [->|Ht]; [rewrite app_nil_r; by exists tk, r0, a|]. by eexists (segs R), _, _.
Qed.

(** ** A message is read *)

(** The next message of the peer. *)
Record next_ok (W R : list Messages) (rqs : list TransferRequest) (msg : Messages) : Prop := {
  nx_first : R = [] → ∃ h, msg = MContactHeader h;
  nx_later : R ≠ [] → later msg;
  nx_ack xa : msg = MXferAck xa →
    acks_of_all (transfers_of 0 rqs) !! length (acks R) = Some xa ∧ (length (acks R) < length (segs W))%nat;
}.

(** The acknowledgement belongs to the transfer that is being sent. *)
Lemma ack_fits trk ts sent n xa :
  sender_ok ts sent n (SendXferSegments trk) → acks_of_all ts !! n = Some xa → (n < length sent)%nat →
  ack_transfer_id xa = transfer_id (transfer trk) ∧ 0 ≤ acknowleged_length xa ≤ pos trk ∧
  (acknowleged_length xa = zlen (transfer_data (transfer trk)) →
     sent = pieces_of ts ∧ S n = length sent ∧ Forall sendable ts).
Proof.
  intros (ds & -> & Hds & Hp & Hsent & Hn) Hxa Hlt. destruct (transfer trk) as [id d] eqn:Et.
  cbn [transfer_id transfer_data] in *.
  rewrite acks_of_all_app, acks_of_all_one, lookup_app_r, length_acks_of_all in Hxa by (by rewrite length_acks_of_all).
  rewrite pieces_of_app, pieces_of_one in Hsent. cbn [transfer_id transfer_data] in *.
  assert (∃ P, sent = pieces_of ds ++ P) as [P ->].
  { exists (drop (length (pieces_of ds)) sent). rewrite <-(take_drop (length (pieces_of ds)) sent) at 1. f_equal.
    apply (f_equal (take (length (pieces_of ds)))) in Hsent.
    rewrite take_app_le in Hsent by lia. by rewrite take_app_length in Hsent. }
  rewrite <-app_assoc in Hsent. apply app_inv_head in Hsent. rewrite length_app in Hlt.
  destruct (ack_of_sent id d P (pos trk) (n - length (pieces_of ds)) xa) as (Hid & Hl & Hend); [done|done|lia|done|].
  split_and!; [done|lia|lia|]. intros Hd. pose proof Hd as Hlast. apply Hend in Hlast.
  rewrite segments_end, app_nil_r in Hsent by lia. rewrite length_app, Hsent, pieces_of_app, pieces_of_one.
  split_and!; [done|lia|].
  apply Forall_app_2; [done|]. constructor; [|done]. unfold sendable. simpl. intros ->. simpl in Hlast. lia.
Qed.

Lemma live_rejecting r W R rqs D m msg a t :
  live m r W R rqs D → R ≠ [] → live (set_state (SendMsgReject a t) m) r W (R ++ [msg]) rqs D.
Proof.
  intros [L1 L2 L3 L4 L5 L6 L7] HR. split; try done. simpl. rewrite L2. destruct R; [done|]. by split.
Qed.

(** A message that is neither a segment nor an acknowledgement leaves the transfers alone. *)
Lemma live_other r W R rqs D m msg :
  live m r W R rqs D → R ≠ [] → segs [msg] = [] → acks [msg] = [] → live m r W (R ++ [msg]) rqs D.
Proof.
  intros [L1 L2 L3 L4 L5 L6 L7] HR Hs Ha. split; try done; rewrite ?segs_app, ?acks_app, ?Hs, ?Ha, ?app_nil_r; try done.
  rewrite L2. destruct R; [done|]. by split.
Qed.

Lemma live_decode_ack r W R rqs D m m' xa d trk :
  state m = SendXferSegments trk → live m r W R rqs D → R ≠ [] → next_ok W R rqs (MXferAck xa) →
  decode_ack (E := ErrorType) xa m = Ok (m', d) → live m' r W (R ++ [MXferAck xa]) rqs D.
Proof.
  intros Hs L HR Hnx H. pose proof (nx_ack _ _ _ _ Hnx xa eq_refl) as [Hxa Hlt].
  pose proof L as [L1 L2 L3 L4 L5 L6 L7]. rewrite Hs in *. cbn [core] in *.
  cbn [receiver_ok pending_ack] in L7. rewrite app_nil_r in L7.
  destruct (ack_fits _ _ _ _ _ L6 Hxa Hlt) as (Hid & Hl & Hall).
  unfold decode_ack in H. rewrite Hs, Hid, Z.eqb_refl in H.
  cbn [assert mbind outcome_bind pos pos_acked transfer] in H.
  rewrite (proj2 (Z.ltb_ge (pos trk) _)) in H by lia.
  assert (peer_contact_header m = None ↔ R ++ [MXferAck xa] = []) as L2'.
  { rewrite L2. destruct R; [done|]. by split. }
  case_match eqn:Eend; injection H as <- <-; split; try done; cbn [state set_state core];
    rewrite ?segs_app, ?acks_app, ?app_nil_r; simpl; rewrite ?app_nil_r, ?length_app; simpl; try done.
  - apply Z.eqb_eq in Eend. destruct (Hall Eend) as (-> & Hn & Hsend). split_and!; [done|lia|done].
  - destruct L6 as (ds & Hts & Hds & Hp & Hsent & Hn). cbn [sender_ok]. cbn zeta. exists ds. split_and!; try done; lia.
Qed.

Lemma live_decode r W R rqs D m i msg m' d :
  machine_ok m → get_interests (E := ErrorType) m = Ok i → is_readable i = true →
  live m r W R rqs D → next_ok W R rqs msg →
  decode_message (E := ErrorType) (inl msg) m = Ok (m', d) → (∀ x, d ≠ inl (MXferSegment x)) →
  live m' r W (R ++ [msg]) rqs D.
Proof.
  intros Hm Hi Hr L Hnx H Hd. pose proof Hm as [Hst _ _]. pose proof L as [L1 L2 L3 L4 L5 L6 L7].
  assert (have_headers m → R ≠ []) as Hread.
  { intros [_ [h Hh]] Hnil. apply L2 in Hnil. congruence. }
  unfold get_interests in Hi. unfold decode_message in H.
  destruct (state m) as [| | | | | | | | |ack|trk|trk ack|st|rs| |rs t| |] eqn:Es;
    apply Ok_inj in Hi || done; subst i; try done.
  all: simpl in L3, Hst.
  all: try (assert (have_headers m) as Hh by first [exact Hst|exact (proj1 Hst)|exact (proj1 (proj1 Hst))];
            pose proof (nx_later _ _ _ _ Hnx (Hread Hh)) as Hlater).
  { destruct L3 as [Hmy Hpeer]. apply L2 in Hpeer as ->. destruct (nx_first _ _ _ _ Hnx eq_refl) as [h ->].
    injection H as <- <-. by split. }
  { apply L2 in L3 as ->. destruct (nx_first _ _ _ _ Hnx eq_refl) as [h ->].
    injection H as <- <-. by split. }
  all: specialize (Hread Hh).
  all: assert (∀ ms, peer_contact_header m = None ↔ R ++ [ms] = []) as L2'
    by (intros ms; rewrite L2; destruct R; [done|]; by split).
  all: destruct msg as [h|si|st| |mr|x|xa|xr]; try done;
    try (eapply live_decode_ack; eassumption);
    unfold decode_in_session, decode_ack, inappropriate in H; rewrite ?Es in H; simpl in H; injection H as <- <-;
    try (by apply live_rejecting); try (by apply live_other); try (by destruct (Hd x)).
  all: rewrite ?Es in *; split; try done; simpl in *; rewrite ?segs_app, ?acks_app, ?app_nil_r; simpl; rewrite ?app_nil_r; try done.
  all: rewrite ?app_nil_r in L7; first [done|by intros ? [= <-]].
Qed.

(** What the machine hands on and what the session does with it. *)
Lemma live_receive s x s1 ack out W R rqs D :
  state (statemachine s) = SessionEstablished ∨ is_sending_xfer (state (statemachine s)) = true → R ≠ [] →
  (∀ i, get_interests (E := ErrorType) (statemachine s) = Ok i → is_readable i = true) →
  live (statemachine s) (receiving_transfer s) W R rqs D → receive_segment x s = (s1, ack, out) →
  statemachine s1 = statemachine s ∧ transfer_result_sender s1 = transfer_result_sender s ∧
  written out = [] ∧ (∀ q, OResult q None ∉ out) ∧
  (∃ a, take_segments None (segs (R ++ [MXferSegment x])) = (receiving_transfer s1, acks W ++ a, D ++ received out)) ∧
  match ack with
  | Some a => ∀ m, send_ack (E := ErrorType) a (statemachine s) = Ok m →
      live m (receiving_transfer s1) W (R ++ [MXferSegment x]) rqs (D ++ received out)
  | None => live (statemachine s) (receiving_transfer s1) W (R ++ [MXferSegment x]) rqs (D ++ received out)
  end.
Proof.
  intros Hst HR Hi [L1 L2 L3 L4 L5 L6 L7] H.
  assert (∀ ms, peer_contact_header (statemachine s) = None ↔ R ++ [ms] = []) as L2'.
  { intros ms. rewrite L2. destruct R; [done|]. by split. }
  assert (take_segments None (segs R) = (receiving_transfer s, acks W, D)) as Htake.
  { destruct Hst as [E|E]; [rewrite E in L7; simpl in L7; by rewrite app_nil_r in L7|].
    unfold get_interests in Hi. destruct (state (statemachine s)); try done.
    - simpl in L7. by rewrite app_nil_r in L7.
    - by specialize (Hi _ eq_refl). }
  pose proof (receive_segment_take x s) as Hx. destruct (take_segment (receiving_transfer s) x) as [[r' a] t] eqn:Ex.
  destruct Hx as [Hx Ha]. rewrite H in Hx. injection Hx as -> -> ->.
  assert (received (map OReceived t) = t) as Hrec by (clear; induction t; simpl; congruence).
  assert (take_segments None (segs (R ++ [MXferSegment x])) = (r', acks W ++ a, D ++ t)) as Htake'.
  { rewrite segs_app, take_segments_app, Htake. simpl. rewrite Ex. by rewrite !app_nil_r. }
  split_and!; try done.
  - clear. by induction t.
  - intros q Hq. apply list_elem_of_fmap in Hq as (? & ? & _). done.
  - rewrite Hrec. by exists a.
  - rewrite Hrec. destruct a as [|a [|]]; [| |simpl in Ha; lia]; cbn [head]; rewrite ?app_nil_r in Htake'.
    + assert (∃ st, state (statemachine s) = st ∧ (st = SessionEstablished ∨ ∃ trk, st = SendXferSegments trk)) as (st & Es & Hc).
      { unfold get_interests in Hi. destruct (state (statemachine s)); try (by destruct Hst); eauto. by specialize (Hi _ eq_refl). }
      rewrite Es in *. split; rewrite ?Es; try done; rewrite ?acks_app, ?app_nil_r; simpl; rewrite ?app_nil_r; try done.
      destruct Hc as [-> | [? ->]]; simpl; by rewrite app_nil_r.
    + intros m Hm. unfold send_ack in Hm.
      destruct (state (statemachine s)) eqn:Es; try done; injection Hm as <-; split; try done;
        cbn [state set_state core]; rewrite ?acks_app, ?app_nil_r; simpl; rewrite ?app_nil_r; done.
Qed.

Lemma hist_read W R rqs D msg : hist W R rqs D → hist W (R ++ [msg]) rqs D.
Proof.
  intros [H1 H2 H3 H4 (tk & r & a & Ht & Htk & Ha)]. split; try done. exists tk, r, a. split; [|done].
  rewrite segs_app. by apply prefix_app_r.
Qed.

Lemma hist_take W R rqs D x D' :
  hist W R rqs D → (∃ r a, take_segments None (segs (R ++ [MXferSegment x])) = (r, a, D') ∧ acks W `prefix_of` a) →
  hist W (R ++ [MXferSegment x]) rqs D'.
Proof. intros [H1 H2 H3 H4 _] (r & a & Ht & Ha). split; try done. by exists (segs (R ++ [MXferSegment x])), r, a. Qed.

Lemma elem_of_transfers i rqs t : t ∈ transfers_of i rqs → ∃ rq, rq ∈ rqs ∧ transfer_data t = bundle_data rq.
Proof.
  revert i. induction rqs as [|rq rqs IH]; intros i; simpl; [by intros ?%elem_of_nil|].
  intros [->|H]%elem_of_cons; [exists rq; split; [left|done]|]. destruct (IH _ H) as (q & ? & ?). exists q. split; [by right|done].
Qed.

Lemma ack_length_u64 rqs n xa :
  Forall (λ r, zlen (bundle_data r) < 2 ^ 63) rqs → acks_of_all (transfers_of 0 rqs) !! n = Some xa →
  u64_ok (acknowleged_length xa).
Proof.
  intros Hl Hxa. unfold acks_of_all in Hxa. apply list_elem_of_lookup_2, list_elem_of_In, in_concat in Hxa as (l & Hin & Hxa).
  apply in_map_iff in Hin as (t & <- & Ht). apply list_elem_of_In, list_elem_of_lookup in Hxa as [k (x & _ & ->)%acks_of_lookup].
  apply list_elem_of_In, elem_of_transfers in Ht as (rq & Hrq & Hd). simpl.
  rewrite Forall_forall in Hl. specialize (Hl rq Hrq). rewrite <-Hd in Hl. set (d := transfer_data t) in *.
  pose proof (f_equal total (take_drop (S k) (pieces (transfer_id t) d))) as Hs.
  rewrite total_app in Hs. unfold pieces in Hs at 3. rewrite segments_total in Hs by lia.
  unfold u64_ok, total in *. lia.
Qed.

(** Everything the next message of the peer leads to. *)
Lemma next_receivable m W R rqs r D i msg :
  machine_ok m → get_interests (E := ErrorType) m = Ok i → is_readable i = true →
  live m r W R rqs D → hist W R rqs D → next_ok W R rqs msg → message_u64 (inl msg) ∧ receivable m (inl msg).
Proof.
  intros [Hst _ _] Hi Hr [L1 L2 L3 L4 L5 L6 L7] Hh Hnx. split.
  - destruct msg as [h|si|st| |mr|x|xa|xr]; try done; simpl.
    + destruct (decide (R = [])) as [HR|HR]; [by destruct (nx_first _ _ _ _ Hnx HR)|].
      destruct (nx_later _ _ _ _ Hnx HR) as [H1 H2]. unfold sess_init_u64. rewrite H1, H2. split; by vm_compute.
    + destruct (nx_ack _ _ _ _ Hnx xa eq_refl) as [Hxa _]. clear Hnx.
      by eapply ack_length_u64; [apply Hh|].
  - unfold receivable. unfold get_interests in Hi.
    assert (have_headers m → ∀ h, msg ≠ MContactHeader h) as Hno.
    { intros [_ [h Hh']] h' ->. apply (nx_later _ _ _ _ Hnx). intros HR. apply L2 in HR. congruence. }
    destruct (state m) as [| | | | | | | | |ack|trk|trk ack|st|rs| |rs t| |] eqn:Es;
      apply Ok_inj in Hi || done; subst i; try done; simpl in Hst, L3, L6.
    all: try (assert (have_headers m) as Hhd by first [exact Hst|exact (proj1 Hst)|exact (proj1 (proj1 Hst))];
              specialize (Hno Hhd); by destruct msg; try done; destruct (Hno m0)).
    + destruct L3 as [_ HR%L2]. by destruct (nx_first _ _ _ _ Hnx HR) as [h ->].
    + apply L2 in L3. by destruct (nx_first _ _ _ _ Hnx L3) as [h ->].
    + assert (have_headers m) as Hhd by apply Hst. specialize (Hno Hhd).
      destruct msg as [h|si|st| |mr|x|xa|xr]; try done; [by destruct (Hno h)|].
      destruct (nx_ack _ _ _ _ Hnx xa eq_refl) as [Hxa Hlt].
      by destruct (ack_fits _ _ _ _ _ L6 Hxa Hlt) as (-> & _).
Qed.

Lemma live_read s W R rqs D now cert msg i s' o :
  machine_ok (statemachine s) → get_interests (E := ErrorType) (statemachine s) = Ok i → is_readable i = true →
  live (statemachine s) (receiving_transfer s) W R rqs D → hist W R rqs D → next_ok W R rqs msg →
  read_message now cert (inl msg) s = Ok (s', o) →
  live (statemachine s') (receiving_transfer s') W (R ++ [msg]) rqs (D ++ received o) ∧
  hist W (R ++ [msg]) rqs (D ++ received o) ∧
  transfer_result_sender s' = transfer_result_sender s ∧ written o = [] ∧ ∀ q, OResult q None ∉ o.
Proof.
  intros Hm Hi Hr L Hh Hnx H. unfold read_message in H. apply bind_Ok in H as ([m' d] & Hd & H).
  assert ((∀ x, d ≠ inl (MXferSegment x)) → o = [] → statemachine s' = m' →
    receiving_transfer s' = receiving_transfer s → transfer_result_sender s' = transfer_result_sender s →
    live (statemachine s') (receiving_transfer s') W (R ++ [msg]) rqs (D ++ received o) ∧
    hist W (R ++ [msg]) rqs (D ++ received o) ∧
    transfer_result_sender s' = transfer_result_sender s ∧ written o = [] ∧ ∀ q, OResult q None ∉ o) as Hplain.
  { intros Hno -> -> -> ->. simpl. rewrite app_nil_r. split_and!; [|by apply hist_read|done|done|set_solver].
    by eapply live_decode. }
  destruct d as [[h|si|st| |mr|x|xa|xr]|[mt| | |id|e]]; try (by simplify_eq; apply Hplain); try done.
  - apply bind_Ok in H as (tls & _ & H). case_match; simplify_eq. by apply Hplain.
  - clear Hplain. destruct (decode_segment _ _ _ _ Hd) as ([= ->] & -> & Hst).
    assert (R ≠ []) as HR.
    { intros HR. by destruct (nx_first _ _ _ _ Hnx HR). }
    destruct (receive_segment x (with_machine (statemachine s) s)) as [[s1 ack] out] eqn:Hs. rewrite with_machine_id in Hs.
    destruct (live_receive s x s1 ack out W R rqs D) as (Hm1 & Hr1 & Hw1 & Hq1 & (a & Ha) & Hlive); try done.
    { intros j Hj. rewrite Hi in Hj. by simplify_eq. }
    assert (hist W (R ++ [MXferSegment x]) rqs (D ++ received out)) as Hh'.
    { eapply hist_take; [done|]. eexists _, _. split; [exact Ha|by apply prefix_app_r]. }
    destruct ack as [ack|].
    + apply bind_Ok in H as (m2 & Hack & H). rewrite Hm1 in Hack. simplify_eq. split_and!; try done. by apply Hlive.
    + simplify_eq. split_and!; try done. by rewrite Hm1.
  - destruct e; simplify_eq; by apply Hplain.
Qed.

(** ** A turn of the loop *)

Lemma written_app l k : written (l ++ k) = written l ++ written k.
Proof. apply omap_app. Qed.
Lemma received_app l k : received (l ++ k) = received l ++ received k.
Proof. apply omap_app. Qed.
Lemma written_OWrite msgs : written (map OWrite msgs) = msgs ∧ received (map OWrite msgs) = [].
Proof. induction msgs as [|m ms [IH1 IH2]]; simpl; split; congruence. Qed.

(** The prologue neither writes nor hands on a transfer. *)
Lemma prologue_quiet tls_ok s s' o :
  prologue tls_ok s = Ok (s', o) →
  receiving_transfer s' = receiving_transfer s ∧ written o = [] ∧ received o = [].
Proof.
  intros H. unfold prologue in H. apply bind_Ok in H as ([sa oa] & Ha & H). apply bind_Ok in H as ([sb ob] & Hb & H).
  apply bind_Ok in H as (sc & Hc & H).
  assert (receiving_transfer sa = receiving_transfer s ∧ written oa = [] ∧ received oa = []) as (Ea & Wa & Ra).
  { unfold init_tls in Ha. repeat case_match; obind; repeat case_match; by simplify_eq. }
  assert (receiving_transfer sb = receiving_transfer sa ∧ written ob = [] ∧ received ob = []) as (Eb & Wb & Rb).
  { unfold announce_established in Hb. clear H; case_match; obind; by simplify_eq. }
  assert (receiving_transfer sc = receiving_transfer sb) as Ec.
  { unfold init_keepalive in Hc. clear H; case_match; obind; by simplify_eq. }
  unfold report_result in H. repeat case_match; simplify_eq;
    rewrite !written_app, !received_app, Wa, Ra, Wb, Rb; split_and!; try done; simpl; congruence.
Qed.

(** A result that was reported: everything up to that transfer is acknowledged. *)
Definition reported (rqs : list TransferRequest) (n : nat) (r : TransferRequest) : Prop :=
  ∃ i, rqs !! i = Some r ∧ Forall sendable (take (S i) (transfers_of 0 rqs)) ∧
    (length (pieces_of (take (S i) (transfers_of 0 rqs))) ≤ n)%nat.

Record running (x : Side) : Prop := {
  ru_session : session_ok (run x);
  ru_live : live (statemachine (run x)) (receiving_transfer (run x)) (written (outs x)) (reads x) (requests x)
              (received (outs x));
  ru_result r : transfer_result_sender (run x) = Some r → last (requests x) = Some r;
}.

Record side_ok (x : Side) : Prop := {
  so_hist : hist (written (outs x)) (reads x) (requests x) (received (outs x));
  so_results r : OResult r None ∈ outs x → reported (requests x) (length (acks (reads x))) r;
  so_running : over x = false → running x;
}.

Lemma reported_more rqs rqs' n n' r : (n ≤ n')%nat → reported rqs n r → reported (rqs ++ rqs') n' r.
Proof.
  intros Hn (i & Hi & Hs & Hl). exists i.
  assert (take (S i) (transfers_of 0 (rqs ++ rqs')) = take (S i) (transfers_of 0 rqs)) as ->.
  { rewrite transfers_of_app, take_app_le; [done|]. rewrite length_transfers_of. apply lookup_lt_Some in Hi. lia. }
  split_and!; [by apply lookup_app_l_Some|done|lia].
Qed.

(** The prologue, and with it the results it reports. *)
Lemma prologue_side_ok tls_ok x s1 o1 :
  over x = false → side_ok x → prologue tls_ok (run x) = Ok (s1, o1) →
  let y := {| run := s1; over := false; outs := outs x ++ o1; reads := reads x; requests := requests x |} in
  side_ok y ∧ (could_send_transfer (statemachine s1) = true → transfer_result_sender s1 = None).
Proof.
  intros Ho [H1 H2 H3] Hp. destruct (H3 Ho) as [S1 S2 S3].
  destruct (prologue_frame _ _ _ _ Hp) as (Hm & _ & Hr & Hout). destruct (prologue_quiet _ _ _ _ Hp) as (Hrc & Hw & Hrv).
  assert (written (outs x ++ o1) = written (outs x)) as Ew by (by rewrite written_app, Hw, app_nil_r).
  assert (received (outs x ++ o1) = received (outs x)) as Er by (by rewrite received_app, Hrv, app_nil_r).
  split; [|rewrite Hm, Hr; by intros ->]. split; simpl; rewrite ?Ew, ?Er; try done.
  - intros r [Hin|Hin]%elem_of_app; [by apply H2|]. destruct (Hout r Hin) as [Hc Hs].
    apply S3 in Hs. apply last_Some in Hs as [rqs Hrqs].
    unfold could_send_transfer, is_established in Hc. destruct S2 as [_ _ _ _ _ L6 _].
    destruct (state (statemachine (run x))); try done. destruct L6 as (Hsent & Hn & Hall).
    exists (length rqs). rewrite take_ge by (rewrite length_transfers_of, Hrqs, length_app; simpl; lia).
    split_and!; [by rewrite Hrqs, list_lookup_middle|done|]. by rewrite Hn, Hsent.
  - intros _. split; simpl; rewrite ?Ew, ?Er; [by eapply prologue_ok|by rewrite Hm, Hrc|].
    intros r. rewrite Hr. case_match; [done|apply S3].
Qed.

(** What the peer and the users offer. *)
Definition event_next (x : Side) (ev : Event) : Prop :=
  match ev with
  | EvRead _ _ (Some (inl msg)) => next_ok (written (outs x)) (reads x) (requests x) msg
  | EvRead _ _ (Some (inr _)) => False
  | EvTransfer (Some r) => zlen (bundle_data r) < 2 ^ 63
  | _ => True
  end.

Lemma enabled_unit {E} ev s b : enabled (E := unit) ev s = Ok b → enabled (E := E) ev s = Ok b.
Proof.
  unfold enabled, get_interests. intros H.
  destruct (state (statemachine s)); cbn [mbind outcome_bind] in *; done || (apply Ok_inj in H; by rewrite H).
Qed.

Lemma running_event x ev :
  running x → hist (written (outs x)) (reads x) (requests x) (received (outs x)) →
  enabled (E := unit) ev (run x) = Ok true → event_next x ev → event_ok (run x) ev.
Proof.
  intros [S1 S2 S3] Hh Hen Hev. split; [done|].
  destruct ev as [now cert [[msg|]|]|io|[rq|]|now|]; try done.
  apply (enabled_unit (E := ErrorType)) in Hen. unfold enabled in Hen. apply bind_Ok in Hen as (i & Hi & Hr). apply Ok_inj in Hr.
  eapply next_receivable; try done. apply reachable_ok, S1.
Qed.

(** The parts of [side_ok] that an arm without messages or transfers keeps. *)
Lemma goes_on_quiet x ev s' o :
  side_ok x → running x → event_reads ev = [] → event_requests ev o = [] →
  written o = [] → received o = [] → (∀ q, OResult q None ∉ o) →
  session_ok s' → receiving_transfer s' = receiving_transfer (run x) →
  transfer_result_sender s' = transfer_result_sender (run x) →
  (∀ r W R rqs D, live (statemachine (run x)) r W R rqs D → live (statemachine s') r W R rqs D) →
  side_ok (goes_on ev s' o x).
Proof.
  intros [H1 H2 _] [S1 S2 S3] Er Eq Ew Ed Ho Hs Hrc Hrs Hl.
  assert (written (outs x ++ o) = written (outs x)) as E1 by (by rewrite written_app, Ew, app_nil_r).
  assert (received (outs x ++ o) = received (outs x)) as E2 by (by rewrite received_app, Ed, app_nil_r).
  split; simpl; rewrite ?E1, ?E2, ?Er, ?Eq, ?app_nil_r; try done.
  - intros r [Hin|Hin]%elem_of_app; [by apply H2|by destruct (Ho r)].
  - intros _. split; simpl; rewrite ?E1, ?E2, ?Er, ?Eq, ?app_nil_r; [done| |].
    + rewrite Hrc. by apply Hl.
    + intros r. rewrite Hrs. apply S3.
Qed.

Lemma arm_side_ok x ev s' o :
  side_ok x → running x →
  (could_send_transfer (statemachine (run x)) = true → transfer_result_sender (run x) = None) →
  should_close (statemachine (run x)) = false → enabled (E := unit) ev (run x) = Ok true → event_next x ev →
  select_arm ev (run x) = Ok (Some s', o) → side_ok (goes_on ev s' o x).
Proof.
  intros Hx Hru Hnone Hcl Hen Hev H.
  pose proof Hx as [H1 H2 _]. pose proof Hru as [S1 S2 S3].
  assert (session_ok s') as Hs'.
  { eapply select_arm_safe; [done|done|by eapply running_event|done]. }
  assert (machine_ok (statemachine (run x))) as Hm by apply reachable_ok, S1.
  pose proof (enabled_unit (E := ErrorType) _ _ _ Hen) as Hen'. unfold enabled in Hen'.
  apply bind_Ok in Hen' as (i & Hi & Hr). apply Ok_inj in Hr.
  destruct ev as [now cert [[msg|]|]|io|[rq|]|now|]; try done; cbn [select_arm] in H.
  - apply bind_Ok in H as ([s1 o1] & Hread & H). simplify_eq.
    destruct (live_read _ _ _ _ _ _ _ _ _ _ _ Hm Hi Hr S2 H1 Hev Hread) as (Hl & Hh & Hrs & Hw & Hq).
    split; cbn [outs reads requests over run goes_on event_reads event_requests];
      rewrite ?written_app, ?received_app, ?Hw, ?app_nil_r; try done.
    + intros r [Hin|Hin]%elem_of_app; [|by destruct (Hq r)]. rewrite <-(app_nil_r (requests x)).
      eapply reported_more; [|by apply H2]. rewrite acks_app, length_app. lia.
    + intros _. split; cbn [outs reads requests run goes_on]; rewrite ?written_app, ?received_app, ?Hw, ?app_nil_r; try done.
      intros r. rewrite Hrs. apply S3.
  - apply bind_Ok in H as ([msgs m] & Hsend & H). case_match; simplify_eq.
    destruct (live_send _ _ _ _ _ _ _ _ _ Hm Hi Hr S2 (hi_wire _ _ _ _ H1) Hsend) as [Hl Hw].
    destruct (written_OWrite msgs) as [Ew Er].
    split; cbn [outs reads requests over run goes_on event_reads event_requests];
      rewrite ?written_app, ?received_app, ?Ew, ?Er, ?app_nil_r.
    + by eapply hist_send.
    + intros r [Hin|Hin]%elem_of_app; [by apply H2|]. by apply list_elem_of_fmap in Hin as (? & ? & _).
    + intros _. split; cbn [outs reads requests run goes_on event_reads event_requests];
        rewrite ?written_app, ?received_app, ?Ew, ?Er, ?app_nil_r; done.
  - apply bind_Ok in H as ([m e] & Hs & H). destruct e as [e|]; simplify_eq.
    + assert (m = statemachine (run x)) as ->.
      { unfold send_transfer in Hs. obind. repeat case_match; by simplify_eq. }
      apply goes_on_quiet; done || set_solver.
    + apply andb_true_iff in Hr as [_ Hc].
      destruct (live_transfer _ _ _ _ _ _ _ _ Hc S2 H1 Hev Hs) as [Hl Hh].
      split; cbn [outs reads requests over run goes_on event_reads event_requests]; rewrite ?app_nil_r; try done.
      * intros r Hin. eapply reported_more; [|by apply H2]. done.
      * intros _. split; cbn [outs reads requests run goes_on event_reads event_requests]; rewrite ?app_nil_r; try done.
        intros r [= <-]. by rewrite last_snoc.
  - simplify_eq. apply goes_on_quiet; done || set_solver.
  - apply bind_Ok in H as (m & Hc & H). simplify_eq. apply goes_on_quiet; try done; [set_solver|].
    intros r W R rqs D HL. pose proof (live_check_idle _ _ _ _ _ _ _ _ Hc HL). simpl.
    destruct (initialized_keepalive (run x)); [by apply live_keepalive|done].
  - apply bind_Ok in H as (m & Hc & H). simplify_eq. apply goes_on_quiet; try done; [set_solver|].
    intros r W R rqs D HL. unfold close_connection, is_established in Hc.
    destruct (state (statemachine (run x))) eqn:Es; try done. simpl in Hc. simplify_eq. by apply live_closing.
Qed.

(** ** Both ends *)

Definition pair_ok (x y : Side) : Prop := side_ok x ∧ reads x `prefix_of` written (outs y).

Lemma omap_prefix {A B} (f : A → option B) l k : l `prefix_of` k → omap f l `prefix_of` omap f k.
Proof. intros [k' ->]. rewrite omap_app. by apply prefix_app_r. Qed.

(** What an end has read of acknowledgements belongs to what it has sent. *)
Lemma acks_of_peer x y :
  side_ok x → side_ok y → reads y `prefix_of` written (outs x) →
  acks (written (outs y)) `prefix_of` acks_of_all (transfers_of 0 (requests x)) ∧
  (length (acks (written (outs y))) ≤ length (segs (reads y)))%nat.
Proof.
  intros [Hx _ _] [Hy _ _] Hp. destruct (hi_received _ _ _ _ Hy) as (tk & r & a & Htk & Hta & Ha).
  assert (tk `prefix_of` pieces_of (transfers_of 0 (requests x))) as Hpre.
  { etrans; [done|]. etrans; [by apply omap_prefix|]. apply Hx. }
  destruct (take_prefix _ _ (hi_proper _ _ _ _ Hx) Hpre) as (r' & a' & dl & Hta' & _ & Ha' & Hl).
  rewrite Hta in Hta'. simplify_eq. split; [by etrans|].
  apply prefix_length in Ha, Htk. lia.
Qed.

Lemma peer_next x y msg :
  side_ok x → side_ok y → reads x `prefix_of` written (outs y) → reads y `prefix_of` written (outs x) →
  written (outs y) !! length (reads x) = Some msg → next_ok (written (outs x)) (reads x) (requests x) msg.
Proof.
  intros Hx Hy Hpx Hpy Hmsg. pose proof (hi_wire _ _ _ _ (so_hist _ Hy)) as Hw. split.
  - intros HR. rewrite HR in Hmsg. destruct (written (outs y)) as [|[] ?]; simplify_eq/=; try done. by eexists.
  - intros HR. destruct (reads x) as [|m0 R]; [done|]. destruct (written (outs y)) as [|[] W]; try done.
    simpl in Hmsg, Hw. by eapply Forall_lookup_1.
  - intros xa ->. destruct (acks_of_peer x y Hx Hy Hpy) as [Ha Hl].
    assert (acks (reads x) ++ [xa] `prefix_of` acks (written (outs y))) as Hpre.
    { change [xa] with (acks [MXferAck xa]). rewrite <-acks_app. apply omap_prefix.
      destruct Hpx as [k Hk]. rewrite Hk in Hmsg |- *. rewrite lookup_app_r, Nat.sub_diag in Hmsg by done.
      destruct k as [|m0 k]; [done|]. injection Hmsg as ->. exists k. by rewrite <-app_assoc. }
    split.
    + eapply prefix_lookup_Some; [|etrans; [exact Hpre|exact Ha]]. by apply list_lookup_middle.
    + apply prefix_length in Hpre. rewrite length_app in Hpre. simpl in Hpre.
      pose proof (prefix_length _ _ (omap_prefix (λ m, match m with MXferSegment s => Some s | _ => None end) _ _ Hpy)) as Hs.
      unfold segs in *. lia.
Qed.


Lemma side_step_ok x y x' :
  side_ok x → side_ok y → reads x `prefix_of` written (outs y) → reads y `prefix_of` written (outs x) →
  side_step (written (outs y)) x x' →
  side_ok x' ∧ reads x' `prefix_of` written (outs y) ∧ written (outs x) `prefix_of` written (outs x').
Proof.
  intros Hx Hy Hpx Hpy Hst. destruct Hst as [tls_ok ev s1 o1 s' o2 Ho Hp Hc Hen Hoff Harm|tls_ok s1 o1 s' o2 Ho Hp Hc Hen Harm|
    tls_ok ev s1 o1 r Ho Hp _|tls_ok e Ho Hp].
  - destruct (prologue_side_ok _ _ _ _ Ho Hx Hp) as [Hy1 Hnone].
    set (z := {| run := s1; over := false; outs := outs x ++ o1; reads := reads x; requests := requests x |}) in *.
    assert (written (outs z) = written (outs x)) as Ez.
    { destruct (prologue_quiet _ _ _ _ Hp) as (_ & Hw & _). simpl. by rewrite written_app, Hw, app_nil_r. }
    assert (event_next z ev) as Hev.
    { destruct ev as [now cert [[msg|]|]|io|[rq|]|now|]; try done. unfold event_next. rewrite Ez.
      by apply (peer_next x y). }
    split; [|split].
    + apply (arm_side_ok z ev s' o2); try done. by apply Hy1.
    + destruct ev as [now cert [[msg|]|]|io|[rq|]|now|]; simpl; rewrite ?app_nil_r; try done.
      simpl in Hoff. destruct Hpx as [k Hk]. rewrite Hk in Hoff |- *. rewrite lookup_app_r, Nat.sub_diag in Hoff by done.
      destruct k as [|m0 k]; [done|]. injection Hoff as ->. exists k. by rewrite <-app_assoc.
    + simpl. rewrite !written_app, <-app_assoc. by apply prefix_app_r.
  - destruct (prologue_side_ok _ _ _ _ Ho Hx Hp) as [Hy1 Hnone].
    set (z := {| run := s1; over := false; outs := outs x ++ o1; reads := reads x; requests := requests x |}) in *.
    assert (side_ok (goes_on (EvWrite true) s' o2 z)) as [G1 G2 _] by (apply arm_side_ok; try done; by apply Hy1).
    simpl in G1, G2. rewrite !app_nil_r, <-app_assoc in G1. setoid_rewrite app_nil_r in G2. rewrite <-app_assoc in G2.
    split; [by split|]. split; [done|]. simpl. rewrite !written_app. by apply prefix_app_r.
  - destruct (prologue_side_ok _ _ _ _ Ho Hx Hp) as [[G1 G2 _] _]. split; [by split|]. split; [done|].
    simpl. rewrite written_app. by apply prefix_app_r.
  - destruct Hx as [G1 G2 _]. split; [|split; [done|]]; simpl; rewrite ?app_nil_r; [|done].
    split; simpl; rewrite ?app_nil_r; done.
Qed.

Lemma new_side_ok m now :
  state m = ActiveSendContactHeader ∨ state m = PassiveWaitContactHeader →
  my_contact_header m = None → peer_contact_header m = None → peer_sess_init m = None →
  last_used_transfer_id m = 0 → sm_reachable m → side_ok (new_side m now).
Proof.
  intros Hst H1 H2 H3 H4 Hr. split.
  - split; simpl; try done. exists [], None, []. split_and!; [done|done|done].
  - intros r Hin. simpl in Hin. set_solver.
  - intros _. split; [by split| |done]. simpl. split; simpl; try done; try (by split);
      try (by intros ?; rewrite H3); destruct Hst as [-> | ->]; simpl; done || by split_and!.
Qed.

Lemma pair_reachable_ok p :
  pair_reachable p →
  side_ok (active p) ∧ side_ok (passive p) ∧
  reads (active p) `prefix_of` written (outs (passive p)) ∧ reads (passive p) `prefix_of` written (outs (active p)).
Proof.
  induction 1 as [id1 tls1 now1 id2 tls2 now2|p p' _ (H1 & H2 & H3 & H4) [x Hst|x Hst]]; simpl.
  - split_and!; [apply new_side_ok; try done; [by left|constructor]|apply new_side_ok; try done; [by right|constructor]|done|done].
  - destruct (side_step_ok _ _ _ H1 H2 H3 H4 Hst) as (? & ? & ?). split_and!; try done. by etrans.
  - destruct (side_step_ok _ _ _ H2 H1 H4 H3 Hst) as (? & ? & ?). split_and!; try done. by etrans.
Qed.

Lemma turn_not_panic x y tls_ok ev :
  side_ok x → side_ok y → reads x `prefix_of` written (outs y) → reads y `prefix_of` written (outs x) →
  over x = false →
  (∀ s1 o1, prologue tls_ok (run x) = Ok (s1, o1) →
     enabled (E := unit) ev s1 = Ok true ∧ offered (written (outs y)) x ev) →
  iteration tls_ok ev (run x) ≠ Panic.
Proof.
  intros Hx Hy Hpx Hpy Ho Hev. destruct (so_running _ Hx Ho) as [S1 _ _]. unfold iteration.
  destruct (prologue_safe tls_ok (run x)) as [->|(s1 & o1 & Hp)]; [apply reachable_ok, S1|done|].
  rewrite Hp. ored. destruct (should_close (statemachine s1)) eqn:Hc; [done|].
  destruct (Hev _ _ Hp) as [Hen Hoff]. destruct (prologue_side_ok _ _ _ _ Ho Hx Hp) as [Hz _].
  set (z := {| run := s1; over := false; outs := outs x ++ o1; reads := reads x; requests := requests x |}) in *.
  assert (event_ok s1 ev) as Hok.
  { apply (running_event z); [by apply Hz|apply Hz|done|].
    assert (written (outs z) = written (outs x)) as Ez.
    { destruct (prologue_quiet _ _ _ _ Hp) as (_ & Hw & _). simpl. by rewrite written_app, Hw, app_nil_r. }
    destruct ev as [now cert [[msg|]|]|io|[rq|]|now|]; try done. unfold event_next. rewrite Ez. by apply (peer_next x y). }
  destruct (select_arm_safe s1 (prologue_ok _ _ _ _ S1 Hp) ev Hc Hok) as [Hnp _].
  by destruct (select_arm ev s1) as [[? ?]| |].
Qed.

(** The end [x] reads what [y] writes: its transfers arrive, and successes are true. *)
Definition transfers_arrive (x y : Side) : Prop :=
  received (outs y) `prefix_of` transfers_of 0 (requests x) ∧
  ∀ r, OResult r None ∈ outs x →
    ∃ i, requests x !! i = Some r ∧
      received (outs y) !! i = Some {| transfer_id := wrap64 (Z.of_nat i); transfer_data := bundle_data r |}.

Lemma transfers_of_lookup k rqs i r :
  rqs !! i = Some r →
  transfers_of k rqs !! i = Some {| transfer_id := wrap64 (Z.of_nat (k + i)); transfer_data := bundle_data r |}.
Proof.
  revert k i. induction rqs as [|q rqs IH]; intros k [|i] H; simplify_eq/=; [by rewrite Nat.add_0_r|].
  rewrite (IH (S k) i H). do 3 f_equal. lia.
Qed.

Lemma side_ok_arrive x y :
  side_ok x → side_ok y → reads x `prefix_of` written (outs y) → reads y `prefix_of` written (outs x) →
  transfers_arrive x y.
Proof.
  intros Hx Hy Hpx Hpy. destruct (hi_received _ _ _ _ (so_hist _ Hy)) as (tk & r & a & Htk & Hta & Ha).
  pose proof (hi_sent _ _ _ _ (so_hist _ Hx)) as Hsent.
  assert (segs (reads y) `prefix_of` segs (written (outs x))) as Hsegs by (by apply omap_prefix).
  assert (tk `prefix_of` pieces_of (transfers_of 0 (requests x))) as Hpre by (by etrans; [|etrans]).
  destruct (take_prefix _ _ (hi_proper _ _ _ _ (so_hist _ Hx)) Hpre) as (r' & a' & dl & Hta' & Hdl & _ & Hl).
  rewrite Hta in Hta'. simplify_eq. split; [done|].
  intros q (i & Hi & Hs & Hn)%(so_results _ Hx). exists i. split; [done|].
  assert (pieces_of (take (S i) (transfers_of 0 (requests x))) `prefix_of` tk) as Hpi.
  { assert (pieces_of (take (S i) (transfers_of 0 (requests x))) `prefix_of` pieces_of (transfers_of 0 (requests x))) as Hp1.
    { rewrite <-(take_drop (S i) (transfers_of 0 (requests x))) at 2. rewrite pieces_of_app. by apply prefix_app_r. }
    assert (length (acks (reads x)) ≤ length tk)%nat as Hlen.
    { rewrite <-Hl. apply prefix_length. etrans; [by apply omap_prefix|done]. }
    destruct (prefix_weak_total _ _ _ Hp1 Hpre) as [?|Hrev]; [done|].
    rewrite (prefix_same_length _ _ Hrev); [done|]. apply prefix_length in Hrev. lia. }
  pose proof (take_delivers _ _ _ _ _ Hs Hpi Hta) as Hd.
  eapply prefix_lookup_Some; [|exact Hd]. rewrite lookup_take_lt by lia. by apply (transfers_of_lookup 0).
Qed.

(** Whatever the two ends of a connection do, the transfers of each end arrive at the
    other one byte for byte, in order, once, and with nothing in between, and a
    transfer that an end reports as successful has arrived.  (Claim C12.) *)
Theorem connection_delivers p :
  pair_reachable p → transfers_arrive (active p) (passive p) ∧ transfers_arrive (passive p) (active p).
Proof.
  intros (H1 & H2 & H3 & H4)%pair_reachable_ok. split; by apply side_ok_arrive.
Qed.

Definition ends (p : Pair) (x y : Side) : Prop :=
  (x = active p ∧ y = passive p) ∨ (x = passive p ∧ y = active p).


(** ** A connection *)

Module PairWitness.
(** What an end does in a turn: [Read] takes the next message of the peer. *)
Inductive Choice := Read | Write | Send (r : TransferRequest) | Tick (now : Z).

Definition event_of (wire : list Messages) (x : Side) (c : Choice) : option Event :=
  match c with
  | Read => msg ← wire !! length (reads x); Some (EvRead 0 (λ _, true) (Some (inl msg)))
  | Write => Some (EvWrite true)
  | Send r => if zlen (bundle_data r) <? 2 ^ 63 then Some (EvTransfer (Some r)) else None
  | Tick now => Some (EvTick now)
  end.

Definition turn (wire : list Messages) (x : Side) (c : Choice) : option Side :=
  ev ← event_of wire x c;
  match prologue true (run x) with
  | Ok (s1, o1) =>
      if should_close (statemachine s1) || over x then None else
      match enabled (E := unit) ev s1, select_arm ev s1 with
      | Ok true, Ok (Some s', o2) => Some (goes_on ev s' o2 (is_over o1 x))
      | _, _ => None
      end
  | _ => None
  end.

Lemma turn_sound wire x c x' : turn wire x c = Some x' → side_step wire x x'.
Proof.
  unfold turn. intros H. destruct (event_of wire x c) as [ev|] eqn:Ev; [|done]. simpl in H.
  destruct (prologue true (run x)) as [[s1 o1]| |] eqn:Hp; try done.
  destruct (should_close (statemachine s1)) eqn:Hc; [done|]. destruct (over x) eqn:Ho; [done|]. simpl in H.
  destruct (enabled ev s1) as [[]| |] eqn:Hen; try done.
  destruct (select_arm ev s1) as [[[s'|] o2]| |] eqn:Ha; try done. injection H as <-.
  eapply SideTurn; try done. destruct c; simpl in Ev; try (by simplify_eq).
  - destruct (wire !! length (reads x)) eqn:Hw; by simplify_eq/=.
  - case_match eqn:Hl; simplify_eq. simpl. by apply Z.ltb_lt.
Qed.

(** [true] is a turn of the active end. *)
Fixpoint script (cs : list (bool * Choice)) (p : Pair) : option Pair :=
  match cs with
  | [] => Some p
  | (true, c) :: cs =>
      x ← turn (written (outs (passive p))) (active p) c; script cs {| active := x; passive := passive p |}
  | (false, c) :: cs =>
      x ← turn (written (outs (active p))) (passive p) c; script cs {| active := active p; passive := x |}
  end.

Lemma script_reachable cs p p' : script cs p = Some p' → pair_reachable p → pair_reachable p'.
Proof.
  revert p. induction cs as [|[[|] c] cs IH]; intros p H Hp; simplify_eq/=; [done|..].
  all: destruct (turn _ _ c) as [x|] eqn:Ht; [|done]; simpl in H; eapply IH; [exact H|];
    eapply pair_next; [done|]; by constructor; apply (turn_sound _ _ c).
Qed.

(** A transfer in each direction; the acknowledgements and a keepalive cross. *)
Definition rq (d : bytes) : TransferRequest := {| bundle_data := d; result_sender := 0 |}.
Definition handshake : list (bool * Choice) :=
  [(true, Write); (false, Read); (false, Write); (true, Read); (true, Write); (false, Read); (false, Write); (true, Read)].
Definition exchange : list (bool * Choice) :=
  [(true, Send (rq [1; 2; 3])); (false, Send (rq [4])); (true, Write); (false, Write); (true, Tick 0);
   (false, Read); (false, Write); (true, Write); (true, Read); (true, Write); (true, Read);
   (false, Read); (false, Read); (false, Tick 0); (true, Tick 0)].
Definition start : Pair :=
  {| active := new_side (new_active (str "dtn://a") true) 0; passive := new_side (new_passive (str "dtn://p") true) 0 |}.
Definition final : Pair := default start (script (handshake ++ exchange) start).

Lemma final_reachable : pair_reachable final.
Proof.
  apply (script_reachable (handshake ++ exchange) start); [|constructor].
  unfold final. by destruct (script (handshake ++ exchange) start) eqn:E; [|vm_compute in E].
Qed.
End PairWitness.

Lemma connection_delivers_witness :
  transfers_arrive (active PairWitness.final) (passive PairWitness.final) ∧
  transfers_arrive (passive PairWitness.final) (active PairWitness.final) ∧
  received (outs (passive PairWitness.final)) = [{| transfer_id := 0; transfer_data := [1; 2; 3] |}] ∧
  received (outs (active PairWitness.final)) = [{| transfer_id := 0; transfer_data := [4] |}] ∧
  OResult (PairWitness.rq [1; 2; 3]) None ∈ outs (active PairWitness.final).
Proof.
  destruct (connection_delivers PairWitness.final PairWitness.final_reachable) as [H1 H2].
  split; [exact H1|]. split; [exact H2|]. split; [vm_compute; reflexivity|]. split; [vm_compute; reflexivity|].
  apply list_elem_of_In. vm_compute. intuition congruence.
Defined.


(** ** Interrupted writes

    A turn of the loop drops the future of [send_message] when another arm of the
    [select!] is ready first.  Segments are written with [feed], and the position is
    advanced before [flush]; every other message is written with [send], and the
    machine moves on only after its flush.  When the timer fires during the flush the
    message is in the buffer and is written again: an acknowledgement that is read
    twice panics the peer if it sends the next transfer by then. *)
Module Interrupted.
Import PairWitness.
Definition before_ack : Pair :=
  default start (script (handshake ++ [(true, Send (rq [1; 2; 3])); (true, Write); (false, Read)]) start).
Definition sender : StateMachine := statemachine (run (active before_ack)).
Definition receiver : StateMachine := statemachine (run (passive before_ack)).

Definition ack : XferAck :=
  {| XferMsg.ack_flags := 3; XferMsg.ack_transfer_id := 0; XferMsg.acknowleged_length := 3 |}.
Definition next_transfer : outcome unit StateMachine :=
  '(m, _) ← decode_message (inl (MXferAck ack)) sender;
  '(m, _) ← send_transfer [4] m;
  Ok m.

Example interrupted_ack_panics :
  send_message (E := unit) receiver = Ok ([MXferAck ack], set_state SessionEstablished receiver) ∧
  send_message (E := unit) (send_keepalive receiver) = Ok ([MKeepalive], receiver) ∧
  ∃ m, next_transfer = Ok m ∧ decode_message (E := unit) (inl (MXferAck ack)) m = Panic.
Proof.
  split; [vm_compute; reflexivity|]. split; [vm_compute; reflexivity|].
  destruct next_transfer as [m| |] eqn:E; [|by vm_compute in E..]. exists m. split; [done|].
  assert (Ok m = next_transfer) as Hm by done. clear E. revert Hm. vm_compute. intros [= ->]. reflexivity.
Qed.
End Interrupted.
