(* ===== verification/Actor.v ===== *)
(** * Actors

    The daemon is a set of actix actors.  An actor owns its state, handles one
    message at a time to completion and sends messages to other actors
    ([do_send] never blocks and never fails for the caller).  A handler is a
    computation that reads and writes the state of the actor, sends messages and
    may panic; it is modelled by a state monad over the state [S] that collects
    the sent messages [M] in order.  A handler has no error value of its own:
    the error type is empty.  [returns] says that a handler does not panic, [keeps]
    that it leaves a part of the state alone. *)
From S2P Require Import Prelude.

Definition actor (S M A : Type) : Type := S → outcome Empty_set (A * S * list M).

Section actor.
Context {S M : Type}.

#[global] Instance actor_ret : MRet (actor S M) := fun A a s => Ok (a, s, []).
#[global] Instance actor_bind : MBind (actor S M) := fun A B f m s =>
  match m s with
  | Ok (a, s, o) =>
      match f a s with
      | Ok (b, s, o') => Ok (b, s, o ++ o')
      | Err e => Err e
      | Panic => Panic
      end
  | Err e => Err e
  | Panic => Panic
  end.

(** Reading a field, updating the state, sending a message, and running a
    fallible computation whose panic is the panic of the handler. *)
Definition gets {A} (f : S → A) : actor S M A := λ s, Ok (f s, s, []).
Definition modify (f : S → S) : actor S M () := λ s, Ok ((), f s, []).
Definition do_send (m : M) : actor S M () := λ s, Ok ((), s, [m]).
Definition lift {A} (o : outcome Empty_set A) : actor S M A := λ s,
  match o with Ok a => Ok (a, s, []) | Err e => Err e | Panic => Panic end.
Definition panic {A} : actor S M A := λ _, Panic.

(** [for x in l { body }]. *)
Fixpoint for_each {A} (body : A → actor S M ()) (l : list A) : actor S M () :=
  match l with
  | [] => mret ()
  | x :: l => body x;; for_each body l
  end.

Implicit Types (s : S) (o : list M).


(** A handler without a panic is a return: there is no other error. *)
Lemma not_panic_Ok {A} (r : outcome Empty_set A) : r ≠ Panic → ∃ a, r = Ok a.
Proof. destruct r as [a|[]|]; [by exists a|done]. Qed.

Lemma actor_bind_Ok {A B} (m : actor S M A) (f : A → actor S M B) s b s2 o :
  (m ≫= f) s = Ok (b, s2, o) ↔
  ∃ a s1 o1 o2, m s = Ok (a, s1, o1) ∧ f a s1 = Ok (b, s2, o2) ∧ o = o1 ++ o2.
Proof.
  unfold mbind, actor_bind. split.
  - destruct (m s) as [[[a s1] o1]| |]; [|done..].
    destruct (f a s1) as [[[b' s2'] o2]| |] eqn:E; [|done..].
    intros [= -> -> <-]. eauto 10.
  - intros (a & s1 & o1 & o2 & -> & -> & ->). done.
Qed.

Lemma actor_bind_eq {A B} (m : actor S M A) (f : A → actor S M B) s a s1 o1 :
  m s = Ok (a, s1, o1) →
  (m ≫= f) s = match f a s1 with
               | Ok (b, s2, o2) => Ok (b, s2, o1 ++ o2)
               | Err e => Err e
               | Panic => Panic
               end.
Proof. intros H. unfold mbind, actor_bind. by rewrite H. Qed.

Lemma actor_bind_run {A B} (m : actor S M A) (f : A → actor S M B) s a s1 o1 b s2 o2 :
  m s = Ok (a, s1, o1) → f a s1 = Ok (b, s2, o2) → (m ≫= f) s = Ok (b, s2, o1 ++ o2).
Proof. intros H1 H2. rewrite (actor_bind_eq _ _ _ _ _ _ H1). by rewrite H2. Qed.

(** Running the first action of a handler. *)
Definition emit {A} (o : list M) (r : outcome Empty_set (A * S * list M)) :
    outcome Empty_set (A * S * list M) :=
  match r with Ok (a, s, o') => Ok (a, s, o ++ o') | Err e => Err e | Panic => Panic end.

Lemma bind_step {A B} (m : actor S M A) (f : A → actor S M B) s a s1 o1 :
  m s = Ok (a, s1, o1) → (m ≫= f) s = emit o1 (f a s1).
Proof. apply actor_bind_eq. Qed.

Lemma emit_nil {A} (r : outcome Empty_set (A * S * list M)) : emit [] r = r.
Proof. by destruct r as [[[] ?]| |]. Qed.

Lemma bind_gets {A B} (g : S → A) (f : A → actor S M B) s : (gets g ≫= f) s = f (g s) s.
Proof. rewrite (bind_step _ _ _ _ _ _ eq_refl). apply emit_nil. Qed.
Lemma bind_modify {B} g (f : () → actor S M B) s : (modify g ≫= f) s = f () (g s).
Proof. rewrite (bind_step _ _ _ _ _ _ eq_refl). apply emit_nil. Qed.
Lemma bind_mret {A B} (a : A) (f : A → actor S M B) s : ((mret a : actor S M A) ≫= f) s = f a s.
Proof. rewrite (bind_step _ _ _ _ _ _ eq_refl). apply emit_nil. Qed.
Lemma bind_lift {A B} (a : A) (f : A → actor S M B) s : (lift (Ok a) ≫= f) s = f a s.
Proof. rewrite (bind_step _ _ _ _ _ _ eq_refl). apply emit_nil. Qed.
Lemma bind_lift_Panic {A B} (f : A → actor S M B) s : (lift Panic ≫= f) s = Panic.
Proof. done. Qed.
Lemma bind_panic {A B} (f : A → actor S M B) s : (panic ≫= f) s = Panic.
Proof. done. Qed.
Lemma bind_send {B} (e : M) (f : () → actor S M B) s :
  (do_send e ≫= f) s = emit [e] (f () s).
Proof. apply bind_step. done. Qed.

Lemma emit_emit {A} o1 o2 (r : outcome Empty_set (A * S * list M)) :
  emit o1 (emit o2 r) = emit (o1 ++ o2) r.
Proof. destruct r as [[[] ?]| |]; simpl; [by rewrite app_assoc|done..]. Qed.

Lemma bind_assoc {A B C} (m : actor S M A) (f : A → actor S M B) (g : B → actor S M C) s :
  ((m ≫= f) ≫= g) s = (m ≫= λ a, f a ≫= g) s.
Proof.
  unfold mbind, actor_bind. destruct (m s) as [[[a s1] o1]| |]; [|done..].
  destruct (f a s1) as [[[b s2] o2]| |]; [|done..].
  destruct (g b s2) as [[[c s3] o3]| |]; [|done..]. by rewrite app_assoc.
Qed.

Lemma lift_Ok {A} (r : outcome Empty_set A) s a s' o :
  lift r s = Ok (a, s', o) ↔ r = Ok a ∧ s' = s ∧ o = [].
Proof. destruct r; naive_solver. Qed.
(** A handler that does not panic in a state. *)
Definition returns {A} (m : actor S M A) (s : S) : Prop := ∃ a s' o, m s = Ok (a, s', o).

Lemma returns_bind {A C} (m : actor S M A) (k : A → actor S M C) s a s1 o1 :
  m s = Ok (a, s1, o1) → returns (k a) s1 → returns (m ≫= k) s.
Proof. intros Hm (c & s2 & o2 & Hk). exists c, s2, (o1 ++ o2). by eapply actor_bind_run. Qed.

Lemma returns_then {A C} (m : actor S M A) (k : A → actor S M C) s :
  returns m s → (∀ a s1 o1, m s = Ok (a, s1, o1) → returns (k a) s1) → returns (m ≫= k) s.
Proof. intros (a & s1 & o1 & Hm) Hk. eapply returns_bind; [done|by eapply Hk]. Qed.

(** A handler that does not touch a part of the state. *)
Definition keeps {A B} (f : S → B) (m : actor S M A) : Prop :=
  ∀ s a s' o, m s = Ok (a, s', o) → f s' = f s.

Section keeps.
Context {B : Type} (f : S → B).

Lemma keeps_bind {A C} (m : actor S M A) (k : A → actor S M C) :
  keeps f m → (∀ a, keeps f (k a)) → keeps f (m ≫= k).
Proof.
  intros Hm Hk s b s2 o (a & s1 & o1 & o2 & H1 & H2 & _)%actor_bind_Ok.
  by rewrite (Hk _ _ _ _ _ H2), (Hm _ _ _ _ H1).
Qed.
Lemma keeps_mret {A} (a : A) : keeps f (mret a : actor S M A).
Proof. intros s b s' o H. unfold mret, actor_ret in H. by simplify_eq. Qed.
Lemma keeps_gets {A} (g : S → A) : keeps f (gets g).
Proof. intros s b s' o H. unfold gets in H. by simplify_eq. Qed.
Lemma keeps_modify g : (∀ s, f (g s) = f s) → keeps f (modify g).
Proof. intros Hg s b s' o H. unfold modify in H. by simplify_eq. Qed.
Lemma keeps_send m : keeps f (do_send m).
Proof. intros s b s' o H. unfold do_send in H. by simplify_eq. Qed.
Lemma keeps_lift {A} (r : outcome Empty_set A) : keeps f (lift r).
Proof. by intros s b s' o (_ & -> & _)%lift_Ok. Qed.
Lemma keeps_panic {A} : keeps f (panic : actor S M A).
Proof. by intros s b s' o [=]. Qed.
Lemma keeps_for_each {A} (body : A → actor S M ()) l : (∀ x, keeps f (body x)) → keeps f (for_each body l).
Proof.
  intros Hb. induction l as [|x l IH]; [apply keeps_mret|]. by apply keeps_bind.
Qed.
End keeps.
End actor.

(** [arun] computes the steps of a handler whose results are known. *)
Ltac arun :=
  repeat first
    [ rewrite bind_gets | rewrite bind_modify | rewrite bind_mret | rewrite bind_lift
    | rewrite bind_lift_Panic | rewrite bind_panic | rewrite bind_send
    | rewrite bind_assoc | rewrite emit_nil | rewrite emit_emit
    | progress cbn [emit unwrap unwrap_ok assert app] ].

(** [ainv] opens every successful bind of the context. *)
Ltac ainv :=
  repeat match goal with
  | H : (_ ≫= _) _ = Ok (_, _, _) |- _ =>
      let a := fresh "a" in let s := fresh "s" in
      let o1 := fresh "o" in let o2 := fresh "o" in
      let E := fresh "E" in
      apply actor_bind_Ok in H as (a & s & o1 & o2 & E & H & ?); subst
  | H : gets _ _ = Ok _ |- _ => unfold gets in H; simplify_eq/=
  | H : modify _ _ = Ok _ |- _ => unfold modify in H; simplify_eq/=
  | H : do_send _ _ = Ok _ |- _ => unfold do_send in H; simplify_eq/=
  | H : mret _ _ = Ok _ |- _ => unfold mret, actor_ret in H; simplify_eq/=
  | H : lift _ _ = Ok _ |- _ => apply lift_Ok in H as (H & ? & ?); simplify_eq/=
  | H : unwrap_ok _ = Ok _ |- _ => apply unwrap_ok_Ok in H
  | H : unwrap _ = Ok _ |- _ => apply unwrap_Ok in H
  | a : () |- _ => destruct a
  end.

(** [solve_keeps] goes through a handler. *)
Ltac solve_keeps :=
  repeat first
    [ apply keeps_bind; [|intros ?] | apply keeps_mret | apply keeps_gets | apply keeps_send
    | apply keeps_lift | apply keeps_panic | apply keeps_modify; intros ?; done
    | apply keeps_for_each; intros ?
    | match goal with |- keeps _ (match ?x with _ => _ end) => destruct x end ].
