(* ===== verification/Storage.v ===== *)
(** * The bundle storage agent (dtrd/src/bundlestorageagent)

    The storage agent holds every bundle the node is responsible for, keeps a
    copy of the valid ones in files, and tells the protocol agent about every
    change.  [bundle_data] is an [Arc<Vec<u8>>] shared with weak references: an
    [Arc] is its bytes and the number of its allocation, so that [upgrade] on a
    reference finds the bytes only while the storage still holds that
    allocation.  File operations and messages to the protocol agent are the
    effects a handler emits, in the order the code starts them. *)
From S2P Require Import Prelude RustStr Actor Cbor CborRfc Flags CrcTime Endpoint PrimaryBlock.
From S2P Require Import Block Bundle Fragment FragmentSize.
Import Crc Time.

(** ** Stored bundles (mod.rs) *)

Inductive State :=
| Received | Valid | DefragmentationPending | DeliveryQueued | Delivered
| ForwardingQueued | Forwarded | Invalid.

#[export] Instance State_eq_dec : EqDecision State.
Proof. solve_decision. Defined.

Record StoredBundle := {
  bundle_data : bytes;
  data_arc : nat;
  sb_state : State;
  sb_size : Z;
  sb_payload_size : Z;
  sb_min_size : option Z;
  sb_primary : PrimaryBlock;
}.

Record StoredBundleRef := {
  ref_arc : nat;
  ref_state : State;
  ref_size : Z;
  ref_payload_size : Z;
  ref_min_size : option Z;
  ref_primary : PrimaryBlock;
}.

#[export] Instance StoredBundle_eq_dec : EqDecision StoredBundle.
Proof. solve_decision. Defined.
#[export] Instance StoredBundleRef_eq_dec : EqDecision StoredBundleRef.
Proof. solve_decision. Defined.

Definition id_from_pb (pb : PrimaryBlock) (size : Z) : bytes :=
  Endpoint.fmt (source_node pb) ++ str ":" ++
  display_u64 (timestamp (creation_time (creation_timestamp pb))) ++ str ":" ++
  display_u64 (sequence_number (creation_timestamp pb)) ++ str ":" ++
  display_u64 (default 0 (fragment_offset pb)) ++ str ":" ++
  display_u64 size.

Definition get_id (sb : StoredBundle) : bytes := id_from_pb (sb_primary sb) (sb_size sb).
Definition ref_id (r : StoredBundleRef) : bytes := id_from_pb (ref_primary r) (ref_size r).

(** [.replace('/', "_")]. *)
Definition get_filename (sb : StoredBundle) : bytes := replace_char 47 95 (get_id sb).

Definition get_ref (sb : StoredBundle) : StoredBundleRef := {|
  ref_arc := data_arc sb;
  ref_state := sb_state sb;
  ref_size := sb_size sb;
  ref_payload_size := sb_payload_size sb;
  ref_min_size := sb_min_size sb;
  ref_primary := sb_primary sb;
|}.

(** [PartialEq<StoredBundleRef> for &StoredBundle] and [PartialEq for
    StoredBundleRef]: the primary block identifies a bundle. *)
Definition same_bundle (r : StoredBundleRef) (sb : StoredBundle) : bool :=
  bool_decide (sb_primary sb = ref_primary r).
Definition ref_eq (r r' : StoredBundleRef) : bool :=
  bool_decide (ref_primary r = ref_primary r').

Section storage.
Context `{!SerdeCbor}.

Definition get_bundle {E} (sb : StoredBundle) : outcome E Bundle :=
  unwrap_ok (bundle_of_bytes (bundle_data sb)).

(** [impl From<Vec<u8>> for StoredBundle], with the fresh allocation [arc]. *)
Definition stored_of_bytes {E} (arc : nat) (d : bytes) : outcome E StoredBundle :=
  bundle ← unwrap_ok (bundle_of_bytes d);
  p ← payload_block bundle;
  Ok {| bundle_data := d; data_arc := arc; sb_state := Received;
        sb_size := zlen d; sb_payload_size := zlen (data p);
        sb_min_size := None; sb_primary := primary_block bundle |}.

(** ** The agent (agent.rs)

    [storage_path] is left out: a file is named relative to it.  [next_arc] is
    the number of the next allocation. *)

Record Daemon := {
  bundles : list StoredBundle;
  endpoint : option Endpoint;
  last_created_dtn_time : option DtnTime;
  last_sequence_number : Z;
  next_arc : nat;
}.

Inductive Effect :=
| WriteFile (name content : bytes)
| DeleteFile (name : bytes)
| EventBundleUpdated (bundle : StoredBundleRef).

Definition set_bundles (l : list StoredBundle) (d : Daemon) : Daemon := {|
  bundles := l; endpoint := endpoint d; last_created_dtn_time := last_created_dtn_time d;
  last_sequence_number := last_sequence_number d; next_arc := next_arc d |}.
Definition set_sequence (t : option DtnTime) (n : Z) (d : Daemon) : Daemon := {|
  bundles := bundles d; endpoint := endpoint d; last_created_dtn_time := t;
  last_sequence_number := n; next_arc := next_arc d |}.
Definition bump_arc (d : Daemon) : Daemon := {|
  bundles := bundles d; endpoint := endpoint d; last_created_dtn_time := last_created_dtn_time d;
  last_sequence_number := last_sequence_number d; next_arc := S (next_arc d) |}.

Definition with_state (s : State) (sb : StoredBundle) : StoredBundle := {|
  bundle_data := bundle_data sb; data_arc := data_arc sb; sb_state := s;
  sb_size := sb_size sb; sb_payload_size := sb_payload_size sb;
  sb_min_size := sb_min_size sb; sb_primary := sb_primary sb |}.
Definition with_min_size (m : option Z) (sb : StoredBundle) : StoredBundle := {|
  bundle_data := bundle_data sb; data_arc := data_arc sb; sb_state := sb_state sb;
  sb_size := sb_size sb; sb_payload_size := sb_payload_size sb;
  sb_min_size := m; sb_primary := sb_primary sb |}.
Definition with_data (d : bytes) (arc : nat) (sb : StoredBundle) : StoredBundle := {|
  bundle_data := d; data_arc := arc; sb_state := sb_state sb;
  sb_size := sb_size sb; sb_payload_size := sb_payload_size sb;
  sb_min_size := sb_min_size sb; sb_primary := sb_primary sb |}.

Abbreviation handler := (actor Daemon Effect).

Definition push (sb : StoredBundle) : handler () :=
  modify (λ d, set_bundles (bundles d ++ [sb]) d).

(** [Arc::new]. *)
Definition new_arc : handler nat :=
  arc ← gets next_arc; modify bump_arc;; mret arc.

(** [self.bundles.iter().position(..)] followed by [self.bundles.remove(idx)]. *)
Definition take_bundle (r : StoredBundleRef) : handler (option StoredBundle) :=
  l ← gets bundles;
  match position (same_bundle r) l with
  | None => mret None
  | Some i =>
      '(sb, rest) ← lift (unwrap (vec_remove i l));
      modify (set_bundles rest);;
      mret (Some sb)
  end.

Definition write_bundle_to_file (sb : StoredBundle) : handler () :=
  do_send (WriteFile (get_filename sb) (bundle_data sb)).
Definition delete_bundle_file (sb : StoredBundle) : handler () :=
  do_send (DeleteFile (get_filename sb)).

Definition store_bundle (d : bytes) (min : option Z) (s : State) (persist : bool)
    : handler () :=
  arc ← new_arc;
  sb ← lift (stored_of_bytes arc d);
  let sb := with_state s (with_min_size min sb) in
  (if persist then write_bundle_to_file sb else mret () : handler ());;
  push sb;;
  do_send (EventBundleUpdated (get_ref sb)).

Definition StoreReceivedBundle (d : bytes) : handler () :=
  store_bundle d None Received false.

Definition with_sequence_number (n : Z) (b : Bundle) : Bundle :=
  let pb := primary_block b in
  {| primary_block := {|
       version := version pb; bundle_processing_flags := bundle_processing_flags pb;
       crc := crc pb; destination_endpoint := destination_endpoint pb;
       source_node := source_node pb; report_to := report_to pb;
       creation_timestamp := {| creation_time := creation_time (creation_timestamp pb);
                                sequence_number := n |};
       lifetime := lifetime pb; fragment_offset := fragment_offset pb;
       total_data_length := total_data_length pb |};
     blocks := blocks b |}.

(** The sequence number of the next bundle created at [t]. *)
Definition next_sequence_number (t : DtnTime) : handler Z :=
  last ← gets last_created_dtn_time;
  if bool_decide (Some t = last) then
    n ← gets (λ d, wrap64 (last_sequence_number d + 1));
    modify (λ d, set_sequence (last_created_dtn_time d) n d);;
    mret n
  else
    modify (set_sequence (Some t) 0);;
    mret 0.

Definition StoreNewBundle (d : bytes) : handler () :=
  bundle ← lift (unwrap_ok (bundle_of_bytes d));
  e ← gets endpoint;
  e ← lift (unwrap e);
  local ← lift (Endpoint.matches_node (source_node (primary_block bundle)) e);
  (if (local : bool) then mret () else panic : handler ());;
  lift (assert (is_none (fragment_offset (primary_block bundle))));;
  n ← next_sequence_number (creation_time (creation_timestamp (primary_block bundle)));
  d ← lift (unwrap_ok (bytes_of_bundle (with_sequence_number n bundle)));
  arc ← new_arc;
  sb ← lift (stored_of_bytes arc d);
  push sb;;
  do_send (EventBundleUpdated (get_ref sb)).

(** [store_bundle(ctx, bundle.try_into().unwrap(), Some(min), Valid, true)]. *)
Definition store_fragment (min : Z) (b : Bundle) : handler () :=
  d ← lift (unwrap_ok (bytes_of_bundle b));
  store_bundle d (Some min) Valid true.

Definition FragmentBundle (r : StoredBundleRef) (target_size : Z) : handler () :=
  sb ← take_bundle r;
  match sb with
  | None => mret ()
  | Some sb =>
      bundle ← lift (get_bundle sb);
      match fragment bundle target_size with
      | Ok (frags, first_min_size, min_size) =>
          match frags with
          | [] => panic
          | first :: rest =>
              store_fragment first_min_size first;;
              for_each (store_fragment min_size) rest;;
              delete_bundle_file sb
          end
      | Err (CanNotFragmentThatSmall min_size) =>
          let sb := with_min_size (Some min_size) sb in
          push sb;;
          do_send (EventBundleUpdated (get_ref sb))
      | Err (FSerializationError _) | Err MustNotFragment | Err BundleInvalid => panic
      | Panic => panic
      end
  end.

(** The loop of [try_defragment_bundle]: the stored bundles that are fragments
    of the requested one, and the others, both in order. *)
Fixpoint take_fragments {E} (pb : PrimaryBlock) (l : list StoredBundle)
    : outcome E (list StoredBundle * list StoredBundle) :=
  match l with
  | [] => Ok ([], [])
  | sb :: l =>
      b ← get_bundle sb;
      '(fragments, rest) ← take_fragments pb l;
      Ok (if Primary.equals_ignoring_fragment_info (primary_block b) pb
          then (sb :: fragments, rest) else (fragments, sb :: rest))
  end.

Definition try_defragment_bundle (r : StoredBundleRef) : handler () :=
  l ← gets bundles;
  '(fragments, rest) ← lift (take_fragments (ref_primary r) l);
  modify (set_bundles rest);;
  lift (assert (negb (bool_decide (fragments = []))));;
  bs ← lift (mapM get_bundle fragments);
  match reassemble_bundles bs with
  | Ok d =>
      store_bundle d None Valid true;;
      for_each delete_bundle_file fragments
  | Err _ => modify (λ d, set_bundles (bundles d ++ fragments) d)
  | Panic => panic
  end.

(** [bundle.state = new_state] and the new data, if any. *)
Definition updated (new_state : State) (new_data : option bytes) (sb : StoredBundle)
    : handler StoredBundle :=
  let sb := with_state new_state sb in
  match new_data with
  | None => mret sb
  | Some d => arc ← new_arc; mret (with_data d arc sb)
  end.

Definition UpdateBundle (r : StoredBundleRef) (new_state : State) (new_data : option bytes)
    : handler () :=
  sb ← take_bundle r;
  match sb with
  | None => mret ()
  | Some sb =>
      (if bool_decide (new_state = Valid) && negb (bool_decide (sb_state sb = Valid))
       then write_bundle_to_file sb else mret () : handler ());;
      match new_state with
      | Valid | DeliveryQueued | ForwardingQueued =>
          sb ← updated new_state new_data sb;
          push sb;;
          do_send (EventBundleUpdated (get_ref sb))
      | DefragmentationPending =>
          push sb;;
          try_defragment_bundle (get_ref sb)
      | Delivered | Forwarded | Invalid => delete_bundle_file sb
      | Received => panic
      end
  end.

(** The loops of the two queries. *)
Fixpoint select_bundles (p : PrimaryBlock → outcome Empty_set bool) (l : list StoredBundle)
    : outcome Empty_set (list StoredBundleRef) :=
  match l with
  | [] => Ok []
  | sb :: l =>
      b ← get_bundle sb;
      t ← p (primary_block b);
      rs ← select_bundles p l;
      Ok (if (t : bool) then get_ref sb :: rs else rs)
  end.

Definition GetBundleForDestination (destination : Endpoint) : handler (list StoredBundleRef) :=
  l ← gets bundles;
  lift (select_bundles (λ pb, Ok (bool_decide (destination_endpoint pb = destination))) l).

Definition GetBundleForNode (destination : Endpoint) : handler (list StoredBundleRef) :=
  l ← gets bundles;
  lift (select_bundles (λ pb, Endpoint.matches_node (destination_endpoint pb) destination) l).

(** [Weak::upgrade] of the data of a reference. *)
Definition upgrade (d : Daemon) (r : StoredBundleRef) : option bytes :=
  bundle_data <$> List.find (λ sb, (data_arc sb =? ref_arc r)%nat) (bundles d).

(** ** Starting the agent: loading the directory

    [entries] are the regular files of the storage directory, in the order
    [read_dir] gives them. *)

Fixpoint load_entries (entries : list (bytes * bytes)) : handler (list StoredBundle) :=
  match entries with
  | [] => mret []
  | (name, content) :: entries =>
      arc ← new_arc;
      sb ← lift (stored_of_bytes arc content);
      (if bool_decide (get_filename sb = name) then mret () else panic : handler ());;
      rest ← load_entries entries;
      mret (with_state Valid sb :: rest)
  end.

Definition started (my_node_id : bytes) (entries : list (bytes * bytes)) : handler () :=
  e ← lift (unwrap (Endpoint.new my_node_id));
  modify (λ d, {| bundles := bundles d; endpoint := Some e;
                  last_created_dtn_time := last_created_dtn_time d;
                  last_sequence_number := last_sequence_number d; next_arc := next_arc d |});;
  existing ← load_entries entries;
  modify (set_bundles existing);;
  for_each (λ sb, do_send (EventBundleUpdated (get_ref sb))) existing.

Definition Daemon_default : Daemon := {|
  bundles := []; endpoint := None; last_created_dtn_time := None;
  last_sequence_number := 0; next_arc := 0 |}.
End storage.

(** ** Well-formed stored bundles *)

(** [content] is a bundle that belongs in a file called [name]. *)
Definition file_of `{!SerdeCbor} (name content : bytes) : Prop :=
  ∃ sb, stored_of_bytes (E := Empty_set) 0 content = Ok sb ∧ get_filename sb = name.

(** The data of a stored bundle is a bundle with the cached primary block and a
    payload; as long as a bundle is only received or valid its data has not been
    replaced, so that its size is the cached one. *)
Record stored_ok `{!SerdeCbor} (sb : StoredBundle) : Prop := {
  so_bundle : ∃ b, bundle_of_bytes (bundle_data sb) = Ok b ∧
    primary_block b = sb_primary sb ∧ is_Some (find_payload (blocks b));
  so_size : sb_state sb = Received ∨ sb_state sb = Valid → sb_size sb = zlen (bundle_data sb);
}.

(** [content] is the bundle with the primary block [pb]. *)
Definition holds_bundle `{!SerdeCbor} (content : bytes) (pb : PrimaryBlock) : Prop :=
  ∃ b, bundle_of_bytes content = Ok b ∧ primary_block b = pb.

(** What every handler does: the stored bundles stay well formed, a file is
    written for a stored bundle with a content that belongs there, and a bundle
    that has left the state [Received] was written by the handler or had left it
    before. *)
Record handler_ok `{!SerdeCbor} (st st' : Daemon) (o : list Effect) : Prop := {
  ho_stored : Forall stored_ok (bundles st');
  ho_writes : ∀ n c, WriteFile n c ∈ o → file_of n c ∧
    ∃ sb, sb ∈ bundles st' ∧ get_filename sb = n ∧ holds_bundle c (sb_primary sb);
  ho_persisted : ∀ sb, sb ∈ bundles st' → sb_state sb ≠ Received →
    (∃ c, WriteFile (get_filename sb) c ∈ o) ∨
    ∃ sb0, sb0 ∈ bundles st ∧ sb_state sb0 ≠ Received ∧
      get_filename sb0 = get_filename sb ∧ sb_primary sb0 = sb_primary sb;
}.

Section lemmas.
Context {HC : SerdeCbor}.

Lemma stored_of_bytes_Ok {E} arc d sb :
  stored_of_bytes (E := E) arc d = Ok sb →
  bundle_data sb = d ∧ data_arc sb = arc ∧ sb_state sb = Received ∧ sb_size sb = zlen d ∧
  sb_min_size sb = None ∧ stored_ok sb.
Proof.
  unfold stored_of_bytes. intros H. apply bind_Ok in H as (b & Hb & H).
  apply bind_Ok in H as (p & Hp & H). simplify_eq/=. split_and!; try done.
  split; [|done]. exists b. simpl. split_and!; [by destruct (bundle_of_bytes d); simplify_eq/=|done|].
  unfold payload_block, payload_canonical_block in Hp. apply bind_Ok in Hp as (cb & Hcb & _).
  apply unwrap_Ok in Hcb. by eexists.
Qed.

Lemma stored_of_bytes_total {E} arc d b :
  bundle_of_bytes d = Ok b → is_Some (find_payload (blocks b)) →
  ∃ sb, stored_of_bytes (E := E) arc d = Ok sb ∧ sb_primary sb = primary_block b.
Proof.
  intros Hb Hp. unfold stored_of_bytes. rewrite Hb. ored.
  destruct (payload_block_Ok (E := E) b Hp) as (p & -> & _). ored. eexists. by split.
Qed.

Lemma get_bundle_Ok {E} sb : stored_ok sb →
  ∃ b, get_bundle (E := E) sb = Ok b ∧ primary_block b = sb_primary sb ∧
    is_Some (find_payload (blocks b)).
Proof.
  intros [(b & Hb & Hp & Hf) _]. exists b. unfold get_bundle. rewrite Hb. done.
Qed.

(** A bundle in its original form is written to the file it belongs to. *)
Lemma stored_ok_file_of sb :
  stored_ok sb → sb_size sb = zlen (bundle_data sb) → file_of (get_filename sb) (bundle_data sb).
Proof.
  intros [(b & Hb & Hp & Hf) _] Hs.
  destruct (stored_of_bytes_total (E := Empty_set) 0 _ _ Hb Hf) as (sb0 & H0 & Hp0).
  exists sb0. split; [done|]. destruct (stored_of_bytes_Ok _ _ _ H0) as (_&_&_&Hs0&_).
  unfold get_filename, get_id. by rewrite Hp0, Hs0, Hp, Hs.
Qed.

Lemma stored_ok_with_state s sb :
  stored_ok sb → sb_size sb = zlen (bundle_data sb) → stored_ok (with_state s sb).
Proof. intros [Hb _] Hs. by split. Qed.

Lemma handler_ok_refl st : Forall stored_ok (bundles st) → handler_ok st st [].
Proof. intros. split; [done|set_solver|]. intros sb ??. right. eauto. Qed.

Lemma handler_ok_trans st st1 st2 o1 o2 :
  handler_ok st st1 o1 → handler_ok st1 st2 o2 →
  (bundles st1 ⊆ bundles st2 ∨ ∀ n c, WriteFile n c ∉ o1) → handler_ok st st2 (o1 ++ o2).
Proof.
  intros [_ Hw1 Hp1] [Hs2 Hw2 Hp2] Hsub. split; [done| |].
  - intros n c [Hin|Hin]%elem_of_app; [|by apply Hw2]. destruct Hsub as [Hsub|Hno]; [|set_solver].
    destruct (Hw1 n c Hin) as (? & sb & Hsb & ?). split; [done|]. exists sb. split; [auto|done].
  - intros sb Hin Hst. destruct (Hp2 sb Hin Hst) as [[c Hc]|(sb1 & Hin1 & Hst1 & <- & <-)].
    + left. exists c. set_solver.
    + destruct (Hp1 sb1 Hin1 Hst1) as [[c Hc]|?]; [left; exists c; set_solver|by right].
Qed.

(** The effects on the bundles of [store_bundle], branch by branch. *)
Lemma store_bundle_Ok d min s p st a st' o :
  store_bundle d min s p st = Ok (a, st', o) →
  ∃ sb, stored_of_bytes (E := Empty_set) (next_arc st) d = Ok sb ∧
    let sb := with_state s (with_min_size min sb) in
    bundles st' = bundles st ++ [sb] ∧ endpoint st' = endpoint st ∧
    o = (if p then [WriteFile (get_filename sb) d] else []) ++ [EventBundleUpdated (get_ref sb)].
Proof.
  unfold store_bundle, new_arc, push, write_bundle_to_file. intros H. ainv.
  eexists. split; [done|].
  match goal with E : stored_of_bytes _ _ = Ok _ |- _ =>
    destruct (stored_of_bytes_Ok _ _ _ E) as (Hd&_) end.
  destruct p; ainv; simpl; by rewrite ?Hd.
Qed.

Lemma store_bundle_returns d min s p st sb0 :
  stored_of_bytes (E := Empty_set) (next_arc st) d = Ok sb0 →
  let sb := with_state s (with_min_size min sb0) in
  store_bundle d min s p st = Ok ((), set_bundles (bundles st ++ [sb]) (bump_arc st),
    (if p then [WriteFile (get_filename sb) d] else []) ++ [EventBundleUpdated (get_ref sb)]).
Proof.
  intros Hsb. unfold store_bundle, new_arc, push, write_bundle_to_file. arun. rewrite Hsb. arun.
  destruct (stored_of_bytes_Ok _ _ _ Hsb) as (Hd&_). destruct p; arun; simpl; by rewrite ?Hd.
Qed.

Lemma store_bundle_handler_ok d min s p st a st' o :
  Forall stored_ok (bundles st) → (s ≠ Received → p = true) →
  store_bundle d min s p st = Ok (a, st', o) →
  handler_ok st st' o ∧ bundles st ⊆ bundles st'.
Proof.
  intros Hst Hp H. destruct (store_bundle_Ok _ _ _ _ _ _ _ _ H) as (sb & Hsb & Hb & _ & ->).
  destruct (stored_of_bytes_Ok _ _ _ Hsb) as (Hd&_&_&Hs&_&Hok). split; [|rewrite Hb; set_solver].
  assert (stored_ok (with_state s (with_min_size min sb))) as Hok'.
  { apply stored_ok_with_state; [by destruct Hok|simpl; congruence]. }
  split.
  - rewrite Hb. apply Forall_app_2; [done|]. by constructor.
  - intros n c Hin. destruct p; [|set_solver].
    apply elem_of_cons in Hin as [Hin|Hin]; [|set_solver]. injection Hin as -> ->.
    split.
    + rewrite <-Hd. apply (stored_ok_file_of (with_state s (with_min_size min sb))); [done|].
      simpl. congruence.
    + rewrite Hb. eexists. split; [apply elem_of_app; right; by left|]. split; [done|].
      destruct Hok as [(b & Hbd & Hpb & _) _]. exists b. simpl. by rewrite <-Hd.
  - intros sb' Hin Hst'. rewrite Hb in Hin. apply elem_of_app in Hin as [Hin|Hin]; [right; eauto|].
    apply list_elem_of_singleton in Hin as ->. simpl in Hst'. rewrite (Hp Hst').
    left. eexists. left.
Qed.

(** [position] and [remove]: the first stored bundle with that primary block. *)
Lemma take_bundle_Ok r st ob st' o :
  take_bundle r st = Ok (ob, st', o) →
  o = [] ∧
  match ob with
  | None => st' = st ∧ Forall (λ sb, same_bundle r sb = false) (bundles st)
  | Some sb => ∃ l1 l2, bundles st = l1 ++ sb :: l2 ∧
      Forall (λ sb, same_bundle r sb = false) l1 ∧ sb_primary sb = ref_primary r ∧
      st' = set_bundles (l1 ++ l2) st
  end.
Proof.
  unfold take_bundle. intros H. ainv. destruct (position _ _) as [i|] eqn:E.
  - destruct (position_split _ _ _ E) as (l1 & sb & l2 & Hl & Hl1 & Hsb & Hr).
    rewrite Hr in H. ainv. split; [done|]. exists l1, l2. split_and!; try done. unfold same_bundle in Hsb.
    by apply bool_decide_eq_true in Hsb.
  - ainv. split; [done|]. split; [done|]. by apply position_None.
Qed.

Lemma for_each_handler_ok {A} (body : A → actor Daemon Effect ()) l st a st' o :
  (∀ x st a st' o, Forall stored_ok (bundles st) → body x st = Ok (a, st', o) →
     handler_ok st st' o ∧ bundles st ⊆ bundles st') →
  Forall stored_ok (bundles st) → for_each body l st = Ok (a, st', o) →
  handler_ok st st' o ∧ bundles st ⊆ bundles st'.
Proof.
  intros Hb. revert st o. induction l as [|x l IH]; intros st o Hst H; simpl in H.
  { ainv. split; [by apply handler_ok_refl|done]. }
  apply actor_bind_Ok in H as ([] & st1 & o1 & o2 & H1 & H2 & ->).
  apply Hb in H1 as [H1 Hs1]; [|done]. destruct (IH st1 o2) as [H2' Hs2]; [by destruct H1|done|].
  split; [eapply handler_ok_trans; eauto|]. by etrans.
Qed.

Lemma store_fragment_handler_ok m b st a st' o :
  Forall stored_ok (bundles st) → store_fragment m b st = Ok (a, st', o) →
  handler_ok st st' o ∧ bundles st ⊆ bundles st'.
Proof.
  intros Hst H. unfold store_fragment in H. apply actor_bind_Ok in H as (d & s & o1 & o2 & H1 & H & ->).
  apply lift_Ok in H1 as (_ & -> & ->). by eapply store_bundle_handler_ok.
Qed.

(** Dropping bundles and deleting files never harms what is left. *)
Lemma handler_ok_subset st0 st st' o :
  bundles st ⊆ bundles st0 → handler_ok st st' o → handler_ok st0 st' o.
Proof.
  intros Hsub [Hs Hw Hp]. split; [done..|]. intros sb' Hin Hst.
  destruct (Hp sb' Hin Hst) as [?|(sb0&Hin0&?)]; [by left|right]. exists sb0.
  split; [by apply Hsub|done].
Qed.

Lemma handler_ok_deletes st st' o os :
  (∀ e, e ∈ os → ∃ n, e = DeleteFile n) → handler_ok st st' o → handler_ok st st' (o ++ os).
Proof.
  intros Hos [Hs Hw Hp]. split; [done| |].
  - intros n c [?|Hin]%elem_of_app; [by apply Hw|]. by destruct (Hos _ Hin).
  - intros sb Hin Hst. destruct (Hp sb Hin Hst) as [[c ?]|?]; [left; exists c; set_solver|by right].
Qed.

Lemma delete_files_Ok l st a st' o :
  for_each delete_bundle_file l st = Ok (a, st', o) →
  st' = st ∧ o = map (DeleteFile ∘ get_filename) l.
Proof.
  revert o. induction l as [|sb l IH]; intros o H; simpl in H; [by ainv|].
  apply actor_bind_Ok in H as ([] & st1 & o1 & o2 & H1 & H2 & ->).
  unfold delete_bundle_file in H1. ainv. by destruct (IH _ H2) as [-> ->].
Qed.

Lemma map_DeleteFile l e :
  e ∈ map (DeleteFile ∘ get_filename) l → ∃ n, e = DeleteFile n.
Proof. intros (sb & -> & _)%list_elem_of_fmap. by eexists. Qed.

Lemma FragmentBundle_handler_ok r n st a st' o :
  Forall stored_ok (bundles st) → FragmentBundle r n st = Ok (a, st', o) → handler_ok st st' o.
Proof.
  intros Hst H. unfold FragmentBundle in H.
  apply actor_bind_Ok in H as (ob & st1 & o1 & o2 & H1 & H & ->).
  destruct (take_bundle_Ok _ _ _ _ _ H1) as [-> Ht]. destruct ob as [sb|].
  2:{ destruct Ht as [-> _]. ainv. by apply handler_ok_refl. }
  destruct Ht as (l1 & l2 & Hl & _ & _ & ->). rewrite Hl in Hst.
  apply Forall_app in Hst as [Hs1 [Hsb Hs2]%Forall_cons].
  assert (Forall stored_ok (bundles (set_bundles (l1 ++ l2) st))) as Hrest by by apply Forall_app_2.
  apply actor_bind_Ok in H as (b & s & o1 & o3 & H2 & H & ->).
  apply lift_Ok in H2 as (_ & -> & ->). cbn [app] in *.
  destruct (fragment b n) as [[[frags m1] m2]|e|]; [|destruct e|done]; try done.
  - destruct frags as [|f frags]; [done|].
    apply actor_bind_Ok in H as ([] & st2 & o1 & o2 & H1' & H & ->).
    apply actor_bind_Ok in H as ([] & st3 & o3' & o4 & H2' & H & ->).
    apply store_fragment_handler_ok in H1' as [H1' _]; [|done].
    apply for_each_handler_ok in H2' as [H2' Hsub];
      [|apply store_fragment_handler_ok|by destruct H1'].
    unfold delete_bundle_file in H. ainv. rewrite app_assoc.
    apply handler_ok_deletes; [set_solver|]. apply (handler_ok_subset st (set_bundles (l1 ++ l2) st));
      [rewrite Hl; set_solver|].
    eapply handler_ok_trans; eauto.
  - unfold push in H. ainv. destruct Hsb as [Hb Hsz]. split; simpl.
    + rewrite Forall_app. split; [done|]. by constructor.
    + set_solver.
    + intros sb' Hin Hne. right. rewrite Hl. apply elem_of_app in Hin as [Hin|Hin].
      * exists sb'. set_solver.
      * apply list_elem_of_singleton in Hin as ->. exists sb. set_solver.
Qed.

Lemma take_fragments_Ok {E} pb l fr rest :
  take_fragments (E := E) pb l = Ok (fr, rest) →
  l ≡ₚ fr ++ rest ∧
  Forall (λ sb, ∃ b, get_bundle (E := E) sb = Ok b ∧
    Primary.equals_ignoring_fragment_info (primary_block b) pb = true) fr.
Proof.
  revert fr rest. induction l as [|sb l IH]; intros fr rest H; simpl in H; [by simplify_eq|].
  apply bind_Ok in H as (b & Hb & H). apply bind_Ok in H as ([fr' rest'] & H' & H).
  destruct (IH _ _ H') as [Hp Hf]. case_match; simplify_eq/=; rewrite Hp.
  - split; [done|]. constructor; eauto.
  - split; [|done]. apply Permutation_middle.
Qed.

Lemma try_defragment_handler_ok r st a st' o :
  Forall stored_ok (bundles st) → try_defragment_bundle r st = Ok (a, st', o) →
  handler_ok st st' o.
Proof.
  intros Hst H. unfold try_defragment_bundle in H.
  apply actor_bind_Ok in H as (l & st1 & o1 & o2 & H1 & H & ->). unfold gets in H1. simplify_eq.
  apply actor_bind_Ok in H as ([fr rest] & st1' & o1 & o2' & H1 & H & ->).
  apply lift_Ok in H1 as (Hfr & -> & ->). destruct (take_fragments_Ok _ _ _ _ Hfr) as [Hp _].
  apply actor_bind_Ok in H as ([] & st2 & o1 & o2 & H1 & H & ->). unfold modify in H1. simplify_eq.
  apply actor_bind_Ok in H as ([] & st2 & o1 & o2' & H1 & H & ->). apply lift_Ok in H1 as (_ & -> & ->).
  apply actor_bind_Ok in H as (bs & st2 & o1 & o2 & H1 & H & ->). apply lift_Ok in H1 as (_ & -> & ->).
  cbn [app]. rewrite Hp, Forall_app in Hst. destruct Hst as [Hsf Hsr].
  destruct (reassemble_bundles bs) as [d|e|]; [|unfold modify in H; simplify_eq/=|done].
  - apply actor_bind_Ok in H as ([] & st2 & o1 & o2' & H1 & H & ->).
    destruct (delete_files_Ok _ _ _ _ _ H) as [-> ->].
    apply handler_ok_deletes; [by apply map_DeleteFile|].
    apply store_bundle_handler_ok in H1 as [H1 _]; [|done..]. eapply handler_ok_subset; [|done].
    intros sb Hin. rewrite Hp. simpl in Hin. set_solver.
  - split; [by apply Forall_app_2|set_solver|]. intros sb Hin Hne. right. exists sb.
    split; [|done]. rewrite Hp. simpl in Hin. set_solver.
Qed.

Lemma push_handler_ok sb st st' :
  Forall stored_ok (bundles st) → stored_ok sb → sb_state sb = Received →
  bundles st' = bundles st ++ [sb] → handler_ok st st' [EventBundleUpdated (get_ref sb)].
Proof.
  intros Hst Hsb Hr Hb. split; [rewrite Hb; apply Forall_app_2; [done|by constructor]|set_solver|].
  intros sb' Hin Hne. rewrite Hb in Hin. right. exists sb'.
  apply elem_of_app in Hin as [?|Hin]; [done|]. by apply list_elem_of_singleton in Hin as ->.
Qed.

Lemma next_sequence_number_Ok t st n st' o :
  next_sequence_number t st = Ok (n, st', o) →
  o = [] ∧ bundles st' = bundles st ∧ endpoint st' = endpoint st ∧
  last_created_dtn_time st' = Some t ∧ last_sequence_number st' = n ∧
  n = if bool_decide (Some t = last_created_dtn_time st)
      then wrap64 (last_sequence_number st + 1) else 0.
Proof.
  unfold next_sequence_number. intros H. ainv. case_bool_decide; by ainv.
Qed.

(** What [StoreNewBundle] stores: the bundle it was given, renumbered. *)
Lemma StoreNewBundle_Ok d st a st' o :
  StoreNewBundle d st = Ok (a, st', o) →
  ∃ b n d' sb, bundle_of_bytes d = Ok b ∧ bytes_of_bundle (with_sequence_number n b) = Ok d' ∧
    stored_of_bytes (E := Empty_set) (next_arc st) d' = Ok sb ∧
    bundles st' = bundles st ++ [sb] ∧ endpoint st' = endpoint st ∧
    o = [EventBundleUpdated (get_ref sb)] ∧
    last_created_dtn_time st' = Some (creation_time (creation_timestamp (primary_block b))) ∧
    last_sequence_number st' = n ∧
    n = (if bool_decide (Some (creation_time (creation_timestamp (primary_block b)))
                         = last_created_dtn_time st)
         then wrap64 (last_sequence_number st + 1) else 0) ∧
    next_arc st' = S (next_arc st).
Proof.
  unfold StoreNewBundle. intros H.
  apply actor_bind_Ok in H as (b & s & o1 & o2 & [Hb [-> ->]]%lift_Ok & H & ->).
  apply actor_bind_Ok in H as (e & s & o1 & o3 & He & H & ->). injection He as <- <- <-.
  apply actor_bind_Ok in H as (e & s & o1 & o3' & [_ [-> ->]]%lift_Ok & H & ->).
  apply actor_bind_Ok in H as (l & s & o1 & o3 & [_ [-> ->]]%lift_Ok & H & ->).
  apply actor_bind_Ok in H as (u & s1 & o1 & o3' & Hl & H & ->).
  assert (s1 = st ∧ o1 = []) as [-> ->] by (destruct l; [by ainv|done]). clear Hl.
  apply actor_bind_Ok in H as (u' & s1 & o1 & o3 & [_ [-> ->]]%lift_Ok & H & ->).
  apply actor_bind_Ok in H as (n & s1 & o1 & o3' & Hn & H & ->).
  destruct (next_sequence_number_Ok _ _ _ _ _ Hn) as (-> & Hbs & He & Ht & Hsn & Hnv).
  assert (next_arc s1 = next_arc st) as Harc.
  { unfold next_sequence_number in Hn. ainv. case_bool_decide; by ainv. }
  unfold new_arc, push in H. ainv.
  exists b, (last_sequence_number s1). do 2 eexists. simpl. rewrite Hbs, <-Harc. split_and!; try eassumption; try done.
Qed.

Lemma StoreNewBundle_handler_ok d st a st' o :
  Forall stored_ok (bundles st) → StoreNewBundle d st = Ok (a, st', o) → handler_ok st st' o.
Proof.
  intros Hst H. destruct (StoreNewBundle_Ok _ _ _ _ _ H) as (b&n&d'&sb&_&_&Hsb&Hb&_&->&_).
  destruct (stored_of_bytes_Ok _ _ _ Hsb) as (_&_&Hs&_&_&Hok). by apply push_handler_ok.
Qed.

(** What the protocol agent promises with an update: new data is the same
    bundle and comes with [ForwardingQueued], only a bundle that has not been
    changed since it was received is declared valid, and only a bundle that has
    been valid is queued. *)
Definition new_data_ok (r : StoredBundleRef) (s : State) (nd : option bytes) : Prop :=
  ∀ d, nd = Some d → s = ForwardingQueued ∧ ∃ b, bundle_of_bytes d = Ok b ∧
    primary_block b = ref_primary r ∧ is_Some (find_payload (blocks b)).

Record update_ok (r : StoredBundleRef) (s : State) (nd : option bytes) (st : Daemon) : Prop := {
  uo_data : new_data_ok r s nd;
  uo_valid : ∀ sb, s = Valid → List.find (same_bundle r) (bundles st) = Some sb →
    sb_state sb = Received ∨ sb_state sb = Valid;
  uo_queued : ∀ sb, s = DeliveryQueued ∨ s = ForwardingQueued →
    List.find (same_bundle r) (bundles st) = Some sb → sb_state sb ≠ Received;
}.

Lemma find_first {A} (p : A → bool) l1 x l2 :
  Forall (λ y, p y = false) l1 → p x = true → List.find p (l1 ++ x :: l2) = Some x.
Proof. intros H Hx. induction H as [|y l Hy _ IH]; simpl; [by rewrite Hx|by rewrite Hy]. Qed.

(** Pushing a bundle again that was just taken out, in a state after
    [Received]: it was written to a file now or before. *)
Lemma push_again_handler_ok st st' l1 sb l2 sb' o :
  bundles st = l1 ++ sb :: l2 → Forall stored_ok (bundles st) →
  bundles st' = (l1 ++ l2) ++ [sb'] → stored_ok sb' → get_filename sb' = get_filename sb →
  sb_primary sb' = sb_primary sb →
  (∀ n c, WriteFile n c ∈ o →
     file_of n c ∧ n = get_filename sb ∧ holds_bundle c (sb_primary sb)) →
  (∃ c, WriteFile (get_filename sb) c ∈ o) ∨ sb_state sb ≠ Received →
  handler_ok st st' o.
Proof.
  intros Hl Hst Hl' Hsb' Hn Hpb Ho Hp. rewrite Hl in Hst. split.
  - apply Forall_app in Hst as [? [_ ?]%Forall_cons]. rewrite Hl'.
    apply Forall_app_2; [by apply Forall_app_2|by constructor].
  - intros n c Hin. destruct (Ho n c Hin) as (? & -> & ?). split; [done|]. exists sb'.
    rewrite Hl', Hpb, Hn. split_and!; [set_solver|done..].
  - intros x Hin Hx. rewrite Hl' in Hin. rewrite Hl. apply elem_of_app in Hin as [Hin|Hin].
    + right. exists x. set_solver.
    + apply list_elem_of_singleton in Hin as ->. rewrite Hn.
      destruct Hp as [?|?]; [by left|right]. exists sb. set_solver.
Qed.

(** The bundle [updated] builds: the same bundle under the same name. *)
Lemma updated_Ok r s nd st0 sb st sb' st' o :
  updated s nd sb st = Ok (sb', st', o) → update_ok r s nd st0 → stored_ok sb →
  sb_primary sb = ref_primary r → s ≠ Received →
  (s = Valid → sb_size sb = zlen (bundle_data sb)) →
  o = [] ∧ bundles st' = bundles st ∧ stored_ok sb' ∧ get_filename sb' = get_filename sb ∧
  sb_primary sb' = sb_primary sb.
Proof.
  intros H Hu Hsb Hpb Hs Hv. unfold updated in H. destruct nd as [d|].
  - destruct (uo_data _ _ _ _ Hu d eq_refl) as (-> & b & Hb & Hp & Hf).
    unfold new_arc in H. ainv. split_and!; try done. split; [|naive_solver].
    exists b. simpl. by rewrite Hpb.
  - ainv. split_and!; try done. destruct Hsb as [Hb _]. split; [done|]. naive_solver.
Qed.

Lemma UpdateBundle_handler_ok r s nd st a st' o :
  Forall stored_ok (bundles st) → update_ok r s nd st →
  UpdateBundle r s nd st = Ok (a, st', o) → handler_ok st st' o.
Proof.
  intros Hst Hu H. unfold UpdateBundle in H.
  apply actor_bind_Ok in H as (ob & st1 & o1 & o2 & H1 & H & ->).
  destruct (take_bundle_Ok _ _ _ _ _ H1) as [-> Ht]. destruct ob as [sb|].
  2:{ destruct Ht as [-> _]. ainv. by apply handler_ok_refl. }
  destruct Ht as (l1 & l2 & Hl & Hf & Hpb & ->). clear H1.
  assert (Forall stored_ok (l1 ++ l2) ∧ stored_ok sb) as [Hrest Hsb].
  { rewrite Hl in Hst. apply Forall_app in Hst as [? [? ?]%Forall_cons]. split; [|done].
    by apply Forall_app_2. }
  assert (Hfind : List.find (same_bundle r) (bundles st) = Some sb).
  { rewrite Hl. apply find_first; [done|]. by apply bool_decide_eq_true. }
  assert (Hsize : s = Valid → sb_size sb = zlen (bundle_data sb)).
  { intros ->. destruct (uo_valid _ _ _ _ Hu sb eq_refl Hfind); apply so_size; auto. }
  apply actor_bind_Ok in H as ([] & st2 & o1 & o3 & Hw & H & ->). cbn [app].
  assert (st2 = set_bundles (l1 ++ l2) st ∧ (∀ n c, WriteFile n c ∈ o1 → s = Valid ∧
      file_of n c ∧ n = get_filename sb ∧ holds_bundle c (sb_primary sb)) ∧
    (s = Valid → (∃ c, WriteFile (get_filename sb) c ∈ o1) ∨ sb_state sb ≠ Received)) as (->&Ho&Hv).
  { destruct (bool_decide_reflect (s = Valid)) as [->|]; simpl in Hw; [|by ainv; set_solver].
    case_bool_decide as Hsv; simpl in Hw; [ainv; rewrite Hsv; set_solver|].
    unfold write_bundle_to_file in Hw. ainv. split_and!; [done| |].
    - intros n c Hin%list_elem_of_singleton. injection Hin as -> ->. split_and!; [done|by apply stored_ok_file_of; auto|done|].
      destruct Hsb as [(b & ? & ? & _) _]. by exists b.
    - left. eexists. left. }
  clear Hw.
  assert (Hqueued : s = Valid ∨ s = DeliveryQueued ∨ s = ForwardingQueued →
    (sb ← updated s nd sb; push sb;; do_send (EventBundleUpdated (get_ref sb)))
      (set_bundles (l1 ++ l2) st) = Ok (a, st', o3) → handler_ok st st' (o1 ++ o3)).
  { intros Hs Hup. apply actor_bind_Ok in Hup as (sb' & st3 & o1' & o4 & Hup & Hp & ->).
    assert (s ≠ Received) as Hr by naive_solver.
    destruct (updated_Ok _ _ _ _ _ _ _ _ _ Hup Hu Hsb Hpb Hr Hsize) as (-> & Hb & Hsb' & Hn & Hp').
    unfold push in Hp. ainv.
    eapply push_again_handler_ok; [exact Hl|exact Hst|simpl; by rewrite Hb|exact Hsb'|exact Hn|exact Hp'|..].
    - intros n c Hin. apply Ho. set_solver.
    - destruct Hs as [Hs|Hs]; [|right; by eapply uo_queued].
      destruct (Hv Hs) as [[c ?]|?]; [left; exists c; set_solver|by right]. }
  assert (Hnowrite : s ≠ Valid → ∀ n c, WriteFile n c ∉ o1).
  { intros Hs n c Hin. by destruct (Ho n c Hin). }
  assert (Hkept : ∀ st'', bundles st'' ⊆ bundles st → Forall stored_ok (bundles st'') →
    s ≠ Valid → handler_ok st st'' o1).
  { intros st'' Hsub Hs'' Hs. split; [done|by intros n c Hin; destruct (Hnowrite Hs n c)|].
    intros x Hin Hx. right. exists x. split_and!; auto. }
  assert (Hdel : s ≠ Valid → delete_bundle_file sb (set_bundles (l1 ++ l2) st) = Ok (a, st', o3) →
    handler_ok st st' (o1 ++ o3)).
  { unfold delete_bundle_file. intros Hs Hd. ainv. apply handler_ok_deletes; [set_solver|].
    apply Hkept; [rewrite Hl; simpl; set_solver|done|done]. }
  destruct s; auto; [done|].
  apply actor_bind_Ok in H as ([] & st3 & o4 & o5 & Hp & H & ->). unfold push in Hp. ainv.
  assert (Forall stored_ok ((l1 ++ l2) ++ [sb])) by (apply Forall_app_2; [done|by constructor]).
  eapply handler_ok_trans;
    [|eapply try_defragment_handler_ok; [|exact H]; done|right; by apply Hnowrite].
  apply Hkept; [rewrite Hl; simpl; set_solver|done|done].
Qed.
End lemmas.
