(* ===== verification/StorageSystem.v ===== *)
(** * The storage agent with its directory

    The agent of [Storage.v] together with the files it writes: messages are
    handled one at a time; a write is awaited by the agent before it handles the
    next message ([wait]), a deletion runs at some later time ([spawn]).  The
    theorems say what a restart finds after any sequence of messages and
    deletions in which the updates keep the promises of [update_ok], and what
    goes wrong without these promises or when file names collide. *)
From S2P Require Import Prelude RustStr Actor Cbor CborRfc Flags CrcTime Endpoint PrimaryBlock.
From S2P Require Import Block Bundle Fragment FragmentSize Storage.
Import Crc Time.

Inductive Message :=
| MStoreReceivedBundle (bundle_data : bytes)
| MStoreNewBundle (bundle_data : bytes)
| MFragmentBundle (bundleref : StoredBundleRef) (target_size : Z)
| MUpdateBundle (bundleref : StoredBundleRef) (new_state : State) (new_data : option bytes).

Definition handle `{!SerdeCbor} (m : Message) : actor Daemon Effect () :=
  match m with
  | MStoreReceivedBundle d => StoreReceivedBundle d
  | MStoreNewBundle d => StoreNewBundle d
  | MFragmentBundle r n => FragmentBundle r n
  | MUpdateBundle r s nd => UpdateBundle r s nd
  end.

(** The directory: its files and the deletions that have not run yet. *)
Record Directory := { files : gmap bytes bytes; deleting : list bytes }.

Definition apply_effect (k : Directory) (e : Effect) : Directory :=
  match e with
  | WriteFile n c => {| files := <[n := c]> (files k); deleting := deleting k |}
  | DeleteFile n => {| files := files k; deleting := n :: deleting k |}
  | EventBundleUpdated _ => k
  end.

Definition apply_effects : Directory → list Effect → Directory := foldl apply_effect.

Section system.
Context {HC : SerdeCbor}.

(** A message the other agents send in state [st]. *)
Definition message_ok (st : Daemon) (m : Message) : Prop :=
  match m with MUpdateBundle r s nd => update_ok r s nd st | _ => True end.

Inductive step : Daemon * Directory → Daemon * Directory → Prop :=
| StepHandle st k m st' o :
    message_ok st m → handle m st = Ok ((), st', o) →
    step (st, k) (st', apply_effects k o)
| StepDelete st fs n l1 l2 :
    step (st, {| files := fs; deleting := l1 ++ n :: l2 |})
         (st, {| files := delete n fs; deleting := l1 ++ l2 |}).

(** The names of the stored bundles are different and none of them waits for its
    deletion. *)
Definition no_collision (s : Daemon * Directory) : Prop :=
  NoDup (map get_filename (bundles s.1)) ∧
  ∀ sb, sb ∈ bundles s.1 → get_filename sb ∉ deleting s.2.

Lemma handle_ok st m st' o :
  Forall stored_ok (bundles st) → message_ok st m → handle m st = Ok ((), st', o) →
  handler_ok st st' o.
Proof.
  intros Hst Hm H. destruct m; simpl in *.
  - by apply store_bundle_handler_ok in H as [? _].
  - by eapply StoreNewBundle_handler_ok.
  - by eapply FragmentBundle_handler_ok.
  - by eapply UpdateBundle_handler_ok.
Qed.

(** ** The files *)

Lemma apply_effects_deleting k o n :
  n ∈ deleting k → n ∈ deleting (apply_effects k o).
Proof.
  revert k. induction o as [|e o IH]; intros k Hn; [done|]. simpl. apply IH. destruct e; set_solver.
Qed.

(** A file that is there after the effects was written by them, or was there and
    not written. *)
Lemma apply_effects_lookup k o n c :
  files (apply_effects k o) !! n = Some c →
  WriteFile n c ∈ o ∨ (files k !! n = Some c ∧ ∀ c', WriteFile n c' ∉ o).
Proof.
  revert k. induction o as [|e o IH]; intros k H; [right; split; [done|set_solver]|]. simpl in H.
  destruct (IH _ H) as [?|[Hk Hno]]; [left; set_solver|].
  destruct e as [n' c'| |]; simpl in Hk; [|right; split; [done|set_solver]..].
  destruct (decide (n' = n)) as [->|].
  - rewrite lookup_insert_eq in Hk. simplify_eq. left. set_solver.
  - rewrite lookup_insert_ne in Hk by done. right. split; [done|]. set_solver.
Qed.

Lemma apply_effects_is_Some k o n :
  (∃ c, WriteFile n c ∈ o) ∨ is_Some (files k !! n) → is_Some (files (apply_effects k o) !! n).
Proof.
  revert k. induction o as [|e o IH]; intros k H; simpl.
  { destruct H as [[c H]|H]; [set_solver|done]. }
  apply IH. destruct H as [[c H]|H].
  - apply elem_of_cons in H as [<-|H]; [right; simpl; rewrite lookup_insert_eq; eauto|eauto].
  - right. destruct e as [n' c'| |]; simpl; [|done..].
    destruct (decide (n' = n)) as [->|]; [rewrite lookup_insert_eq; eauto|].
    by rewrite lookup_insert_ne.
Qed.

(** Every file is a bundle under its own name. *)
Definition directory_ok (k : Directory) : Prop :=
  ∀ n c, files k !! n = Some c → file_of n c.

(** Every bundle that has left the state [Received] has its file. *)
Definition persisted (s : Daemon * Directory) : Prop :=
  ∀ sb, sb ∈ bundles s.1 → sb_state sb ≠ Received →
    ∃ c, files s.2 !! get_filename sb = Some c ∧ holds_bundle c (sb_primary sb).

(** ** Loading the directory *)

Lemma stored_of_bytes_file arc n c :
  file_of n c → ∃ sb, stored_of_bytes (E := Empty_set) arc c = Ok sb ∧ get_filename sb = n.
Proof.
  intros (sb & H & <-). destruct (stored_of_bytes_Ok _ _ _ H) as (Hd&_&_&Hs&_&[(b&Hb&Hp&Hf) _]).
  rewrite Hd in Hb. destruct (stored_of_bytes_total (E := Empty_set) arc _ _ Hb Hf) as (sb' & H' & Hp').
  exists sb'. split; [done|]. destruct (stored_of_bytes_Ok _ _ _ H') as (_&_&_&Hs'&_).
  unfold get_filename, get_id. congruence.
Qed.

(** [sb] was loaded from the file [e]. *)
Definition loaded_from (e : bytes * bytes) (sb : StoredBundle) : Prop :=
  bundle_data sb = e.2 ∧ get_filename sb = e.1 ∧ sb_state sb = Valid ∧ stored_ok sb ∧ sb_min_size sb = None.

Lemma load_entries_ok entries st :
  Forall (λ e, file_of e.1 e.2) entries →
  ∃ sbs st', load_entries entries st = Ok (sbs, st', []) ∧ endpoint st' = endpoint st ∧
    Forall2 loaded_from entries sbs ∧ map data_arc sbs = seq (next_arc st) (length sbs) ∧
    next_arc st' = (next_arc st + length sbs)%nat.
Proof.
  intros He. revert st. induction He as [|[n c] entries Hf _ IH]; intros st; simpl.
  { exists [], st. split_and!; [done..|simpl; lia]. }
  destruct (stored_of_bytes_file (next_arc st) n c Hf) as (sb & Hsb & Hn).
  destruct (IH (bump_arc st)) as (sbs & st' & Hl & He & Hall & Harc & Hnext).
  destruct (stored_of_bytes_Ok _ _ _ Hsb) as (Hd&Ha&_&Hs&Hm&Hok).
  exists (with_state Valid sb :: sbs), st'. split_and!; [|done| |simpl; by rewrite Ha, Harc|simpl in *; lia].
  - unfold new_arc. arun. rewrite Hsb. arun. rewrite bool_decide_eq_true_2 by done. arun.
    by rewrite (bind_step _ _ _ _ _ _ Hl).
  - constructor; [|done]. split_and!; [done|done|done| |done]. apply stored_ok_with_state; [done|congruence].
Qed.

Lemma for_each_events (l : list StoredBundle) (st : Daemon) :
  for_each (λ sb, do_send (EventBundleUpdated (get_ref sb))) l st
    = Ok ((), st, map (EventBundleUpdated ∘ get_ref) l).
Proof.
  induction l as [|sb l IH]; [done|]. simpl. arun. by rewrite IH.
Qed.

Lemma started_ok id e entries st :
  Endpoint.new id = Some e → Forall (λ e, file_of e.1 e.2) entries →
  ∃ st', started id entries st = Ok ((), st', map (EventBundleUpdated ∘ get_ref) (bundles st')) ∧
    endpoint st' = Some e ∧ Forall2 loaded_from entries (bundles st') ∧
    map data_arc (bundles st') = seq (next_arc st) (length (bundles st')) ∧
    next_arc st' = (next_arc st + length (bundles st'))%nat.
Proof.
  intros Hid He. unfold started. rewrite Hid. arun.
  destruct (load_entries_ok entries {| bundles := bundles st; endpoint := Some e;
    last_created_dtn_time := last_created_dtn_time st;
    last_sequence_number := last_sequence_number st; next_arc := next_arc st |} He)
    as (sbs & st' & Hl & He' & Hall & Harc & Hnext).
  exists (set_bundles sbs st'). rewrite (bind_step _ _ _ _ _ _ Hl). arun.
  rewrite for_each_events. by split_and!.
Qed.
(** A restart loads the files, in the order the directory is read in; deletions that
    have not run are not run any more. *)
Inductive restart (e : Endpoint) : Daemon * Directory → Daemon * Directory → list Effect → Prop :=
| Restart st k id entries st' o :
    Endpoint.new id = Some e → entries ≡ₚ map_to_list (files k) →
    started id entries Daemon_default = Ok ((), st', o) →
    restart e (st, k) (st', {| files := files k; deleting := [] |}) o.

Lemma files_of k entries : directory_ok k → entries ≡ₚ map_to_list (files k) → Forall (λ e, file_of e.1 e.2) entries.
Proof.
  intros Hd ->. apply Forall_forall. intros [n c] Hin. simpl. apply Hd. by apply elem_of_map_to_list.
Qed.

(** What a restart loads: one valid bundle per file, in a new allocation. *)
Lemma restart_loads e s s' o :
  directory_ok s.2 → restart e s s' o →
  o = map (EventBundleUpdated ∘ get_ref) (bundles s'.1) ∧
  files s'.2 = files s.2 ∧ deleting s'.2 = [] ∧ endpoint s'.1 = Some e ∧
  map data_arc (bundles s'.1) = seq 0 (next_arc s'.1) ∧
  ∀ sb, sb ∈ bundles s'.1 → sb_state sb = Valid ∧ stored_ok sb ∧ sb_min_size sb = None ∧
    files s'.2 !! get_filename sb = Some (bundle_data sb).
Proof.
  intros Hd Hr. revert Hd. destruct Hr as [st k id entries st' o Hid He H]. cbn [fst snd files deleting]. intros Hd.
  destruct (started_ok id e entries Daemon_default Hid (files_of _ _ Hd He)) as (st1 & Hst & Hend & Hall & Ha & Hn).
  rewrite H in Hst. injection Hst as <- ->. simpl in Ha, Hn. split_and!; [done..|by rewrite Ha, Hn|].
  intros sb [i Hi]%list_elem_of_lookup. destruct (Forall2_lookup_r _ _ _ _ _ Hall Hi) as ([n c] & Hi' & Hl).
  destruct Hl as (-> & -> & ? & ? & ?). split_and!; [done..|]. apply elem_of_map_to_list. rewrite <-He.
  by eapply list_elem_of_lookup_2.
Qed.

Lemma restart_persisted e s s' o :
  directory_ok s.2 → restart e s s' o →
  Forall stored_ok (bundles s'.1) ∧ directory_ok s'.2 ∧ persisted s'.
Proof.
  intros Hd H. destruct (restart_loads e s s' o Hd H) as (_ & Hf & _ & _ & _ & Hsb). split_and!.
  - apply Forall_forall. intros sb Hin. by apply Hsb.
  - unfold directory_ok. by rewrite Hf.
  - intros sb Hin _. destruct (Hsb sb Hin) as (_ & Hok & _ & Hfile). exists (bundle_data sb). split; [done|].
    destruct (so_bundle _ Hok) as (b & ? & ? & _). by exists b.
Qed.

(** The states reached from an empty store in which [P] holds all the way. *)
Inductive reachable (P : Daemon * Directory → Prop) : Daemon * Directory → Prop :=
| ReachInit e :
    reachable P ({| bundles := []; endpoint := Some e; last_created_dtn_time := None;
                    last_sequence_number := 0; next_arc := 0 |},
                 {| files := ∅; deleting := [] |})
| ReachStep s s' : reachable P s → step s s' → P s' → reachable P s'
| ReachRestart e s s' o : reachable P s → restart e s s' o → P s' → reachable P s'.

Lemma step_directory_ok s s' :
  Forall stored_ok (bundles s.1) → directory_ok s.2 → step s s' →
  Forall stored_ok (bundles s'.1) ∧ directory_ok s'.2.
Proof.
  intros Hst Hd Hs. destruct Hs as [st k m st' o Hm H|st fs n l1 l2]; simpl in *.
  - apply handle_ok in H as [Hs Hw _]; [|done..]. split; [done|]. intros n c Hn.
    destruct (apply_effects_lookup _ _ _ _ Hn) as [Hin|[Hk _]]; [by destruct (Hw n c Hin)|by apply Hd].
  - split; [done|]. intros n' c Hn. simpl in Hn. apply lookup_delete_Some in Hn as [_ Hn]. by apply Hd.
Qed.

Lemma reachable_directory_ok P s :
  reachable P s → Forall stored_ok (bundles s.1) ∧ directory_ok s.2.
Proof.
  induction 1 as [e|s s' _ [IH1 IH2] Hs _|e s s' o _ [IH1 IH2] Hs _]; [|by eapply step_directory_ok|].
  2:{ by destruct (restart_persisted e s s' o IH2 Hs) as (?&?&_). }
  split; [constructor|]. intros n c H. simpl in H. by rewrite lookup_empty in H.
Qed.

Lemma step_persisted s s' :
  Forall stored_ok (bundles s.1) → no_collision s → persisted s → step s s' → no_collision s' →
  persisted s'.
Proof.
  intros Hst [_ Hdel] Hp Hs [Hnd _]. destruct Hs as [st k m st' o Hm H|st fs n l1 l2]; simpl in *.
  - apply handle_ok in H as [_ Hw Hpe]; [|done..]. intros sb Hin Hne.
    assert (is_Some (files (apply_effects k o) !! get_filename sb)) as [c Hc].
    { apply apply_effects_is_Some. destruct (Hpe sb Hin Hne) as [?|(sb0&Hin0&Hne0&<-&_)]; [by left|].
      right. destruct (Hp sb0 Hin0 Hne0) as (c & Hc & _). by exists c. }
    exists c. split; [done|]. destruct (apply_effects_lookup _ _ _ _ Hc) as [Hwr|[Hk Hno]].
    + destruct (Hw _ _ Hwr) as (_ & sb1 & Hin1 & Hn1 & Hb).
      by rewrite (NoDup_map_inj _ _ _ _ Hnd Hin Hin1).
    + destruct (Hpe sb Hin Hne) as [[c' Hwr]|(sb0&Hin0&Hne0&Hn0&<-)]; [by destruct (Hno c')|].
      destruct (Hp sb0 Hin0 Hne0) as (c0 & Hc0 & Hb). simpl in *. rewrite Hn0 in Hc0. congruence.
  - intros sb Hin Hne. destruct (Hp sb Hin Hne) as (c & Hc & Hb). exists c. split; [|done].
    simpl in *. apply lookup_delete_Some. split; [|done]. specialize (Hdel sb Hin). set_solver.
Qed.

Lemma reachable_persisted s : reachable no_collision s → no_collision s ∧ persisted s.
Proof.
  induction 1 as [e|s s' Hr [IH1 IH2] Hs Hn|e s s' o Hr [IH1 IH2] Hs Hn].
  - split; [split; [constructor|]|]; intros sb; set_solver.
  - split; [done|]. apply (step_persisted s); try done.
    by destruct (reachable_directory_ok _ _ Hr).
  - split; [done|]. destruct (reachable_directory_ok _ _ Hr) as [_ Hd].
    by destruct (restart_persisted e s s' o Hd Hs) as (_&_&?).
Qed.

End system.

(** ** Restarting *)

(** Whatever messages the agent has handled, its directory can be loaded, also
    with deletions still outstanding and whatever order the files are read in, as
    long as updates keep the promises of [update_ok] (a bundle that arrives twice
    breaks them, see below): every
    file holds a bundle under its own name, so the consistency check of
    [started] never panics, and every file becomes one valid bundle the protocol
    agent is told about. *)
Theorem restart_never_panics `{!SerdeCbor} st k entries id e :
  reachable (λ _, True) (st, k) → entries ≡ₚ map_to_list (files k) → Endpoint.new id = Some e →
  ∃ st', started id entries Daemon_default
           = Ok ((), st', map (EventBundleUpdated ∘ get_ref) (bundles st')) ∧
    Forall2 (λ e sb, bundle_data sb = e.2 ∧ get_filename sb = e.1 ∧ sb_state sb = Valid)
      entries (bundles st').
Proof.
  intros Hr He Hid. destruct (reachable_directory_ok _ _ Hr) as [_ Hd]. cbn [snd] in Hd.
  destruct (started_ok id e entries Daemon_default Hid) as (st' & Hst & _ & Hall & _).
  { by eapply files_of. }
  exists st'. split; [done|]. eapply Forall2_impl; [done|]. intros [] ? (?&?&?&_). done.
Qed.

(** No accepted bundle is lost by a restart: as long as the file names of the
    bundles do not collide and updates keep the promises of [update_ok], every bundle that was valid at some time and is not
    finished (delivered, forwarded, fragmented or reassembled) is loaded again,
    as a valid bundle. *)
Theorem restart_recovers_bundles `{!SerdeCbor} st k entries id e sb :
  reachable no_collision (st, k) → entries ≡ₚ map_to_list (files k) → Endpoint.new id = Some e →
  sb ∈ bundles st → sb_state sb ≠ Received →
  ∃ st' sb', started id entries Daemon_default
               = Ok ((), st', map (EventBundleUpdated ∘ get_ref) (bundles st')) ∧
    sb' ∈ bundles st' ∧ sb_state sb' = Valid ∧ sb_primary sb' = sb_primary sb.
Proof.
  intros Hr He Hid Hin Hne. destruct (reachable_directory_ok _ _ Hr) as [_ Hd]. cbn [snd] in Hd.
  destruct (reachable_persisted _ Hr) as [_ Hp]. destruct (Hp sb Hin Hne) as (c & Hc & b & Hb & Hpb).
  destruct (started_ok id e entries Daemon_default Hid) as (st' & Hst & _ & Hall & _).
  { by eapply files_of. }
  assert ((get_filename sb, c) ∈ entries) as Hen by (rewrite He; by apply elem_of_map_to_list).
  apply list_elem_of_lookup in Hen as [i Hi].
  destruct (Forall2_lookup_l _ _ _ _ _ Hall Hi) as (sb' & Hi' & Hd' & _ & Hs' & Hok & _).
  exists st', sb'. split_and!; [done|by eapply list_elem_of_lookup_2|done|].
  destruct Hok as [(b' & Hb' & Hpb' & _) _]. simpl in Hd'. rewrite Hd' in Hb'. congruence.
Qed.

(** ** A node [dtn://b/] with bundles from [dtn://a/] *)

Module StorageWitness.
Definition node_id : bytes := str "dtn://b/".

Definition pb : PrimaryBlock := {|
  version := 7; bundle_processing_flags := 0; crc := NoCRC;
  destination_endpoint := TestBundle.endpoint "//c/app";
  source_node := TestBundle.endpoint "//a/app"; report_to := TestBundle.endpoint "//a/app";
  creation_timestamp := {| creation_time := {| timestamp := 1000 |}; sequence_number := 0 |};
  lifetime := 3600; fragment_offset := None; total_data_length := None |}.

Definition bundle (pb : PrimaryBlock) (d : bytes) : Bundle :=
  {| primary_block := pb;
     blocks := [{| block := Payload {| data := d |}; block_number := 1;
                   block_flags := BlockFlags.empty; block_crc := NoCRC |}] |}.

(** The bytes a bundle is sent as, and a reference to it. *)
Definition sent (b : Bundle) : bytes := match bytes_of_bundle b with Ok d => d | _ => [] end.
Definition ref (b : Bundle) : StoredBundleRef := {|
  ref_arc := 0; ref_state := Received; ref_size := zlen (sent b);
  ref_payload_size := zlen (payload_bytes b); ref_min_size := None;
  ref_primary := primary_block b |}.

Definition init : Daemon := {|
  bundles := []; endpoint := Endpoint.new node_id; last_created_dtn_time := None;
  last_sequence_number := 0; next_arc := 0 |}.
Definition empty_directory : Directory := {| files := ∅; deleting := [] |}.

(** Handling messages one after the other, and the directory after that. *)
Definition run (ms : list Message) : outcome Empty_set (Daemon * Directory) :=
  match for_each handle ms init with
  | Ok (_, st, o) => Ok (st, apply_effects empty_directory o)
  | Err e => Err e
  | Panic => Panic
  end.

(** A received bundle is validated and queued for forwarding with its hop count
    raised. *)
Definition original : Bundle := bundle pb [1; 2; 3].
Definition forwarded : Bundle := (inc_hop_count 16 original).2.
Definition forwarding : list Message :=
  [MStoreReceivedBundle (sent original); MUpdateBundle (ref original) Valid None;
   MUpdateBundle (ref original) ForwardingQueued (Some (sent forwarded))].

(** Two fragments of a payload of 30 bytes; the first one lacks 3 bytes, which
    is what the fragment fields of its primary block take. *)
Definition payload : bytes := repeat 7 30.
Definition fragment_at_offset (off n : Z) : Bundle :=
  bundle (with_fragment 1 (Some off) (Some 30) pb) (slice off (off + n) payload).
Definition defragmenting : list Message :=
  let f1 := fragment_at_offset 0 27 in
  let f2 := fragment_at_offset 27 3 in
  [MStoreReceivedBundle (sent f1); MUpdateBundle (ref f1) Valid None;
   MStoreReceivedBundle (sent f2); MUpdateBundle (ref f2) Valid None;
   MUpdateBundle (ref f2) DefragmentationPending None].

(** The states on the way, each of them free of collisions. *)
Definition after (n : nat) : Daemon * Directory :=
  match run (take n forwarding) with Ok s => s | _ => (init, empty_directory) end.

Lemma step_handle st k m s' :
  message_ok st m →
  match handle m st with Ok (_, st', o) => s' = (st', apply_effects k o) | _ => False end →
  step (st, k) s'.
Proof.
  intros Hm H. destruct (handle m st) as [[[[] st'] o]| |] eqn:E; try done. subst.
  by eapply StepHandle.
Qed.

Lemma no_collision_check s :
  bool_decide (NoDup (map get_filename (bundles s.1))) &&
  forallb (λ sb, bool_decide (get_filename sb ∉ deleting s.2)) (bundles s.1) = true →
  no_collision s.
Proof.
  intros [H1 H2]%andb_true_iff. split; [by apply bool_decide_eq_true in H1|].
  intros sb Hin. rewrite List.forallb_forall in H2. apply list_elem_of_In in Hin.
  by apply H2, bool_decide_eq_true in Hin.
Qed.

Lemma after_reachable (P : Daemon * Directory → Prop) :
  (∀ n, (n ≤ 3)%nat → P (after n)) → reachable P (after 3).
Proof.
  intros HP. apply ReachStep with (after 2); [apply ReachStep with (after 1);
    [apply ReachStep with (after 0); [apply ReachInit| |apply HP; lia]| |apply HP; lia]| |apply HP; lia].
  - apply (step_handle (after 0).1 (after 0).2 (MStoreReceivedBundle (sent original)));
      [done|vm_compute; reflexivity].
  - apply (step_handle (after 1).1 (after 1).2 (MUpdateBundle (ref original) Valid None));
      [|vm_compute; reflexivity].
    split; [done|intros sb _ H; vm_compute in H; injection H as <-; by left|naive_solver].
  - apply (step_handle (after 2).1 (after 2).2
             (MUpdateBundle (ref original) ForwardingQueued (Some (sent forwarded))));
      [|vm_compute; reflexivity].
    split; [|done|intros sb _ H; vm_compute in H; by injection H as <-].
    intros d [= <-]. split; [done|]. exists forwarded. split; [vm_compute; reflexivity|].
    split; [done|by eexists].
Qed.

Lemma after_no_collision n : (n ≤ 3)%nat → no_collision (after n).
Proof.
  intros Hn. apply no_collision_check. do 4 (destruct n as [|n]; [vm_compute; reflexivity|]). lia.
Qed.
End StorageWitness.

Lemma restart_never_panics_witness :
  ∃ st', started StorageWitness.node_id (map_to_list (files (StorageWitness.after 3).2)) Daemon_default
           = Ok ((), st', map (EventBundleUpdated ∘ get_ref) (bundles st')) ∧
    Forall2 (λ e sb, bundle_data sb = e.2 ∧ get_filename sb = e.1 ∧ sb_state sb = Valid)
      (map_to_list (files (StorageWitness.after 3).2)) (bundles st').
Proof.
  eapply (restart_never_panics (StorageWitness.after 3).1 (StorageWitness.after 3).2).
  - rewrite <-surjective_pairing. by apply StorageWitness.after_reachable.
  - reflexivity.
  - vm_compute. reflexivity.
Defined.

Lemma restart_recovers_bundles_witness :
  ∃ st' sb', started StorageWitness.node_id (map_to_list (files (StorageWitness.after 3).2))
               Daemon_default
               = Ok ((), st', map (EventBundleUpdated ∘ get_ref) (bundles st')) ∧
    sb' ∈ bundles st' ∧ sb_state sb' = Valid ∧ sb_primary sb' = StorageWitness.pb.
Proof.
  destruct (bundles (StorageWitness.after 3).1) as [|sb l] eqn:E; [vm_compute in E; discriminate E|].
  assert (sb_state sb ≠ Received ∧ sb_primary sb = StorageWitness.pb) as [Hne <-].
  { vm_compute in E. injection E as <- _. done. }
  eapply (restart_recovers_bundles (StorageWitness.after 3).1 (StorageWitness.after 3).2).
  - rewrite <-surjective_pairing. apply StorageWitness.after_reachable,
      StorageWitness.after_no_collision.
  - reflexivity.
  - vm_compute. reflexivity.
  - rewrite E. left.
  - done.
Defined.

(** A bundle that arrives twice makes the node unable to start: the second
    validation finds the first copy, which was changed for forwarding, and
    writes it to the file named after the size it had before; on the next start
    the name does not fit the content and [started] panics. *)
Theorem duplicate_bundle_poisons_restart :
  ∃ st k, StorageWitness.run (StorageWitness.forwarding ++
        [MStoreReceivedBundle (StorageWitness.sent StorageWitness.original);
         MUpdateBundle (StorageWitness.ref StorageWitness.original) Valid None]) = Ok (st, k) ∧
    started StorageWitness.node_id (map_to_list (files k)) Daemon_default = Panic.
Proof. eexists _, _. split; [vm_compute; reflexivity|]. vm_compute. reflexivity. Qed.

(** Reassembly can delete the file it has just written: the reassembled bundle
    and its first fragment have the same name when they have the same size.  The
    bundle is in the store and valid, and after the deletions its file is gone. *)
Theorem reassembled_file_deleted :
  ∃ st k sb, StorageWitness.run StorageWitness.defragmenting = Ok (st, k) ∧
    bundles st = [sb] ∧ sb_state sb = Valid ∧ bundle_data sb
      = StorageWitness.sent (StorageWitness.bundle StorageWitness.pb StorageWitness.payload) ∧
    map_to_list (foldr delete (files k) (deleting k)) = [].
Proof. eexists _, _, _. split; [vm_compute; reflexivity|]. vm_compute. split_and!; reflexivity. Qed.
