(* ===== verification/StorageShape.v ===== *)
(** * What a handler of the storage agent does to the stored bundles

    Every handler takes some bundles out of the store, puts new ones in and
    announces exactly these; the rest stays as it is.  [Shape] says which
    allocations and states the new bundles have and which bundles a message can
    leave behind without an announcement. *)
From S2P Require Import Prelude RustStr Actor Cbor CborRfc Flags CrcTime Endpoint PrimaryBlock.
From S2P Require Import Block Bundle Fragment FragmentSize Storage StorageSystem.
Import Crc Time.

(** The bundle a message is about. *)
Definition message_ref (m : Message) : option StoredBundleRef :=
  match m with
  | MUpdateBundle r _ _ | MFragmentBundle r _ => Some r
  | MStoreReceivedBundle _ | MStoreNewBundle _ => None
  end.

(** The bundles the protocol agent is told about. *)
Definition announcement (e : Effect) : option StoredBundleRef :=
  match e with EventBundleUpdated r => Some r | _ => None end.
Definition announced (o : list Effect) : list StoredBundleRef := omap announcement o.

Lemma announced_app o1 o2 : announced (o1 ++ o2) = announced o1 ++ announced o2.
Proof. apply omap_app. Qed.

(** The states in which a bundle is announced. *)
Definition announceable (s : State) : bool :=
  match s with Received | Valid | DeliveryQueued | ForwardingQueued => true | _ => false end.
Definition storable_state (sb : StoredBundle) : Prop := announceable (sb_state sb) = true.

(** The new bundles got the next allocations, or one bundle is back with its own. *)
Definition arcs_of (st st' : Daemon) (gone new : list StoredBundle) : Prop :=
  (map data_arc new = seq (next_arc st) (length new) ∧
   next_arc st' = (next_arc st + length new)%nat) ∨
  (∃ sb sb', gone = [sb] ∧ new = [sb'] ∧ data_arc sb' = data_arc sb ∧
     sb_primary sb' = sb_primary sb ∧ next_arc st' = next_arc st).

Record Shape (m : Message) (st st' : Daemon) (o : list Effect)
    (kept gone new : list StoredBundle) : Prop := {
  sh_before : bundles st ≡ₚ kept ++ gone;
  sh_after : bundles st' ≡ₚ kept ++ new;
  sh_announced : announced o = map get_ref new;
  sh_arcs : arcs_of st st' gone new;
  sh_states : Forall storable_state gone → Forall storable_state new;
  sh_waiting : ∀ r sb, message_ref m = Some r → sb ∈ kept → sb_primary sb = ref_primary r →
    ∃ nd, m = MUpdateBundle r DefragmentationPending nd;
}.

Section shape.
Context {HC : SerdeCbor}.

(** Bundles that are only added. *)
Definition added (st st' : Daemon) (o : list Effect) (new : list StoredBundle) : Prop :=
  bundles st' = bundles st ++ new ∧ announced o = map get_ref new ∧
  map data_arc new = seq (next_arc st) (length new) ∧
  next_arc st' = (next_arc st + length new)%nat ∧ Forall storable_state new.

Lemma added_nil st o : announced o = [] → added st st o [].
Proof. intros Ho. split_and!; [by rewrite app_nil_r|done|done|simpl; lia|constructor]. Qed.

Lemma added_trans st st1 st2 o1 o2 l1 l2 :
  added st st1 o1 l1 → added st1 st2 o2 l2 → added st st2 (o1 ++ o2) (l1 ++ l2).
Proof.
  intros (B1 & A1 & R1 & N1 & S1) (B2 & A2 & R2 & N2 & S2). split_and!.
  - by rewrite B2, B1, app_assoc.
  - by rewrite announced_app, A1, A2, map_app.
  - by rewrite map_app, R1, R2, length_app, seq_app, N1.
  - rewrite length_app. lia.
  - by apply Forall_app_2.
Qed.

Lemma store_bundle_added d min s p st a st' o :
  announceable s = true → store_bundle d min s p st = Ok (a, st', o) → ∃ sb, added st st' o [sb].
Proof.
  intros Hs H.
  assert (next_arc st' = S (next_arc st)) as Hn.
  { unfold store_bundle, new_arc, push, write_bundle_to_file in H. ainv. destruct p; by ainv. }
  destruct (store_bundle_Ok _ _ _ _ _ _ _ _ H) as (sb & Hsb & Hb & _ & ->).
  destruct (stored_of_bytes_Ok _ _ _ Hsb) as (_ & Ha & _).
  eexists. split_and!; [exact Hb|by destruct p|simpl; by rewrite Ha|simpl; lia|by repeat constructor].
Qed.

Lemma store_fragment_added m b st a st' o :
  store_fragment m b st = Ok (a, st', o) → ∃ sb, added st st' o [sb].
Proof. unfold store_fragment. intros H. ainv. by apply store_bundle_added in H. Qed.

Lemma store_fragments_added m bs st a st' o :
  for_each (store_fragment m) bs st = Ok (a, st', o) → ∃ new, added st st' o new.
Proof.
  revert st o. induction bs as [|b bs IH]; intros st o H; cbn [for_each] in H.
  { ainv. exists []. by apply added_nil. }
  apply actor_bind_Ok in H as ([] & st1 & o1 & o2 & H1 & H2 & ->).
  destruct (store_fragment_added _ _ _ _ _ _ H1) as [sb Hsb]. destruct (IH _ _ H2) as [new Hnew].
  exists ([sb] ++ new). by eapply added_trans.
Qed.

(** Bundles are taken out and others are added. *)
Lemma added_shape m st st1 st' o o' kept gone new :
  bundles st ≡ₚ kept ++ gone → bundles st1 ≡ₚ kept → next_arc st1 = next_arc st →
  added st1 st' o new → announced o' = [] →
  (∀ r sb, message_ref m = Some r → sb ∈ kept → sb_primary sb = ref_primary r →
    ∃ nd, m = MUpdateBundle r DefragmentationPending nd) →
  Shape m st st' (o ++ o') kept gone new.
Proof.
  intros Hb Hb1 Hn (B & A & R & N & S) Ho' Hw. split; try done.
  - by rewrite B, Hb1.
  - by rewrite announced_app, A, Ho', app_nil_r.
  - left. by rewrite <-Hn.
Qed.

Lemma deletions_silent l : announced (map (DeleteFile ∘ get_filename) l) = [].
Proof. by induction l. Qed.

(** The bundle taken out was the only one with that primary block. *)
Lemma taken_only st l1 sb l2 r :
  NoDup (map sb_primary (bundles st)) → bundles st = l1 ++ sb :: l2 → sb_primary sb = ref_primary r →
  ∀ sb', sb' ∈ l1 ++ l2 → sb_primary sb' ≠ ref_primary r.
Proof.
  intros Hn Hl Hp sb' Hin He. rewrite Hl, <-Permutation_middle in Hn. simpl in Hn.
  apply NoDup_cons in Hn as [Hn _]. destruct Hn. rewrite Hp, <-He. by apply list_elem_of_fmap_2.
Qed.

Lemma not_taken st r :
  Forall (λ sb, same_bundle r sb = false) (bundles st) →
  ∀ sb, sb ∈ bundles st → sb_primary sb ≠ ref_primary r.
Proof.
  rewrite Forall_forall. intros H sb Hin. specialize (H _ Hin). unfold same_bundle in H.
  by apply bool_decide_eq_false in H.
Qed.

(** A message about a bundle that is not there. *)
Lemma absent_shape m r st :
  message_ref m = Some r → Forall (λ sb, same_bundle r sb = false) (bundles st) →
  Shape m st st [] (bundles st) [] [].
Proof.
  intros Hm Hf. apply (added_shape m st st st [] [] _ [] []); try done.
  - by rewrite app_nil_r.
  - by apply added_nil.
  - intros r' sb Hr' Hin Hp. rewrite Hm in Hr'. simplify_eq. by destruct (not_taken _ _ Hf sb Hin).
Qed.

Lemma Permutation_taken {A} (l1 l2 : list A) x : l1 ++ x :: l2 ≡ₚ (l1 ++ l2) ++ [x].
Proof. solve_Permutation. Qed.

Lemma FragmentBundle_shape r n st a st' o :
  NoDup (map sb_primary (bundles st)) → FragmentBundle r n st = Ok (a, st', o) →
  ∃ kept gone new, Shape (MFragmentBundle r n) st st' o kept gone new.
Proof.
  intros Hnd H. unfold FragmentBundle in H.
  apply actor_bind_Ok in H as (ob & st1 & o1 & o2 & H1 & H & ->).
  destruct (take_bundle_Ok _ _ _ _ _ H1) as [-> Ht]. destruct ob as [sb|].
  2:{ destruct Ht as [-> Hf]. ainv. do 3 eexists. by eapply absent_shape. }
  destruct Ht as (l1 & l2 & Hl & _ & Hp & ->). cbn [app].
  assert (Hw : ∀ r' sb', message_ref (MFragmentBundle r n) = Some r' → sb' ∈ l1 ++ l2 →
    sb_primary sb' = ref_primary r' → ∃ nd, MFragmentBundle r n = MUpdateBundle r' DefragmentationPending nd).
  { intros r' sb' [= <-] Hin He. by destruct (taken_only _ _ _ _ _ Hnd Hl Hp sb' Hin). }
  apply actor_bind_Ok in H as (b & s & o1 & o3 & H2 & H & ->).
  apply lift_Ok in H2 as (_ & -> & ->). cbn [app] in *.
  destruct (fragment b n) as [[[frags m1] m2]|[e|min_size| |]|]; try done.
  - destruct frags as [|f frags]; [done|].
    apply actor_bind_Ok in H as ([] & st2 & o1 & o2 & H1' & H & ->).
    apply actor_bind_Ok in H as ([] & st3 & o3' & o4 & H2' & H & ->).
    destruct (store_fragment_added _ _ _ _ _ _ H1') as [sb1 A1].
    destruct (store_fragments_added _ _ _ _ _ _ H2') as [new A2].
    unfold delete_bundle_file in H. ainv. rewrite app_assoc.
    exists (l1 ++ l2), [sb], ([sb1] ++ new).
    eapply (added_shape _ _ (set_bundles (l1 ++ l2) st)); [|done|done|by eapply added_trans|done|done].
    rewrite Hl. apply Permutation_taken.
  - unfold push in H. ainv. exists (l1 ++ l2), [sb], [with_min_size (Some min_size) sb]. split; try done.
    + rewrite Hl. apply Permutation_taken.
    + right. by exists sb, (with_min_size (Some min_size) sb).
    + intros [Hs _]%Forall_cons. by repeat constructor.
Qed.

Lemma try_defragment_split r st a st' o :
  try_defragment_bundle r st = Ok (a, st', o) →
  ∃ kept gone new st1 o1 o2, bundles st ≡ₚ kept ++ gone ∧ bundles st1 ≡ₚ kept ∧
    next_arc st1 = next_arc st ∧ o = o1 ++ o2 ∧ announced o2 = [] ∧ added st1 st' o1 new.
Proof.
  unfold try_defragment_bundle. intros H. ainv.
  match goal with E : take_fragments _ _ = Ok ?p |- _ => destruct p as [fr rest] end. ainv.
  match goal with E : take_fragments _ _ = Ok _ |- _ => destruct (take_fragments_Ok _ _ _ _ E) as [Hp _] end.
  destruct (reassemble_bundles _) as [d|e|]; [|ainv|done].
  - apply actor_bind_Ok in H as ([] & st2 & o1 & o2 & H1 & H2 & ->).
    destruct (delete_files_Ok _ _ _ _ _ H2) as [-> ->].
    apply store_bundle_added in H1 as [sb Hsb]; [|done].
    eexists rest, fr, [sb], (set_bundles rest _), o1, _.
    split_and!; [|done|done|done|apply deletions_silent|exact Hsb].
    rewrite Hp. apply Permutation_app_comm.
  - eexists (rest ++ fr), [], [], (set_bundles (rest ++ fr) _), [], [].
    split_and!; [|done|done|done|done|by apply added_nil].
    rewrite Hp, app_nil_r. apply Permutation_app_comm.
Qed.

Lemma updated_arcs s nd sb st sb' st' o :
  updated s nd sb st = Ok (sb', st', o) →
  o = [] ∧ bundles st' = bundles st ∧ sb_state sb' = s ∧ sb_primary sb' = sb_primary sb ∧
  (data_arc sb' = next_arc st ∧ next_arc st' = S (next_arc st) ∨
   data_arc sb' = data_arc sb ∧ next_arc st' = next_arc st).
Proof.
  unfold updated, new_arc. intros H. destruct nd as [d|]; ainv; split_and!; auto.
Qed.

Lemma UpdateBundle_shape r s nd st a st' o :
  NoDup (map sb_primary (bundles st)) → UpdateBundle r s nd st = Ok (a, st', o) →
  ∃ kept gone new, Shape (MUpdateBundle r s nd) st st' o kept gone new.
Proof.
  intros Hnd H. unfold UpdateBundle in H.
  apply actor_bind_Ok in H as (ob & st1 & o1 & o2 & H1 & H & ->).
  destruct (take_bundle_Ok _ _ _ _ _ H1) as [-> Ht]. destruct ob as [sb|].
  2:{ destruct Ht as [-> Hf]. ainv. do 3 eexists. by eapply absent_shape. }
  destruct Ht as (l1 & l2 & Hl & _ & Hp & ->). cbn [app]. clear H1.
  assert (Hw : ∀ r' sb', message_ref (MUpdateBundle r s nd) = Some r' → sb' ∈ l1 ++ l2 →
    sb_primary sb' = ref_primary r' → ∃ nd', MUpdateBundle r s nd = MUpdateBundle r' DefragmentationPending nd').
  { intros r' sb' [= <-] Hin He. by destruct (taken_only _ _ _ _ _ Hnd Hl Hp sb' Hin). }
  assert (Hb : bundles st ≡ₚ (l1 ++ l2) ++ [sb]) by (rewrite Hl; apply Permutation_taken).
  apply actor_bind_Ok in H as ([] & st2 & o1 & o3 & Hwr & H & ->).
  assert (st2 = set_bundles (l1 ++ l2) st ∧ announced o1 = []) as [-> Ho1].
  { unfold write_bundle_to_file in Hwr. destruct (_ && _) in Hwr; by ainv. }
  clear Hwr.
  assert (Hdel : delete_bundle_file sb (set_bundles (l1 ++ l2) st) = Ok (a, st', o3) →
    ∃ kept gone new, Shape (MUpdateBundle r s nd) st st' (o1 ++ o3) kept gone new).
  { unfold delete_bundle_file. intros Hd. ainv. exists (l1 ++ l2), [sb], [].
    apply (added_shape _ _ (set_bundles (l1 ++ l2) st)); try done. by apply added_nil. }
  assert (Hqueued : announceable s = true →
    (sb ← updated s nd sb; push sb;; do_send (EventBundleUpdated (get_ref sb)))
      (set_bundles (l1 ++ l2) st) = Ok (a, st', o3) →
    ∃ kept gone new, Shape (MUpdateBundle r s nd) st st' (o1 ++ o3) kept gone new).
  { intros Hs Hup. apply actor_bind_Ok in Hup as (sb' & st3 & o4 & o5 & Hup & Hpu & ->).
    destruct (updated_arcs _ _ _ _ _ _ _ Hup) as (-> & Hb3 & Hs' & Hp' & Harc).
    unfold push in Hpu. ainv. exists (l1 ++ l2), [sb], [sb']. split; try done.
    - simpl. by rewrite Hb3.
    - by rewrite announced_app, Ho1.
    - destruct Harc as [[Ha Hn]|[Ha Hn]]; [left|right; by exists sb, sb'].
      simpl in *. rewrite Ha. split; [done|lia].
    - intros _. by repeat constructor. }
  destruct s; auto; [done|]. clear Hqueued Hdel Hw.
  apply actor_bind_Ok in H as ([] & st3 & o4 & o5 & Hpu & H & ->). unfold push in Hpu. ainv.
  destruct (try_defragment_split _ _ _ _ _ H) as (kept & gone & new & st1 & o2 & o4 & K1 & K2 & K3 & -> & K5 & K6).
  exists kept, gone, new. simpl in K1, K3. rewrite app_assoc.
  apply (added_shape _ _ (set_bundles (bundles st1) st1)); try done.
  - by rewrite Hb.
  - destruct K6 as (B & A & R & N & S). split_and!; try done. by rewrite announced_app, Ho1.
  - intros r' sb' [= <-] _ _. by exists nd.
Qed.

(** Every handler has the shape. *)
Lemma handle_shape m st st' o :
  NoDup (map sb_primary (bundles st)) → handle m st = Ok ((), st', o) →
  ∃ kept gone new, Shape m st st' o kept gone new.
Proof.
  intros Hnd H. destruct m as [d|d|r n|r s nd]; simpl in H.
  - apply store_bundle_added in H as [sb Hsb]; [|done]. exists (bundles st), [], [sb].
    rewrite <-(app_nil_r o). by eapply added_shape; [rewrite app_nil_r|..].
  - destruct (StoreNewBundle_Ok _ _ _ _ _ H) as (b&n&d'&sb&_&_&Hsb&Hb&_&->&_&_&_&Hn).
    destruct (stored_of_bytes_Ok _ _ _ Hsb) as (_ & Ha & Hs & _).
    exists (bundles st), [], [sb]. split; try done.
    + by rewrite app_nil_r.
    + by rewrite Hb.
    + left. simpl. rewrite Ha. split; [done|lia].
    + intros _. repeat constructor. unfold storable_state. by rewrite Hs.
  - by eapply FragmentBundle_shape.
  - by eapply UpdateBundle_shape.
Qed.
End shape.
