(* ===== verification/StorageOps.v ===== *)
(** * What the operations of the storage agent do

    Sequence numbers of bundles created on the node, reassembly of the stored
    fragments of a bundle, and fragmentation of a stored bundle: the state and
    the effects of the handlers of [Storage.v], for bundles without checksums
    (see [Bundle.v] for what happens to the others). *)
From S2P Require Import Prelude RustStr Actor Cbor CborRfc Flags CrcTime Endpoint PrimaryBlock.
From S2P Require Import Block Bundle Fragment FragmentSize Storage StorageSystem.
From Stdlib Require Import Sorting.Sorted.
Import Crc Time.

(** A bundle the other agents of the node create: its bytes are a well-formed
    bundle of this node with a payload, and it is not a fragment. *)
Definition new_bundle_of `{!SerdeCbor} (e : Endpoint) (d : bytes) (b : Bundle) : Prop :=
  bundle_of_bytes d = Ok b ∧ bundle_ok b ∧ bundle_no_crc b ∧
  is_Some (find_payload (blocks b)) ∧ fragment_offset (primary_block b) = None ∧
  Endpoint.matches_node (E := Empty_set) (source_node (primary_block b)) e = Ok true.

Definition stamp (sb : StoredBundle) : CreationTimestamp := creation_timestamp (sb_primary sb).

(** Creation timestamps, ordered by time and then by sequence number. *)
Definition stamp_lt (s s' : CreationTimestamp) : Prop :=
  timestamp (creation_time s) < timestamp (creation_time s') ∨
  creation_time s = creation_time s' ∧ sequence_number s < sequence_number s'.

#[export] Instance stamp_lt_trans : Transitive stamp_lt.
Proof.
  intros [[a] n] [[b] m] [[c] k]. unfold stamp_lt. simpl.
  intros [?|[? ?]] [?|[? ?]]; simplify_eq; lia || (right; split; [done|lia]).
Qed.

Lemma StronglySorted_stamp_NoDup l : StronglySorted stamp_lt l → NoDup l.
Proof.
  induction 1 as [|x l Hl IH Hx]; constructor; [|done]. intros Hin.
  rewrite Forall_forall in Hx. destruct (Hx _ Hin) as [?|[_ ?]]; lia.
Qed.

(** The last timestamp given out. *)
Definition last_stamp (st : Daemon) : option CreationTimestamp :=
  t ← last_created_dtn_time st;
  Some {| creation_time := t; sequence_number := last_sequence_number st |}.

Section new_bundles.
Context `{!SerdeCbor, !SerdeCborLaws}.

Lemma with_sequence_number_ok n b : bundle_ok b → u64_ok n → bundle_ok (with_sequence_number n b).
Proof.
  intros (Hp & Hbs & Hne) Hn. split_and!; [|done..].
  destruct b as [pb bl]. destruct pb. unfold Primary.ok, Time.ok in *. simpl in *. naive_solver.
Qed.

Lemma StoreNewBundle_returns e d b st :
  new_bundle_of e d b → endpoint st = Some e → 0 ≤ last_sequence_number st < 2 ^ 64 - 1 →
  (∀ s, last_stamp st = Some s →
     timestamp (creation_time s) ≤ timestamp (creation_time (creation_timestamp (primary_block b)))) →
  ∃ st' sb, StoreNewBundle d st = Ok ((), st', [EventBundleUpdated (get_ref sb)]) ∧
    (∃ n, bundle_of_bytes (bundle_data sb) = Ok (with_sequence_number n b)) ∧
    bundles st' = bundles st ++ [sb] ∧ endpoint st' = Some e ∧
    last_stamp st' = Some (stamp sb) ∧ creation_time (stamp sb)
      = creation_time (creation_timestamp (primary_block b)) ∧
    (∀ s, last_stamp st = Some s → stamp_lt s (stamp sb)) ∧
    0 ≤ last_sequence_number st' ≤ last_sequence_number st + 1.
Proof.
  intros (Hd & Hok & Hnc & Hpay & Hoff & Hloc) He Hseq Hmono.
  unfold StoreNewBundle. rewrite Hd. arun. rewrite He. arun. rewrite Hloc. arun. rewrite Hoff.
  cbn [is_none]. arun.
  set (t := creation_time (creation_timestamp (primary_block b))) in *.
  set (n := if bool_decide (Some t = last_created_dtn_time st)
            then last_sequence_number st + 1 else 0).
  assert (u64_ok n) as Hn by (unfold n, u64_ok; case_bool_decide; lia).
  assert (next_sequence_number t st = Ok (n, set_sequence (Some t) n st, [])) as Hnext.
  { unfold next_sequence_number, n. arun. case_bool_decide as Ht; arun; [|done].
    rewrite wrap64_small by (unfold u64_ok; lia). by rewrite <-Ht. }
  rewrite (bind_step _ _ _ _ _ _ Hnext). arun.
  destruct (bundle_write_read (with_sequence_number n b)) as (d' & Hd' & _ & Hread);
    [by apply with_sequence_number_ok|by destruct b|].
  rewrite Hd'. unfold new_arc, push. arun.
  destruct (stored_of_bytes_total (E := Empty_set) (next_arc st) d' _ Hread) as (sb & Hsb & Hpb);
    [by destruct b|].
  cbn [next_arc set_sequence]. rewrite Hsb. arun.
  eexists _, sb. split; [done|]. assert (stamp sb = {| creation_time := t; sequence_number := n |})
    as Hst by (unfold stamp; by rewrite Hpb). rewrite Hst.
  destruct (stored_of_bytes_Ok _ _ _ Hsb) as (Hdat & _).
  split_and!; try done; cbn.
  - exists n. by rewrite Hdat.
  - intros s Hs. specialize (Hmono s Hs). unfold last_stamp in Hs.
    destruct (last_created_dtn_time st) as [t0|]; simplify_eq/=. unfold stamp_lt. simpl.
    unfold n. case_bool_decide as Ht; [injection Ht as <-; right; split; [done|lia]|].
    left. destruct t0 as [t0], t as [t1]. simpl in *. assert (t0 ≠ t1) by congruence. lia.
  - unfold n. case_bool_decide; lia.
  - unfold n. case_bool_decide; lia.
Qed.
End new_bundles.

Definition created_at (b : Bundle) : Z :=
  timestamp (creation_time (creation_timestamp (primary_block b))).

(** [o] in front of [l], if there is one. *)
Definition option_cons {A} (o : option A) (l : list A) : list A :=
  match o with Some x => x :: l | None => l end.

(** Bundles created on the node get creation timestamps that identify them: as
    long as the clock does not go back, the timestamps the agent gives out are
    strictly increasing, from the last one given out on.  (Claim C21.) *)
Theorem new_bundles_strictly_increasing `{!SerdeCbor, !SerdeCborLaws} e ds bs st :
  Forall2 (new_bundle_of e) ds bs → endpoint st = Some e →
  0 ≤ last_sequence_number st → last_sequence_number st + zlen ds < 2 ^ 64 →
  StronglySorted Z.le (option_cons (timestamp <$> last_created_dtn_time st) (map created_at bs)) →
  ∃ st' o new, for_each StoreNewBundle ds st = Ok ((), st', o) ∧
    bundles st' = bundles st ++ new ∧ length new = length ds ∧
    StronglySorted stamp_lt (option_cons (last_stamp st) (map stamp new)).
Proof.
  intros Hds. revert st.
  induction Hds as [|d b ds bs Hd Hds IH]; intros st He Hpos Hmax Hsort.
  { exists st, [], []. rewrite app_nil_r. split_and!; try done.
    destruct (last_stamp st); repeat constructor. }
  cbn [length] in Hmax.
  destruct (StoreNewBundle_returns e d b st Hd He ltac:(lia)) as
    (st1 & sb & Hrun & _ & Hb1 & He1 & Hl1 & Ht1 & Hlt & Hs1).
  { intros s Hs. unfold last_stamp in Hs.
    destruct (last_created_dtn_time st) as [t|]; simplify_eq/=.
    apply StronglySorted_inv in Hsort as [_ Hsort]. apply Forall_cons in Hsort as [? _]. done. }
  assert (StronglySorted Z.le (map created_at (b :: bs))) as Hsort'.
  { destruct (last_created_dtn_time st); [by apply StronglySorted_inv in Hsort as []|done]. }
  destruct (IH st1) as (st' & o & new & Hrest & Hb' & Hlen & Hss); [done|lia|lia| |].
  { assert (last_created_dtn_time st1 = Some (creation_time (creation_timestamp (primary_block b))))
      as Hlast.
    { unfold last_stamp in Hl1. destruct (last_created_dtn_time st1) as [t|]; [|done].
      simpl in Hl1. injection Hl1 as Hl1. by rewrite <-Ht1, <-Hl1. }
    by rewrite Hlast. }
  exists st', ([EventBundleUpdated (get_ref sb)] ++ o), (sb :: new). split_and!.
  - simpl for_each. by rewrite (bind_step _ _ _ _ _ _ Hrun), Hrest.
  - rewrite Hb', Hb1, <-app_assoc. done.
  - simpl. by rewrite Hlen.
  - rewrite Hl1 in Hss. simpl in *. destruct (last_stamp st) as [s|] eqn:Es; [|done].
    constructor; [done|]. specialize (Hlt s eq_refl). apply StronglySorted_inv in Hss as [_ Hall].
    constructor; [done|]. eapply Forall_impl; [done|]. intros x Hx. by etrans.
Qed.

(** Two bundles created in the same millisecond. *)
Module NewBundleWitness.
Import StorageWitness.
Definition node : Endpoint := TestBundle.endpoint "//a/".
Definition ds : list bytes := [sent original; sent original].
Definition st : Daemon := {|
  bundles := []; endpoint := Some node; last_created_dtn_time := None;
  last_sequence_number := 0; next_arc := 0 |}.

Lemma original_new : new_bundle_of node (sent original) original.
Proof.
  split_and!; [vm_compute; reflexivity|solve_ok|split; [done|repeat constructor]|by eexists|done|].
  vm_compute. reflexivity.
Qed.
End NewBundleWitness.

Lemma new_bundles_strictly_increasing_witness :
  ∃ st' o new,
    for_each StoreNewBundle NewBundleWitness.ds NewBundleWitness.st = Ok ((), st', o) ∧
    bundles st' = bundles NewBundleWitness.st ++ new ∧ length new = length NewBundleWitness.ds ∧
    StronglySorted stamp_lt (option_cons (last_stamp NewBundleWitness.st) (map stamp new)).
Proof.
  apply (new_bundles_strictly_increasing NewBundleWitness.node NewBundleWitness.ds
           [StorageWitness.original; StorageWitness.original] NewBundleWitness.st).
  - repeat constructor; apply NewBundleWitness.original_new.
  - done.
  - done.
  - done.
  - repeat constructor; vm_compute; congruence.
Defined.

(** ** Reassembly *)

Lemma delete_files_run l (st : Daemon) :
  for_each delete_bundle_file l st = Ok ((), st, map (DeleteFile ∘ get_filename) l).
Proof.
  induction l as [|sb l IH]; [done|]. simpl for_each. by rewrite (bind_step _ _ _ _ _ _ eq_refl), IH.
Qed.

Lemma try_defragment_unfold `{!SerdeCbor} r st fr rest bs :
  take_fragments (E := Empty_set) (ref_primary r) (bundles st) = Ok (fr, rest) → fr ≠ [] →
  mapM (get_bundle (E := Empty_set)) fr = Ok bs →
  try_defragment_bundle r st =
    match reassemble_bundles bs with
    | Ok d => (store_bundle d None Valid true;; for_each delete_bundle_file fr) (set_bundles rest st)
    | Err _ => Ok ((), set_bundles (rest ++ fr) st, [])
    | Panic => Panic
    end.
Proof.
  intros Ht Hne Hbs. unfold try_defragment_bundle. arun. rewrite Ht. arun.
  rewrite bool_decide_eq_false_2 by done. cbn [negb]. arun. rewrite Hbs. arun.
  by destruct (reassemble_bundles bs).
Qed.

(** Reassembly in the store: when the stored fragments of a bundle cover its
    payload they are replaced by the whole bundle, valid and written to a file,
    and their files are deleted; otherwise nothing changes but their place in
    the list.  (Claim C22.) *)
Theorem defragmentation_spec `{!SerdeCbor, !SerdeCborLaws} r st fr rest bs pb d :
  take_fragments (E := Empty_set) (ref_primary r) (bundles st) = Ok (fr, rest) → fr ≠ [] →
  mapM (get_bundle (E := Empty_set)) fr = Ok bs →
  Primary.ok pb → crc pb = NoCRC → bytes_ok d → zlen d < 2 ^ 63 →
  Forall (fragment_of pb (zlen d)) bs → Forall (slice_of d) bs →
  Forall (λ b, Forall canonical_ok (blocks b) ∧ Forall (λ cb, block_crc cb = NoCRC) (blocks b)) bs →
  (complete (zlen d) (map range_of bs) →
     ∃ main sb, main ∈ bs ∧ bundle_of_bytes (bundle_data sb) = Ok (defragmented pb main d) ∧
       payload_bytes (defragmented pb main d) = d ∧ sb_state sb = Valid ∧
       sb_primary sb = primary_block (defragmented pb main d) ∧
       try_defragment_bundle r st = Ok ((), set_bundles (rest ++ [sb]) (bump_arc st),
         [WriteFile (get_filename sb) (bundle_data sb); EventBundleUpdated (get_ref sb)] ++
         map (DeleteFile ∘ get_filename) fr)) ∧
  (¬ complete (zlen d) (map range_of bs) →
     try_defragment_bundle r st = Ok ((), set_bundles (rest ++ fr) st, [])).
Proof.
  intros Ht Hne Hbs Hpb Hcrc Hd Hdl Hf Hs Hok.
  assert (bs ≠ []) as Hnb.
  { intros ->. destruct fr; [done|]. simpl in Hbs. obind.
    unfold mret, outcome_ret in Hbs. by simplify_eq. }
  rewrite (try_defragment_unfold _ _ _ _ _ Ht Hne Hbs). split; intros Hc.
  2:{ by rewrite (reassemble_incomplete pb d). }
  destruct (reassemble_slices pb d bs) as (main & bytes & Hmain & _ & Hb & ->); try done.
  { eapply Forall_impl; [exact Hok|]. by intros ? []. }
  rewrite Forall_forall in Hf, Hok. destruct (Hok _ Hmain) as [Hcan Hnc].
  pose proof (fragment_of_payload _ _ _ (Hf _ Hmain)) as Hpay.
  assert (bundle_ok (defragmented pb main d)) as Hdok.
  { apply defragmented_ok; try done. destruct Hpay as [? Hpay]. by destruct (blocks main). }
  destruct (bundle_write_read (defragmented pb main d) Hdok) as (bytes' & Hb' & _ & Hread).
  { split; [done|]. simpl. apply Forall_map. eapply Forall_impl; [done|]. intros cb Hcb.
    unfold set_payload. by destruct (block cb). }
  rewrite Hb in Hb'. injection Hb' as <-.
  destruct (stored_of_bytes_total (E := Empty_set) (next_arc st) bytes _ Hread) as (sb & Hsb & Hp).
  { simpl. destruct Hpay as [cb Hpay]. clear -Hpay.
    induction (blocks main) as [|[[] ???] bl IH]; simpl in *; naive_solver. }
  destruct (stored_of_bytes_Ok _ _ _ Hsb) as (Hdat&_).
  exists main, (with_state Valid (with_min_size None sb)). simpl bundle_data. rewrite Hdat.
  split_and!; try done; [by apply payload_bytes_defragmented|].
  rewrite (bind_step _ _ _ _ _ _ (store_bundle_returns bytes None Valid true (set_bundles rest st) sb Hsb)).
  by rewrite delete_files_run.
Qed.

(** The two fragments of a payload of 30 bytes, overlapping by 5. *)
Module DefragmentWitness.
Import StorageWitness.
Definition f1 : Bundle := fragment_at_offset 0 20.
Definition f2 : Bundle := fragment_at_offset 15 15.
Definition stored (arc : nat) (b : Bundle) : StoredBundle := {|
  bundle_data := sent b; data_arc := arc; sb_state := Valid; sb_size := zlen (sent b);
  sb_payload_size := zlen (payload_bytes b); sb_min_size := None; sb_primary := primary_block b |}.
Definition st : Daemon := {|
  bundles := [stored 0 f2; stored 1 original; stored 2 f1]; endpoint := None;
  last_created_dtn_time := None; last_sequence_number := 0; next_arc := 3 |}.
End DefragmentWitness.

Lemma defragmentation_spec_witness :
  ∃ main sb, main ∈ [DefragmentWitness.f2; DefragmentWitness.f1] ∧
    bundle_of_bytes (bundle_data sb)
      = Ok (defragmented StorageWitness.pb main StorageWitness.payload) ∧
    payload_bytes (defragmented StorageWitness.pb main StorageWitness.payload)
      = StorageWitness.payload ∧ sb_state sb = Valid ∧
    sb_primary sb = primary_block (defragmented StorageWitness.pb main StorageWitness.payload) ∧
    try_defragment_bundle (StorageWitness.ref DefragmentWitness.f1) DefragmentWitness.st
    = Ok ((), set_bundles ([DefragmentWitness.stored 1 StorageWitness.original] ++ [sb])
               (bump_arc DefragmentWitness.st),
      [WriteFile (get_filename sb) (bundle_data sb); EventBundleUpdated (get_ref sb)] ++
      map (DeleteFile ∘ get_filename)
        [DefragmentWitness.stored 0 DefragmentWitness.f2;
         DefragmentWitness.stored 2 DefragmentWitness.f1]).
Proof.
  apply (defragmentation_spec (StorageWitness.ref DefragmentWitness.f1) DefragmentWitness.st
    [DefragmentWitness.stored 0 DefragmentWitness.f2; DefragmentWitness.stored 2 DefragmentWitness.f1]
    [DefragmentWitness.stored 1 StorageWitness.original]
    [DefragmentWitness.f2; DefragmentWitness.f1] StorageWitness.pb StorageWitness.payload).
  - vm_compute. reflexivity.
  - done.
  - vm_compute. reflexivity.
  - solve_ok.
  - done.
  - solve_ok.
  - done.
  - repeat (apply Forall_cons_2; [split; [by eexists|by eexists|vm_compute; split_and!; congruence]|]). constructor.
  - unfold slice_of. repeat (apply Forall_cons_2; [split; vm_compute; congruence|]). constructor.
  - repeat (apply Forall_cons_2; [split; [solve_ok|repeat constructor]|]). constructor.
  - split; [repeat constructor; vm_compute; congruence|]. intros p Hp.
    change (zlen StorageWitness.payload) with 30 in Hp.
    destruct (Z_lt_le_dec p 15); [apply Exists_cons_tl, Exists_cons_hd|apply Exists_cons_hd];
      unfold Fragment.in_range; vm_compute range_of; simpl; lia.
Defined.

(** ** Fragmentation *)

(** [sb] is the fragment [f] in the store, within the size limit. *)
Definition stored_fragment `{!SerdeCbor} (max : Z) (f : Bundle) (sb : StoredBundle) : Prop :=
  bundle_of_bytes (bundle_data sb) = Ok f ∧ sb_primary sb = primary_block f ∧
  sb_state sb = Valid ∧ sb_size sb = zlen (bundle_data sb) ∧ sb_size sb ≤ max.

(** Every stored bundle is written to its file and announced. *)
Definition store_effects (sbs : list StoredBundle) : list Effect :=
  concat (map (λ sb, [WriteFile (get_filename sb) (bundle_data sb);
                      EventBundleUpdated (get_ref sb)]) sbs).

Section fragmentation.
Context `{!SerdeCbor}.

Definition storable (max : Z) (f : Bundle) : Prop :=
  is_Some (find_payload (blocks f)) ∧
  ∃ bytes, bytes_of_bundle f = Ok bytes ∧ zlen bytes ≤ max ∧ bundle_of_bytes bytes = Ok f.

Lemma store_fragment_run max m f st :
  storable max f →
  ∃ st' sb, store_fragment m f st = Ok ((), st', store_effects [sb]) ∧
    bundles st' = bundles st ++ [sb] ∧ stored_fragment max f sb.
Proof.
  intros (Hp & bytes & Hb & Hle & Hr). unfold store_fragment. rewrite Hb. arun.
  destruct (stored_of_bytes_total (E := Empty_set) (next_arc st) bytes f Hr Hp) as (sb & Hsb & Hpb).
  rewrite (store_bundle_returns _ _ _ _ _ _ Hsb).
  destruct (stored_of_bytes_Ok _ _ _ Hsb) as (Hd&_&_&Hs&_).
  eexists _, (with_state Valid (with_min_size (Some m) sb)).
  split_and!; [unfold store_effects; simpl; by rewrite Hd|done|].
  unfold stored_fragment. simpl. rewrite Hd. split_and!; try done. lia.
Qed.

Lemma store_fragments_run max m fs st :
  Forall (storable max) fs →
  ∃ st' sbs, for_each (store_fragment m) fs st = Ok ((), st', store_effects sbs) ∧
    bundles st' = bundles st ++ sbs ∧ Forall2 (stored_fragment max) fs sbs.
Proof.
  intros Hfs. revert st. induction Hfs as [|f fs Hf _ IH]; intros st.
  { exists st, []. rewrite app_nil_r. by split_and!. }
  destruct (store_fragment_run max m f st Hf) as (st1 & sb & H1 & Hb1 & Hsb).
  destruct (IH st1) as (st' & sbs & H2 & Hb2 & Hall). exists st', (sb :: sbs).
  split_and!; [|by rewrite Hb2, Hb1, <-app_assoc|by constructor].
  simpl for_each. rewrite (bind_step _ _ _ _ _ _ H1), H2. done.
Qed.

Lemma take_bundle_run r st l1 sb l2 :
  bundles st = l1 ++ sb :: l2 → Forall (λ x, sb_primary x ≠ ref_primary r) l1 →
  sb_primary sb = ref_primary r →
  take_bundle r st = Ok (Some sb, set_bundles (l1 ++ l2) st, []).
Proof.
  intros Hl H1 Hsb. unfold take_bundle. arun. rewrite Hl.
  assert (position (same_bundle r) (l1 ++ sb :: l2) = Some (length l1)) as Hpos.
  { clear Hl. induction H1 as [|x l1 Hx _ IH]; simpl; unfold same_bundle.
    - by rewrite bool_decide_eq_true_2.
    - rewrite bool_decide_eq_false_2 by done. fold (same_bundle r). by rewrite IH. }
  rewrite Hpos. rewrite (vec_remove_lookup _ _ sb) by (by apply list_lookup_middle). arun.
  unfold mret, actor_ret. do 3 f_equal.
  rewrite take_app_length, cons_middle, app_assoc, drop_app_len by (rewrite length_app; simpl; lia).
  done.
Qed.
End fragmentation.

(** Fragmentation in the store: the bundle is replaced by fragments that fit the
    limit and carry its payload; every one of them is valid, announced and
    written to its file before the file of the bundle is deleted. *)
Theorem fragment_bundle_spec `{!SerdeCbor, !SerdeCborLaws} r max st l1 sb l2 b bytes :
  bundles st = l1 ++ sb :: l2 → Forall (λ x, sb_primary x ≠ ref_primary r) l1 →
  sb_primary sb = ref_primary r → bundle_of_bytes (bundle_data sb) = Ok b → bundle_no_crc b →
  can_fragment b max → bytes_of_bundle b = Ok bytes → max < zlen bytes → payload_bytes b ≠ [] →
  contains (bundle_processing_flags (primary_block b)) BundleFlags.MUST_NOT_FRAGMENT = false →
  (contains (bundle_processing_flags (primary_block b)) BundleFlags.FRAGMENT = true →
     fragment_offset (primary_block b) ≠ None) →
  ∃ st' frags sbs,
    FragmentBundle r max st
      = Ok ((), st', store_effects sbs ++ [DeleteFile (get_filename sb)]) ∧
    bundles st' = l1 ++ l2 ++ sbs ∧ Forall2 (stored_fragment max) frags sbs ∧
    concat (map payload_bytes frags) = payload_bytes b.
Proof.
  intros Hl Hl1 Hsb Hb Hnc Hcf Hbytes Hlen Hne Hmnf Hfr.
  destruct (fragment_returns b max bytes Hcf Hbytes Hlen Hmnf Hfr)
    as (f & frags & Hfo & Hfok & Hch & Hx).
  assert (concat (map payload_bytes frags) = payload_bytes b) as Hcat.
  { rewrite (chain_concat f Hfok _ _ Hch), slice_full. by destruct Hfo. }
  assert (Forall (storable max) frags) as Hst.
  { apply (chain_Forall f _ _ _ Hch). intros o n bs _ _ _ Hbs Hle _. split.
    - eexists. apply find_payload_app; [|done]. destruct Hfok. by case_match.
    - exists bs. rewrite (fo_max _ _ _ Hfo) in Hle. split_and!; try done.
      destruct (bundle_write_read (fragment_at f o n)) as (bs' & Hbs' & _ & ?).
      + destruct Hcf. by eapply fragment_at_ok.
      + by eapply fragment_at_no_crc.
      + congruence. }
  destruct frags as [|f1 frags]; [by rewrite <-Hcat in Hne|]. apply Forall_cons in Hst as [H1 Hst].
  unfold FragmentBundle. rewrite (bind_step _ _ _ _ _ _ (take_bundle_run _ _ _ _ _ Hl Hl1 Hsb)). arun.
  unfold get_bundle. rewrite Hb. arun. rewrite Hx.
  destruct (store_fragment_run max (first_min_size b) f1 (set_bundles (l1 ++ l2) st) H1)
    as (st1 & sb1 & Hr1 & Hb1 & Hs1).
  destruct (store_fragments_run max (later_min_size b) frags st1 Hst) as (st2 & sbs & Hr2 & Hb2 & Hs2).
  exists st2, (f1 :: frags), (sb1 :: sbs). split_and!; [|simpl in Hb1; by rewrite Hb2, Hb1, <-!app_assoc
    |by constructor|done].
  rewrite (bind_step _ _ _ _ _ _ Hr1), (bind_step _ _ _ _ _ _ Hr2). by arun.
Qed.

Module FragmentBundleWitness.
Definition sb : StoredBundle := DefragmentWitness.stored 0 SizeWitness.b.
Definition st : Daemon := {|
  bundles := [sb]; endpoint := None; last_created_dtn_time := None;
  last_sequence_number := 0; next_arc := 1 |}.
Definition bytes : bytes := StorageWitness.sent SizeWitness.b.
End FragmentBundleWitness.

Lemma fragment_bundle_spec_witness :
  ∃ st' frags sbs,
    FragmentBundle (get_ref FragmentBundleWitness.sb) 256 FragmentBundleWitness.st
      = Ok ((), st', store_effects sbs ++ [DeleteFile (get_filename FragmentBundleWitness.sb)]) ∧
    bundles st' = [] ++ [] ++ sbs ∧ Forall2 (stored_fragment 256) frags sbs ∧
    concat (map payload_bytes frags) = payload_bytes SizeWitness.b.
Proof.
  apply (fragment_bundle_spec (get_ref FragmentBundleWitness.sb) 256 FragmentBundleWitness.st
           [] FragmentBundleWitness.sb [] SizeWitness.b FragmentBundleWitness.bytes).
  - done.
  - constructor.
  - done.
  - vm_compute. reflexivity.
  - split; [done|repeat constructor].
  - apply SizeWitness.b_can_fragment.
  - vm_compute. reflexivity.
  - vm_compute. reflexivity.
  - vm_compute. discriminate.
  - vm_compute. reflexivity.
  - vm_compute. discriminate.
Defined.
