(* ===== verification/ProtocolAgent.v ===== *)
(** * The bundle protocol agent (dtrd/src/bundleprotocolagent/agent.rs)

    The protocol agent decides what happens to a bundle: it is told about every
    change in the store, queues bundles for local delivery or forwarding, hands
    them to the connected clients and peers, and answers the store with the next
    state.  Its handlers see the rest of the process through an environment: the
    bytes a weak reference still gives, the clock, the answers of the mailboxes
    to [try_send] and the iteration order of a hash set. *)
From S2P Require Import Prelude RustStr Actor Cbor CborRfc Flags CrcTime Endpoint PrimaryBlock.
From S2P Require Import Block Bundle Fragment FragmentSize AdminRecord Storage StorageSystem.
Import Crc Time.

(** A [Recipient] is the number of the actor behind it. *)
Abbreviation Recipient := nat (only parsing).

Inductive SendResult := SendOk | SendFull | SendClosed.

#[export] Instance SendResult_eq_dec : EqDecision SendResult.
Proof. solve_decision. Defined.

Record NexthopInfo := { next_hop : Endpoint; max_size : option Z }.

#[export] Instance NexthopInfo_eq_dec : EqDecision NexthopInfo.
Proof. solve_decision. Defined.

(** [try_send dest i] is the answer to the [i]-th [try_send] of one call of a
    delivery loop for [dest]; [DtnTime::now] is called twice for a report. *)
Record Env := {
  upgrade_data : StoredBundleRef → option bytes;
  report_clock : Z;
  creation_clock : Z;
  try_send : Endpoint → nat → SendResult;
  hash_order : list Endpoint → list Endpoint;
}.

Module ProtocolAgent.

Definition HOP_LIMIT_DEFAULT : Z := 16.

Record Daemon := {
  endpoint : option Endpoint;
  bundles_pending_local_delivery : gmap Endpoint (list StoredBundleRef);
  bundles_pending_forwarding : gmap Endpoint (list StoredBundleRef);
  local_bundles : gmap Endpoint (list StoredBundleRef);
  remote_bundles : gmap Endpoint (list StoredBundleRef);
  local_connections : gmap Endpoint Recipient;
  remote_connections : gmap Endpoint Recipient;
  remote_routes : gmap Endpoint NexthopInfo;
}.

Inductive Output :=
| ToStorage (m : Message)
| ClientDeliverBundle (to : Recipient) (bundle : StoredBundleRef)
| AgentForwardBundle (to : Recipient) (bundle : StoredBundleRef).

Abbreviation handler := (actor Daemon Output).

(** Updates of one field. *)
Definition set_pending_local f (d : Daemon) : Daemon := {|
  endpoint := endpoint d; bundles_pending_local_delivery := f (bundles_pending_local_delivery d);
  bundles_pending_forwarding := bundles_pending_forwarding d; local_bundles := local_bundles d;
  remote_bundles := remote_bundles d; local_connections := local_connections d;
  remote_connections := remote_connections d; remote_routes := remote_routes d |}.
Definition set_pending_forwarding f (d : Daemon) : Daemon := {|
  endpoint := endpoint d; bundles_pending_local_delivery := bundles_pending_local_delivery d;
  bundles_pending_forwarding := f (bundles_pending_forwarding d); local_bundles := local_bundles d;
  remote_bundles := remote_bundles d; local_connections := local_connections d;
  remote_connections := remote_connections d; remote_routes := remote_routes d |}.
Definition set_local_bundles f (d : Daemon) : Daemon := {|
  endpoint := endpoint d; bundles_pending_local_delivery := bundles_pending_local_delivery d;
  bundles_pending_forwarding := bundles_pending_forwarding d; local_bundles := f (local_bundles d);
  remote_bundles := remote_bundles d; local_connections := local_connections d;
  remote_connections := remote_connections d; remote_routes := remote_routes d |}.
Definition set_remote_bundles f (d : Daemon) : Daemon := {|
  endpoint := endpoint d; bundles_pending_local_delivery := bundles_pending_local_delivery d;
  bundles_pending_forwarding := bundles_pending_forwarding d; local_bundles := local_bundles d;
  remote_bundles := f (remote_bundles d); local_connections := local_connections d;
  remote_connections := remote_connections d; remote_routes := remote_routes d |}.
Definition set_local_connections f (d : Daemon) : Daemon := {|
  endpoint := endpoint d; bundles_pending_local_delivery := bundles_pending_local_delivery d;
  bundles_pending_forwarding := bundles_pending_forwarding d; local_bundles := local_bundles d;
  remote_bundles := remote_bundles d; local_connections := f (local_connections d);
  remote_connections := remote_connections d; remote_routes := remote_routes d |}.
Definition set_remote_connections f (d : Daemon) : Daemon := {|
  endpoint := endpoint d; bundles_pending_local_delivery := bundles_pending_local_delivery d;
  bundles_pending_forwarding := bundles_pending_forwarding d; local_bundles := local_bundles d;
  remote_bundles := remote_bundles d; local_connections := local_connections d;
  remote_connections := f (remote_connections d); remote_routes := remote_routes d |}.
Definition set_remote_routes (r : gmap Endpoint NexthopInfo) (d : Daemon) : Daemon := {|
  endpoint := endpoint d; bundles_pending_local_delivery := bundles_pending_local_delivery d;
  bundles_pending_forwarding := bundles_pending_forwarding d; local_bundles := local_bundles d;
  remote_bundles := remote_bundles d; local_connections := local_connections d;
  remote_connections := remote_connections d; remote_routes := r |}.

(** [map.entry(k).or_default()] with [push_back] ([push]) and [push_front]. *)
Definition entry_push_back (k : Endpoint) (b : StoredBundleRef)
    (m : gmap Endpoint (list StoredBundleRef)) : gmap Endpoint (list StoredBundleRef) :=
  <[k := default [] (m !! k) ++ [b]]> m.
Definition entry_push_front (k : Endpoint) (b : StoredBundleRef)
    (m : gmap Endpoint (list StoredBundleRef)) : gmap Endpoint (list StoredBundleRef) :=
  <[k := b :: default [] (m !! k)]> m.

(** [if let Some(pending) = map.get_mut(k) { pending.retain(|e| e != bundle) }]. *)
Definition remove_pending (k : Endpoint) (b : StoredBundleRef)
    : gmap Endpoint (list StoredBundleRef) → gmap Endpoint (list StoredBundleRef) :=
  alter (List.filter (λ e, negb (ref_eq e b))) k.

(** *** Local delivery *)

(** [while let Some(bundle) = queue.pop_front()]: [queue] is what is left of the
    queue, [i] the number of bundles tried so far. *)
Fixpoint local_loop (env : Env) (destination : Endpoint) (sender : Recipient) (i : nat)
    (queue : list StoredBundleRef) : handler () :=
  match queue with
  | [] => modify (set_local_bundles (insert destination []))
  | bundle :: queue =>
      lift (assert (is_none (fragment_offset (ref_primary bundle))));;
      match try_send env destination i with
      | SendOk =>
          do_send (ClientDeliverBundle sender bundle);;
          modify (set_pending_local (entry_push_back destination bundle));;
          local_loop env destination sender (S i) queue
      | SendFull =>
          modify (set_local_bundles (insert destination (queue ++ [bundle])))
      | SendClosed =>
          modify (set_local_bundles (insert destination (queue ++ [bundle])));;
          modify (set_local_connections (delete destination))
      end
  end.

Definition deliver_local_bundles (env : Env) (destination : Endpoint) : handler () :=
  connections ← gets local_connections;
  match connections !! destination with
  | None => mret ()
  | Some sender =>
      queues ← gets local_bundles;
      match queues !! destination with
      | None => mret ()
      | Some queue => local_loop env destination sender 0 queue
      end
  end.

(** *** Forwarding *)

(** The smaller of the two limits, ignoring an absent one. *)
Definition smaller_max_size (route nexthop : option Z) : option Z :=
  match route with
  | Some ms => Some (match nexthop with Some s_ms => Z.min ms s_ms | None => ms end)
  | None => nexthop
  end.

(** The bundle is too large for the limit [mbs] and can not be fragmented. *)
Definition can_not_fit (bundle : StoredBundleRef) (mbs : Z) : bool :=
  contains (bundle_processing_flags (ref_primary bundle)) BundleFlags.MUST_NOT_FRAGMENT ||
  match ref_min_size bundle with Some m => mbs <? m | None => false end.

Definition too_large (max_bundle_size : option Z) (bundle : StoredBundleRef) : option Z :=
  match max_bundle_size with
  | Some mbs => if mbs <? ref_size bundle then Some mbs else None
  | None => None
  end.

(** [while let Some(bundle) = queue.pop_front()]; a loop out of [fuel] panics,
    so that a result says that the fuel was enough. *)
Fixpoint remote_loop (env : Env) (destination : Endpoint) (sender : Recipient)
    (max_bundle_size : option Z) (fuel : nat) (i : nat) (visited : list bytes)
    (queue : list StoredBundleRef) : handler () :=
  match fuel with
  | O => panic
  | S fuel =>
      let set_queue q := modify (set_remote_bundles (insert destination q)) in
      match queue with
      | [] => set_queue []
      | bundle :: queue =>
          if bool_decide (ref_id bundle ∈ visited) then set_queue (bundle :: queue)
          else
            match too_large max_bundle_size bundle with
            | Some mbs =>
                if can_not_fit bundle mbs then
                  remote_loop env destination sender max_bundle_size fuel i
                    (ref_id bundle :: visited) (queue ++ [bundle])
                else
                  do_send (ToStorage (MFragmentBundle bundle mbs));;
                  remote_loop env destination sender max_bundle_size fuel i visited queue
            | None =>
                match try_send env destination i with
                | SendOk =>
                    do_send (AgentForwardBundle sender bundle);;
                    modify (set_pending_forwarding (entry_push_back destination bundle));;
                    remote_loop env destination sender max_bundle_size fuel (S i) visited queue
                | SendFull => set_queue (queue ++ [bundle])
                | SendClosed =>
                    set_queue (queue ++ [bundle]);;
                    modify (set_remote_connections (delete destination))
                end
            end
      end
  end.

Definition deliver_remote_bundles (env : Env) (destination : Endpoint) : handler () :=
  destination ← lift (Endpoint.get_node_endpoint destination);
  routes ← gets remote_routes;
  match routes !! destination with
  | None => mret ()
  | Some route =>
      connections ← gets remote_connections;
      match connections !! next_hop route with
      | None => mret ()
      | Some sender =>
          match routes !! next_hop route with
          | None => mret ()
          | Some nexthopinfo =>
              if bool_decide (next_hop route = next_hop nexthopinfo) then
                queues ← gets remote_bundles;
                match queues !! destination with
                | None => mret ()
                | Some queue =>
                    remote_loop env destination sender
                      (smaller_max_size (max_size route) (max_size nexthopinfo))
                      (S (length queue)) 0 [] queue
                end
              else mret ()
          end
      end
  end.

Section reports.
Context `{!SerdeCbor}.

(** *** Status reports *)

Definition status_item (asserted : bool) (now : DtnTime) : BundleStatusItem :=
  {| is_asserted := asserted; status_timestamp := if asserted then Some now else None |}.

(** The administrative record and the bundle that carries it. *)
Definition status_report (bundle : StoredBundleRef) (reason : BundleStatusReason) (now : DtnTime)
    (is_received is_forwarded is_delivered is_deleted : bool) : AdministrativeRecord :=
  let pb := ref_primary bundle in
  ABundleStatusReport {|
    status_information := {|
      received_bundle := status_item is_received now;
      forwarded_bundle := status_item is_forwarded now;
      delivered_bundle := status_item is_delivered now;
      deleted_bundle := status_item is_deleted now |};
    reason := reason;
    bundle_source := source_node pb;
    bundle_creation_timestamp := creation_timestamp pb;
    report_fragment_offset := fragment_offset pb;
    fragment_length :=
      match fragment_offset pb with Some _ => Some (ref_payload_size bundle) | None => None end |}.

Definition report_bundle (me : Endpoint) (pb : PrimaryBlock) (now : DtnTime) (data : bytes)
    : Bundle :=
  {| primary_block := {|
       version := 7; bundle_processing_flags := BundleFlags.ADMINISTRATIVE_RECORD; crc := NoCRC;
       destination_endpoint := report_to pb; source_node := me; report_to := me;
       creation_timestamp := {| creation_time := now; sequence_number := 0 |};
       lifetime := lifetime pb; fragment_offset := None; total_data_length := None |};
     blocks := [{| block := Payload {| data := data |}; block_flags := BlockFlags.empty;
                   block_number := 1; block_crc := NoCRC |}] |}.

Definition send_status_report (env : Env) (bundle : StoredBundleRef) (reason : BundleStatusReason)
    (is_received is_forwarded is_delivered is_deleted : bool) : handler () :=
  t ← lift (Time.now (report_clock env));
  match bytes_of_record
          (status_report bundle reason t is_received is_forwarded is_delivered is_deleted) with
  | Ok data =>
      me ← gets endpoint;
      me ← lift (unwrap me);
      t ← lift (Time.now (creation_clock env));
      d ← lift (unwrap_ok (bytes_of_bundle (report_bundle me (ref_primary bundle) t data)));
      do_send (ToStorage (MStoreNewBundle d))
  | Err _ => mret ()
  | Panic => panic
  end.

(** The report is sent only if the bundle asks for it. *)
Definition send_requested_report (flag : Z) (env : Env) (bundle : StoredBundleRef)
    (reason : BundleStatusReason) (is_received is_forwarded is_delivered is_deleted : bool)
    : handler () :=
  if contains (bundle_processing_flags (ref_primary bundle)) flag
  then send_status_report env bundle reason is_received is_forwarded is_delivered is_deleted
  else mret ().

Definition send_status_report_delivered (env : Env) (bundle : StoredBundleRef) : handler () :=
  send_requested_report BundleFlags.BUNDLE_DELIVERY_STATUS_REQUESTED env bundle
    NoAdditionalInformation false false true false.
Definition send_status_report_forwarded (env : Env) (bundle : StoredBundleRef) : handler () :=
  send_requested_report BundleFlags.BUNDLE_FORWARDING_STATUS_REQUEST env bundle
    NoAdditionalInformation false true false false.
Definition send_status_report_received (env : Env) (bundle : StoredBundleRef) : handler () :=
  send_requested_report BundleFlags.BUNDLE_RECEIPTION_STATUS_REQUESTED env bundle
    NoAdditionalInformation true false false false.
Definition send_status_report_deleted (env : Env) (bundle : StoredBundleRef)
    (reason : BundleStatusReason) : handler () :=
  send_requested_report BundleFlags.BUNDLE_DELETION_STATUS_REQUESTED env bundle
    reason false false false true.

(** [forward_bundle]: the data of the bundle on its way out. *)
Definition forward_bundle (me : option Endpoint) (data : option bytes)
    : outcome BundleStatusReason bytes :=
  data ← unwrap data;
  bundle ← unwrap_ok (bundle_of_bytes data);
  me ← unwrap me;
  local ← Endpoint.matches_node me (source_node (primary_block bundle));
  let bundle := if (local : bool) then bundle else set_previous_node me bundle in
  let '(may_travel, bundle) := inc_hop_count HOP_LIMIT_DEFAULT bundle in
  if (may_travel : bool) then unwrap_ok (bytes_of_bundle bundle) else Err HopLimitExceeded.

(** *** Handlers *)

Definition update (r : StoredBundleRef) (s : State) (nd : option bytes) : handler () :=
  do_send (ToStorage (MUpdateBundle r s nd)).

(** The new state and data of a valid bundle. *)
Definition dispatch_valid (env : Env) (bundle : StoredBundleRef) : handler (State * option bytes) :=
  me ← gets endpoint;
  here ← (me ← lift (unwrap me);
          lift (Endpoint.matches_node me (destination_endpoint (ref_primary bundle))));
  if (here : bool) then
    mret (if is_some (fragment_offset (ref_primary bundle))
          then (DefragmentationPending, None) else (DeliveryQueued, None))
  else
    match forward_bundle me (upgrade_data env bundle) with
    | Ok new_data => mret (ForwardingQueued, Some new_data)
    | Err e => send_status_report_deleted env bundle e;; mret (Invalid, None)
    | Panic => panic
    end.

Definition EventBundleUpdated (env : Env) (bundle : StoredBundleRef) : handler () :=
  let destination := destination_endpoint (ref_primary bundle) in
  match ref_state bundle with
  | Received =>
      me ← gets endpoint;
      me ← lift (unwrap me);
      local ← lift (Endpoint.matches_node (source_node (ref_primary bundle)) me);
      (if (local : bool) then mret () else send_status_report_received env bundle : handler ());;
      update bundle Valid None
  | Valid =>
      '(new_state, new_data) ← dispatch_valid env bundle;
      update bundle new_state new_data
  | DeliveryQueued =>
      modify (set_local_bundles (entry_push_back destination bundle));;
      deliver_local_bundles env destination
  | ForwardingQueued =>
      node ← lift (Endpoint.get_node_endpoint destination);
      modify (set_remote_bundles (entry_push_back node bundle));;
      deliver_remote_bundles env destination
  | DefragmentationPending | Delivered | Forwarded | Invalid => mret ()
  end.

Definition EventBundleDelivered (env : Env) (e : Endpoint) (bundle : StoredBundleRef) : handler () :=
  modify (set_pending_local (remove_pending e bundle));;
  send_status_report_delivered env bundle;;
  update bundle Delivered None;;
  deliver_local_bundles env e.

Definition EventBundleDeliveryFailed (e : Endpoint) (bundle : StoredBundleRef) : handler () :=
  modify (set_pending_local (remove_pending e bundle));;
  modify (set_local_bundles (entry_push_front e bundle)).

Definition EventClientConnected (env : Env) (destination : Endpoint) (sender : Recipient)
    : handler () :=
  modify (set_local_connections (insert destination sender));;
  deliver_local_bundles env destination.

Definition EventClientDisconnected (destination : Endpoint) : handler () :=
  modify (set_local_connections (delete destination)).

Definition assert_node_endpoint (destination : Endpoint) : handler () :=
  n ← lift (Endpoint.get_node_endpoint destination);
  lift (assert (bool_decide (n = destination))).

Definition EventPeerConnected (env : Env) (destination : Endpoint) (sender : Recipient)
    : handler () :=
  assert_node_endpoint destination;;
  modify (set_remote_connections (insert destination sender));;
  deliver_remote_bundles env destination.

Definition EventPeerDisconnected (destination : Endpoint) : handler () :=
  assert_node_endpoint destination;;
  modify (set_remote_connections (delete destination)).

Definition EventBundleForwarded (env : Env) (e : Endpoint) (bundle : StoredBundleRef) : handler () :=
  e ← lift (Endpoint.get_node_endpoint e);
  modify (set_pending_forwarding (remove_pending e bundle));;
  send_status_report_forwarded env bundle;;
  update bundle Forwarded None;;
  deliver_remote_bundles env e.

Definition EventBundleForwardingFailed (e : Endpoint) (bundle : StoredBundleRef) : handler () :=
  e ← lift (Endpoint.get_node_endpoint e);
  modify (set_pending_forwarding (remove_pending e bundle));;
  modify (set_remote_bundles (entry_push_front e bundle)).

(** The targets that are new in the table, and the ones that were there before,
    each in the order its hash set is iterated. *)
Definition EventRoutingTableUpdate (env : Env) (routes : gmap Endpoint NexthopInfo) : handler () :=
  old ← gets remote_routes;
  modify (set_remote_routes routes);;
  for_each (deliver_remote_bundles env) (hash_order env (elements (dom routes ∖ dom old)));;
  for_each (deliver_remote_bundles env) (hash_order env (elements (dom routes ∩ dom old))).

Definition started (my_node_id : bytes) : handler () :=
  e ← lift (unwrap (Endpoint.new my_node_id));
  modify (λ d, {|
    endpoint := Some e; bundles_pending_local_delivery := bundles_pending_local_delivery d;
    bundles_pending_forwarding := bundles_pending_forwarding d; local_bundles := local_bundles d;
    remote_bundles := remote_bundles d; local_connections := local_connections d;
    remote_connections := remote_connections d; remote_routes := remote_routes d |}).
End reports.
End ProtocolAgent.
