(* ===== verification/ProtocolAgentProps.v ===== *)
(** * Properties of the bundle protocol agent

    Forwarding and local delivery neither lose nor duplicate a bundle and respect
    the size limits of the route; the data a bundle is forwarded with is the same
    bundle, one hop further; status reports arrive as they were meant and do not
    cause reports themselves. *)
From S2P Require Import Prelude RustStr Actor Cbor CborRfc Flags CrcTime Endpoint PrimaryBlock.
From S2P Require Import Block Bundle Fragment FragmentSize AdminRecord Storage StorageSystem.
From S2P Require Import StorageOps ProtocolAgent.
Import Crc Time ProtocolAgent.

(** The bundles handed to peers and clients, and the ones that are to be
    fragmented. *)
Definition forwarded (o : list Output) : list StoredBundleRef :=
  omap (λ x, match x with AgentForwardBundle _ b => Some b | _ => None end) o.
Definition delivered (o : list Output) : list StoredBundleRef :=
  omap (λ x, match x with ClientDeliverBundle _ b => Some b | _ => None end) o.
Definition fragmenting (o : list Output) : list StoredBundleRef :=
  omap (λ x, match x with ToStorage (MFragmentBundle b _) => Some b | _ => None end) o.

(** What may leave for the connection [sender] under the limit [mbs]. *)
Definition forwarding_ok (sender : Recipient) (mbs : option Z) (x : Output) : Prop :=
  match x with
  | AgentForwardBundle to b => to = sender ∧ too_large mbs b = None
  | ToStorage (MFragmentBundle b n) => too_large mbs b = Some n ∧ can_not_fit b n = false
  | _ => False
  end.

(** The bundle has to wait for a better route. *)
Definition waiting (mbs : option Z) (b : StoredBundleRef) : Prop :=
  ∃ n, too_large mbs b = Some n ∧ can_not_fit b n = true.

(** What a run of the forwarding loop leaves behind: the queue [q], the
    connections [cs] and the bundles that are on their way. *)
Record forwarding_result (destination : Endpoint) (st st' : Daemon) (o : list Output)
    (q : list StoredBundleRef) : Prop := {
  fr_queue : remote_bundles st' = <[destination := q]> (remote_bundles st);
  fr_pending : default [] (bundles_pending_forwarding st' !! destination)
    = default [] (bundles_pending_forwarding st !! destination) ++ forwarded o;
  fr_pending_other : ∀ e, e ≠ destination →
    bundles_pending_forwarding st' !! e = bundles_pending_forwarding st !! e;
  fr_connections : remote_connections st' = remote_connections st ∨
    remote_connections st' = delete destination (remote_connections st);
  fr_local : local_bundles st' = local_bundles st ∧
    bundles_pending_local_delivery st' = bundles_pending_local_delivery st ∧
    local_connections st' = local_connections st;
  fr_routes : remote_routes st' = remote_routes st ∧ endpoint st' = endpoint st;
}.

Lemma forwarding_result_forward destination sender b st st' o q :
  forwarding_result destination (set_pending_forwarding (entry_push_back destination b) st) st' o q →
  forwarding_result destination st st' (AgentForwardBundle sender b :: o) q.
Proof.
  intros []. unfold entry_push_back in *. split; try done.
  - rewrite fr_pending0. cbn. rewrite lookup_insert_eq. cbn. by rewrite <-app_assoc.
  - intros e He. rewrite fr_pending_other0 by done. cbn. by rewrite lookup_insert_ne.
Qed.

Lemma forwarding_result_fragment destination m st st' o q :
  forwarding_result destination st st' o q →
  forwarding_result destination st st' (ToStorage m :: o) q.
Proof. intros []. by split. Qed.

Lemma forwarding_result_stop destination q st :
  forwarding_result destination st (set_remote_bundles (insert destination q) st) [] q.
Proof. split; cbn; try done; [by rewrite app_nil_r|by left]. Qed.

(** The loop: [todo] has not been looked at, [kept] was put back. *)
Lemma remote_loop_spec env destination sender mbs fuel i visited todo kept st :
  (length todo < fuel)%nat → Forall (λ b, ref_id b ∈ visited) kept →
  ∃ st' o q,
    remote_loop env destination sender mbs fuel i visited (todo ++ kept) st = Ok ((), st', o) ∧
    todo ++ kept ≡ₚ q ++ forwarded o ++ fragmenting o ∧
    Forall (forwarding_ok sender mbs) o ∧ forwarding_result destination st st' o q.
Proof.
  revert i visited todo kept st.
  induction fuel as [|fuel IH]; intros i visited todo kept st Hfuel Hkept; [lia|].
  assert (Hstop : ∀ q, ∃ st' o q0,
    (modify (set_remote_bundles (insert destination q)) : actor Daemon Output ()) st
      = Ok ((), st', o) ∧
    q ≡ₚ q0 ++ forwarded o ++ fragmenting o ∧ Forall (forwarding_ok sender mbs) o ∧
    forwarding_result destination st st' o q0).
  { intros q. eexists _, _, q. split; [done|]. rewrite app_nil_r.
    split_and!; [done|constructor|apply forwarding_result_stop]. }
  destruct todo as [|b todo]; simpl.
  { destruct kept as [|b kept]; [apply Hstop|]. apply Forall_cons in Hkept as [Hb _].
    rewrite bool_decide_eq_true_2 by done. apply Hstop. }
  simpl in Hfuel. case_bool_decide; [apply Hstop|].
  destruct (too_large mbs b) as [n|] eqn:Etl; [destruct (can_not_fit b n) eqn:Ecf|].
  - destruct (IH i (ref_id b :: visited) todo (kept ++ [b]) st) as (st' & o & q & Hr & Hp & Ho & Hf).
    { lia. }
    { apply Forall_app_2; [eapply Forall_impl; [done|]; set_solver|]. repeat constructor. }
    exists st', o, q. rewrite <-app_assoc, Hr. split_and!; try done. rewrite <-Hp.
    solve_Permutation.
  - destruct (IH i visited todo kept st) as (st' & o & q & Hr & Hp & Ho & Hf); [lia|done|].
    exists st', (ToStorage (MFragmentBundle b n) :: o), q. arun. rewrite Hr.
    split_and!; [done| |by constructor|by apply forwarding_result_fragment].
    cbn. rewrite Hp. unfold fragmenting. cbn. solve_Permutation.
  - destruct (try_send env destination i); arun.
    + destruct (IH (S i) visited todo kept
        (set_pending_forwarding (entry_push_back destination b) st))
        as (st' & o & q & Hr & Hp & Ho & Hf); [lia|done|].
      exists st', (AgentForwardBundle sender b :: o), q. rewrite Hr.
      split_and!; [done| |by constructor|by apply forwarding_result_forward].
      cbn. rewrite Hp. unfold forwarded. cbn. solve_Permutation.
    + destruct (Hstop ((todo ++ kept) ++ [b])) as (st' & o & q & Hr & Hp & ?). exists st', o, q.
      split; [done|]. split; [|done]. rewrite <-Hp. solve_Permutation.
    + eexists _, [], ((todo ++ kept) ++ [b]). split; [done|]. rewrite app_nil_r.
      split_and!; [solve_Permutation|constructor|].
      split; cbn; try done; [by rewrite app_nil_r|by right].
Qed.

(** The link a bundle for [node] is sent over: the connection to the next hop of
    the route, if that is a direct neighbour, and the size limit. *)
Definition link_of (st : Daemon) (node : Endpoint) : option (Recipient * option Z) :=
  route ← remote_routes st !! node;
  sender ← remote_connections st !! next_hop route;
  info ← remote_routes st !! next_hop route;
  if bool_decide (next_hop route = next_hop info)
  then Some (sender, smaller_max_size (max_size route) (max_size info)) else None.

Definition queue_of (m : gmap Endpoint (list StoredBundleRef)) (e : Endpoint)
    : list StoredBundleRef := default [] (m !! e).

Lemma deliver_remote_unfold env destination node st :
  Endpoint.get_node_endpoint (E := Empty_set) destination = Ok node →
  deliver_remote_bundles env destination st =
    match link_of st node, remote_bundles st !! node with
    | Some (sender, mbs), Some q => remote_loop env node sender mbs (S (length q)) 0 [] q st
    | _, _ => Ok ((), st, [])
    end.
Proof.
  intros Hn. unfold deliver_remote_bundles, link_of. rewrite Hn. arun.
  destruct (remote_routes st !! node) as [route|]; [|done]. arun. cbn.
  destruct (remote_connections st !! next_hop route) as [sender|]; [|done]. cbn.
  destruct (remote_routes st !! next_hop route) as [info|]; [|done]. cbn.
  case_bool_decide; [|done]. arun. by destruct (remote_bundles st !! node).
Qed.

(** The bundles for [node] before and after: each is still queued, handed to the
    next hop and remembered as pending, or to be fragmented. *)
Definition forwards (node : Endpoint) (st st' : Daemon) (o : list Output) : Prop :=
  queue_of (remote_bundles st) node
    ≡ₚ queue_of (remote_bundles st') node ++ forwarded o ++ fragmenting o ∧
  queue_of (bundles_pending_forwarding st') node
    = queue_of (bundles_pending_forwarding st) node ++ forwarded o ∧
  (∀ e, e ≠ node → remote_bundles st' !! e = remote_bundles st !! e ∧
     bundles_pending_forwarding st' !! e = bundles_pending_forwarding st !! e) ∧
  (o ≠ [] → ∃ sender mbs, link_of st node = Some (sender, mbs) ∧
     Forall (forwarding_ok sender mbs) o).

(** Forwarding terminates and conserves bundles: every bundle of the queue for a
    node is afterwards in the queue, handed to the next hop (and remembered as
    pending) or given to the store for fragmentation, exactly once; what is
    handed over goes to the next hop of the route and fits both size limits,
    what is fragmented is too large for them.  (Claim C10.) *)
Theorem forwarding_conserves_bundles env destination node st :
  Endpoint.get_node_endpoint (E := Empty_set) destination = Ok node →
  ∃ st' o, deliver_remote_bundles env destination st = Ok ((), st', o) ∧ forwards node st st' o.
Proof.
  intros Hn. rewrite (deliver_remote_unfold _ _ _ _ Hn).
  assert (forwards node st st []) as Hnone.
  { unfold forwards. rewrite !app_nil_r. by split_and!. }
  destruct (link_of st node) as [[sender mbs]|] eqn:El; [|by eauto].
  destruct (remote_bundles st !! node) as [q|] eqn:Eq; [|by eauto]. clear Hnone.
  destruct (remote_loop_spec env node sender mbs (S (length q)) 0 [] q [] st)
    as (st' & o & q' & Hr & Hp & Ho & []); [lia|constructor|].
  rewrite app_nil_r in Hr, Hp. exists st', o. unfold forwards, queue_of. split_and!; try done.
  - rewrite fr_queue0, lookup_insert_eq. cbn. by rewrite Eq.
  - intros e He. rewrite fr_queue0, lookup_insert_ne by done. auto.
  - eauto.
Qed.

(** A route over a neighbour with an empty mailbox of one place. *)
Module ForwardingWitness.
Import StorageWitness.
Definition node_c : Endpoint := TestBundle.endpoint "//c".
Definition node_n : Endpoint := TestBundle.endpoint "//n".
Definition env : Env := {|
  upgrade_data := λ _, None; report_clock := 0; creation_clock := 0;
  try_send := λ _ i, match i with O => SendOk | _ => SendFull end;
  hash_order := λ l, l |}.
Definition st : Daemon := {|
  endpoint := Endpoint.new node_id;
  bundles_pending_local_delivery := ∅; bundles_pending_forwarding := ∅; local_bundles := ∅;
  remote_bundles := {[ node_c := [ref original; ref (fragment_at_offset 0 27)] ]};
  local_connections := ∅; remote_connections := {[ node_n := 7%nat ]};
  remote_routes := <[node_c := {| next_hop := node_n; max_size := None |}]>
    {[ node_n := {| next_hop := node_n; max_size := Some 1000 |} ]} |}.
End ForwardingWitness.

Lemma forwarding_conserves_bundles_witness :
  ∃ st' o, deliver_remote_bundles ForwardingWitness.env (destination_endpoint StorageWitness.pb)
             ForwardingWitness.st = Ok ((), st', o) ∧
    forwards ForwardingWitness.node_c ForwardingWitness.st st' o.
Proof. apply forwarding_conserves_bundles. vm_compute. reflexivity. Defined.

(** With a mailbox that takes everything, only bundles that have to wait are
    left: [kept] was put back because it does not fit. *)
Lemma remote_loop_accepting env destination sender mbs fuel i visited todo kept st :
  (length todo < fuel)%nat → (∀ i, try_send env destination i = SendOk) →
  NoDup (map ref_id todo) → (∀ b, b ∈ todo → ref_id b ∉ visited) →
  Forall (λ b, ref_id b ∈ visited ∧ waiting mbs b) kept →
  ∃ st' o q,
    remote_loop env destination sender mbs fuel i visited (todo ++ kept) st = Ok ((), st', o) ∧
    remote_bundles st' = <[destination := q]> (remote_bundles st) ∧ Forall (waiting mbs) q.
Proof.
  intros Hfuel Hacc. revert i visited todo kept st Hfuel.
  induction fuel as [|fuel IH]; intros i visited todo kept st Hfuel Hnd Hnew Hkept; [lia|].
  destruct todo as [|b todo]; cbn [app remote_loop].
  { exists (set_remote_bundles (insert destination kept) st), [], kept.
    split_and!; [|done|eapply Forall_impl; [done|]; by intros ? []].
    destruct kept as [|b kept]; [done|]. apply Forall_cons in Hkept as [[Hb _] _].
    by rewrite bool_decide_eq_true_2. }
  simpl in Hfuel, Hnd. apply NoDup_cons in Hnd as [Hb Hnd].
  rewrite bool_decide_eq_false_2 by (apply Hnew; left).
  assert (∀ b', b' ∈ todo → ref_id b' ∉ visited) as Hnew' by (intros; apply Hnew; by right).
  destruct (too_large mbs b) as [n|] eqn:Etl; [destruct (can_not_fit b n) eqn:Ecf|].
  - rewrite <-app_assoc. apply IH; [lia|done| |].
    + intros b' Hin [Heq|?]%elem_of_cons; [|by eapply Hnew'].
      destruct Hb. rewrite <-Heq. by apply list_elem_of_fmap_2.
    + apply Forall_app_2; [eapply Forall_impl; [done|]; set_solver|].
      constructor; [|constructor]. split; [left|by exists n].
  - arun. destruct (IH i visited todo kept st) as (st' & o & q & Hr & Hq & Hw); [lia|done..|].
    rewrite Hr. eexists st', _, q. by split_and!.
  - rewrite Hacc. arun. destruct (IH (S i) visited todo kept
      (set_pending_forwarding (entry_push_back destination b) st))
      as (st' & o & q & Hr & Hq & Hw); [lia|done..|].
    rewrite Hr. eexists st', _, q. by split_and!.
Qed.

(** Nothing that can be forwarded stays behind: with a usable route and a next
    hop that takes every bundle, only bundles are left in the queue that are
    larger than the limit and can not be fragmented to fit it. *)
Theorem accepting_peer_gets_everything env destination node st sender mbs :
  Endpoint.get_node_endpoint (E := Empty_set) destination = Ok node →
  link_of st node = Some (sender, mbs) → (∀ i, try_send env node i = SendOk) →
  NoDup (map ref_id (queue_of (remote_bundles st) node)) →
  ∃ st' o, deliver_remote_bundles env destination st = Ok ((), st', o) ∧
    Forall (waiting mbs) (queue_of (remote_bundles st') node).
Proof.
  intros Hn Hl Hacc Hnd. rewrite (deliver_remote_unfold _ _ _ _ Hn), Hl. unfold queue_of in *.
  destruct (remote_bundles st !! node) as [q|] eqn:Eq.
  2:{ exists st, []. split; [done|]. rewrite Eq. constructor. }
  destruct (remote_loop_accepting env node sender mbs (S (length q)) 0 [] q [] st)
    as (st' & o & q' & Hr & Hq & Hw); [lia|done|done|set_solver|constructor|].
  rewrite app_nil_r in Hr. exists st', o. split; [done|]. by rewrite Hq, lookup_insert_eq.
Qed.

Lemma accepting_peer_gets_everything_witness :
  ∃ st' o, deliver_remote_bundles
      {| upgrade_data := λ _, None; report_clock := 0; creation_clock := 0;
         try_send := λ _ _, SendOk; hash_order := λ l, l |}
      (destination_endpoint StorageWitness.pb) ForwardingWitness.st = Ok ((), st', o) ∧
    Forall (waiting (Some 1000)) (queue_of (remote_bundles st') ForwardingWitness.node_c).
Proof.
  eapply (accepting_peer_gets_everything _ _ ForwardingWitness.node_c _ 7%nat).
  - vm_compute. reflexivity.
  - vm_compute. reflexivity.
  - done.
  - apply (bool_decide_eq_true_1 _). vm_compute. reflexivity.
Defined.

(** ** Local delivery *)

(** A bundle the client does not take is put to the end of its queue. *)
Definition rotate {A} (l : list A) : list A :=
  match l with [] => [] | b :: l => l ++ [b] end.

(** The mailbox of the client takes exactly [n] bundles. *)
Definition takes (env : Env) (destination : Endpoint) (i n len : nat) : Prop :=
  (n ≤ len)%nat ∧ (∀ j, (j < n)%nat → try_send env destination (i + j) = SendOk) ∧
  ((n < len)%nat → try_send env destination (i + n) ≠ SendOk).

Lemma local_loop_spec env destination sender i queue st :
  Forall (λ b, fragment_offset (ref_primary b) = None) queue →
  ∃ st' n, takes env destination i n (length queue) ∧
    local_loop env destination sender i queue st
      = Ok ((), st', map (ClientDeliverBundle sender) (take n queue)) ∧
    local_bundles st' = <[destination := rotate (drop n queue)]> (local_bundles st) ∧
    queue_of (bundles_pending_local_delivery st') destination
      = queue_of (bundles_pending_local_delivery st) destination ++ take n queue ∧
    local_connections st' =
      (if decide (n < length queue ∧ try_send env destination (i + n) = SendClosed)%nat
       then delete destination (local_connections st) else local_connections st).
Proof.
  intros Hq. revert i st. induction Hq as [|b queue Hb _ IH]; intros i st.
  { eexists _, 0%nat. split; [split_and!; [lia|lia|simpl; lia]|]. split; [done|].
    split_and!; [done|by rewrite app_nil_r|]. rewrite decide_False by (simpl; lia). done. }
  cbn [local_loop]. rewrite Hb. cbn [is_none]. arun.
  destruct (try_send env destination i) eqn:Es; arun.
  - destruct (IH (S i) (set_pending_local (entry_push_back destination b) st))
      as (st' & n & (Hn1 & Hn2 & Hn3) & Hr & Hl & Hp & Hc).
    exists st', (S n). rewrite Hr. split_and!.
    + split_and!; [simpl; lia| |].
      * intros [|j] Hj; [by rewrite Nat.add_0_r|]. rewrite Nat.add_succ_r. apply Hn2. lia.
      * intros Hn. rewrite Nat.add_succ_r. apply Hn3. simpl in Hn. lia.
    + done.
    + done.
    + rewrite Hp. unfold entry_push_back, queue_of. cbn. rewrite lookup_insert_eq. cbn.
      by rewrite <-app_assoc.
    + rewrite Hc. rewrite Nat.add_succ_r. cbn. repeat case_decide; simpl in *; naive_solver lia.
  - eexists _, 0%nat. split; [split_and!; [lia|intros; lia|by rewrite Nat.add_0_r, Es]|].
    rewrite Nat.add_0_r. split_and!; try done; [by rewrite app_nil_r|].
    rewrite decide_False; [done|]. rewrite Es. naive_solver.
  - eexists _, 0%nat. split; [split_and!; [lia|intros; lia|by rewrite Nat.add_0_r, Es]|].
    rewrite Nat.add_0_r. split_and!; try done; [by rewrite app_nil_r|].
    rewrite decide_True; [done|]. split; [simpl; lia|done].
Qed.

(** Local delivery keeps the order: a connected client gets a prefix of its
    queue, as long as its mailbox takes bundles; these are remembered as pending,
    the others stay queued, the one that was refused at the end; a client whose
    mailbox is closed is forgotten.  (Claim C30.) *)
Theorem local_delivery_in_order env destination sender queue st :
  local_connections st !! destination = Some sender →
  local_bundles st !! destination = Some queue →
  Forall (λ b, fragment_offset (ref_primary b) = None) queue →
  ∃ st' n, takes env destination 0 n (length queue) ∧
    deliver_local_bundles env destination st
      = Ok ((), st', map (ClientDeliverBundle sender) (take n queue)) ∧
    local_bundles st' = <[destination := rotate (drop n queue)]> (local_bundles st) ∧
    queue_of (bundles_pending_local_delivery st') destination
      = queue_of (bundles_pending_local_delivery st) destination ++ take n queue ∧
    local_connections st' =
      (if decide (n < length queue ∧ try_send env destination n = SendClosed)%nat
       then delete destination (local_connections st) else local_connections st).
Proof.
  intros Hc Hl Hq. unfold deliver_local_bundles. arun. rewrite Hc. arun. rewrite Hl.
  apply (local_loop_spec env destination sender 0 queue st Hq).
Qed.

Module DeliveryWitness.
Import StorageWitness ForwardingWitness.
Definition app : Endpoint := TestBundle.endpoint "//b/app".
Definition queue : list StoredBundleRef := [ref original; ref forwarded].
Definition st : Daemon := {|
  endpoint := Endpoint.new node_id;
  bundles_pending_local_delivery := ∅; bundles_pending_forwarding := ∅;
  local_bundles := {[ app := queue ]}; remote_bundles := ∅;
  local_connections := {[ app := 3%nat ]}; remote_connections := ∅; remote_routes := ∅ |}.
End DeliveryWitness.

Lemma local_delivery_in_order_witness :
  ∃ st' n, takes ForwardingWitness.env DeliveryWitness.app 0 n (length DeliveryWitness.queue) ∧
    deliver_local_bundles ForwardingWitness.env DeliveryWitness.app DeliveryWitness.st
      = Ok ((), st', map (ClientDeliverBundle 3) (take n DeliveryWitness.queue)) ∧
    local_bundles st' = <[DeliveryWitness.app := rotate (drop n DeliveryWitness.queue)]>
      (local_bundles DeliveryWitness.st) ∧
    queue_of (bundles_pending_local_delivery st') DeliveryWitness.app
      = queue_of (bundles_pending_local_delivery DeliveryWitness.st) DeliveryWitness.app
        ++ take n DeliveryWitness.queue ∧
    local_connections st' =
      (if decide (n < length DeliveryWitness.queue ∧
                  try_send ForwardingWitness.env DeliveryWitness.app n = SendClosed)%nat
       then delete DeliveryWitness.app (local_connections DeliveryWitness.st)
       else local_connections DeliveryWitness.st).
Proof.
  apply local_delivery_in_order; [vm_compute; reflexivity..|]. repeat constructor.
Defined.

(** ** Bundles on their way *)

(** The hop count of the bundle is used up. *)
Definition hops_exceeded (b : Bundle) : Prop :=
  ∃ v, hop_count_of (blocks b) = Some v ∧ limit v < wrap8 (count v + 1).

(** The hop count block of the forwarded bundle: raised by one, or a new one
    with the default limit. *)
Definition next_hop_count (b : Bundle) : HopCountBlock :=
  match hop_count_of (blocks b) with
  | Some v => {| limit := limit v; count := wrap8 (count v + 1) |}
  | None => {| limit := HOP_LIMIT_DEFAULT; count := 0 |}
  end.

Lemma inc_hop_count_next b :
  let '(go, b') := inc_hop_count HOP_LIMIT_DEFAULT b in
  (go = false ↔ hops_exceeded b) ∧ hop_count_of (blocks b') = Some (next_hop_count b).
Proof.
  unfold inc_hop_count, hops_exceeded, next_hop_count.
  destruct (update_hop_count (blocks b)) as [[r bs]|] eqn:E.
  - destruct (update_hop_count_Some _ _ _ E) as ((v & -> & Hv & ->) & _). split; [|done].
    rewrite Z.leb_gt. naive_solver.
  - apply update_hop_count_None in E. rewrite E. split; [naive_solver|].
    by eapply hop_count_of_snoc.
Qed.

(** [b'] is [b], one hop further, coming from [me] unless it was created here. *)
Record one_hop_further (me : Endpoint) (local : bool) (b b' : Bundle) : Prop := {
  ohf_primary : primary_block b' = primary_block b;
  ohf_payload : find_payload (blocks b') = find_payload (blocks b);
  ohf_hops : hop_count_of (blocks b') = Some (next_hop_count b);
  ohf_previous : previous_node_of (blocks b')
    = if local then previous_node_of (blocks b) else Some me;
}.

Lemma hops_exceeded_dec b : {hops_exceeded b} + {¬ hops_exceeded b}.
Proof.
  unfold hops_exceeded. destruct (hop_count_of (blocks b)) as [v|].
  - destruct (Z_lt_le_dec (limit v) (wrap8 (count v + 1))); [left; eauto|right].
    intros (v' & ? & ?). simplify_eq. lia.
  - right. by intros (v & ? & _).
Qed.

Lemma forward_bundle_run `{!SerdeCbor, !SerdeCborLaws} me d b local :
  bundle_of_bytes d = Ok b → bundle_ok b → bundle_no_crc b → Endpoint.ok me →
  Endpoint.matches_node (E := BundleStatusReason) me (source_node (primary_block b)) = Ok local →
  (hops_exceeded b → forward_bundle (Some me) (Some d) = Err HopLimitExceeded) ∧
  (¬ hops_exceeded b → ∃ d' b', forward_bundle (Some me) (Some d) = Ok d' ∧
     bundle_of_bytes d' = Ok b' ∧ one_hop_further me local b b').
Proof.
  intros Hd Hok Hnc Hme Hl. unfold forward_bundle. ored. rewrite Hd. ored. rewrite Hl. ored.
  set (b1 := if local then b else set_previous_node me b).
  assert (bundle_ok b1 ∧ same_content b b1 ∧ hop_count_of (blocks b1) = hop_count_of (blocks b) ∧
    previous_node_of (blocks b1) = if local then previous_node_of (blocks b) else Some me)
    as (Hok1 & [Hp1 Hf1 Hc1] & Hh1 & Hn1).
  { unfold b1. destruct local; [by split_and!|].
    destruct (set_previous_node_same me b) as (?&?&?&?). split_and!; auto. }
  destruct (inc_hop_count_same HOP_LIMIT_DEFAULT b1) as ([Hp2 Hf2 Hc2] & Hok2 & Hn2).
  pose proof (inc_hop_count_next b1) as Hnext.
  destruct (inc_hop_count HOP_LIMIT_DEFAULT b1) as [go b2]. destruct Hnext as [Hgo Hh2].
  unfold hops_exceeded, next_hop_count in *. rewrite Hh1 in Hgo, Hh2. simpl in *.
  split; intros Hex; [by rewrite (proj2 Hgo Hex)|].
  destruct go; [|by destruct Hex; apply Hgo].
  destruct (bundle_write_read b2) as (d' & -> & _ & Hr); [by apply Hok2|auto|].
  exists d', b2. split_and!; try done. split; [congruence..| |congruence].
  by unfold next_hop_count.
Qed.

(** What was forwarded: the result of [forward_bundle] tells that the source could be
    compared with the node. *)
Lemma forward_bundle_Ok `{!SerdeCbor, !SerdeCborLaws} me d b d' :
  bundle_of_bytes d = Ok b → bundle_ok b → bundle_no_crc b → Endpoint.ok me →
  forward_bundle (Some me) (Some d) = Ok d' →
  ∃ b' local, bundle_of_bytes d' = Ok b' ∧ one_hop_further me local b b'.
Proof.
  intros Hd Hok Hnc Hme Hf.
  assert (∃ local, Endpoint.matches_node (E := BundleStatusReason) me (source_node (primary_block b)) = Ok local)
    as [local Hl].
  { unfold forward_bundle in Hf. apply bind_Ok in Hf as (x & [= <-] & Hf).
    apply bind_Ok in Hf as (b0 & Hb0 & Hf). apply bind_Ok in Hf as (y & [= <-] & Hf).
    apply bind_Ok in Hf as (local & Hl & _). rewrite Hd in Hb0. injection Hb0 as <-. by exists local. }
  destruct (forward_bundle_run me d b local Hd Hok Hnc Hme Hl) as [Hbad Hgood].
  destruct (hops_exceeded_dec b) as [Hx|Hx]; [by rewrite (Hbad Hx) in Hf|].
  destruct (Hgood Hx) as (d1 & b' & Hf' & ? & ?). rewrite Hf in Hf'. simplify_eq. by exists b', local.
Qed.

(** What is forwarded: a bundle whose hops are used up is refused; any other one
    is sent with the same primary block and payload, its hop count raised by one
    and this node as the previous one, and reading the new data gives exactly
    that. *)
Theorem forward_bundle_spec `{!SerdeCbor, !SerdeCborLaws} me d b local :
  bundle_of_bytes d = Ok b → bundle_ok b → bundle_no_crc b → Endpoint.ok me →
  Endpoint.matches_node (E := BundleStatusReason) me (source_node (primary_block b)) = Ok local →
  (hops_exceeded b → forward_bundle (Some me) (Some d) = Err HopLimitExceeded) ∧
  (¬ hops_exceeded b → ∃ d' b', forward_bundle (Some me) (Some d) = Ok d' ∧
     bundle_of_bytes d' = Ok b' ∧ one_hop_further me local b b').
Proof. apply forward_bundle_run. Qed.

Lemma forward_bundle_spec_witness :
  ∃ d' b', forward_bundle (Some ForwardingWitness.node_n)
             (Some (StorageWitness.sent StorageWitness.original)) = Ok d' ∧
     bundle_of_bytes d' = Ok b' ∧
     one_hop_further ForwardingWitness.node_n false StorageWitness.original b'.
Proof.
  apply (forward_bundle_spec ForwardingWitness.node_n
           (StorageWitness.sent StorageWitness.original) StorageWitness.original false).
  - vm_compute. reflexivity.
  - solve_ok.
  - split; [done|repeat constructor].
  - solve_ok.
  - vm_compute. reflexivity.
  - by intros (v & Hv & _).
Defined.

(** ** Status reports *)

(** The timestamp in the report and the creation time of the report. *)
Definition reported_at (env : Env) : DtnTime :=
  {| timestamp := report_clock env - DTN_UNIX_DIFFERENCE_MS |}.
Definition created_now (env : Env) : DtnTime :=
  {| timestamp := creation_clock env - DTN_UNIX_DIFFERENCE_MS |}.

(** What the report [rec] about [r] needs: a reference whose fields are machine
    integers, clocks after 2000, and a record that fits into memory. *)
Record reportable `{!SerdeCbor} (env : Env) (me : Endpoint) (r : StoredBundleRef)
    (rec : AdministrativeRecord) : Prop := {
  rp_me : Endpoint.ok me;
  rp_primary : Primary.ok (ref_primary r);
  rp_size : u64_ok (ref_payload_size r);
  rp_clock : DTN_UNIX_DIFFERENCE_MS ≤ report_clock env < 2 ^ 63;
  rp_creation : DTN_UNIX_DIFFERENCE_MS ≤ creation_clock env < 2 ^ 63;
  rp_fits : zlen (to_vec (serialize_record rec)) < 2 ^ 63;
}.

(** The message [d] is the bundle that reports [rec] about [r]. *)
Definition reports `{!SerdeCbor} (env : Env) (me : Endpoint) (r : StoredBundleRef)
    (rec : AdministrativeRecord) (d : bytes) : Prop :=
  ∃ data, bundle_of_bytes d = Ok (report_bundle me (ref_primary r) (created_now env) data) ∧
    record_of_bytes data = Ok rec.

Lemma status_report_ok_of env me r reason b1 b2 b3 b4 `{!SerdeCbor} :
  reportable env me r (status_report r reason (reported_at env) b1 b2 b3 b4) →
  ∃ rep, status_report r reason (reported_at env) b1 b2 b3 b4 = ABundleStatusReport rep ∧
    status_report_ok rep.
Proof.
  intros [_ (_&_&_&_&?&_&?&_&Hf) ? Hc _ _].
  assert (u64_ok (report_clock env - DTN_UNIX_DIFFERENCE_MS)).
  { unfold u64_ok, DTN_UNIX_DIFFERENCE_MS in *. lia. }
  eexists. split; [done|]. unfold status_report_ok, status_item_ok, status_item. simpl.
  split_and!; try done; try (by destruct b1); try (by destruct b2); try (by destruct b3);
    try (by destruct b4).
  destruct (fragment_offset (ref_primary r)); [|done].
  destruct (total_data_length (ref_primary r)); naive_solver.
Qed.

Lemma send_status_report_run `{!SerdeCbor, !SerdeCborLaws} env me r reason b1 b2 b3 b4 st :
  endpoint st = Some me → reportable env me r (status_report r reason (reported_at env) b1 b2 b3 b4) →
  ∃ d, send_status_report env r reason b1 b2 b3 b4 st
         = Ok ((), st, [ToStorage (MStoreNewBundle d)]) ∧
    reports env me r (status_report r reason (reported_at env) b1 b2 b3 b4) d.
Proof.
  intros He Hr. destruct (status_report_ok_of _ _ _ _ _ _ _ _ Hr) as (rep & Hrec & Hok).
  destruct Hr as [Hme Hpb _ Hc Hcc Hfit].
  destruct (record_write_read rep Hok) as (data & Hd & Hbytes & Hread).
  unfold send_status_report. rewrite (now_Ok _ Hc). arun. fold (reported_at env).
  rewrite Hrec in *. rewrite Hd. arun. rewrite He. arun.
  rewrite (now_Ok _ Hcc). arun. fold (created_now env).
  destruct (bundle_write_read (report_bundle me (ref_primary r) (created_now env) data))
    as (d & Hb & _ & Hbr); [|split; [done|repeat constructor]|].
  - destruct Hpb as (_&_&_&_&_&?&_&?&_). unfold DTN_UNIX_DIFFERENCE_MS in *.
    split_and!; [|apply Forall_singleton|done].
    + split_and!; try done. split; simpl; unfold u64_ok, DTN_UNIX_DIFFERENCE_MS; lia.
    + split_and!; try done. simpl. split; [done|]. unfold bytes_of_record in Hd. congruence.
  - rewrite Hb. arun. exists d. split; [done|]. by exists data.
Qed.


Definition report_flags : list Z :=
  [BundleFlags.BUNDLE_RECEIPTION_STATUS_REQUESTED; BundleFlags.BUNDLE_FORWARDING_STATUS_REQUEST;
   BundleFlags.BUNDLE_DELIVERY_STATUS_REQUESTED; BundleFlags.BUNDLE_DELETION_STATUS_REQUESTED].

(** Reports do not cascade: a bundle that carries a status report causes no
    report itself, whatever happens to it. *)
Theorem reports_do_not_cascade `{!SerdeCbor} flag env me pb t data r reason b1 b2 b3 b4 st :
  flag ∈ report_flags → ref_primary r = primary_block (report_bundle me pb t data) →
  send_requested_report flag env r reason b1 b2 b3 b4 st = Ok ((), st, []).
Proof.
  intros Hf Hr. unfold send_requested_report. rewrite Hr.
  cbn [primary_block report_bundle bundle_processing_flags].
  unfold report_flags in Hf. repeat (apply elem_of_cons in Hf as [->|Hf]; [done|]).
  by apply not_elem_of_nil in Hf.
Qed.

Module ReportWitness.
Definition env : Env := {|
  upgrade_data := λ _, Some (StorageWitness.sent StorageWitness.original);
  report_clock := 1700000000000; creation_clock := 1700000000001;
  try_send := λ _ _, SendOk; hash_order := λ l, l |}.
(** A bundle that asks for a delivery report. *)
Definition r : StoredBundleRef := StorageWitness.ref (TestBundle.bundle [67; 65; 66; 67]).
Definition me : Endpoint := TestBundle.endpoint "//b/".
Definition st : Daemon := DeliveryWitness.st.
End ReportWitness.


Lemma reports_do_not_cascade_witness :
  send_requested_report BundleFlags.BUNDLE_DELETION_STATUS_REQUESTED ReportWitness.env
    (StorageWitness.ref (report_bundle ReportWitness.me StorageWitness.pb {| timestamp := 5 |} [1]))
    HopLimitExceeded false false false true ReportWitness.st = Ok ((), ReportWitness.st, []).
Proof.
  apply (reports_do_not_cascade _ _ ReportWitness.me StorageWitness.pb {| timestamp := 5 |} [1]).
  - unfold report_flags. set_solver.
  - reflexivity.
Defined.

(** ** The life of a bundle *)

(** The decisions about a valid bundle [r] whose data is [b]: [here] says that it
    is for this node, [local] that it was created here. *)
Inductive dispatched `{!SerdeCbor} (env : Env) (me : Endpoint) (r : StoredBundleRef) (b : Bundle)
    (here local : bool) : State → option bytes → list Output → Prop :=
| DispatchDefragment o :
    here = true → fragment_offset (ref_primary r) = Some o →
    dispatched env me r b here local DefragmentationPending None []
| DispatchDeliver :
    here = true → fragment_offset (ref_primary r) = None →
    dispatched env me r b here local DeliveryQueued None []
| DispatchForward d' b' :
    here = false → ¬ hops_exceeded b → bundle_of_bytes d' = Ok b' → one_hop_further me local b b' →
    dispatched env me r b here local ForwardingQueued (Some d') []
| DispatchDrop :
    here = false → hops_exceeded b →
    contains (bundle_processing_flags (ref_primary r))
      BundleFlags.BUNDLE_DELETION_STATUS_REQUESTED = false →
    dispatched env me r b here local Invalid None []
| DispatchDropReport d :
    here = false → hops_exceeded b →
    contains (bundle_processing_flags (ref_primary r))
      BundleFlags.BUNDLE_DELETION_STATUS_REQUESTED = true →
    reports env me r (status_report r HopLimitExceeded (reported_at env) false false false true) d →
    dispatched env me r b here local Invalid None [ToStorage (MStoreNewBundle d)].

(** What the store still holds for the reference. *)
Definition data_of `{!SerdeCbor} (env : Env) (r : StoredBundleRef) (b : Bundle) : Prop :=
  ∃ d, upgrade_data env r = Some d ∧ bundle_of_bytes d = Ok b ∧ primary_block b = ref_primary r ∧
    bundle_ok b ∧ bundle_no_crc b ∧ is_Some (find_payload (blocks b)).

(** Every valid bundle gets exactly one decision, the one its destination and its
    hop count ask for, and the store is told about it with data that is the same
    bundle: fragments for this node are to be reassembled, other bundles for this
    node delivered, foreign bundles forwarded one hop further, or deleted with a
    report if their hops are used up.  (Claim C28.) *)
Theorem valid_bundle_dispatched `{!SerdeCbor, !SerdeCborLaws} env me r b here local st :
  ref_state r = Valid → endpoint st = Some me →
  Endpoint.matches_node (E := Empty_set) me (destination_endpoint (ref_primary r)) = Ok here →
  Endpoint.matches_node (E := BundleStatusReason) me (source_node (ref_primary r)) = Ok local →
  data_of env r b →
  reportable env me r (status_report r HopLimitExceeded (reported_at env) false false false true) →
  ∃ s nd o, EventBundleUpdated env r st
              = Ok ((), st, o ++ [ToStorage (MUpdateBundle r s nd)]) ∧
    dispatched env me r b here local s nd o ∧ new_data_ok r s nd.
Proof.
  intros Hv He Hh Hl (d & Hup & Hd & Hpb & Hok & Hnc & Hpay) Hrep.
  unfold EventBundleUpdated, dispatch_valid, update. rewrite Hv. arun. rewrite He. arun.
  rewrite Hh. arun. destruct here; arun.
  { destruct (fragment_offset (ref_primary r)) as [o|] eqn:Ef; cbn [is_some].
    - exists DefragmentationPending, None, []. split_and!; [done|by eapply DispatchDefragment|by intros ?].
    - exists DeliveryQueued, None, []. split_and!; [done|by apply DispatchDeliver|by intros ?]. }
  rewrite <-Hpb in Hl. rewrite Hup.
  destruct (forward_bundle_run me d b local Hd Hok Hnc (rp_me _ _ _ _ Hrep) Hl) as [Hbad Hgood].
  destruct (hops_exceeded_dec b) as [Hx|Hx].
  - rewrite (Hbad Hx).
    destruct (contains (bundle_processing_flags (ref_primary r))
      BundleFlags.BUNDLE_DELETION_STATUS_REQUESTED) eqn:Ec.
    + destruct (send_status_report_run env me r HopLimitExceeded false false false true st He Hrep)
        as (d' & Hr & Hd').
      exists Invalid, None, [ToStorage (MStoreNewBundle d')].
      split_and!; [|by apply DispatchDropReport|by intros ?].
      unfold send_status_report_deleted, send_requested_report. rewrite Ec. arun.
      rewrite (bind_step _ _ _ _ _ _ Hr). by arun.
    + exists Invalid, None, []. split_and!; [|by apply DispatchDrop|by intros ?].
      unfold send_status_report_deleted, send_requested_report. rewrite Ec. by arun.
  - destruct (Hgood Hx) as (d' & b' & -> & Hd' & Hb'). arun. exists ForwardingQueued, (Some d'), [].
    split_and!; [done|by eapply DispatchForward|].
    intros ? [= <-]. split; [done|]. exists b'. destruct Hb' as [Hp Hf _ _].
    split_and!; [done|congruence|by rewrite Hf].
Qed.

(** A bundle from [dtn://a/] for [dtn://c/] at the node [dtn://b/]. *)
Module DispatchWitness.
Definition r : StoredBundleRef := {|
  ref_arc := 0; ref_state := Valid; ref_size := 50; ref_payload_size := 3; ref_min_size := None;
  ref_primary := StorageWitness.pb |}.
End DispatchWitness.

Lemma valid_bundle_dispatched_witness :
  ∃ s nd o, EventBundleUpdated ReportWitness.env DispatchWitness.r ReportWitness.st
      = Ok ((), ReportWitness.st, o ++ [ToStorage (MUpdateBundle DispatchWitness.r s nd)]) ∧
    dispatched ReportWitness.env ReportWitness.me DispatchWitness.r StorageWitness.original
      false false s nd o ∧ new_data_ok DispatchWitness.r s nd.
Proof.
  apply valid_bundle_dispatched.
  - reflexivity.
  - vm_compute. reflexivity.
  - vm_compute. reflexivity.
  - vm_compute. reflexivity.
  - exists (StorageWitness.sent StorageWitness.original).
    split_and!; [reflexivity|vm_compute; reflexivity|reflexivity|solve_ok
      |split; [done|repeat constructor]|by eexists].
  - split; [solve_ok|solve_ok|solve_ok|..]; vm_compute; [split; congruence..|reflexivity].
Defined.

(** A peer that hangs up is not forgotten when it is only the next hop: the entry
    of the destination is removed from the connections instead of the one of the
    next hop, so the closed connection is used again. *)
Theorem closed_next_hop_is_kept env destination node route sender info b queue st :
  Endpoint.get_node_endpoint (E := Empty_set) destination = Ok node →
  remote_routes st !! node = Some route → next_hop route ≠ node →
  remote_connections st !! next_hop route = Some sender →
  remote_routes st !! next_hop route = Some info → next_hop info = next_hop route →
  remote_bundles st !! node = Some (b :: queue) →
  too_large (smaller_max_size (max_size route) (max_size info)) b = None →
  try_send env node 0 = SendClosed →
  ∃ st', deliver_remote_bundles env destination st = Ok ((), st', []) ∧
    remote_connections st' !! next_hop route = Some sender ∧ link_of st' node = link_of st node.
Proof.
  intros Hn Hr Hne Hc Hi Hnh Hq Htl Hs. rewrite (deliver_remote_unfold _ _ _ _ Hn).
  assert (link_of st node = Some (sender, smaller_max_size (max_size route) (max_size info))) as Hl.
  { unfold link_of. rewrite Hr. cbn. rewrite Hc. cbn. rewrite Hi. cbn.
    by rewrite bool_decide_eq_true_2. }
  rewrite Hl, Hq. cbn [length remote_loop]. rewrite bool_decide_eq_false_2 by set_solver.
  rewrite Htl, Hs. arun. eexists. split; [done|].
  assert (delete node (remote_connections st) !! next_hop route = Some sender) as Hc'
    by (by rewrite lookup_delete_ne).
  split; [done|]. unfold link_of. cbn. rewrite Hr. cbn. rewrite Hc'. cbn. rewrite Hi. cbn.
  by rewrite bool_decide_eq_true_2.
Qed.

Lemma closed_next_hop_is_kept_witness :
  ∃ st', deliver_remote_bundles
      {| upgrade_data := λ _, None; report_clock := 0; creation_clock := 0;
         try_send := λ _ _, SendClosed; hash_order := λ l, l |}
      (destination_endpoint StorageWitness.pb) ForwardingWitness.st = Ok ((), st', []) ∧
    remote_connections st' !! ForwardingWitness.node_n = Some 7%nat ∧
    link_of st' ForwardingWitness.node_c
      = link_of ForwardingWitness.st ForwardingWitness.node_c.
Proof.
  eapply (closed_next_hop_is_kept _ _ ForwardingWitness.node_c
    {| next_hop := ForwardingWitness.node_n; max_size := None |} _
    {| next_hop := ForwardingWitness.node_n; max_size := Some 1000 |}).
  - vm_compute. reflexivity.
  - vm_compute. reflexivity.
  - done.
  - vm_compute. reflexivity.
  - vm_compute. reflexivity.
  - reflexivity.
  - vm_compute. reflexivity.
  - vm_compute. reflexivity.
  - reflexivity.
Defined.
