(* ===== verification/DaemonTokens.v ===== *)
(** * References in the protocol agent

    Every reference to a stored bundle that the protocol agent holds or sends was
    given to it: a handler moves the references of its queues and of the event to
    its queues, to the storage agent, to clients and to peers, and none of them
    twice. *)
From S2P Require Import Prelude RustStr Actor Cbor CborRfc Flags CrcTime Endpoint PrimaryBlock.
From S2P Require Import Block Bundle Fragment FragmentSize AdminRecord Storage StorageSystem.
From S2P Require Import StorageShape ProtocolAgent ProtocolAgentProps.
Import Crc Time ProtocolAgent.

(** All bundles of a map of queues. *)
Definition flat (m : gmap Endpoint (list StoredBundleRef)) : list StoredBundleRef :=
  concat (snd <$> map_to_list m).

Definition queues (d : Daemon) : list StoredBundleRef := flat (local_bundles d) ++ flat (remote_bundles d).

(** Where the outputs of the agent go. *)
Definition to_storage (x : Output) : option Message :=
  match x with ToStorage m => Some m | _ => None end.
Definition leaving (x : Output) : option StoredBundleRef :=
  match x with ClientDeliverBundle _ r | AgentForwardBundle _ r => Some r | ToStorage _ => None end.
Definition output_ref (x : Output) : option StoredBundleRef :=
  match x with ToStorage m => message_ref m | _ => leaving x end.

Lemma flat_split m k : flat m ≡ₚ default [] (m !! k) ++ flat (delete k m).
Proof.
  unfold flat. destruct (m !! k) as [q|] eqn:E; simpl.
  - rewrite <-(insert_id m k q E) at 1. rewrite <-insert_delete_eq.
    rewrite map_to_list_insert by apply lookup_delete_eq. done.
  - by rewrite delete_id.
Qed.

Lemma flat_insert m k q : flat (<[k := q]> m) ≡ₚ q ++ flat (delete k m).
Proof. rewrite (flat_split _ k), lookup_insert_eq. simpl. by rewrite delete_insert_eq. Qed.

Lemma flat_push_back m k r : flat (entry_push_back k r m) ≡ₚ r :: flat m.
Proof.
  unfold entry_push_back. rewrite flat_insert, (flat_split m k). solve_Permutation.
Qed.
Lemma flat_push_front m k r : flat (entry_push_front k r m) ≡ₚ r :: flat m.
Proof. unfold entry_push_front. rewrite flat_insert, (flat_split m k). solve_Permutation. Qed.

Definition is_update (x : Output) : bool :=
  match x with ToStorage (MUpdateBundle _ _ _) => true | _ => false end.

(** [conserves st st' o]: the outputs and the new queues have the references of the
    old queues, and no bundle gets a new state. *)
Definition conserves (st st' : Daemon) (o : list Output) : Prop :=
  queues st' ++ omap output_ref o ≡ₚ queues st ∧ endpoint st' = endpoint st ∧
  Forall (λ x, is_update x = false) o.

Lemma conserves_refl st : conserves st st [].
Proof. split_and!; [by rewrite app_nil_r|done|constructor]. Qed.

Lemma conserves_trans st st1 st2 o1 o2 :
  conserves st st1 o1 → conserves st1 st2 o2 → conserves st st2 (o1 ++ o2).
Proof.
  intros (H1 & E1 & U1) (H2 & E2 & U2). split_and!; [|congruence|by apply Forall_app_2].
  rewrite omap_app, <-H1, <-H2. solve_Permutation.
Qed.

Lemma local_loop_conserves env destination sender i queue st st' o :
  local_loop env destination sender i queue st = Ok ((), st', o) →
  ∃ q, local_bundles st' = <[destination := q]> (local_bundles st) ∧
    q ++ omap output_ref o ≡ₚ queue ∧ remote_bundles st' = remote_bundles st ∧
    endpoint st' = endpoint st ∧ Forall (λ x, is_update x = false) o.
Proof.
  revert i st st' o. induction queue as [|r queue IH]; intros i st st' o; cbn [local_loop].
  - intros H. ainv. exists []. by split_and!.
  - intros H. ainv. destruct (try_send env destination i); ainv.
    + match goal with E : local_loop _ _ _ _ _ _ = _ |- _ => destruct (IH _ _ _ _ E) as (q & Hq & Hp & Hr & He & Hu) end.
      exists q. split_and!; try done; [|by constructor]. simpl. rewrite <-Hp. solve_Permutation.
    + exists (queue ++ [r]). split_and!; try done. simpl. solve_Permutation.
    + exists (queue ++ [r]). split_and!; try done. simpl. solve_Permutation.
Qed.

Lemma deliver_local_conserves env destination st st' o :
  deliver_local_bundles env destination st = Ok ((), st', o) → conserves st st' o.
Proof.
  unfold deliver_local_bundles. intros H. ainv.
  destruct (local_connections _ !! destination) as [sender|]; ainv; [|apply conserves_refl].
  destruct (local_bundles _ !! destination) as [q|] eqn:Eq; ainv; [|apply conserves_refl].
  match goal with E : local_loop _ _ _ _ _ _ = _ |- _ =>
    destruct (local_loop_conserves _ _ _ _ _ _ _ _ E) as (q' & Hl & Hp & Hr & He & Hu) end.
  split_and!; [|done..]. unfold queues. rewrite Hl, Hr, flat_insert, (flat_split (local_bundles _) destination), Eq.
  simpl. rewrite <-Hp. simpl. solve_Permutation.
Qed.

Lemma forwarding_refs sender mbs o :
  Forall (forwarding_ok sender mbs) o → omap output_ref o ≡ₚ forwarded o ++ fragmenting o.
Proof.
  induction 1 as [|x o Hx _ IH]; [done|].
  destruct x as [[| |r n|]|to r|to r]; try done; simpl; rewrite IH;
    unfold forwarded, fragmenting; simpl; solve_Permutation.
Qed.

Lemma deliver_remote_conserves env destination st st' o :
  deliver_remote_bundles env destination st = Ok ((), st', o) → conserves st st' o.
Proof.
  intros H. assert (∃ node, Endpoint.get_node_endpoint (E := Empty_set) destination = Ok node) as (node & Hn).
  { unfold deliver_remote_bundles in H. ainv. eauto. }
  rewrite (deliver_remote_unfold _ _ _ _ Hn) in H.
  destruct (link_of st node) as [[sender mbs]|]; [|simplify_eq; apply conserves_refl].
  destruct (remote_bundles st !! node) as [q|] eqn:Eq; [|simplify_eq; apply conserves_refl].
  destruct (remote_loop_spec env node sender mbs (S (length q)) 0 [] q [] st)
    as (st1 & o1 & q' & Hr & Hp & Ho & [Hq _ _ _ [Hl _] [_ He]]); [lia|constructor|].
  rewrite app_nil_r in Hr, Hp. rewrite H in Hr. simplify_eq. split_and!; [|done|].
  2:{ eapply Forall_impl; [exact Ho|]. by intros [[]| |]. }
  unfold queues. rewrite Hl, Hq, flat_insert, (flat_split (remote_bundles st) node), Eq. simpl.
  rewrite Hp, (forwarding_refs _ _ _ Ho). solve_Permutation.
Qed.

Lemma for_each_conserves {A} (body : A → actor Daemon Output ()) l st st' o :
  (∀ x st st' o, body x st = Ok ((), st', o) → conserves st st' o) →
  for_each body l st = Ok ((), st', o) → conserves st st' o.
Proof.
  intros Hb. revert st st' o. induction l as [|x l IH]; intros st st' o; cbn [for_each]; intros H; ainv.
  - apply conserves_refl.
  - eapply conserves_trans; [by eapply Hb|by apply IH].
Qed.

Section reports.
Context {HC : SerdeCbor}.

(** A report is a new bundle for the store. *)
Lemma requested_report_silent flag env r reason b1 b2 b3 b4 st st' o :
  send_requested_report flag env r reason b1 b2 b3 b4 st = Ok ((), st', o) →
  st' = st ∧ omap output_ref o = [] ∧ Forall (λ x, is_update x = false) o.
Proof.
  unfold send_requested_report, send_status_report. intros H.
  assert (st' = st ∧ ∀ x, x ∈ o → ∃ d, x = ToStorage (MStoreNewBundle d)) as [-> Hall].
  { case_match; ainv; [|split; [done|set_solver]]. case_match; ainv; [|split; [done|set_solver]].
    split; [done|]. intros x Hx. apply list_elem_of_singleton in Hx as ->. eauto. }
  clear H. split; [done|]. induction o as [|x o IH]; [done|].
  destruct IH as (H1 & H2); [intros y Hy; apply Hall; by right|].
  destruct (Hall x) as (d & ->); [left|]. simpl. split; [done|by constructor].
Qed.

(** ** Events *)
Inductive Event :=
| EUpdated (bundle : StoredBundleRef)
| EDelivered (e : Endpoint) (bundle : StoredBundleRef)
| EDeliveryFailed (e : Endpoint) (bundle : StoredBundleRef)
| EForwarded (e : Endpoint) (bundle : StoredBundleRef)
| EForwardingFailed (e : Endpoint) (bundle : StoredBundleRef)
| EClientConnected (e : Endpoint) (sender : Recipient)
| EClientDisconnected (e : Endpoint)
| EPeerConnected (e : Endpoint) (sender : Recipient)
| EPeerDisconnected (e : Endpoint)
| ERoutingTable (routes : gmap Endpoint NexthopInfo).

Definition handle_event (env : Env) (ev : Event) : handler () :=
  match ev with
  | EUpdated r => EventBundleUpdated env r
  | EDelivered e r => EventBundleDelivered env e r
  | EDeliveryFailed e r => EventBundleDeliveryFailed e r
  | EForwarded e r => EventBundleForwarded env e r
  | EForwardingFailed e r => EventBundleForwardingFailed e r
  | EClientConnected e s => EventClientConnected env e s
  | EClientDisconnected e => EventClientDisconnected e
  | EPeerConnected e s => EventPeerConnected env e s
  | EPeerDisconnected e => EventPeerDisconnected e
  | ERoutingTable routes => EventRoutingTableUpdate env routes
  end.

Definition event_ref (ev : Event) : option StoredBundleRef :=
  match ev with
  | EUpdated r | EDelivered _ r | EDeliveryFailed _ r | EForwarded _ r | EForwardingFailed _ r => Some r
  | _ => None
  end.

(** The states of a bundle that waits for a client or a peer. *)
Definition queued (s : State) : bool :=
  match s with DeliveryQueued | ForwardingQueued => true | _ => false end.

(** Bundles are announced in certain states only, and a client or a peer answers for a
    bundle that was queued. *)
Definition event_ok (ev : Event) : Prop :=
  match ev with
  | EUpdated r => announceable (ref_state r) = true
  | EDelivered _ r | EDeliveryFailed _ r | EForwarded _ r | EForwardingFailed _ r =>
      queued (ref_state r) = true
  | _ => True
  end.

(** The new states that the agent asks for, by the event. *)
Inductive asks (env : Env) (me : option Endpoint) : Event → StoredBundleRef → State → option bytes → Prop :=
| AskValid r : ref_state r = Received → asks env me (EUpdated r) r Valid None
| AskDefragment node r : ref_state r = Valid → is_Some (fragment_offset (ref_primary r)) → me = Some node →
    Endpoint.matches_node (E := Empty_set) node (destination_endpoint (ref_primary r)) = Ok true →
    asks env me (EUpdated r) r DefragmentationPending None
| AskDelivery r : ref_state r = Valid → fragment_offset (ref_primary r) = None →
    asks env me (EUpdated r) r DeliveryQueued None
| AskForwarding r d : ref_state r = Valid → forward_bundle me (upgrade_data env r) = Ok d →
    asks env me (EUpdated r) r ForwardingQueued (Some d)
| AskInvalid r : ref_state r = Valid → asks env me (EUpdated r) r Invalid None
| AskDelivered e r : asks env me (EDelivered e r) r Delivered None
| AskForwarded e r : asks env me (EForwarded e r) r Forwarded None.

(** What a handler does: references are moved, a state is asked for only for the
    bundle of the event, and a bundle that waits or leaves was queued. *)
Definition moves (env : Env) (ev : Event) (st st' : Daemon) (o : list Output) : Prop :=
  queues st' ++ omap output_ref o ≡ₚ queues st ++ option_list (event_ref ev) ∧
  endpoint st' = endpoint st ∧
  (∀ r s nd, ToStorage (MUpdateBundle r s nd) ∈ o → asks env (endpoint st) ev r s nd) ∧
  ∀ r, r ∈ queues st' ++ omap leaving o →
    r ∈ queues st ∨ (event_ref ev = Some r ∧ queued (ref_state r) = true).

Lemma leaving_output (o : list Output) r : r ∈ omap leaving o → r ∈ omap output_ref o.
Proof.
  rewrite !list_elem_of_omap. intros (x & Hx & Hr). exists x. split; [done|]. by destruct x.
Qed.

(** What waits or leaves has waited before. *)
Lemma conserves_queued st st' o r : conserves st st' o → r ∈ queues st' ++ omap leaving o → r ∈ queues st.
Proof.
  intros (<- & _) [?|?%leaving_output]%elem_of_app; set_solver.
Qed.

Lemma not_update_asks env ev me o :
  Forall (λ x, is_update x = false) o →
  ∀ r s nd, ToStorage (MUpdateBundle r s nd) ∈ o → asks env me ev r s nd.
Proof. rewrite Forall_forall. intros H r s nd Hin. by specialize (H _ Hin). Qed.

Lemma conserves_moves env ev st st' o :
  event_ref ev = None → conserves st st' o → moves env ev st st' o.
Proof.
  intros Hr Hc. pose proof (λ r, conserves_queued _ _ _ r Hc) as Hq. destruct Hc as (Hp & He & Hu).
  split_and!; [|done|by apply not_update_asks|by left; apply Hq]. by rewrite Hp, Hr, app_nil_r.
Qed.

Lemma report_conserves flag env r reason b1 b2 b3 b4 st st' o :
  send_requested_report flag env r reason b1 b2 b3 b4 st = Ok ((), st', o) → st' = st ∧ conserves st st o.
Proof.
  intros (-> & Ho & Hu)%requested_report_silent. split; [done|]. split_and!; [|done..].
  by rewrite Ho, app_nil_r.
Qed.

(** The queues are untouched. *)
Lemma conserves_same st st' :
  local_bundles st' = local_bundles st → remote_bundles st' = remote_bundles st →
  endpoint st' = endpoint st → conserves st st' [].
Proof. intros Hl Hr He. split_and!; [|done|constructor]. unfold queues. by rewrite Hl, Hr, app_nil_r. Qed.

Lemma moves_update env ev r s nd st st1 st2 o1 o2 :
  conserves st st1 o1 → asks env (endpoint st) ev r s nd → event_ref ev = Some r → conserves st1 st2 o2 →
  moves env ev st st2 (o1 ++ ToStorage (MUpdateBundle r s nd) :: o2).
Proof.
  intros C1 Ha Hr C2. pose proof (λ r, conserves_queued _ _ _ r C1) as Q1.
  pose proof (λ r, conserves_queued _ _ _ r C2) as Q2.
  destruct C1 as (P1 & E1 & U1), C2 as (P2 & E2 & U2). split_and!; [|congruence| |].
  - rewrite Hr, omap_app. simpl. rewrite <-P1, <-P2. solve_Permutation.
  - intros r' s' nd' Hin. rewrite elem_of_app, elem_of_cons in Hin. destruct Hin as [Hin|[Hin|Hin]].
    + by apply (not_update_asks env ev _ o1 U1).
    + by injection Hin as -> -> ->.
    + by apply (not_update_asks env ev _ o2 U2).
  - intros r' Hin. left. rewrite omap_app in Hin. simpl in Hin. set_solver.
Qed.

Lemma moves_push env ev r st st1 st2 o :
  conserves st1 st2 o → queues st1 ≡ₚ r :: queues st → endpoint st1 = endpoint st →
  event_ref ev = Some r → queued (ref_state r) = true → moves env ev st st2 o.
Proof.
  intros C Hq He Hr Hs. pose proof (λ r, conserves_queued _ _ _ r C) as Q. destruct C as (P & E & U).
  split_and!; [|congruence|by apply not_update_asks|].
  - rewrite Hr, P, Hq. simpl. solve_Permutation.
  - intros r' Hin%Q. rewrite Hq in Hin. set_solver.
Qed.

Lemma updated_moves env r st st' o :
  announceable (ref_state r) = true →
  EventBundleUpdated env r st = Ok ((), st', o) → moves env (EUpdated r) st st' o.
Proof.
  unfold EventBundleUpdated. destruct (ref_state r) eqn:Es; intros Hs H; try discriminate Hs.
  - unfold update in H. ainv.
    match goal with E : (if ?b then _ else _) ?x = Ok (_, ?y, ?o) |- _ =>
      assert (y = x ∧ conserves x x o) as [-> Hc] by
        (destruct b; [ainv; split; [done|apply conserves_refl]|by eapply report_conserves]) end.
    eapply (moves_update _ _ _ _ _ _ _ _ _ []); [done|by constructor|done|apply conserves_refl].
  - apply actor_bind_Ok in H as ([s nd] & st1 & o1 & o2 & Hd & H & ->). unfold update in H. ainv.
    assert (st' = st ∧ conserves st st o1 ∧ asks env (endpoint st) (EUpdated r) r s nd) as (-> & Hc & Ha).
    { unfold dispatch_valid in Hd. ainv. case_match; ainv.
      - split_and!; [done|apply conserves_refl|]. case_match eqn:Ef; simplify_eq; [|constructor; [done|by destruct (fragment_offset _)]].
        eapply AskDefragment; [done|by destruct (fragment_offset _)|done..].
      - case_match eqn:Ef; ainv; try done.
        + split_and!; [done|apply conserves_refl|by constructor].
        + match goal with E : send_status_report_deleted _ _ _ _ = _ |- _ =>
            apply report_conserves in E as [-> ?] end.
          rewrite app_nil_r. split_and!; [done..|by constructor]. }
    eapply (moves_update _ _ _ _ _ _ _ _ _ []); [done|done|done|apply conserves_refl].
  - ainv. eapply moves_push; [by eapply deliver_local_conserves| |done|done|by rewrite Es].
    unfold queues. simpl. by rewrite flat_push_back.
  - ainv. eapply moves_push; [by eapply deliver_remote_conserves| |done|done|by rewrite Es].
    unfold queues. simpl. rewrite flat_push_back. solve_Permutation.
Qed.

Lemma handle_event_moves env ev st st' o :
  event_ok ev → handle_event env ev st = Ok ((), st', o) → moves env ev st st' o.
Proof.
  destruct ev as [r|e r|e r|e r|e r|e s|e|e s|e|routes]; cbn [handle_event event_ok]; intros Hev H.
  - by apply updated_moves.
  - unfold EventBundleDelivered, update in H. ainv.
    match goal with E : send_status_report_delivered _ _ _ = _ |- _ => apply report_conserves in E as [-> ?] end.
    eapply moves_update; [|constructor|done|by eapply deliver_local_conserves]. done.
  - unfold EventBundleDeliveryFailed in H. ainv.
    eapply moves_push; [apply conserves_refl| |done..]. unfold queues. simpl. by rewrite flat_push_front.
  - unfold EventBundleForwarded, update in H. ainv.
    match goal with E : send_status_report_forwarded _ _ _ = _ |- _ => apply report_conserves in E as [-> ?] end.
    eapply moves_update; [|constructor|done|by eapply deliver_remote_conserves]. done.
  - unfold EventBundleForwardingFailed in H. ainv.
    eapply moves_push; [apply conserves_refl| |done..]. unfold queues. simpl.
    rewrite flat_push_front. solve_Permutation.
  - unfold EventClientConnected in H. ainv. apply conserves_moves; [done|].
    match goal with E : deliver_local_bundles _ _ _ = _ |- _ => apply deliver_local_conserves in E end. done.
  - unfold EventClientDisconnected in H. ainv. apply conserves_moves; [done|]. by apply conserves_same.
  - unfold EventPeerConnected, assert_node_endpoint in H. ainv. apply conserves_moves; [done|].
    match goal with E : deliver_remote_bundles _ _ _ = _ |- _ => apply deliver_remote_conserves in E end. done.
  - unfold EventPeerDisconnected, assert_node_endpoint in H. ainv. apply conserves_moves; [done|]. by apply conserves_same.
  - unfold EventRoutingTableUpdate in H. ainv. apply conserves_moves; [done|].
    repeat match goal with E : for_each _ _ _ = _ |- _ =>
      apply for_each_conserves in E; [|intros; by eapply deliver_remote_conserves] end.
    eapply (conserves_trans _ (set_remote_routes routes _) _ [] _); [by apply conserves_same|].
    by eapply conserves_trans.
Qed.
End reports.
