(* ===== verification/StorageMin.v ===== *)
(** * What a handler of the storage agent announces

    The state and the smallest fragment size in the announcements, and that the size
    recorded with a bundle is right: an attempt to fragment a bundle that is not a
    fragment itself fails at most once. *)
From S2P Require Import Prelude RustStr Actor Cbor CborRfc Flags CrcTime Endpoint PrimaryBlock.
From S2P Require Import Block Bundle Fragment FragmentSize Storage StorageSystem StorageShape.
From S2P Require Import ProtocolAgent ProtocolAgentProps DaemonTokens.
Import Crc Time.

(** Not a fragment. *)
Definition whole (pb : PrimaryBlock) : Prop := fragment_offset pb = None.

Section announce.
Context {HC : SerdeCbor}.

(** With at least [m] bytes the size limit is no obstacle. *)
Definition min_exact (m : Z) (d : bytes) : Prop :=
  ∀ b n m', bundle_of_bytes d = Ok b → m ≤ n → fragment b n ≠ Err (CanNotFragmentThatSmall m').

(** A smallest size is recorded only for queued bundles, and it is exact. *)
Definition min_ok (sb : StoredBundle) : Prop :=
  whole (sb_primary sb) → ∀ m, sb_min_size sb = Some m →
  queued (sb_state sb) = true ∧ min_exact m (bundle_data sb).

Lemma add_block_sizes_le bs first min f m :
  min ≤ first → add_block_sizes bs first min = Ok (f, m) → m ≤ f.
Proof.
  revert first min. induction bs as [|b bs IH]; intros first min Hle H; simpl in H; [by simplify_eq|].
  case_match; [by eapply IH|]. apply bind_Ok in H as (v & _ & H). eapply IH; [|exact H]. case_match; lia.
Qed.

(** Only the check of the size reports a size. *)
Definition no_size {A} (r : frag A) : Prop := ∀ m, r ≠ Err (CanNotFragmentThatSmall m).

Lemma no_size_bind {A B} (r : frag A) (f : A → frag B) :
  no_size r → (∀ a, no_size (f a)) → no_size (r ≫= f).
Proof. intros Hr Hf. destruct r as [a|e|]; [apply Hf|intros m [= ->]; by destruct (Hr m)|done]. Qed.

Lemma no_size_Ok {A} (a : A) : no_size (Ok a).
Proof. done. Qed.
Lemma no_size_map_err {A} (r : serde A) : no_size (map_err FSerializationError r).
Proof. by destruct r. Qed.
Lemma no_size_assert b : no_size (assert b).
Proof. by destruct b. Qed.
Lemma no_size_unwrap {A} (o : option A) : no_size (unwrap o).
Proof. by destruct o. Qed.

Lemma no_size_payload_block b : no_size (payload_block b).
Proof. apply no_size_bind; [apply no_size_unwrap|]. intros cb. by destruct (block cb). Qed.

Lemma no_size_add_block_sizes bs first min : no_size (add_block_sizes bs first min).
Proof.
  revert first min. induction bs as [|b bs IH]; intros first min; simpl; [done|].
  case_match; [apply IH|]. apply no_size_bind; [apply no_size_map_err|]. intros v. apply IH.
Qed.

Lemma no_size_clone_blocks bs : no_size (clone_blocks bs).
Proof.
  unfold clone_blocks. induction bs as [|b bs IH]; [done|]. simpl.
  apply no_size_bind; [by unfold clone_canonical; destruct (block b)|]. intros b'.
  by apply no_size_bind.
Qed.

Lemma no_size_fragment_loop fuel f off : no_size (fragment_loop fuel f off).
Proof.
  revert off. induction fuel as [|fuel IH]; intros off; simpl; [done|]. case_match; [|done].
  apply no_size_bind.
  - unfold fragment_step.
    repeat first [apply no_size_bind; [|intros ?] | apply no_size_clone_blocks | apply no_size_assert
                 | apply no_size_map_err | apply no_size_Ok].
  - intros [b n]. by apply no_size_bind.
Qed.

Lemma fragment_size_error b n m :
  fragment b n = Err (CanNotFragmentThatSmall m) →
  ∃ p mm, Primary.serialize (primary_block b) = Ok p ∧
    let min0 := zlen (to_vec p) + PAYLOAD_BLOCK_SERIALIZATION_OVERHEAD + BUNDLE_SERIALIZATION_OVERHEAD in
    add_block_sizes (blocks b) min0 min0 = Ok (m, mm) ∧ n < m.
Proof.
  unfold fragment. intros H.
  destruct (map_err _ (bytes_of_bundle b)) as [v|e|] eqn:E1; [|by destruct (bytes_of_bundle b); simplify_eq/=|done].
  simpl in H. destruct (n <? zlen v); [|done]. simpl in H. case_match; [done|]. case_match; [done|].
  destruct (Primary.serialize (primary_block b)) as [p|e|] eqn:Ep; [|done..]. simpl in H.
  exists p. destruct (add_block_sizes _ _ _) as [[first mm]|e|] eqn:Ea; simpl in H; [| |done].
  - exists mm. split; [done|]. simpl. destruct ((n <? first) || (n <? mm)) eqn:Ec.
    + simplify_eq. split; [done|]. apply add_block_sizes_le in Ea; [|lia].
      apply orb_true_iff in Ec as [?%Z.ltb_lt|?%Z.ltb_lt]; lia.
    + exfalso. revert H. match goal with |- ?l = _ → _ => assert (no_size l) as Hn; [|by apply Hn] end.
      apply no_size_bind; [apply no_size_payload_block|intros payload].
      apply no_size_bind; [apply no_size_clone_blocks|intros fbs].
      apply no_size_bind; [apply no_size_clone_blocks|intros lbs].
      apply no_size_bind; [apply no_size_unwrap|intros template].
      apply no_size_bind; [apply no_size_fragment_loop|done].
  - simplify_eq. by apply no_size_add_block_sizes in Ea.
Qed.

Lemma fragment_min_exact b n m d :
  fragment b n = Err (CanNotFragmentThatSmall m) → bundle_of_bytes d = Ok b → min_exact m d.
Proof.
  intros H Hb b' n' m' Hb' Hle H'. rewrite Hb in Hb'. injection Hb' as <-.
  apply fragment_size_error in H as (p & mm & Hp & Ha & _).
  apply fragment_size_error in H' as (p' & mm' & Hp' & Ha' & Hlt).
  rewrite Hp in Hp'. injection Hp' as <-. rewrite Ha in Ha'. injection Ha' as -> _. lia.
Qed.

(** ** Announcements of the handlers *)

Lemma UpdateBundle_announces r s nd st st' o r' :
  UpdateBundle r s nd st = Ok ((), st', o) → s ≠ DefragmentationPending → r' ∈ announced o →
  (s = Valid ∨ s = DeliveryQueued ∨ s = ForwardingQueued) ∧
  ref_state r' = s ∧ ref_primary r' = ref_primary r ∧
  ∃ sb, sb ∈ bundles st ∧ sb_primary sb = ref_primary r ∧ ref_min_size r' = sb_min_size sb.
Proof.
  intros H Hs Hin. unfold UpdateBundle in H.
  apply actor_bind_Ok in H as (ob & st1 & o1 & o2 & H1 & H & ->).
  destruct (take_bundle_Ok _ _ _ _ _ H1) as [-> Ht]. destruct ob as [sb|]; [|ainv; set_solver].
  destruct Ht as (l1 & l2 & Hl & _ & Hp & ->).
  apply actor_bind_Ok in H as ([] & st2 & o1 & o3 & Hwr & H & ->).
  assert (announced o1 = []) as Ho1.
  { unfold write_bundle_to_file in Hwr. destruct (_ && _) in Hwr; by ainv. }
  simpl in Hin. rewrite announced_app, Ho1 in Hin. clear Hwr.
  assert (Hdel : delete_bundle_file sb st2 = Ok ((), st', o3) → False).
  { unfold delete_bundle_file. intros Hd. ainv. set_solver. }
  assert (Hup : (sb ← updated s nd sb; push sb;; do_send (EventBundleUpdated (get_ref sb))) st2 = Ok ((), st', o3) →
    ref_state r' = s ∧ ref_primary r' = ref_primary r ∧
    ∃ sb, sb ∈ bundles st ∧ sb_primary sb = ref_primary r ∧ ref_min_size r' = sb_min_size sb).
  { intros Hu. apply actor_bind_Ok in Hu as (sb' & st3 & o4 & o5 & Hu & Hpu & ->). unfold push in Hpu. ainv.
    assert (o4 = [] ∧ sb_state sb' = s ∧ sb_primary sb' = sb_primary sb ∧ sb_min_size sb' = sb_min_size sb)
      as (-> & E1 & E2 & E3).
    { unfold updated, new_arc in Hu. destruct nd; by ainv. }
    apply list_elem_of_singleton in Hin as ->. simpl. split_and!; [done|congruence|].
    exists sb. split_and!; [rewrite Hl; set_solver|done|done]. }
  destruct s; auto 6; try by destruct Hdel.
Qed.

(** A fragment is not whole when it is stored. *)
Definition stores_fragment (b : Bundle) : Prop :=
  ∀ d b', bytes_of_bundle b = Ok d → bundle_of_bytes d = Ok b' → ¬ whole (primary_block b').

Lemma store_bundle_announces d min s p st a st' o r :
  store_bundle d min s p st = Ok (a, st', o) → r ∈ announced o →
  ref_state r = s ∧ ref_min_size r = min ∧
  ∃ b, bundle_of_bytes d = Ok b ∧ ref_primary r = primary_block b.
Proof.
  intros H Hin. destruct (store_bundle_Ok _ _ _ _ _ _ _ _ H) as (sb & Hsb & _ & _ & ->).
  assert (r = get_ref (with_state s (with_min_size min sb))) as ->.
  { destruct p; simpl in Hin; by apply list_elem_of_singleton in Hin. }
  simpl. split_and!; [done..|]. unfold stored_of_bytes in Hsb. obind. simplify_eq. simpl. eauto.
Qed.

Lemma store_fragment_announces m b st a st' o r :
  stores_fragment b → store_fragment m b st = Ok (a, st', o) → r ∈ announced o → ¬ whole (ref_primary r).
Proof.
  intros Hb H Hin. unfold store_fragment in H. ainv.
  match goal with E : store_bundle _ _ _ _ _ = _ |- _ =>
    destruct (store_bundle_announces _ _ _ _ _ _ _ _ _ E Hin) as (_ & _ & b' & Hb' & ->) end.
  by eapply Hb.
Qed.

Lemma store_fragments_announce m bs st a st' o r :
  Forall stores_fragment bs → for_each (store_fragment m) bs st = Ok (a, st', o) → r ∈ announced o →
  ¬ whole (ref_primary r).
Proof.
  intros Hbs. revert st o. induction Hbs as [|b bs Hb _ IH]; intros st o H Hin; cbn [for_each] in H.
  { ainv. set_solver. }
  apply actor_bind_Ok in H as ([] & st1 & o1 & o2 & H1 & H2 & ->).
  rewrite announced_app in Hin. apply elem_of_app in Hin as [Hin|Hin]; [|by eapply IH].
  by eapply store_fragment_announces.
Qed.
End announce.

Section fragments.
Context {HC : SerdeCbor} {HL : SerdeCborLaws}.

Lemma total_length_ok b : bundle_ok b → u64_ok (total_length b).
Proof.
  intros Hok. destruct (payload_bytes_ok b Hok) as [_ Hlen].
  destruct Hok as ((_&_&_&_&_&_&_&_&Ht)&_). unfold total_length.
  destruct (fragment_offset _), (total_data_length _); try done; [by destruct Ht|].
  unfold u64_ok. simpl. lia.
Qed.

Lemma fragment_loop_at b max f fuel off bs :
  fragmentation_of b max f → fragment_loop fuel f off = Ok bs →
  Forall (λ g, ∃ o n, g = fragment_at f o n) bs.
Proof.
  intros Hf. assert (no_payload (first_fragment_blocks f)) as H1.
  { rewrite (fo_first _ _ _ Hf). apply filter_no_payload. intros cb. by destruct (is_payload _). }
  assert (no_payload (fragment_blocks f)) as H2.
  { rewrite (fo_later _ _ _ Hf). apply filter_no_payload. intros cb. by destruct (is_payload _). }
  revert off bs. induction fuel as [|fuel IH]; intros off bs H; simpl in H; [by simplify_eq|].
  case_match; [|by simplify_eq].
  apply bind_Ok in H as ([g n] & Hs & H). apply bind_Ok in H as (bs' & Hl & H). simplify_eq.
  constructor; [|by eapply IH]. unfold fragment_step in Hs.
  apply bind_Ok in Hs as (bl & Hbl & Hs). rewrite clone_blocks_id in Hbl by (by case_match).
  obind. simplify_eq. by eexists _, _.
Qed.

Lemma fragments_stored b n frags m1 m2 :
  bundle_ok b → bundle_no_crc b → fragment b n = Ok (frags, m1, m2) → Forall stores_fragment frags.
Proof.
  intros Hok Hnc H. destruct (fragment_Ok _ _ _ _ _ H) as (f & Hf & Hl & _).
  eapply Forall_impl; [by eapply fragment_loop_at|]. intros g (o & k & ->) d b' Hd Hb'.
  destruct (bundle_write_read (fragment_at f o k)) as (bs & Hbs & _ & Hr).
  - eapply fragment_at_ok; [done..|by apply total_length_ok].
  - by eapply fragment_at_no_crc.
  - rewrite Hd in Hbs. simplify_eq. rewrite Hr in Hb'. by simplify_eq.
Qed.

(** The stored bundles are in the range of the encoder and carry no checksums. *)
Definition bundles_plain (st : Daemon) : Prop := ∀ sb b, sb ∈ bundles st →
  bundle_of_bytes (bundle_data sb) = Ok b → bundle_ok b ∧ bundle_no_crc b ∧ sb_primary sb = primary_block b.

(** Fragmentation replaces a whole bundle by fragments, or records its smallest size. *)
Lemma FragmentBundle_cases r n st st' o :
  bundles_plain st → FragmentBundle r n st = Ok ((), st', o) →
  (∀ r', r' ∈ announced o → ¬ whole (ref_primary r')) ∨
  ∃ l1 sb l2 b m, bundles st = l1 ++ sb :: l2 ∧ sb_primary sb = ref_primary r ∧
    bundle_of_bytes (bundle_data sb) = Ok b ∧ fragment b n = Err (CanNotFragmentThatSmall m) ∧
    bundles st' = (l1 ++ l2) ++ [with_min_size (Some m) sb] ∧
    announced o = [get_ref (with_min_size (Some m) sb)].
Proof.
  intros Hpl H. unfold FragmentBundle in H.
  apply actor_bind_Ok in H as (ob & st1 & o1 & o2 & H1 & H & ->).
  destruct (take_bundle_Ok _ _ _ _ _ H1) as [-> Ht]. destruct ob as [sb|].
  2:{ left. ainv. set_solver. }
  destruct Ht as (l1 & l2 & Hl & _ & Hp & ->). cbn [app].
  apply actor_bind_Ok in H as (b & s & o1 & o3 & H2 & H & ->).
  apply lift_Ok in H2 as (Hb & -> & ->). cbn [app] in *. unfold get_bundle in Hb. apply unwrap_ok_Ok in Hb.
  destruct (Hpl sb b) as (Hok & Hnc & Hpb); [rewrite Hl; set_solver|done|].
  destruct (fragment b n) as [[[frags m1] m2]|[e|min_size| |]|] eqn:Ef; try done.
  - left. apply fragments_stored in Ef; [|done..].
    destruct frags as [|f frags]; [done|]. apply Forall_cons in Ef as [Hf Hfs].
    apply actor_bind_Ok in H as ([] & st2 & o1 & o2 & H1' & H & ->).
    apply actor_bind_Ok in H as ([] & st3 & o3' & o4 & H2' & H & ->).
    unfold delete_bundle_file in H. ainv. intros r' Hin.
    rewrite !announced_app in Hin. apply elem_of_app in Hin as [Hin|[Hin|Hin]%elem_of_app].
    + by eapply store_fragment_announces.
    + by eapply store_fragments_announce.
    + simpl in Hin. set_solver.
  - right. unfold push in H. ainv. by exists l1, sb, l2, b, min_size.
Qed.

Lemma defragment_announces r st st' o r' :
  try_defragment_bundle r st = Ok ((), st', o) → r' ∈ announced o → ref_min_size r' = None.
Proof.
  unfold try_defragment_bundle. intros H Hin. ainv.
  match goal with E : take_fragments _ _ = Ok ?p |- _ => destruct p as [fr rest] end. ainv.
  destruct (reassemble_bundles _) as [d|e|]; [|ainv; set_solver|done].
  apply actor_bind_Ok in H as ([] & st2 & o1 & o2 & H1 & H2 & ->).
  destruct (delete_files_Ok _ _ _ _ _ H2) as [-> ->].
  simpl in Hin. rewrite announced_app, deletions_silent, app_nil_r in Hin.
  by destruct (store_bundle_announces _ _ _ _ _ _ _ _ _ H1 Hin) as (_ & ? & _).
Qed.

Lemma defragmented_announces r nd st st' o r' :
  UpdateBundle r DefragmentationPending nd st = Ok ((), st', o) → r' ∈ announced o → ref_min_size r' = None.
Proof.
  intros H Hin. unfold UpdateBundle in H.
  apply actor_bind_Ok in H as (ob & st1 & o1 & o2 & H1 & H & ->).
  destruct (take_bundle_Ok _ _ _ _ _ H1) as [-> Ht]. destruct ob as [sb|]; [|ainv; set_solver].
  apply actor_bind_Ok in H as ([] & st2 & o1 & o3 & Hwr & H & ->).
  assert (announced o1 = []) as Ho1.
  { unfold write_bundle_to_file in Hwr. destruct (_ && _) in Hwr; by ainv. }
  simpl in Hin. rewrite announced_app, Ho1 in Hin. clear Hwr.
  apply actor_bind_Ok in H as ([] & st3 & o4 & o5 & Hpu & H & ->). unfold push in Hpu. ainv.
  by eapply defragment_announces.
Qed.

(** An update for a bundle that is not queued yet, or a fragmentation of one that is. *)
Definition timely (m : Message) (st : Daemon) : Prop :=
  match m with
  | MUpdateBundle r s _ => s = Valid ∨ s = DeliveryQueued ∨ s = ForwardingQueued →
      ∀ sb, sb ∈ bundles st → sb_primary sb = ref_primary r → queued (sb_state sb) = false
  | MFragmentBundle r _ =>
      ∀ sb, sb ∈ bundles st → sb_primary sb = ref_primary r → queued (sb_state sb) = true
  | _ => True
  end.

(** What is announced without fragmentation has no smallest size on record. *)
Lemma handle_announces_None m st st' o r' :
  Forall min_ok (bundles st) → timely m st → (∀ r n, m ≠ MFragmentBundle r n) →
  handle m st = Ok ((), st', o) → r' ∈ announced o → whole (ref_primary r') → ref_min_size r' = None.
Proof.
  intros Hmin Ht Hm H Hin Hw. destruct m as [d|d|r n|r s nd]; simpl in H; [| |by destruct (Hm r n)|].
  - unfold StoreReceivedBundle in H.
    by destruct (store_bundle_announces _ _ _ _ _ _ _ _ _ H Hin) as (_ & ? & _).
  - destruct (StoreNewBundle_Ok _ _ _ _ _ H) as (b&k&d'&sb&_&_&Hsb&_&_&->&_).
    apply list_elem_of_singleton in Hin as ->. by destruct (stored_of_bytes_Ok _ _ _ Hsb) as (_&_&_&_&?&_).
  - destruct (decide (s = DefragmentationPending)) as [->|Hne]; [by eapply defragmented_announces|].
    destruct (UpdateBundle_announces _ _ _ _ _ _ _ H Hne Hin) as (Hs & _ & Hp & sb & Hsb & Hsp & ->).
    destruct (sb_min_size sb) as [m|] eqn:Em; [|done]. exfalso. rewrite Forall_forall in Hmin.
    destruct (Hmin sb Hsb) with m as [Hq _]; [unfold whole in *; congruence|done|].
    rewrite (Ht Hs sb Hsb Hsp) in Hq. done.
Qed.

(** Every handler keeps the recorded sizes right. *)
Lemma handle_min_ok m st st' o :
  NoDup (map sb_primary (bundles st)) → bundles_plain st → Forall min_ok (bundles st) → timely m st →
  handle m st = Ok ((), st', o) → Forall min_ok (bundles st').
Proof.
  intros Hnd Hpl Hmin Ht H. destruct (handle_shape _ _ _ _ Hnd H) as (kept & gone & new & [B B' A _ _ _]).
  assert (Hkept : Forall min_ok kept).
  { apply Forall_forall. intros sb Hin. rewrite Forall_forall in Hmin. apply Hmin. rewrite B. set_solver. }
  assert (Hquiet : (∀ r', r' ∈ announced o → whole (ref_primary r') → ref_min_size r' = None) →
    Forall min_ok (bundles st')).
  { intros Hn. rewrite B'. apply Forall_app_2; [done|]. apply Forall_forall. intros sb Hin Hw k Hk.
    assert (get_ref sb ∈ announced o) as Ha by (rewrite A; by apply list_elem_of_fmap_2).
    apply Hn in Ha; [|done]. simpl in Ha. congruence. }
  destruct m as [d|d|r n|r s nd]; try (apply Hquiet; intros r' Hin Hw;
    eapply handle_announces_None; [done|exact Ht|done|done|done|done]).
  destruct (FragmentBundle_cases _ _ _ _ _ Hpl H) as [Hf|(l1 & sb & l2 & b & k & Hl & Hp & Hb & Hf & Hb' & _)].
  { apply Hquiet. intros r' Hin Hw. by destruct (Hf r' Hin). }
  rewrite Hb'. rewrite Hl in Hmin. apply Forall_app in Hmin as [M1 [_ M2]%Forall_cons].
  repeat apply Forall_app_2; [done..|]. repeat constructor; simpl in *; simplify_eq.
  - apply Ht; [rewrite Hl; set_solver|done].
  - by eapply fragment_min_exact.
Qed.
End fragments.
