(* ===== verification/DaemonSystem.v ===== *)
(** * The storage agent and the protocol agent together

    The two agents of a daemon with their mailboxes and the directory: the storage
    agent answers the protocol agent with announcements, the protocol agent
    answers them with updates.  [StorageSystem.v] assumes that updates keep the
    promises of [update_ok]; here the protocol agent is shown to keep them, and
    every stored bundle is shown to have an owner that will act on it.  The daemon may
    be restarted at any time. *)
From S2P Require Import Prelude RustStr Actor Cbor CborRfc Flags CrcTime Endpoint PrimaryBlock.
From S2P Require Import Block Bundle Fragment FragmentSize AdminRecord Storage StorageSystem.
From S2P Require Import StorageShape ProtocolAgent ProtocolAgentProps DaemonTokens.
Import Crc Time.

Module DaemonSystem.

(** [abroad] are the references that clients and peers hold. *)
Record System := {
  sto : Storage.Daemon;
  dir : Directory;
  bpa : ProtocolAgent.Daemon;
  to_sto : list Message;
  to_bpa : list Event;
  abroad : list StoredBundleRef;
}.

(** A bundle from a peer or a client. *)
Definition arrival (m : Message) : Prop := message_ref m = None.

(** What a client tells about a bundle for delivery and a peer about one that was
    forwarded. *)
Definition answer (e : Endpoint) (r : StoredBundleRef) (ev : Event) : Prop :=
  match ref_state r with
  | DeliveryQueued => ev = EDelivered e r ∨ ev = EDeliveryFailed e r
  | ForwardingQueued => ev = EForwarded e r ∨ ev = EForwardingFailed e r
  | _ => False
  end.

(** The references to stored bundles outside the store. *)
Definition tokens (s : System) : list StoredBundleRef :=
  omap event_ref (to_bpa s) ++ queues (bpa s) ++ omap message_ref (to_sto s) ++ abroad s.

(** A bundle that is announced is the bundle the message was about, or one that no
    agent, client or peer has a reference to. *)
Definition fresh (m : Message) (o : list Effect) (others : list StoredBundleRef) : Prop :=
  ∀ r, r ∈ announced o →
    (∃ r0, message_ref m = Some r0 ∧ ref_primary r = ref_primary r0) ∨
    ref_primary r ∉ map ref_primary others.

Section daemon.
Context {HC : SerdeCbor}.

Inductive step : System → System → Prop :=
| StepStorage st k st' o b m ms mb ab :
    handle m st = Ok ((), st', o) →
    fresh m o (omap event_ref mb ++ queues b ++ omap message_ref ms ++ ab) →
    step {| sto := st; dir := k; bpa := b; to_sto := m :: ms; to_bpa := mb; abroad := ab |}
         {| sto := st'; dir := apply_effects k o; bpa := b; to_sto := ms;
            to_bpa := mb ++ map EUpdated (announced o); abroad := ab |}
| StepDelete st fs n l1 l2 b ms mb ab :
    step {| sto := st; dir := {| files := fs; deleting := l1 ++ n :: l2 |}; bpa := b;
            to_sto := ms; to_bpa := mb; abroad := ab |}
         {| sto := st; dir := {| files := delete n fs; deleting := l1 ++ l2 |}; bpa := b;
            to_sto := ms; to_bpa := mb; abroad := ab |}
| StepProtocol env st k b b' o ev ms mb ab :
    upgrade_data env = upgrade st → handle_event env ev b = Ok ((), b', o) →
    step {| sto := st; dir := k; bpa := b; to_sto := ms; to_bpa := ev :: mb; abroad := ab |}
         {| sto := st; dir := k; bpa := b'; to_sto := ms ++ omap to_storage o; to_bpa := mb;
            abroad := ab ++ omap leaving o |}
| StepArrival m st k b ms mb ab :
    arrival m →
    step {| sto := st; dir := k; bpa := b; to_sto := ms; to_bpa := mb; abroad := ab |}
         {| sto := st; dir := k; bpa := b; to_sto := ms ++ [m]; to_bpa := mb; abroad := ab |}
| StepNotice ev st k b ms mb ab :
    event_ref ev = None →
    step {| sto := st; dir := k; bpa := b; to_sto := ms; to_bpa := mb; abroad := ab |}
         {| sto := st; dir := k; bpa := b; to_sto := ms; to_bpa := mb ++ [ev]; abroad := ab |}
| StepAnswer e r ev st k b ms mb ab1 ab2 :
    answer e r ev →
    step {| sto := st; dir := k; bpa := b; to_sto := ms; to_bpa := mb; abroad := ab1 ++ r :: ab2 |}
         {| sto := st; dir := k; bpa := b; to_sto := ms; to_bpa := mb ++ [ev]; abroad := ab1 ++ ab2 |}.

(** A run: file names do not collide, a bundle is stored once, and the bundles are
    in the range of the encoder and carry no checksums (a bundle with a checksum
    comes back with another primary block, see [Bundle.v]). *)
Record run_ok (s : System) : Prop := {
  ro_names : no_collision (sto s, dir s);
  ro_once : NoDup (map sb_primary (bundles (sto s)));
  ro_bundles : ∀ sb b, sb ∈ bundles (sto s) → bundle_of_bytes (bundle_data sb) = Ok b →
    bundle_ok b ∧ bundle_no_crc b;
}.

Definition init (me : Endpoint) : System := {|
  sto := {| bundles := []; endpoint := Some me; last_created_dtn_time := None;
            last_sequence_number := 0; next_arc := 0 |};
  dir := {| files := ∅; deleting := [] |};
  bpa := {| ProtocolAgent.endpoint := Some me;
            ProtocolAgent.bundles_pending_local_delivery := ∅;
            ProtocolAgent.bundles_pending_forwarding := ∅;
            ProtocolAgent.local_bundles := ∅; ProtocolAgent.remote_bundles := ∅;
            ProtocolAgent.local_connections := ∅; ProtocolAgent.remote_connections := ∅;
            ProtocolAgent.remote_routes := ∅ |};
  to_sto := []; to_bpa := []; abroad := [] |}.

(** A restart of the daemon: the storage agent loads its directory and announces what
    it finds to a new protocol agent; mailboxes, queues and connections are gone. *)
Inductive restart (me : Endpoint) : System → System → Prop :=
| Restart st k st' k' o b ms mb ab :
    StorageSystem.restart me (st, k) (st', k') o →
    restart me {| sto := st; dir := k; bpa := b; to_sto := ms; to_bpa := mb; abroad := ab |}
      {| sto := st'; dir := k'; bpa := bpa (init me); to_sto := []; to_bpa := map EUpdated (announced o);
         abroad := [] |}.

Inductive reachable (me : Endpoint) : System → Prop :=
| ReachInit : reachable me (init me)
| ReachStep s s' : reachable me s → step s s' → run_ok s' → reachable me s'
| ReachRestart s s' : reachable me s → restart me s s' → run_ok s' → reachable me s'.

(** ** The invariant *)

(** An update in the mailbox of the storage agent. *)
Definition fits (r : StoredBundleRef) (s : State) (nd : option bytes) : Prop :=
  new_data_ok r s nd ∧ (s = Valid → ref_state r = Received) ∧
  (s = DeliveryQueued ∨ s = ForwardingQueued → ref_state r = Valid) ∧
  (s = DefragmentationPending → is_Some (fragment_offset (ref_primary r))).

(** What the store and the references to it have to do with each other: a bundle has
    one reference, which is up to date, and an allocation belongs to one bundle. *)
Record linked (st : Storage.Daemon) (ts : list StoredBundleRef) : Prop := {
  li_once : NoDup (map ref_primary ts);
  li_current : ∀ r sb, r ∈ ts → sb ∈ bundles st → sb_primary sb = ref_primary r → get_ref sb = r;
  li_arcs : NoDup (map data_arc (bundles st));
  li_arcs_lt : ∀ sb, sb ∈ bundles st → (data_arc sb < next_arc st)%nat;
  li_ref_lt : ∀ r, r ∈ ts → (ref_arc r < next_arc st)%nat;
  li_ref : ∀ r sb, r ∈ ts → sb ∈ bundles st → data_arc sb = ref_arc r → sb_primary sb = ref_primary r;
  li_states : Forall storable_state (bundles st);
  li_owner : ∀ sb, sb ∈ bundles st → get_ref sb ∈ ts ∨ is_Some (fragment_offset (sb_primary sb));
}.

Record inv (me : Endpoint) (s : System) : Prop := {
  in_linked : linked (sto s) (tokens s);
  in_updates : ∀ r st nd, MUpdateBundle r st nd ∈ to_sto s → fits r st nd;
  in_events : Forall event_ok (to_bpa s);
  in_queued : ∀ r, r ∈ queues (bpa s) ++ abroad s → queued (ref_state r) = true;
  in_me : ProtocolAgent.endpoint (bpa s) = Some me;
}.

#[global] Instance linked_Proper st : Proper ((≡ₚ) ==> iff) (linked st).
Proof.
  assert (∀ ts ts', ts ≡ₚ ts' → linked st ts → linked st ts') as H.
  { intros ts ts' Hp []. split; try done; try (by setoid_rewrite <-Hp). }
  intros ts ts' Hp. split; apply H; [done|by symmetry].
Qed.

(** ** A message to the storage agent *)

(** The allocations of the new bundles. *)
Lemma arcs_of_spec st st' kept gone new :
  arcs_of st st' gone new → NoDup (map data_arc (kept ++ gone)) →
  (∀ sb, sb ∈ kept ++ gone → (data_arc sb < next_arc st)%nat) →
  NoDup (map data_arc (kept ++ new)) ∧ (next_arc st ≤ next_arc st')%nat ∧
  ∀ sb, sb ∈ new → (data_arc sb < next_arc st')%nat ∧
    ((next_arc st ≤ data_arc sb)%nat ∨
     ∃ sb0, sb0 ∈ gone ∧ data_arc sb0 = data_arc sb ∧ sb_primary sb0 = sb_primary sb).
Proof.
  intros [[Hseq Hnext]|(sb & sb' & -> & -> & Ha & Hp & Hnext)] Hn Hlt.
  - assert (∀ sb, sb ∈ new → (next_arc st ≤ data_arc sb < next_arc st')%nat) as Hnew.
    { intros sb Hin. assert (data_arc sb ∈ map data_arc new) as Hi by by apply list_elem_of_fmap_2.
      rewrite Hseq in Hi. apply elem_of_seq in Hi. lia. }
    split_and!; [|lia|intros sb Hin; specialize (Hnew sb Hin); lia].
    rewrite map_app in *. apply NoDup_app. apply NoDup_app in Hn as (Hk & _ & _).
    split_and!; [done| |rewrite Hseq; apply NoDup_seq].
    intros a (sb & -> & Hin)%list_elem_of_fmap (sb' & He & Hin')%list_elem_of_fmap.
    specialize (Hnew _ Hin'). assert (data_arc sb < next_arc st)%nat by (apply Hlt; set_solver). lia.
  - split_and!; [|lia|].
    + rewrite map_app in *. simpl in *. by rewrite Ha.
    + intros x ->%list_elem_of_singleton. rewrite Ha, Hnext. split; [apply Hlt; set_solver|].
      right. exists sb. set_solver.
Qed.

Definition message_fits (m : Message) : Prop :=
  match m with MUpdateBundle r s nd => fits r s nd | _ => True end.

Lemma announced_disjoint m o ts r :
  fresh m o ts → NoDup (map ref_primary (option_list (message_ref m) ++ ts)) →
  r ∈ announced o → ref_primary r ∉ map ref_primary ts.
Proof.
  intros Hf Hn Hin. destruct (Hf r Hin) as [(r0 & Hm & ->)|?]; [|done].
  rewrite Hm in Hn. by apply NoDup_cons in Hn as [? _].
Qed.

Lemma linked_storage m st st' o kept gone new ts :
  Shape m st st' o kept gone new → NoDup (map sb_primary (bundles st')) → message_fits m →
  fresh m o ts → linked st (option_list (message_ref m) ++ ts) → linked st' (announced o ++ ts).
Proof.
  intros [Hb Hb' Ha Harc Hs Hw] Hnd Hm Hf [L1 L2 L3 L4 L5 L6 L7 L8].
  pose proof (λ r, announced_disjoint m o ts r Hf L1) as Hdis.
  assert (Hnew : ∀ r, r ∈ announced o ↔ ∃ sb, r = get_ref sb ∧ sb ∈ new).
  { intros r. rewrite Ha. apply list_elem_of_fmap. }
  assert (Hst' : ∀ sb, sb ∈ bundles st' ↔ sb ∈ kept ∨ sb ∈ new).
  { intros sb. rewrite Hb'. apply elem_of_app. }
  assert (Hst : ∀ sb, sb ∈ kept ∨ sb ∈ gone → sb ∈ bundles st).
  { intros sb. rewrite Hb, elem_of_app. done. }
  destruct (arcs_of_spec st st' kept gone new Harc) as (N1 & N2 & N3).
  { by rewrite <-Hb. } { intros sb Hin. apply L4, Hst. by apply elem_of_app. }
  rewrite <-Hb' in N1.
  assert (Hts : ∀ r, r ∈ ts → r ∈ option_list (message_ref m) ++ ts) by set_solver.
  split.
  - rewrite map_app. apply NoDup_app. split_and!.
    + rewrite Ha, map_map. rewrite Hb', map_app in Hnd. by apply NoDup_app in Hnd as (_ & _ & ?).
    + intros p (r & -> & Hr)%list_elem_of_fmap. by apply Hdis.
    + rewrite map_app in L1. by apply NoDup_app in L1 as (_ & _ & ?).
  - intros r sb [Hr|Hr]%elem_of_app Hsb Hp.
    + apply Hnew in Hr as (sb1 & -> & Hin). f_equal. eapply (NoDup_map_inj sb_primary); [done..| |done].
      apply Hst'. by right.
    + apply Hst' in Hsb as [Hsb|Hsb]; [apply L2; auto|].
      destruct (Hdis (get_ref sb)); [apply Hnew; eauto|]. simpl. rewrite Hp.
      by apply list_elem_of_fmap_2.
  - done.
  - intros sb [Hin|Hin]%Hst'; [|by destruct (N3 sb Hin)].
    assert (data_arc sb < next_arc st)%nat by (apply L4; auto). lia.
  - intros r [Hr|Hr]%elem_of_app; [|specialize (L5 r (Hts r Hr)); lia].
    apply Hnew in Hr as (sb1 & -> & Hin). by destruct (N3 sb1 Hin).
  - intros r sb [Hr|Hr]%elem_of_app Hsb He.
    + apply Hnew in Hr as (sb1 & -> & Hin). simpl. f_equal. eapply (NoDup_map_inj data_arc); [done..| |done].
      apply Hst'. by right.
    + apply Hst' in Hsb as [Hsb|Hsb]; [apply L6; auto|].
      destruct (N3 sb Hsb) as [_ [Hge|(sb0 & Hin0 & Ha0 & <-)]].
      * specialize (L5 r (Hts r Hr)). lia.
      * apply L6; [auto..|congruence].
  - rewrite Hb in L7. rewrite Hb'. apply Forall_app in L7 as [? ?]. apply Forall_app_2; auto.
  - intros sb [Hin|Hin]%Hst'.
    + destruct (L8 sb) as [Hr|?]; [auto| |by right].
      apply elem_of_app in Hr as [Hr|Hr]; [|left; set_solver].
      destruct (message_ref m) as [r|] eqn:Er; [|set_solver].
      apply list_elem_of_singleton in Hr. destruct (Hw r sb) as [nd ->]; [done..|by rewrite <-Hr|].
      simpl in Er. simplify_eq. destruct Hm as (_ & _ & _ & Hm). right. by apply Hm.
    + left. apply elem_of_app. left. apply Hnew. eauto.
Qed.

(** The promises of an update in the mailbox hold when it is handled. *)
Lemma fits_update_ok r s nd st ts : linked st ts → r ∈ ts → fits r s nd → update_ok r s nd st.
Proof.
  intros L Hr (Hd & Hv & Hq & _).
  assert (∀ sb, List.find (same_bundle r) (bundles st) = Some sb → sb_state sb = ref_state r) as Hs.
  { intros sb [Hin Hp]%List.find_some. apply list_elem_of_In in Hin. unfold same_bundle in Hp.
    apply bool_decide_eq_true in Hp. by rewrite <-(li_current _ _ L r sb Hr Hin Hp). }
  split; [done| |].
  - intros sb E Hf. left. rewrite (Hs _ Hf). auto.
  - intros sb E Hf. rewrite (Hs _ Hf), (Hq E). done.
Qed.

(** ** An event for the protocol agent *)

Lemma output_refs o : omap output_ref o ≡ₚ omap message_ref (omap to_storage o) ++ omap leaving o.
Proof.
  induction o as [|x o IH]; [done|].
  destruct x as [[| |r n|r s nd]|to r|to r]; simpl; rewrite IH; solve_Permutation.
Qed.

Lemma elem_of_to_storage m (o : list ProtocolAgent.Output) : m ∈ omap to_storage o → ProtocolAgent.ToStorage m ∈ o.
Proof.
  intros (x & Hin & Hx)%list_elem_of_omap. destruct x; simplify_eq/=. done.
Qed.

Lemma asks_event_ref env me ev r s nd : asks env me ev r s nd → event_ref ev = Some r.
Proof. by intros []. Qed.
End daemon.

Section forwarding.
Context {HC : SerdeCbor} {HL : SerdeCborLaws}.

(** The data that is forwarded is the bundle of the reference. *)
Lemma forwarded_data_ok me st ts r d :
  linked st ts → r ∈ ts → Forall stored_ok (bundles st) → Endpoint.ok me →
  (∀ sb b, sb ∈ bundles st → bundle_of_bytes (bundle_data sb) = Ok b → bundle_ok b ∧ bundle_no_crc b) →
  ProtocolAgent.forward_bundle (Some me) (upgrade st r) = Ok d → new_data_ok r ForwardingQueued (Some d).
Proof.
  intros L Hr Hst Hme Hbs H d' [= <-]. split; [done|].
  destruct (upgrade st r) as [data|] eqn:Hu; [|done]. unfold upgrade in Hu.
  apply fmap_Some in Hu as (sb & [Hin Ha]%List.find_some & ->).
  apply list_elem_of_In in Hin. apply Nat.eqb_eq in Ha.
  pose proof (li_ref _ _ L r sb Hr Hin Ha) as Hp.
  rewrite Forall_forall in Hst. destruct (so_bundle _ (Hst sb Hin)) as (b & Hb & Hpb & Hpay).
  destruct (Hbs sb b Hin Hb) as [Hok Hnc].
  destruct (forward_bundle_Ok me _ b d Hb Hok Hnc Hme H) as (b' & local & Hd' & Hhop).
  exists b'. destruct Hhop. split_and!; [done|congruence|congruence].
Qed.

Lemma asks_fits env me ev st ts r s nd :
  linked st ts → r ∈ ts → Forall stored_ok (bundles st) → Endpoint.ok me →
  (∀ sb b, sb ∈ bundles st → bundle_of_bytes (bundle_data sb) = Ok b → bundle_ok b ∧ bundle_no_crc b) →
  upgrade_data env = upgrade st → asks env (Some me) ev r s nd → fits r s nd.
Proof.
  intros L Hr Hst Hme Hbs He Ha.
  assert (s ≠ ForwardingQueued → nd = None → new_data_ok r s nd) as Hno by by intros _ -> ?.
  destruct Ha; (split_and!; [try by apply Hno|clear Hno Hst Hbs L..]); try done; try by intros [|].
  eapply forwarded_data_ok; try done. by rewrite <-He.
Qed.

(** ** Steps *)

Lemma omap_cons_option {A B} (f : A → option B) x l : omap f (x :: l) = option_list (f x) ++ omap f l.
Proof. simpl. by destruct (f x). Qed.

Lemma updated_refs rs : omap event_ref (map EUpdated rs) = rs.
Proof. induction rs as [|r rs IH]; [done|]. by apply (f_equal (cons r)). Qed.

Lemma answer_ref e r ev :
  answer e r ev → event_ref ev = Some r ∧ (queued (ref_state r) = true → event_ok ev).
Proof. unfold answer. destruct (ref_state r) eqn:E; try done; intros [-> | ->]; simpl; by rewrite E. Qed.

Lemma storage_step_inv me st k st' o b m ms mb ab :
  let s := {| sto := st; dir := k; bpa := b; to_sto := m :: ms; to_bpa := mb; abroad := ab |} in
  inv me s → run_ok s → handle m st = Ok ((), st', o) →
  fresh m o (omap event_ref mb ++ queues b ++ omap message_ref ms ++ ab) →
  NoDup (map sb_primary (bundles st')) →
  inv me {| sto := st'; dir := apply_effects k o; bpa := b; to_sto := ms;
            to_bpa := mb ++ map EUpdated (announced o); abroad := ab |} ∧ message_ok st m.
Proof.
  intros s [L U E Q M] R H Hf Hnd. destruct (handle_shape _ _ _ _ (ro_once _ R) H) as (kept & gone & new & Sh).
  assert (message_fits m) as Hm.
  { destruct m; try done. apply U. left. }
  assert (linked st (option_list (message_ref m) ++ omap event_ref mb ++ queues b ++ omap message_ref ms ++ ab)) as L'.
  { revert L. apply linked_Proper. unfold tokens, s. cbn [to_bpa to_sto bpa abroad].
    rewrite omap_cons_option. solve_Permutation. }
  split; [split; cbn [sto dir bpa to_sto to_bpa abroad]|].
  - pose proof (linked_storage _ _ _ _ _ _ _ _ Sh Hnd Hm Hf L') as L2. revert L2. apply linked_Proper.
    unfold tokens. cbn [to_bpa to_sto bpa abroad]. rewrite omap_app, updated_refs. solve_Permutation.
  - intros r s' nd Hin. apply U. by right.
  - apply Forall_app_2; [done|]. rewrite (sh_announced _ _ _ _ _ _ _ Sh), map_map.
    apply Forall_map. eapply sh_states; [exact Sh|].
    eapply Forall_app. rewrite <-(sh_before _ _ _ _ _ _ _ Sh). by destruct L.
  - done.
  - done.
  - destruct m as [| | |r s' nd]; try done. eapply fits_update_ok; [exact L'| |exact Hm]. set_solver.
Qed.

Lemma protocol_step_inv me env st k b b' o ev ms mb ab :
  let s := {| sto := st; dir := k; bpa := b; to_sto := ms; to_bpa := ev :: mb; abroad := ab |} in
  Endpoint.ok me → inv me s → Forall stored_ok (bundles st) → run_ok s →
  upgrade_data env = upgrade st → handle_event env ev b = Ok ((), b', o) →
  inv me {| sto := st; dir := k; bpa := b'; to_sto := ms ++ omap to_storage o; to_bpa := mb;
            abroad := ab ++ omap leaving o |}.
Proof.
  intros s Hme [L U E Q M] Hst R He H. apply Forall_cons in E as [Hev E].
  destruct (handle_event_moves _ _ _ _ _ Hev H) as (Hq & Hb & Ha & Hw).
  split; cbn [sto dir bpa to_sto to_bpa abroad]; [| |done| |simpl in M; congruence].
  - revert L. apply linked_Proper. unfold tokens, s. cbn [to_bpa to_sto bpa abroad].
    rewrite omap_app, omap_cons_option. rewrite output_refs in Hq.
    transitivity ((queues b ++ option_list (event_ref ev)) ++ omap event_ref mb ++ omap message_ref ms ++ ab);
      [rewrite <-Hq|]; solve_Permutation.
  - intros r s' nd [Hin|Hin]%elem_of_app; [by apply U|]. apply elem_of_to_storage, Ha in Hin.
    simpl in M. rewrite M in Hin.
    eapply asks_fits; [exact L| |exact Hst|exact Hme|exact (ro_bundles _ R)|exact He|exact Hin].
    apply elem_of_app. left. unfold s. cbn [to_bpa]. rewrite omap_cons_option, (asks_event_ref _ _ _ _ _ _ Hin).
    left.
  - intros r Hin. assert (r ∈ ab ∨ r ∈ queues b' ++ omap leaving o) as [Hab|Hw'] by set_solver.
    + apply Q, elem_of_app. by right.
    + destruct (Hw r Hw') as [Hold|[_ ?]]; [|done]. apply Q, elem_of_app. by left.
Qed.

(** Every step keeps the invariant, and is a step of the storage agent or leaves it
    alone. *)
Lemma step_inv me s s' :
  Endpoint.ok me → inv me s → Forall stored_ok (bundles (sto s)) → run_ok s → step s s' → run_ok s' →
  inv me s' ∧ ((sto s', dir s') = (sto s, dir s) ∨ StorageSystem.step (sto s, dir s) (sto s', dir s')).
Proof.
  intros Hme I Hst R Hs R'.
  destruct Hs as [st k st' o b m ms mb ab H Hf|st fs n l1 l2 b ms mb ab|env st k b b' o ev ms mb ab He H
                 |m st k b ms mb ab Hm|ev st k b ms mb ab Hev|e r ev st k b ms mb ab1 ab2 Ha].
  - destruct (storage_step_inv _ _ _ _ _ _ _ _ _ _ I R H Hf (ro_once _ R')) as [I' Hok].
    split; [done|right]. by eapply StepHandle.
  - split; [by destruct I|right]. constructor.
  - split; [by eapply protocol_step_inv|by left].
  - split; [|by left]. destruct I as [L U E Q M]. split; try done.
    + revert L. apply linked_Proper. unfold tokens. simpl. rewrite omap_app. simpl. rewrite Hm. solve_Permutation.
    + intros r s nd [Hin|Hin]%elem_of_app; [by apply U|]. apply list_elem_of_singleton in Hin as <-. done.
  - split; [|by left]. destruct I as [L U E Q M]. split; try done.
    + revert L. apply linked_Proper. unfold tokens. simpl. rewrite omap_app. simpl. rewrite Hev. solve_Permutation.
    + apply Forall_app_2; [done|]. repeat constructor. by destruct ev.
  - split; [|by left]. destruct I as [L U E Q M]. destruct (answer_ref _ _ _ Ha) as [Hr Hok]. split; try done.
    + revert L. apply linked_Proper. unfold tokens. simpl. rewrite omap_app. simpl. rewrite Hr. solve_Permutation.
    + apply Forall_app_2; [done|]. repeat constructor. apply Hok. apply Q. set_solver.
    + intros r' Hin. apply Q. simpl in *. set_solver.
Qed.

Lemma init_inv me : run_ok (init me) ∧ inv me (init me).
Proof.
  split; split; try done; try (intros; set_solver).
  - split; [constructor|]. intros sb; set_solver.
  - constructor.
  - split; try (by constructor); intros; set_solver.
Qed.

Lemma restart_inv me s s' :
  directory_ok (dir s) → restart me s s' → run_ok s' → inv me s'.
Proof.
  intros Hd Hr R. destruct Hr as [st k st' k' o b ms mb ab Hr]. cbn [dir] in Hd.
  destruct (restart_loads me (st, k) (st', k') o Hd Hr) as (-> & _ & _ & _ & Ha & Hsb). cbn [fst snd] in *.
  assert (announced (map (EventBundleUpdated ∘ get_ref) (bundles st')) = map get_ref (bundles st')) as He.
  { generalize (bundles st'). intros l. induction l as [|sb l IH]; [done|]. by apply (f_equal (cons (get_ref sb))). }
  assert (tokens {| sto := st'; dir := k'; bpa := bpa (init me); to_sto := [];
    to_bpa := map EUpdated (map get_ref (bundles st')); abroad := [] |} = map get_ref (bundles st')) as Ht.
  { unfold tokens. cbn [to_bpa bpa to_sto abroad]. rewrite updated_refs. simpl. by rewrite !app_nil_r. }
  rewrite He. destruct R as [_ Honce _]. cbn [sto] in Honce.
  assert (NoDup (map data_arc (bundles st'))) as Harcs by (rewrite Ha; apply NoDup_seq).
  assert (∀ sb, sb ∈ bundles st' → (data_arc sb < next_arc st')%nat) as Hlt.
  { intros sb Hin. assert (data_arc sb ∈ seq 0 (next_arc st')) as Hseq.
    { rewrite <-Ha. by apply list_elem_of_fmap_2. } apply elem_of_seq in Hseq. lia. }
  split; [rewrite Ht; split|..]; cbn [sto dir bpa to_sto to_bpa abroad] in *; try done.
  - by rewrite map_map.
  - intros r sb (sb' & -> & Hin')%list_elem_of_fmap Hin Hp. f_equal. by eapply (NoDup_map_inj sb_primary).
  - intros r (sb & -> & Hin)%list_elem_of_fmap. by apply Hlt.
  - intros r sb (sb' & -> & Hin')%list_elem_of_fmap Hin Hp. simpl. f_equal. by eapply (NoDup_map_inj data_arc).
  - apply Forall_forall. intros sb Hin. unfold storable_state. by destruct (Hsb sb Hin) as (-> & _).
  - intros sb Hin. left. by apply list_elem_of_fmap_2.
  - intros r st0 nd Hin. by apply elem_of_nil in Hin.
  - apply Forall_map, Forall_map, Forall_forall. intros sb Hin. simpl. by destruct (Hsb sb Hin) as (-> & _).
  - intros r Hin. by apply elem_of_nil in Hin.
Qed.

Lemma reachable_inv me s :
  Endpoint.ok me → reachable me s →
  run_ok s ∧ inv me s ∧ StorageSystem.reachable no_collision (sto s, dir s).
Proof.
  intros Hme. induction 1 as [|s s' _ (IR & II & IH) Hs Hr|s s' _ (IR & II & IH) Hs Hr].
  { destruct (init_inv me). split_and!; [done..|constructor]. }
  all: destruct (reachable_directory_ok _ _ IH) as [Hst Hd].
  2:{ split_and!; [done|by eapply restart_inv|]. destruct Hs.
      eapply StorageSystem.ReachRestart; [done..|by destruct Hr]. }
  destruct (step_inv _ _ _ Hme II Hst IR Hs Hr) as [I' Hstep]. split_and!; [done..|].
  destruct Hstep as [E|Hstep]; [by rewrite E|].
  eapply StorageSystem.ReachStep; [done..|by destruct Hr].
Qed.
End forwarding.
End DaemonSystem.

(** ** The theorems *)

Import DaemonSystem.


(** No bundle is forgotten or worked on twice: at most one reference to a bundle is
    in a mailbox, in a queue of the protocol agent or with a client or peer, and every
    stored bundle that is not a fragment (a fragment may wait for the others) is either
    about to be handled by one of the agents, or it is queued for delivery or forwarding
    and waits in a queue of the protocol agent or is with a client or peer.  The
    reference agrees with the store.  (Claim C7.) *)
Theorem no_bundle_forgotten `{!SerdeCbor, !SerdeCborLaws} me s :
  Endpoint.ok me → reachable me s →
  NoDup (map ref_primary (tokens s)) ∧
  ∀ sb, sb ∈ bundles (sto s) → fragment_offset (sb_primary sb) = None →
    get_ref sb ∈ omap event_ref (to_bpa s) ++ omap message_ref (to_sto s) ∨
    (get_ref sb ∈ queues (bpa s) ++ abroad s ∧ queued (sb_state sb) = true).
Proof.
  intros Hme (_ & I & _)%reachable_inv; [|done]. destruct I as [L U E Q M]. split; [by destruct L|].
  intros sb Hin Hwhole. destruct (li_owner _ _ L sb Hin) as [Ht|[x Hx]]; [|congruence].
  assert (get_ref sb ∈ omap event_ref (to_bpa s) ++ omap message_ref (to_sto s) ∨
    get_ref sb ∈ queues (bpa s) ++ abroad s) as [?|Hq] by (unfold tokens in Ht; set_solver); [by left|right].
  split; [done|]. by apply Q in Hq.
Qed.

(** ** A bundle for [dtn://c/app] at the node [dtn://b/], which has no route to it *)

Module DaemonWitness.
Import StorageWitness.

Definition me : Endpoint := TestBundle.endpoint "//b/".

(** The next turn of an agent. *)
Definition storage_turn (s : System) : option System :=
  match to_sto s with
  | [] => None
  | m :: ms =>
      match handle m (sto s) with
      | Ok (_, st', o) =>
          Some {| sto := st'; dir := apply_effects (dir s) o; bpa := bpa s; to_sto := ms;
                  to_bpa := to_bpa s ++ map EUpdated (announced o); abroad := abroad s |}
      | _ => None
      end
  end.

Definition env (s : System) : Env := {|
  upgrade_data := upgrade (sto s); report_clock := 0; creation_clock := 0;
  try_send := λ _ _, SendOk; hash_order := id |}.

Definition protocol_turn (s : System) : option System :=
  match to_bpa s with
  | [] => None
  | ev :: mb =>
      match handle_event (env s) ev (bpa s) with
      | Ok (_, b', o) =>
          Some {| sto := sto s; dir := dir s; bpa := b'; to_sto := to_sto s ++ omap to_storage o;
                  to_bpa := mb; abroad := abroad s ++ omap leaving o |}
      | _ => None
      end
  end.

(** The bundle has just arrived. *)
Definition arrived : System :=
  let s := DaemonSystem.init me in
  {| sto := sto s; dir := dir s; bpa := bpa s; to_sto := [MStoreReceivedBundle (sent original)];
     to_bpa := []; abroad := [] |}.
(** The one bundle, before and after it is prepared for the next hop. *)
Definition outgoing : Bundle := (inc_hop_count 16 (set_previous_node me original)).2.
Definition one_of (bs : list Bundle) (s : System) : bool :=
  match bundles (sto s) with
  | [sb] => existsb (λ b, bool_decide (bundle_of_bytes (bundle_data sb) = Ok b)) bs
  | _ => false
  end && bool_decide (deleting (dir s) = []).

Lemma one_of_run_ok bs s :
  Forall (λ b, bundle_ok b ∧ bundle_no_crc b) bs → one_of bs s = true → run_ok s.
Proof.
  intros Hbs H. unfold one_of in H. apply andb_true_iff in H as [H Hd]. apply bool_decide_eq_true in Hd.
  destruct (bundles (sto s)) as [|sb [|]] eqn:E; [done| |done].
  apply List.existsb_exists in H as (b & Hb & Hsb). apply bool_decide_eq_true in Hsb.
  rewrite Forall_forall in Hbs. apply list_elem_of_In in Hb.
  split; unfold no_collision; cbn [fst snd]; rewrite E.
  - split; [apply NoDup_singleton|]. rewrite Hd. set_solver.
  - apply NoDup_singleton.
  - intros sb' b' ->%list_elem_of_singleton Hb'. rewrite Hsb in Hb'. injection Hb' as <-. by apply Hbs.
Qed.

Lemma good_bundles : Forall (λ b, bundle_ok b ∧ bundle_no_crc b) [original; outgoing].
Proof.
  repeat constructor; try done; solve_ok.
Qed.

(** The references apart from the one the storage agent is about to handle. *)
Definition others (s : System) : list StoredBundleRef :=
  omap event_ref (to_bpa s) ++ queues (bpa s) ++ omap message_ref (tail (to_sto s)) ++ abroad s.

(** The agents take turns, as long as there is one bundle and one reference to it. *)
Fixpoint rounds (n : nat) (s : System) : option System :=
  match n with
  | O => Some s
  | S n =>
      s1 ← (if bool_decide (others s = []) then storage_turn s else None);
      s2 ← (if one_of [original; outgoing] s1 then protocol_turn s1 else None);
      if one_of [original; outgoing] s2 then rounds n s2 else None
  end.

Lemma storage_turn_step s s' : others s = [] → storage_turn s = Some s' → step s s'.
Proof.
  intros Ho H. unfold storage_turn, others in *. destruct s as [st k b ms mb ab]; simpl in *.
  destruct ms as [|m ms]; [done|]. destruct (handle m st) as [[[[] st'] o]| |] eqn:E; simplify_eq/=.
  constructor; [done|]. rewrite Ho. intros r _. right. apply not_elem_of_nil.
Qed.

Lemma protocol_turn_step s s' : protocol_turn s = Some s' → step s s'.
Proof.
  intros H. unfold protocol_turn in H. destruct s as [st k b ms mb ab]; simpl in *.
  destruct mb as [|ev mb]; [done|].
  match type of H with match ?h with _ => _ end = _ => destruct h as [[[[] b'] o]| |] eqn:E end; simplify_eq/=.
  by eapply StepProtocol; [|exact E].
Qed.

Lemma rounds_reachable n s s' : reachable me s → rounds n s = Some s' → reachable me s'.
Proof.
  revert s. induction n as [|n IH]; intros s Hr H; simpl in H; [by simplify_eq|].
  apply bind_Some in H as (s1 & H1 & H). case_bool_decide; [|done].
  apply bind_Some in H as (s2 & H2 & H).
  destruct (one_of _ s1) eqn:O1; [|done]. destruct (one_of _ s2) eqn:O2; [|done].
  apply (IH s2); [|done]. eapply ReachStep; [eapply ReachStep; [done|..]|..].
  - by apply storage_turn_step.
  - eapply one_of_run_ok; [apply good_bundles|done].
  - by apply protocol_turn_step.
  - eapply one_of_run_ok; [apply good_bundles|done].
Qed.

Lemma arrived_reachable : reachable me arrived.
Proof.
  eapply ReachStep; [apply ReachInit|apply (StepArrival (MStoreReceivedBundle (sent original))); done|].
  split; [split; [constructor|intros sb; set_solver]|constructor|intros; set_solver].
Qed.

(** After three rounds the bundle waits for a route. *)
Definition waits (s : System) : bool :=
  match bundles (sto s) with
  | [sb] => bool_decide (sb_state sb = ForwardingQueued) && bool_decide (sb_primary sb = pb)
  | _ => false
  end.

Lemma run_waits :
  ∃ s sb, reachable me s ∧ bundles (sto s) = [sb] ∧ sb_state sb = ForwardingQueued ∧ sb_primary sb = pb.
Proof.
  assert (match rounds 3 arrived with Some s => waits s | None => false end = true) as H
    by (vm_compute; reflexivity).
  destruct (rounds 3 arrived) as [s|] eqn:E; [|discriminate H].
  apply (rounds_reachable _ _ _ arrived_reachable) in E. unfold waits in H.
  destruct (bundles (sto s)) as [|sb [|]] eqn:Eb; [discriminate H| |discriminate H].
  apply andb_true_iff in H as [H1%bool_decide_eq_true H2%bool_decide_eq_true].
  by exists s, sb.
Qed.
End DaemonWitness.


Lemma no_bundle_forgotten_witness :
  ∃ s sb, bundles (sto s) = [sb] ∧
    (get_ref sb ∈ omap event_ref (to_bpa s) ++ omap message_ref (to_sto s) ∨
     (get_ref sb ∈ queues (bpa s) ++ abroad s ∧ queued (sb_state sb) = true)).
Proof.
  destruct DaemonWitness.run_waits as (s & sb & Hr & Hb & Hs & Hp). exists s, sb. split; [done|].
  apply (no_bundle_forgotten DaemonWitness.me s); [solve_ok|done|rewrite Hb; left|by rewrite Hp].
Defined.
