(* ===== verification/Executions.v ===== *)
(** * Infinite executions

    An execution is a sequence of states.  What is used of it: mailboxes are queues,
    an agent with mail gets a turn at some time, and a step of a task does not stay
    enabled for ever. *)
From S2P Require Import Prelude.

(** ** Mailboxes *)

Section mail.
Context {T A : Type} (box : T → list A).

(** An agent has its turn when it takes the first message of its mailbox. *)
Definition turn (m : A) (s s' : T) : Prop := box s = m :: box s'.

Definition fair (σ : nat → T) : Prop :=
  ∀ n, box (σ n) ≠ [] → ∃ k m, (n ≤ k)%nat ∧ turn m (σ k) (σ (S k)).

(** Mail is taken from the front and put to the end. *)
Definition queue_like (σ : nat → T) : Prop :=
  ∀ n, (∃ m, turn m (σ n) (σ (S n))) ∨ ∃ l, box (σ (S n)) = box (σ n) ++ l.

Lemma mail_next σ n i m :
  queue_like σ → fair σ → box (σ n) !! i = Some m →
  ∃ k x, (n ≤ k)%nat ∧ turn x (σ k) (σ (S k)) ∧ box (σ k) !! i = Some m.
Proof.
  intros Hq Hf Hm. destruct (Hf n) as (k & x & Hle & Ht).
  { intros Hb. by rewrite Hb in Hm. }
  remember (k - n)%nat as d eqn:Ed. revert n Hle Hm Ed. induction d as [|d IH]; intros n Hle Hm Ed.
  { replace n with k in * by lia. by exists k, x. }
  destruct (Hq n) as [(y & Hy)|(l & Hl)]; [by exists n, y|].
  destruct (IH (S n)) as (j & z & Hj & Hz & Hmj); [lia| |lia|].
  { rewrite Hl, lookup_app_l; [done|by eapply lookup_lt_Some]. }
  exists j, z. split; [lia|done].
Qed.

(** All mail is handled at some time. *)
Lemma mail_handled σ n m :
  queue_like σ → fair σ → m ∈ box (σ n) → ∃ k, (n ≤ k)%nat ∧ turn m (σ k) (σ (S k)).
Proof.
  intros Hq Hf [i Hi]%list_elem_of_lookup. revert n Hi. induction i as [|i IH]; intros n Hi;
    destruct (mail_next σ n _ m Hq Hf Hi) as (k & x & Hle & Ht & Hk);
    pose proof Ht as Ht'; unfold turn in Ht; rewrite Ht in Hk; simpl in Hk.
  - injection Hk as ->. by exists k.
  - destruct (IH _ Hk) as (j & Hj & Htj). exists j. split; [lia|done].
Qed.
End mail.

(** A box does not get shorter by more mail. *)
Lemma cons_append_False {A} (m : A) l l' : l = m :: l ++ l' → False.
Proof. intros H. apply (f_equal length) in H. simpl in H. rewrite length_app in H. lia. Qed.

Lemma no_turn {A} (m : A) l : l = m :: l → False.
Proof. intros H. apply (f_equal length) in H. simpl in H. lia. Qed.

(** ** Steps of tasks *)

Section temporal.
Context {T : Type} (σ : nat → T).

Definition eventually (P : T → Prop) (n : nat) : Prop := ∃ k, (n ≤ k)%nat ∧ P (σ k).
Definition stable (P : T → Prop) : Prop := ∀ k, P (σ k) → P (σ (S k)).

(** The step that is possible in the states of [en] is not ignored for ever. *)
Definition not_ignored (en : T → Prop) : Prop := ∀ n, en (σ n) → eventually (λ s, ¬ en s) n.

Lemma stable_later P n k : stable P → (n ≤ k)%nat → P (σ n) → P (σ k).
Proof. intros Hs Hle Hp. induction Hle; auto. Qed.

(** A step that stays possible until it leads to [Q] does so. *)
Lemma leads_to (en Q : T → Prop) n :
  (∀ k, en (σ k) → en (σ (S k)) ∨ Q (σ (S k))) → not_ignored en → en (σ n) → eventually Q n.
Proof.
  intros Hs Hf Hn. destruct (Hf n Hn) as (k & Hle & Hk).
  assert (∀ d, en (σ (n + d)%nat) ∨ eventually Q n) as H.
  { induction d as [|d [IH|?]]; [left; by rewrite Nat.add_0_r| |by right].
    rewrite Nat.add_succ_r. destruct (Hs _ IH) as [?|?]; [by left|right]. eexists. split; [|done]. lia. }
  destruct (H (k - n)%nat) as [He|?]; [|done]. destruct Hk. by replace (n + (k - n))%nat with k in He by lia.
Qed.

Lemma eventually_trans P Q n :
  eventually P n → (∀ k, (n ≤ k)%nat → P (σ k) → eventually Q k) → eventually Q n.
Proof.
  intros (k & Hle & Hp) H. destruct (H k Hle Hp) as (j & Hj & Hq). exists j. split; [lia|done].
Qed.

(** What becomes true for good for each member of a list becomes true for all. *)
Lemma eventually_Forall {A} (P : A → T → Prop) (l : list A) n :
  (∀ a, stable (P a)) → Forall (λ a, eventually (P a) n) l → eventually (λ s, Forall (λ a, P a s) l) n.
Proof.
  intros Hs. induction 1 as [|a l (k & Hk & Ha) _ (j & Hj & Hl)]; [exists n; by split|].
  exists (k `max` j)%nat. split; [lia|]. constructor.
  - apply (stable_later (P a) k); [apply Hs|lia|done].
  - eapply Forall_impl; [exact Hl|]. intros b Hb. apply (stable_later (P b) j); [apply Hs|lia|exact Hb].
Qed.
End temporal.
