(* ===== verification/DaemonLiveness.v ===== *)
(** * No bundle is stuck in a mailbox

    The agents of [DaemonSystem.v] in infinite executions in which an agent with mail
    gets a turn at some time.  Every message and every event about a bundle has a
    rank, which only gets smaller when an agent handles it; so every stored bundle
    that is not a fragment ends up waiting in a queue, with a client or a peer, or
    leaves the store. *)
From S2P Require Import Prelude RustStr Actor Cbor CborRfc Flags CrcTime Endpoint PrimaryBlock.
From S2P Require Import Block Bundle Fragment FragmentSize AdminRecord Storage StorageSystem.
From S2P Require Import StorageShape ProtocolAgent ProtocolAgentProps DaemonTokens StorageMin DaemonSystem Executions.
Import Crc Time DaemonSystem.

(** ** Requests to fragment *)

(** The request can be met as far as the bundle's smallest size is known. *)
Definition fits_request (x : ProtocolAgent.Output) : Prop :=
  match x with ProtocolAgent.ToStorage (MFragmentBundle r n) => ProtocolAgent.can_not_fit r n = false | _ => True end.

Definition no_request (x : ProtocolAgent.Output) : Prop :=
  match x with ProtocolAgent.ToStorage (MFragmentBundle _ _) => False | _ => True end.

Lemma no_request_fits o : Forall no_request o → Forall fits_request o.
Proof. intros H. eapply Forall_impl; [exact H|]. by intros [[]| |]. Qed.

Section requests.
Context {HC : SerdeCbor}.

Lemma report_no_request flag env r reason b1 b2 b3 b4 st st' o :
  ProtocolAgent.send_requested_report flag env r reason b1 b2 b3 b4 st = Ok ((), st', o) → Forall no_request o.
Proof.
  unfold ProtocolAgent.send_requested_report, ProtocolAgent.send_status_report. intros H.
  case_match; ainv; [|constructor]. case_match; ainv; repeat constructor.
Qed.

Lemma local_loop_no_request env d sender i q st st' o :
  ProtocolAgent.local_loop env d sender i q st = Ok ((), st', o) → Forall no_request o.
Proof.
  revert i st st' o. induction q as [|r q IH]; intros i st st' o H; cbn [ProtocolAgent.local_loop] in H; ainv;
    [constructor|]. destruct (try_send env d i); ainv; repeat constructor. by eapply IH.
Qed.

Lemma deliver_local_no_request env d st st' o :
  ProtocolAgent.deliver_local_bundles env d st = Ok ((), st', o) → Forall no_request o.
Proof.
  unfold ProtocolAgent.deliver_local_bundles. intros H. ainv.
  case_match; ainv; [|constructor]. case_match; ainv; [|constructor]. by eapply local_loop_no_request.
Qed.

Lemma deliver_remote_fits env d st st' o :
  ProtocolAgent.deliver_remote_bundles env d st = Ok ((), st', o) → Forall fits_request o.
Proof.
  intros H. assert (∃ node, Endpoint.get_node_endpoint (E := Empty_set) d = Ok node) as (node & Hn).
  { unfold ProtocolAgent.deliver_remote_bundles in H. ainv. eauto. }
  rewrite (deliver_remote_unfold _ _ _ _ Hn) in H.
  destruct (link_of st node) as [[sender mbs]|]; [|simplify_eq; constructor].
  destruct (ProtocolAgent.remote_bundles st !! node) as [q|]; [|simplify_eq; constructor].
  destruct (remote_loop_spec env node sender mbs (S (length q)) 0 [] q [] st)
    as (st1 & o1 & q' & Hr & _ & Ho & _); [lia|constructor|].
  rewrite app_nil_r, H in Hr. simplify_eq. eapply Forall_impl; [exact Ho|].
  intros [[]| |]; try done. by intros [_ ?].
Qed.

Lemma for_each_fits env l st st' o :
  for_each (ProtocolAgent.deliver_remote_bundles env) l st = Ok ((), st', o) → Forall fits_request o.
Proof.
  revert st o. induction l as [|x l IH]; intros st o H; cbn [for_each] in H; ainv; [constructor|].
  apply Forall_app_2; [by eapply deliver_remote_fits|by eapply IH].
Qed.

(** Every request fits, and only an event about a queued bundle leads to one. *)
Lemma handle_event_requests env ev st st' o :
  handle_event env ev st = Ok ((), st', o) →
  Forall fits_request o ∧
  (∀ r, ev = EUpdated r → queued (ref_state r) = false → Forall no_request o).
Proof.
  assert (Hall : Forall no_request o →
    Forall fits_request o ∧ (∀ r, ev = EUpdated r → queued (ref_state r) = false → Forall no_request o)).
  { intros Hn. split; [by apply no_request_fits|done]. }
  destruct ev as [r|e r|e r|e r|e r|e s|e|e s|e|routes]; cbn [handle_event]; intros H.
  - unfold ProtocolAgent.EventBundleUpdated in H. destruct (ref_state r) eqn:Es.
    + apply Hall. unfold ProtocolAgent.update in H. ainv. apply Forall_app_2; [|repeat constructor].
      match goal with E : (if ?b then _ else _) _ = _ |- _ => destruct b; ainv; [constructor|] end.
      by eapply report_no_request.
    + apply Hall. apply actor_bind_Ok in H as ([s nd] & st1 & o1 & o2 & Hd & H & ->).
      unfold ProtocolAgent.update in H. ainv. apply Forall_app_2; [|repeat constructor].
      unfold ProtocolAgent.dispatch_valid in Hd. ainv. case_match; ainv; [repeat constructor|].
      case_match; ainv; try done. rewrite app_nil_r. by eapply report_no_request.
    + apply Hall. ainv. constructor.
    + apply Hall. ainv. by eapply deliver_local_no_request.
    + apply Hall. ainv. constructor.
    + ainv. split; [by eapply deliver_remote_fits|]. intros r' [= <-]. by rewrite Es.
    + apply Hall. ainv. constructor.
    + apply Hall. ainv. constructor.
  - apply Hall. unfold ProtocolAgent.EventBundleDelivered, ProtocolAgent.update in H. ainv.
    apply Forall_app_2; [by eapply report_no_request|]. constructor; [done|]. by eapply deliver_local_no_request.
  - apply Hall. unfold ProtocolAgent.EventBundleDeliveryFailed in H. ainv. constructor.
  - unfold ProtocolAgent.EventBundleForwarded, ProtocolAgent.update in H. ainv. split; [|done].
    apply Forall_app_2; [eapply no_request_fits; by eapply report_no_request|].
    constructor; [done|]. by eapply deliver_remote_fits.
  - apply Hall. unfold ProtocolAgent.EventBundleForwardingFailed in H. ainv. constructor.
  - apply Hall. unfold ProtocolAgent.EventClientConnected in H. ainv. by eapply deliver_local_no_request.
  - apply Hall. unfold ProtocolAgent.EventClientDisconnected in H. ainv. constructor.
  - unfold ProtocolAgent.EventPeerConnected, ProtocolAgent.assert_node_endpoint in H. ainv. split; [|done].
    by eapply deliver_remote_fits.
  - apply Hall. unfold ProtocolAgent.EventPeerDisconnected, ProtocolAgent.assert_node_endpoint in H. ainv. constructor.
  - unfold ProtocolAgent.EventRoutingTableUpdate in H. ainv. split; [|done].
    apply Forall_app_2; by eapply for_each_fits.
Qed.
End requests.

(** ** Ranks *)

Definition rank_event (ev : Event) : nat :=
  match ev with
  | EUpdated r =>
      match ref_state r with
      | Received => 10
      | Valid => 8
      | _ => if is_none (ref_min_size r) then 4 else 2
      end
  | _ => 5
  end.
Definition rank_message (m : Message) : nat :=
  match m with
  | MUpdateBundle _ Valid _ => 9
  | MUpdateBundle _ (DeliveryQueued | ForwardingQueued) _ => 7
  | MUpdateBundle _ _ _ => 1
  | MFragmentBundle r _ => if is_none (ref_min_size r) then 3 else 1
  | _ => 0
  end.

Section progress.
Context {HC : SerdeCbor} {HL : SerdeCborLaws}.

(** What else holds in every reachable state. *)
Record live_inv (s : System) : Prop := {
  lv_min : Forall min_ok (bundles (sto s));
  lv_requests : ∀ r n, MFragmentBundle r n ∈ to_sto s →
    ProtocolAgent.can_not_fit r n = false ∧ queued (ref_state r) = true;
}.

Lemma run_ok_plain s : run_ok s → Forall stored_ok (bundles (sto s)) → bundles_plain (sto s).
Proof.
  intros R Hst sb b Hin Hb. destruct (ro_bundles _ R sb b Hin Hb) as [Hok Hnc]. split_and!; [done..|].
  rewrite Forall_forall in Hst. destruct (so_bundle _ (Hst sb Hin)) as (b' & Hb' & Hp & _).
  rewrite Hb in Hb'. by simplify_eq.
Qed.

Lemma linked_timely m (ms : list Message) st ts :
  linked st ts → (∀ r, message_ref m = Some r → r ∈ ts) →
  (∀ r s nd, MUpdateBundle r s nd ∈ m :: ms → fits r s nd) →
  (∀ r n, MFragmentBundle r n ∈ m :: ms → ProtocolAgent.can_not_fit r n = false ∧ queued (ref_state r) = true) →
  timely m st.
Proof.
  intros L Hts U F. assert (∀ r sb, message_ref m = Some r → sb ∈ bundles st → sb_primary sb = ref_primary r →
    sb_state sb = ref_state r) as Hcur.
  { intros r sb Hr Hin Hp. by rewrite <-(li_current _ _ L r sb (Hts r Hr) Hin Hp). }
  destruct m as [| |r n|r s nd]; simpl; [done..| |].
  - intros sb Hin Hp. rewrite (Hcur r sb eq_refl Hin Hp). eapply F. left.
  - intros Hs sb Hin Hp. rewrite (Hcur r sb eq_refl Hin Hp).
    destruct (U r s nd) as (_ & Hv & Hq & _); [left|].
    destruct Hs as [->|[->| ->]]; [by rewrite Hv|by rewrite Hq; auto..].
Qed.

Lemma storage_progress m st st' o ts r :
  NoDup (map sb_primary (bundles st)) → bundles_plain st → Forall min_ok (bundles st) →
  linked st ts → r ∈ ts → timely m st → message_fits m →
  (∀ r n, m = MFragmentBundle r n → ProtocolAgent.can_not_fit r n = false) →
  handle m st = Ok ((), st', o) → message_ref m = Some r → whole (ref_primary r) →
  (∀ sb, sb ∈ bundles st' → sb_primary sb ≠ ref_primary r) ∨
  ∃ r', r' ∈ announced o ∧ ref_primary r' = ref_primary r ∧ (rank_event (EUpdated r') < rank_message m)%nat.
Proof.
  intros Hnd Hpl Hmin L Hr Ht Hm Hfit H Href Hw.
  destruct (decide (Exists (λ sb, sb_primary sb = ref_primary r) (bundles st'))) as [Hex|Hno].
  2:{ left. intros sb Hin Hp. apply Hno, Exists_exists. eauto. }
  right. apply Exists_exists in Hex as (sb & Hin & Hp).
  destruct (handle_shape _ _ _ _ Hnd H) as (kept & gone & new & [B B' A _ _ Hwait]).
  rewrite B' in Hin. apply elem_of_app in Hin as [Hin|Hin].
  { destruct (Hwait r sb Href Hin Hp) as [nd ->]. destruct Hm as (_ & _ & _ & Hm).
    destruct Hm as [x Hx]; [done|]. unfold whole in Hw. congruence. }
  assert (get_ref sb ∈ announced o) as Ha by (rewrite A; by apply list_elem_of_fmap_2).
  exists (get_ref sb). split_and!; [done..|]. destruct m as [| |r0 n|r0 s nd]; simplify_eq/=.
  - destruct (FragmentBundle_cases _ _ _ _ _ Hpl H) as [Hf|(l1 & sb0 & l2 & b & k & Hl & Hp0 & Hb & Hf & _ & Ho)].
    { destruct (Hf _ Ha). unfold whole in *. simpl. congruence. }
    rewrite Ho in Ha. apply list_elem_of_singleton in Ha. injection Ha as _ Hs _ _ Hk _.
    assert (sb0 ∈ bundles st) as Hin0 by (rewrite Hl; set_solver).
    rewrite Hs, Hk. pose proof (Ht sb0 Hin0 Hp0) as Hq.
    assert (get_ref sb0 = r) as Hcur by by eapply li_current.
    destruct (ref_min_size r) as [j|] eqn:Ej; simpl; [|destruct (sb_state sb0); simpl; try done; lia].
    exfalso. rewrite Forall_forall in Hmin. destruct (Hmin sb0 Hin0) with j as [_ He].
    + unfold whole in *. congruence.
    + by rewrite <-Hcur in Ej.
    + eapply (He b n k); [done| |done]. specialize (Hfit r n eq_refl).
      unfold ProtocolAgent.can_not_fit in Hfit. rewrite Ej in Hfit. apply orb_false_iff in Hfit as [_ ?%Z.ltb_ge]. lia.
  - destruct (decide (s = DefragmentationPending)) as [->|Hne].
    { destruct Hm as (_ & _ & _ & [x Hx]); [done|]. unfold whole in Hw. congruence. }
    destruct (UpdateBundle_announces _ _ _ _ _ _ _ H Hne Ha) as (Hs & Hst & _). simpl in Hst. rewrite Hst.
    destruct Hs as [->|[->| ->]]; [lia|case_match; lia..].
Qed.

Lemma output_message (o : list ProtocolAgent.Output) r :
  r ∈ omap output_ref o → r ∈ omap leaving o ∨ ∃ m, m ∈ omap to_storage o ∧ message_ref m = Some r.
Proof.
  rewrite output_refs. intros [(m & Hm & Hr)%list_elem_of_omap|?]%elem_of_app; [right; eauto|by left].
Qed.

Lemma protocol_progress env ev b b' o r :
  event_ok ev → handle_event env ev b = Ok ((), b', o) → event_ref ev = Some r →
  r ∈ queues b' ++ omap leaving o ∨
  ∃ m, m ∈ omap to_storage o ∧ message_ref m = Some r ∧ (rank_message m < rank_event ev)%nat.
Proof.
  intros Hev H Href. destruct (handle_event_moves _ _ _ _ _ Hev H) as (Hq & _ & Ha & _).
  assert (r ∈ queues b' ++ omap output_ref o) as Hin by (rewrite Hq, Href; set_solver).
  apply elem_of_app in Hin as [Hin|Hin]; [left; set_solver|].
  destruct (output_message _ _ Hin) as [?|(m & Hm & Hmr)]; [left; set_solver|right].
  exists m. split_and!; [done..|]. apply elem_of_to_storage in Hm.
  destruct m as [| |r0 n|r0 s nd]; simplify_eq/=.
  - destruct (handle_event_requests _ _ _ _ _ H) as [_ Hno].
    destruct ev as [r1|? r1|? r1|? r1|? r1| | | | |]; simplify_eq/=; try (case_match; lia).
    destruct (queued (ref_state r)) eqn:Eq.
    + destruct (ref_state r); try done; destruct (ref_min_size r); simpl; lia.
    + specialize (Hno r eq_refl Eq). rewrite Forall_forall in Hno. by specialize (Hno _ Hm).
  - destruct (Ha _ _ _ Hm); simpl in *; simplify_eq; repeat case_match; try done; lia.
Qed.

(** ** The invariant of reachable states *)

Lemma unqueued_event ev r :
  event_ok ev → event_ref ev = Some r → queued (ref_state r) = false → ev = EUpdated r.
Proof. destruct ev; simpl; intros; simplify_eq; congruence. Qed.

Lemma step_live me s s' :
  inv me s → Forall stored_ok (bundles (sto s)) → run_ok s → live_inv s → step s s' → live_inv s'.
Proof.
  intros I Hst R V Hs. pose proof (run_ok_plain s R Hst) as Hpl.
  destruct Hs as [st k st' o b m ms mb ab H Hf|st fs n l1 l2 b ms mb ab|env st k b b' o ev ms mb ab He H
                 |m st k b ms mb ab Hm|ev st k b ms mb ab Hev|e r ev st k b ms mb ab1 ab2 Ha];
    destruct I as [L U E Q M], V as [V1 V2]; cbn [sto dir bpa to_sto to_bpa abroad] in *.
  - split; cbn [sto to_sto]; [|intros r n Hin; apply V2; by right].
    eapply handle_min_ok; [apply R|exact Hpl|done| |exact H].
    eapply linked_timely; [exact L| |exact U|exact V2]. intros r Hr. unfold tokens.
    cbn [to_sto to_bpa bpa abroad]. rewrite omap_cons_option, Hr. set_solver.
  - by split.
  - split; cbn [sto to_sto]; [done|]. intros r n [Hin|Hin]%elem_of_app; [by apply V2|].
    apply elem_of_to_storage in Hin. apply Forall_cons in E as [Hev E].
    destruct (handle_event_requests _ _ _ _ _ H) as [Hfit Hno].
    split; [rewrite Forall_forall in Hfit; by apply (Hfit _ Hin)|].
    destruct (handle_event_moves _ _ _ _ _ Hev H) as (Hq & _ & _ & _).
    assert (r ∈ queues b' ++ omap output_ref o) as Hr.
    { apply elem_of_app. right. apply list_elem_of_omap. by eexists. }
    rewrite Hq in Hr. apply elem_of_app in Hr as [Hr|Hr]; [apply Q; set_solver|].
    destruct (queued (ref_state r)) eqn:Eq; [done|]. exfalso.
    assert (event_ref ev = Some r) as Href.
    { destruct (event_ref ev); [by apply list_elem_of_singleton in Hr as ->|by apply elem_of_nil in Hr]. }
    rewrite (unqueued_event _ _ Hev Href Eq) in Hno. specialize (Hno r eq_refl Eq).
    rewrite Forall_forall in Hno. by apply (Hno _ Hin).
  - split; cbn [sto to_sto]; [done|]. intros r n [Hin|Hin]%elem_of_app; [by apply V2|].
    apply list_elem_of_singleton in Hin as <-. done.
  - by split.
  - by split.
Qed.

Lemma restart_live me s s' : directory_ok (dir s) → restart me s s' → live_inv s'.
Proof.
  intros Hd Hr. destruct Hr as [st k st' k' o b ms mb ab Hr]. cbn [dir] in Hd.
  destruct (restart_loads me (st, k) (st', k') o Hd Hr) as (_ & _ & _ & _ & _ & Hsb).
  split; cbn [sto to_sto fst snd] in *; [|intros r n Hin; by apply elem_of_nil in Hin].
  apply Forall_forall. intros sb Hin _ m Hm. destruct (Hsb sb Hin) as (_ & _ & Hn & _). congruence.
Qed.

Lemma reachable_live me s :
  Endpoint.ok me → reachable me s →
  inv me s ∧ live_inv s ∧ run_ok s ∧ Forall stored_ok (bundles (sto s)).
Proof.
  intros Hme H. assert (∀ s, reachable me s → inv me s ∧ run_ok s ∧ Forall stored_ok (bundles (sto s))) as Hall.
  { intros s0 Hr. destruct (reachable_inv _ _ Hme Hr) as (R & I & D).
    by destruct (reachable_directory_ok _ _ D). }
  destruct (Hall s H) as (I & R & Hst). split_and!; [done| |done..]. clear I R Hst.
  induction H as [|s s' H IH Hs R'|s s' H IH Hs R'].
  - split; [constructor|]. intros r n Hin. by apply elem_of_nil in Hin.
  - destruct (Hall s H) as (I & R & Hst). by eapply step_live.
  - destruct (reachable_inv _ _ Hme H) as (_ & _ & D). apply reachable_directory_ok in D as [_ Hd].
    cbn [snd] in Hd. by eapply restart_live.
Qed.
End progress.

(** ** Executions *)

Section liveness.
Context {HC : SerdeCbor} {HL : SerdeCborLaws} (me : Endpoint) (Hme : Endpoint.ok me).

Record execution (σ : nat → System) : Prop := {
  ex_start : reachable me (σ 0%nat);
  ex_step n : σ (S n) = σ n ∨ (step (σ n) (σ (S n)) ∧ run_ok (σ (S n)));
  ex_storage : fair to_sto σ;
  ex_protocol : fair to_bpa σ;
}.

Lemma execution_reachable σ n : execution σ → reachable me (σ n).
Proof.
  intros E. induction n as [|n IH]; [by apply ex_start|].
  destruct (ex_step _ E n) as [->|[Hs R]]; [done|by eapply ReachStep].
Qed.

Lemma storage_queue σ : execution σ → queue_like to_sto σ.
Proof.
  intros E n. destruct (ex_step _ E n) as [->|[Hs _]]; [right; exists []; by rewrite app_nil_r|].
  destruct Hs; cbn [to_sto]; first [by left; eexists | by right; eexists | right; exists []; by rewrite app_nil_r].
Qed.

Lemma protocol_queue σ : execution σ → queue_like to_bpa σ.
Proof.
  intros E n. destruct (ex_step _ E n) as [->|[Hs _]]; [right; exists []; by rewrite app_nil_r|].
  destruct Hs; cbn [to_bpa]; first [by left; eexists | by right; eexists | right; exists []; by rewrite app_nil_r].
Qed.

(** A turn of the storage agent is a step of it. *)
Lemma storage_turn_inv σ n m :
  execution σ → turn to_sto m (σ n) (σ (S n)) →
  ∃ st' o, handle m (sto (σ n)) = Ok ((), st', o) ∧ sto (σ (S n)) = st' ∧
    to_bpa (σ (S n)) = to_bpa (σ n) ++ map EUpdated (announced o).
Proof.
  intros E Ht. unfold turn in Ht. destruct (ex_step _ E n) as [Hs|[Hs _]].
  { rewrite Hs in Ht. by apply no_turn in Ht. }
  destruct Hs; cbn [to_sto sto to_bpa] in *; simplify_eq; try (by apply no_turn in Ht);
    try (by apply cons_append_False in Ht). eauto.
Qed.

Lemma protocol_turn_inv σ n ev :
  execution σ → turn to_bpa ev (σ n) (σ (S n)) →
  ∃ env b' o, handle_event env ev (bpa (σ n)) = Ok ((), b', o) ∧ bpa (σ (S n)) = b' ∧
    sto (σ (S n)) = sto (σ n) ∧ to_sto (σ (S n)) = to_sto (σ n) ++ omap to_storage o ∧
    abroad (σ (S n)) = abroad (σ n) ++ omap leaving o.
Proof.
  intros E Ht. unfold turn in Ht. destruct (ex_step _ E n) as [Hs|[Hs _]].
  { rewrite Hs in Ht. by apply no_turn in Ht. }
  destruct Hs; cbn [to_sto sto to_bpa bpa abroad] in *; simplify_eq; try (by apply no_turn in Ht);
    try (by apply cons_append_False in Ht). do 3 eexists. split; [done|]. done.
Qed.

(** The bundle is not stored, or it waits in a queue or is with a client or a peer. *)
Definition settled (p : PrimaryBlock) (s : System) : Prop :=
  (∀ sb, sb ∈ bundles (sto s) → sb_primary sb ≠ p) ∨
  ∃ sb, sb ∈ bundles (sto s) ∧ sb_primary sb = p ∧ get_ref sb ∈ queues (bpa s) ++ abroad s.

Lemma held_settled s r : inv me s → r ∈ queues (bpa s) ++ abroad s → settled (ref_primary r) s.
Proof.
  intros I Hr.
  destruct (decide (Exists (λ sb, sb_primary sb = ref_primary r) (bundles (sto s)))) as [Hex|Hno].
  - right. apply Exists_exists in Hex as (sb & Hin & Hp). exists sb. split_and!; [done..|].
    rewrite (li_current _ _ (in_linked _ _ I) r sb); [done| |done..]. unfold tokens. set_solver.
  - left. intros sb Hin Hp. apply Hno, Exists_exists. eauto.
Qed.

(** Mail about a bundle, by its rank. *)
Definition mail (p : PrimaryBlock) (k : nat) (s : System) : Prop :=
  (∃ ev r, ev ∈ to_bpa s ∧ event_ref ev = Some r ∧ ref_primary r = p ∧ rank_event ev = k) ∨
  (∃ m r, m ∈ to_sto s ∧ message_ref m = Some r ∧ ref_primary r = p ∧ rank_message m = k).

Lemma mail_settles σ p :
  execution σ → whole p → ∀ k n, mail p k (σ n) → ∃ j, (n ≤ j)%nat ∧ settled p (σ j).
Proof.
  intros E Hw k. induction (lt_wf k) as [k _ IH]. intros n [(ev & r & Hin & Hr & Hp & Hk)|(m & r & Hin & Hr & Hp & Hk)].
  - destruct (mail_handled to_bpa σ n ev) as (j & Hle & Ht); [by apply protocol_queue|by apply ex_protocol|done|].
    destruct (protocol_turn_inv _ _ _ E Ht) as (env & b' & o & H & Hb & _ & Hms & Hab).
    destruct (reachable_live _ _ Hme (execution_reachable σ j E)) as (I & _).
    destruct (reachable_live _ _ Hme (execution_reachable σ (S j) E)) as (I' & _).
    assert (event_ok ev) as Hev.
    { pose proof (in_events _ _ I) as He. rewrite Forall_forall in He. apply He. rewrite Ht. left. }
    destruct (protocol_progress _ _ _ _ _ _ Hev H Hr) as [Hheld|(m & Hm & Hmr & Hlt)].
    + exists (S j). split; [lia|]. rewrite <-Hp. apply held_settled; [done|]. rewrite Hb, Hab. set_solver.
    + destruct (IH (rank_message m)) with (S j) as (i & Hi & Hs); [lia| |exists i; split; [lia|done]].
      right. exists m, r. split_and!; [|done..]. rewrite Hms. set_solver.
  - destruct (mail_handled to_sto σ n m) as (j & Hle & Ht); [by apply storage_queue|by apply ex_storage|done|].
    destruct (storage_turn_inv _ _ _ E Ht) as (st' & o & H & Hst & Hmb).
    destruct (reachable_live _ _ Hme (execution_reachable σ j E)) as (I & V & R & Hok).
    assert (r ∈ tokens (σ j)) as Htok.
    { unfold tokens. rewrite Ht, omap_cons_option, Hr. set_solver. }
    destruct I as [L U _ _ _], V as [V1 V2]. rewrite Ht in U, V2.
    destruct (storage_progress m (sto (σ j)) st' o (tokens (σ j)) r) as [Hgone|(r' & Ha & Hp' & Hlt)]; try done.
    + apply R.
    + by apply run_ok_plain.
    + eapply linked_timely; [exact L| |exact U|exact V2]. intros r' Hr'. by simplify_eq.
    + destruct m; try done. apply U. left.
    + intros r0 n0 ->. apply (V2 r0 n0). left.
    + by rewrite Hp.
    + exists (S j). split; [lia|]. left. rewrite Hst, <-Hp. done.
    + destruct (IH (rank_event (EUpdated r'))) with (S j) as (i & Hi & Hs); [lia| |exists i; split; [lia|done]].
      left. exists (EUpdated r'), r'. split_and!; [|done|congruence|done].
      rewrite Hmb. apply elem_of_app. right. by apply list_elem_of_fmap_2.
Qed.
End liveness.


(** ** The bundle of [DaemonSystem.v] once more *)

Module LivenessWitness.
Import DaemonWitness.

(** An agent with mail takes it, the storage agent first. *)
Definition tick (s : System) : System :=
  match storage_turn s with
  | Some s' => s'
  | None => match protocol_turn s with Some s' => s' | None => s end
  end.

Definition run (n : nat) : System := Nat.iter n tick arrived.

(** One agent has mail and can handle it, and there is one bundle afterwards. *)
Definition good (s : System) : bool :=
  match to_sto s, to_bpa s with
  | _ :: _, [] => bool_decide (others s = []) && is_some (storage_turn s)
  | [], _ :: _ => is_some (protocol_turn s)
  | _, _ => false
  end && one_of [StorageWitness.original; outgoing] (tick s).

Lemma run_good n : (n < 6)%nat → good (run n) = true.
Proof.
  intros Hn. assert (forallb (λ n, good (run n)) (seq 0 6) = true) as H by (vm_compute; reflexivity).
  rewrite forallb_forall in H. apply H, in_seq. lia.
Qed.

Lemma run_quiet n : (6 ≤ n)%nat → run n = run 6.
Proof.
  intros Hn. assert (tick (run 6) = run 6) as Hq.
  { assert (storage_turn (run 6) = None) as H1 by (vm_compute; reflexivity).
    assert (protocol_turn (run 6) = None) as H2 by (vm_compute; reflexivity).
    unfold tick. by rewrite H1, H2. }
  replace n with ((n - 6) + 6)%nat by lia. induction (n - 6)%nat as [|k IH]; [done|].
  change (tick (run (k + 6)) = run 6). by rewrite IH.
Qed.

Lemma run_empty : to_sto (run 6) = [] ∧ to_bpa (run 6) = [].
Proof. split; vm_compute; reflexivity. Qed.

Lemma good_tick s :
  good s = true → step s (tick s) ∧ run_ok (tick s) ∧
  (to_sto s ≠ [] → ∃ m, turn to_sto m s (tick s)) ∧ (to_bpa s ≠ [] → ∃ ev, turn to_bpa ev s (tick s)).
Proof.
  unfold good. intros [H Ho]%andb_true_iff.
  assert (run_ok (tick s)) as R by (eapply one_of_run_ok; [apply good_bundles|done]).
  destruct (to_sto s) as [|m ms] eqn:Ems, (to_bpa s) as [|ev mb] eqn:Emb; try done.
  - assert (storage_turn s = None) as H1 by (unfold storage_turn; by rewrite Ems).
    unfold tick in *. rewrite H1 in *. destruct (protocol_turn s) as [s'|] eqn:Hp; [|done].
    split_and!; [by apply protocol_turn_step|done|done|]. intros _. exists ev.
    unfold protocol_turn in Hp. rewrite Emb in Hp. unfold turn. rewrite Emb. clear H H1 Ho R.
    destruct (handle_event _ _ _) as [[[u b'] o]| |]; [|discriminate..]. by injection Hp as <-.
  - apply andb_true_iff in H as [Hot H]. apply bool_decide_eq_true in Hot.
    unfold tick in *. destruct (storage_turn s) as [s'|] eqn:Hs; [|done].
    split_and!; [by apply storage_turn_step|done| |done]. intros _. exists m.
    unfold storage_turn in Hs. rewrite Ems in Hs. unfold turn. rewrite Ems. clear H Ho R.
    destruct (handle _ _) as [[[u st'] o]| |]; [|discriminate..]. by injection Hs as <-.
Qed.

Lemma run_execution : execution me run.
Proof.
  assert (∀ n, (n < 6)%nat ∨ (6 ≤ n)%nat) as Hn by lia.
  assert (Hbox : ∀ A (box : System → list A), box (run 6) = [] →
    (∀ s, good s = true → box s ≠ [] → ∃ m, turn box m s (tick s)) → fair box run).
  { intros A box He Hb n Hne. destruct (Hn n) as [Hlt|Hge]; [|destruct Hne; by rewrite run_quiet].
    destruct (Hb (run n) (run_good n Hlt) Hne) as (m & Hm). by exists n, m. }
  split.
  - apply arrived_reachable.
  - intros n. destruct (Hn n) as [Hlt|Hge].
    + right. by destruct (good_tick _ (run_good n Hlt)) as (? & ? & _).
    + left. rewrite (run_quiet (S n)), (run_quiet n) by lia. reflexivity.
  - apply Hbox; [apply run_empty|]. intros s Hg. by apply good_tick.
  - apply Hbox; [apply run_empty|]. intros s Hg. by apply good_tick.
Qed.
End LivenessWitness.

