(* ===== verification/Shutdown.v ===== *)
(** * Starting and stopping the programs (dtrd/src/main.rs, replistore/src/main.rs)

    [main] starts the servers as tasks, waits until one of them ends or Ctrl-C is
    pressed, tells the others over a broadcast channel to stop, and waits until every
    sender of a second channel is dropped.  The servers are the gRPC server of dtrd
    (clientgrpcagent/agent.rs, [main]), the listener of the TCPCL server
    ([tcpcl_listener]) and the S3 server of replistore (s3_frontend.rs, [run]).
    Sockets and the parsing of addresses are [Os]. *)
From S2P Require Import Prelude RustStr Settings Executions.

Module Shutdown.

Class Os := {
  SocketAddr : Type;
  IoError : Type;
  parse_socket_addr : bytes → option SocketAddr;
  bind : SocketAddr → option IoError;
  bind_port : Z → option IoError;
}.

(** ** Tasks *)
Inductive TaskKind := ApiAgent | TcpclListener | S3Server.

#[export] Instance TaskKind_eq_dec : EqDecision TaskKind.
Proof. solve_decision. Defined.

(** [Draining]: it has left its loop and waits for what it still serves. *)
Inductive TaskResult := TaskOk | TaskErr | TaskPanic.
Inductive TaskState := Running | Draining | Ended (r : TaskResult).

Record Task := { kind : TaskKind; task_state : TaskState }.

(** The task of the listener does not mention the sender that [tcpcl_listener] is
    given, which is dropped when that function returns. *)
Definition holds_sender (k : TaskKind) : bool :=
  match k with ApiAgent | S3Server => true | TcpclListener => false end.

Definition ended (t : Task) : bool := match task_state t with Ended _ => true | _ => false end.

(** ** The programs *)
Inductive Stage := Selecting | Waiting | Exited.

#[export] Instance Stage_eq_dec : EqDecision Stage.
Proof. solve_decision. Defined.

Inductive Program := DtrdMain | ReplistoreMain.

Inductive Output :=
| NewClientConnectedOnSocket
| ServeConnection
| ShutdownClientAgent
| ShutdownTcpclServer
| StopSystem.

(** [notify_shutdown] and [main_sender]: [main] still has the sender of the broadcast
    and one of the channel that tells about completion. *)
Record State := {
  stage : Stage;
  ctrl_c : bool;
  notify_shutdown : bool;
  main_sender : bool;
  tasks : list Task;
  out : list Output;
}.

Section start.
Context {OS : Os}.

(** [tcpcl_listener] up to the task it starts. *)
Definition tcpcl_listener (settings : DtrdSettings.Settings) : outcome IoError () :=
  socket ← unwrap (parse_socket_addr (DtrdSettings.tcpcl_listen_address settings));
  match bind socket with Some e => Err e | None => Ok () end.

(** [clientgrpcagent::agent::main] up to the running server. *)
Definition grpc_main (settings : DtrdSettings.Settings) : outcome IoError () :=
  addr ← unwrap (parse_socket_addr (DtrdSettings.grpc_clientapi_address settings));
  match bind addr with Some e => Err e | None => Ok () end.

(** [S3Frontend::run] up to its loop. *)
Definition s3_run (s3_port : Z) : outcome IoError () :=
  match bind_port s3_port with Some e => Err e | None => Ok () end.

(** A task whose start fails has ended. *)
Definition spawn (k : TaskKind) (r : outcome IoError ()) : Task :=
  {| kind := k;
     task_state := match r with Ok _ => Running | Err _ => Ended TaskErr | Panic => Ended TaskPanic end |}.

Definition started (ts : list Task) : State := {|
  stage := Selecting; ctrl_c := false; notify_shutdown := true; main_sender := true;
  tasks := ts; out := [] |}.

(** [main] of dtrd up to the [select!]: a port for tracing that is no number and a
    listener that does not start panic. *)
Definition dtrd_main (settings : DtrdSettings.Settings) : outcome Empty_set State :=
  match DtrdSettings.tokio_tracing_port settings with
  | Some port => _ ← unwrap (ReplistoreSettings.parse_u16 port); Ok ()
  | None => Ok ()
  end;;
  _ ← unwrap_ok (tcpcl_listener settings);
  Ok (started [spawn ApiAgent (grpc_main settings); {| kind := TcpclListener; task_state := Running |}]).

(** [main] of replistore up to the [select!]; [db_open] is
    [StoreOwner::new] on the directory [db] in the storage directory. *)
Definition replistore_main {DbError} (env : bytes → option bytes) (db_open : bytes → outcome DbError ())
    : outcome Empty_set State :=
  settings ← ReplistoreSettings.from_env env;
  _ ← unwrap_ok (db_open (ReplistoreSettings.storage_dir settings));
  Ok (started [spawn S3Server (s3_run (ReplistoreSettings.s3_port settings))]).
End start.

(** ** The loops of the servers *)
Inductive Wake := Accepted (ok : bool) | ShutdownClosed.

(** [None] leaves the loop; tonic's server works like the one of hyper. *)
Definition listener_turn (w : Wake) : option (list Output) :=
  match w with
  | Accepted true => Some [NewClientConnectedOnSocket]
  | Accepted false => Some []
  | ShutdownClosed => None
  end.
Definition s3_turn (w : Wake) : option (list Output) :=
  match w with
  | Accepted true => Some [ServeConnection]
  | Accepted false => Some []
  | ShutdownClosed => None
  end.
Definition turn_of (k : TaskKind) : Wake → option (list Output) :=
  match k with TcpclListener => listener_turn | ApiAgent | S3Server => s3_turn end.

(** How a task may end: the gRPC server may fail, the listener and the S3 server do
    not; the S3 server gives its connections ten seconds. *)
Definition may_end (k : TaskKind) (r : TaskResult) : bool :=
  match k, r with ApiAgent, _ | _, TaskOk => true | _, _ => false end.

(** ** Steps *)
Definition set_task (i : nat) (st : TaskState) (s : State) : State := {|
  stage := stage s; ctrl_c := ctrl_c s; notify_shutdown := notify_shutdown s; main_sender := main_sender s;
  tasks := alter (λ t, {| kind := kind t; task_state := st |}) i (tasks s); out := out s |}.
Definition emit_out (o : list Output) (s : State) : State := {|
  stage := stage s; ctrl_c := ctrl_c s; notify_shutdown := notify_shutdown s; main_sender := main_sender s;
  tasks := tasks s; out := out s ++ o |}.
Definition press_ctrl_c (s : State) : State := {|
  stage := stage s; ctrl_c := true; notify_shutdown := notify_shutdown s; main_sender := main_sender s;
  tasks := tasks s; out := out s |}.

(** An arm of [select!] is ready. *)
Definition triggered (s : State) : bool := ctrl_c s || existsb ended (tasks s).

(** What follows the [select!], up to [shutdown_complete_rx.recv()]. *)
Definition stop_messages (p : Program) : list Output :=
  match p with
  | DtrdMain => [ShutdownClientAgent; ShutdownTcpclServer; StopSystem]
  | ReplistoreMain => [StopSystem]
  end.
Definition stop (p : Program) (s : State) : State := {|
  stage := Waiting; ctrl_c := ctrl_c s; notify_shutdown := false; main_sender := false;
  tasks := tasks s; out := out s ++ stop_messages p |}.

(** [recv] returns when no sender is left. *)
Definition senders (s : State) : bool :=
  main_sender s || existsb (λ t, holds_sender (kind t) && negb (ended t)) (tasks s).
Definition exit (s : State) : State := {|
  stage := Exited; ctrl_c := ctrl_c s; notify_shutdown := notify_shutdown s; main_sender := main_sender s;
  tasks := tasks s; out := out s |}.

Definition task_at (s : State) (i : nat) (st : TaskState) : Prop :=
  stage s ≠ Exited ∧ ∃ t, tasks s !! i = Some t ∧ task_state t = st.

Inductive step (p : Program) (s : State) : State → Prop :=
| StepCtrlC : stage s ≠ Exited → step p s (press_ctrl_c s)
| StepTurn i t w o :
    task_at s i Running → tasks s !! i = Some t → turn_of (kind t) w = Some o → step p s (emit_out o s)
| StepNotice i :
    task_at s i Running → notify_shutdown s = false → step p s (set_task i Draining s)
| StepFail i t r :
    task_at s i Running → tasks s !! i = Some t → kind t = ApiAgent → step p s (set_task i (Ended r) s)
| StepDrained i t r :
    task_at s i Draining → tasks s !! i = Some t → may_end (kind t) r = true →
    step p s (set_task i (Ended r) s)
| StepSelect : stage s = Selecting → triggered s = true → step p s (stop p s)
| StepExit : stage s = Waiting → senders s = false → step p s (exit s).
End Shutdown.
