(* ===== verification/ShutdownProps.v ===== *)
(** * The programs stop

    Once Ctrl-C was pressed or a server has ended, [main] returns, and not before the
    servers that hold a sender have ended; the listener of dtrd holds none. *)
From S2P Require Import Prelude RustStr Settings Executions Shutdown.
Import Shutdown.

(** ** Invariant *)

(** [main] has both senders exactly as long as it selects, and it has only returned
    when no other sender was left. *)
Record main_ok (s : State) : Prop := {
  mo_notify : notify_shutdown s = true → stage s = Selecting;
  mo_sender : main_sender s = true → stage s = Selecting;
  mo_exited : stage s = Exited → senders s = false;
}.

Lemma step_main_ok p s s' : step p s s' → main_ok s → main_ok s'.
Proof.
  intros Hs [M1 M2 M3]. destruct Hs as [Hne|i t w o [Hne _] _ _|i [Hne _] _|i t r [Hne _] _ _|i t r [Hne _] _ _|Hsel _|Hw Hno];
    split; simpl; try done; try congruence.
  - rewrite Hw in *. intros H. by specialize (M1 H).
  - rewrite Hw in *. intros H. by specialize (M2 H).
Qed.

(** Tasks are neither started nor removed, and one that has ended stays so. *)
Definition ended_at (i : nat) (s : State) : Prop := ∃ t, tasks s !! i = Some t ∧ ended t = true.

Lemma set_task_other i j st s : i ≠ j → tasks (set_task i st s) !! j = tasks s !! j.
Proof. intros Hne. simpl. by rewrite list_lookup_alter_ne. Qed.
Lemma set_task_same i st s t :
  tasks s !! i = Some t → tasks (set_task i st s) !! i = Some {| kind := kind t; task_state := st |}.
Proof. intros H. simpl. by rewrite list_lookup_alter_eq, H. Qed.

(** The task whose state is set was at work. *)
Lemma ended_set_task i j st st0 s :
  task_at s i st0 → st0 = Running ∨ st0 = Draining → ended_at j s → ended_at j (set_task i st s).
Proof.
  intros (_ & t & Ht & Hst) Hw (t' & Hj & He). destruct (decide (i = j)) as [->|Hne].
  - exfalso. rewrite Ht in Hj. injection Hj as <-. unfold ended in He. rewrite Hst in He. by destruct Hw as [->| ->].
  - exists t'. by rewrite set_task_other.
Qed.

Lemma step_ended p s s' i : step p s s' → ended_at i s → ended_at i s'.
Proof. intros []; eauto using ended_set_task. Qed.

Lemma triggered_iff s : triggered s = true ↔ ctrl_c s = true ∨ ∃ i, ended_at i s.
Proof.
  unfold triggered. rewrite orb_true_iff, List.existsb_exists. apply or_iff_compat_l. split.
  - intros (t & [i Hi]%list_elem_of_In%list_elem_of_lookup & He). by exists i, t.
  - intros (i & t & Ht & He). exists t. split; [|done]. by apply list_elem_of_In, list_elem_of_lookup_2 with i.
Qed.

Lemma step_triggered p s s' : step p s s' → triggered s = true → triggered s' = true.
Proof.
  intros Hs [Hc|[i Hi]]%triggered_iff; apply triggered_iff; [left; by destruct Hs|right].
  exists i. by eapply step_ended.
Qed.

Lemma step_length p s s' : step p s s' → length (tasks s') = length (tasks s).
Proof. intros []; simpl; try done; apply length_alter. Qed.

Lemma step_exited p s s' : step p s s' → stage s ≠ Exited.
Proof. intros [?|i t w o [? _] _ _|i [? _] _|i t r [? _] _ _|i t r [? _] _ _|Hs _|Hs _]; congruence. Qed.

(** ** Executions *)

Section stopping.
Context (p : Program) (σ : nat → State).

(** Steps of the program from its start on; no task that was told to stop, and no
    [main] that can go on, is ignored for ever, and what a server still serves when it
    was told to stop comes to an end. *)
Record execution (ts : list Task) : Prop := {
  ex_start : σ 0%nat = started ts;
  ex_step n : σ (S n) = σ n ∨ step p (σ n) (σ (S n));
  ex_select : not_ignored σ (λ s, stage s = Selecting ∧ triggered s = true);
  ex_notice i : not_ignored σ (λ s, task_at s i Running ∧ notify_shutdown s = false);
  ex_drained i : not_ignored σ (λ s, task_at s i Draining);
  ex_exit : not_ignored σ (λ s, stage s = Waiting ∧ senders s = false);
}.

Context (ts : list Task) (E : execution ts).

Lemma execution_ind (P : State → Prop) :
  P (started ts) → (∀ s s', step p s s' → P s → P s') → ∀ n, P (σ n).
Proof.
  intros H0 Hs n. induction n as [|n IH]; [by rewrite (ex_start _ E)|].
  destruct (ex_step _ E n) as [->|Hst]; [done|by eapply Hs].
Qed.

Lemma execution_main_ok n : main_ok (σ n).
Proof. apply execution_ind; [by split|]. intros s s'. apply step_main_ok. Qed.

Lemma execution_length n : length (tasks (σ n)) = length ts.
Proof. apply (execution_ind (λ s, length (tasks s) = length ts)); [done|]. intros s s' H <-. by eapply step_length. Qed.

Lemma stable_step (P : State → Prop) : (∀ s s', step p s s' → P s → P s') → stable σ P.
Proof. intros H k Hk. destruct (ex_step _ E k) as [->|Hs]; [done|by eapply H]. Qed.

(** ** One phase after the other *)

Lemma selecting_ends n :
  triggered (σ n) = true → eventually σ (λ s, stage s ≠ Selecting) n.
Proof.
  intros Ht. destruct (decide (stage (σ n) = Selecting)) as [Hs|?]; [|by exists n].
  apply (leads_to σ (λ s, stage s = Selecting ∧ triggered s = true)); [|apply E|done].
  intros k [Hsel Htr]. destruct (ex_step _ E k) as [->|Hst]; [by left|].
  destruct (decide (stage (σ (S k)) = Selecting)) as [Hsel'|?]; [left|by right].
  split; [done|]. by eapply step_triggered.
Qed.

Lemma step_left s s' : step p s s' → stage s ≠ Selecting → stage s' ≠ Selecting.
Proof. intros []; simpl; congruence. Qed.

Definition finished (i : nat) (s : State) : Prop := stage s = Exited ∨ ended_at i s.

Lemma finished_stable i : stable σ (finished i).
Proof.
  apply stable_step. intros s s' Hs [Hx|He]; [by apply step_exited in Hs|right; by eapply step_ended].
Qed.

(** A task that is at work stays there, is told to stop, or ends. *)
Lemma task_at_set_other i j st st' s :
  i ≠ j → task_at s i st → task_at (set_task j st' s) i st.
Proof. intros Hne (Hx & t & Ht & Hst). split; [done|]. exists t. by rewrite set_task_other. Qed.

Lemma task_at_set_same i st st' s : task_at s i st → task_at (set_task i st' s) i st'.
Proof. intros (Hx & t & Ht & _). split; [done|]. eexists. split; [by apply set_task_same|done]. Qed.

Lemma ended_at_set_same i st r s : task_at s i st → ended_at i (set_task i (Ended r) s).
Proof. intros (_ & t & Ht & _). eexists. split; [by apply set_task_same|done]. Qed.

Lemma task_at_unique i st st' s : task_at s i st → task_at s i st' → st = st'.
Proof. intros (_ & t & Ht & <-) (_ & t' & Ht' & <-). congruence. Qed.

Lemma step_task s s' i st :
  step p s s' → task_at s i st →
  task_at s' i st ∨ finished i s' ∨ (st = Running ∧ task_at s' i Draining).
Proof.
  intros Hs Ht. pose proof Ht as [Hx Ht'].
  destruct Hs as [?|j t w o _ _ _|j Hj _|j t r Hj _ _|j t r Hj _ _|_ _|_ _];
    try (left; by split); try (destruct (decide (i = j)) as [->|Hne]; [|left; by apply task_at_set_other]).
  - right. right. split; [by eapply task_at_unique|by eapply task_at_set_same].
  - right. left. right. by eapply ended_at_set_same.
  - right. left. right. by eapply ended_at_set_same.
  - right. left. by left.
Qed.

(** A task that was told to stop leaves its loop, and then ends. *)
Lemma draining_ends i n : task_at (σ n) i Draining → eventually σ (finished i) n.
Proof.
  apply (leads_to σ (λ s, task_at s i Draining)); [|apply E].
  intros k Hd. destruct (ex_step _ E k) as [->|Hst]; [by left|].
  destruct (step_task _ _ _ _ Hst Hd) as [?|[?|[? _]]]; [by left|by right|done].
Qed.

Lemma step_notify s s' : step p s s' → notify_shutdown s = false → notify_shutdown s' = false.
Proof. by intros []. Qed.

Lemma running_ends i n :
  stage (σ n) ≠ Selecting → task_at (σ n) i Running → eventually σ (finished i) n.
Proof.
  intros Hne Hr.
  apply (eventually_trans σ (λ s, finished i s ∨ task_at s i Draining)).
  - apply (leads_to σ (λ s, task_at s i Running ∧ notify_shutdown s = false)); [|apply E|].
    + intros k [Hk Hn]. destruct (ex_step _ E k) as [->|Hst]; [by left|].
      destruct (step_task _ _ _ _ Hst Hk) as [?|[?|[_ ?]]]; [left|right; by left|right; by right].
      split; [done|by eapply step_notify].
    + split; [done|]. destruct (notify_shutdown (σ n)) eqn:Hn; [|done].
      by apply (mo_notify _ (execution_main_ok n)) in Hn.
  - intros k _ [Hf|Hd]; [by exists k|by apply draining_ends].
Qed.

Lemma task_ends i n :
  (i < length ts)%nat → stage (σ n) ≠ Selecting → eventually σ (finished i) n.
Proof.
  intros Hi Hne. destruct (decide (stage (σ n) = Exited)) as [Hx|Hx]; [exists n; split; [done|by left]|].
  destruct (lookup_lt_is_Some_2 (tasks (σ n)) i) as [t Ht]; [by rewrite execution_length|].
  destruct (task_state t) eqn:Hst.
  - apply running_ends; [done|]. split; [done|by exists t].
  - apply draining_ends. split; [done|by exists t].
  - exists n. split; [done|]. right. exists t. unfold ended. by rewrite Hst.
Qed.

Lemma senders_false s :
  senders s = false ↔
  main_sender s = false ∧
  ∀ i t, tasks s !! i = Some t → holds_sender (kind t) = true → ended t = true.
Proof.
  unfold senders. rewrite orb_false_iff. apply and_iff_compat_l. split.
  - intros Hf i t Ht Hh. destruct (ended t) eqn:He; [done|]. rewrite <- Hf.
    apply List.existsb_exists. exists t. split; [by apply list_elem_of_In, list_elem_of_lookup_2 with i|].
    by rewrite Hh, He.
  - intros H. destruct (existsb _ _) eqn:Hex; [|done].
    apply List.existsb_exists in Hex as (t & [i Hi]%list_elem_of_In%list_elem_of_lookup & Hb).
    apply andb_true_iff in Hb as [Hh He]. by rewrite (H i t Hi Hh) in He.
Qed.

Lemma step_kind s s' i t' :
  step p s s' → tasks s' !! i = Some t' → ∃ t, tasks s !! i = Some t ∧ kind t = kind t'.
Proof.
  intros []; simpl; eauto; rewrite list_lookup_alter; destruct (decide _) as [<-|?]; eauto;
    intros (t0 & Ht & ->)%fmap_Some; eauto.
Qed.

Lemma step_senders s s' : step p s s' → senders s = false → senders s' = false.
Proof.
  intros Hs [Hm Ht]%senders_false. apply senders_false. split; [by destruct Hs|].
  intros i t' Hi Hh. destruct (step_kind _ _ _ _ Hs Hi) as (t & Hit & Hk).
  destruct (step_ended _ _ _ i Hs) as (t2 & Ht2 & He); [|congruence].
  exists t. split; [done|]. apply (Ht i); [done|by rewrite Hk].
Qed.

Lemma step_waiting s s' :
  step p s s' → stage s = Waiting → stage s' = Waiting ∨ stage s' = Exited.
Proof. intros []; simpl; auto. Qed.

Lemma waiting_exits n :
  stage (σ n) ≠ Selecting → senders (σ n) = false → eventually σ (λ s, stage s = Exited) n.
Proof.
  intros Hw Hs. destruct (stage (σ n)) eqn:Hst; [done| |by exists n].
  apply (leads_to σ (λ s, stage s = Waiting ∧ senders s = false)); [|apply E|done].
  intros k [Hk Hk']. destruct (ex_step _ E k) as [->|Hstep]; [by left|].
  destruct (step_waiting _ _ Hstep Hk); [left|by right]. split; [done|by eapply step_senders].
Qed.

Lemma finished_senders n :
  stage (σ n) ≠ Selecting → Forall (λ i, finished i (σ n)) (seq 0 (length ts)) → senders (σ n) = false.
Proof.
  intros Hne Hall. destruct (decide (stage (σ n) = Exited)) as [Hx|Hx]; [by apply execution_main_ok|].
  apply senders_false. split.
  - destruct (main_sender (σ n)) eqn:Hm; [|done]. by apply (mo_sender _ (execution_main_ok n)) in Hm.
  - intros i t Ht _. rewrite Forall_forall in Hall. destruct (Hall i) as [?|(t' & Ht' & He)]; [|done|congruence].
    apply elem_of_seq. apply lookup_lt_Some in Ht. rewrite execution_length in Ht. lia.
Qed.

End stopping.


(** ** A run of dtrd *)

Module DtrdRun.

#[local] Instance any_os : Os := {|
  SocketAddr := bytes; IoError := ();
  parse_socket_addr := Some; bind _ := None; bind_port _ := None |}.

Definition api : Task := {| kind := ApiAgent; task_state := Running |}.
Definition listener : Task := {| kind := TcpclListener; task_state := Running |}.
Definition s0 : State := started [api; listener].

Example dtrd_starts : dtrd_main (DtrdSettings.from_env (λ _, None)) = Ok s0.
Proof. reflexivity. Qed.

(** Ctrl-C while both servers run; the listener is the last to end. *)
Definition s1 : State := press_ctrl_c s0.
Definition s2 : State := stop DtrdMain s1.
Definition s3 : State := set_task 0 Draining s2.
Definition s4 : State := set_task 0 (Ended TaskOk) s3.
Definition s5 : State := set_task 1 Draining s4.
Definition s6 : State := set_task 1 (Ended TaskOk) s5.
Definition s7 : State := exit s6.
Definition run (n : nat) : State := nth n [s0; s1; s2; s3; s4; s5; s6] s7.

Lemma run_step n : (n < 7)%nat → step DtrdMain (run n) (run (S n)).
Proof.
  intros Hn. destruct n as [|[|[|[|[|[|[|n]]]]]]]; [clear Hn..|lia].
  - by apply StepCtrlC.
  - by apply StepSelect.
  - apply (StepNotice DtrdMain s2 0); [|done]. split; [done|by eexists].
  - apply (StepDrained DtrdMain s3 0 {| kind := ApiAgent; task_state := Draining |}); [|done..].
    split; [done|by eexists].
  - apply (StepNotice DtrdMain s4 1); [|done]. split; [done|by eexists].
  - apply (StepDrained DtrdMain s5 1 {| kind := TcpclListener; task_state := Draining |}); [|done..].
    split; [done|by eexists].
  - by apply StepExit.
Qed.

Lemma run_steps n : run (S n) = run n ∨ step DtrdMain (run n) (run (S n)).
Proof.
  destruct (decide (n < 7)%nat); [right; by apply run_step|left].
  destruct n as [|[|[|[|[|[|[|[|n]]]]]]]]; [lia..|done|done].
Qed.

Lemma run_ends (en : State → Prop) : ¬ en s7 → not_ignored run en.
Proof.
  intros Hn n _. exists (7 + n)%nat. split; [lia|]. by destruct n.
Qed.

Lemma dtrd_run_execution : execution DtrdMain run [api; listener].
Proof.
  split; [done|apply run_steps|intros *; apply run_ends..].
  - by intros [].
  - by intros [[] _].
  - by intros [[] _].
  - by intros [].
Qed.

(** Nothing waits for the listener: [main] may return while it still accepts. *)
Definition x4 : State := exit s4.
Example listener_not_awaited :
  rtc (step DtrdMain) s0 x4 ∧ stage x4 = Exited ∧ tasks x4 !! 1%nat = Some listener.
Proof.
  split; [|done].
  apply rtc_l with s1; [apply (run_step 0); lia|]. apply rtc_l with s2; [apply (run_step 1); lia|].
  apply rtc_l with s3; [apply (run_step 2); lia|]. apply rtc_l with s4; [apply (run_step 3); lia|].
  apply rtc_once. by apply StepExit.
Qed.
End DtrdRun.

