(* ===== verification/Routing.v ===== *)
(** * The routing agent (dtrd/src/routingagent)

    The routes to a target are a hash set whose elements are identified by type
    and next hop: a map from these to the maximal bundle size.  Hash maps and
    sets are iterated in an order the program does not determine; [order] stands
    for it, and the theorems hold for every order. *)
From S2P Require Import Prelude RustStr Actor Endpoint ProtocolAgent.

Inductive RouteType := Connected | Static.

#[export] Instance RouteType_eq_dec : EqDecision RouteType.
Proof. solve_decision. Defined.
#[export] Instance RouteType_countable : Countable RouteType.
Proof.
  refine (inj_countable' (λ t, match t with Connected => true | Static => false end)
    (λ b : bool, if b then Connected else Static) _). by intros [].
Defined.

(** [derive(PartialOrd)]: [Connected = 0], [Static = 1]. *)
Definition route_type_key (t : RouteType) : Z := match t with Connected => 0 | Static => 1 end.

Record RouteStatus := {
  target : Endpoint;
  status_next_hop : Endpoint;
  route_type : RouteType;
  preferred : bool;
  available : bool;
  max_bundle_size : option Z;
}.

Abbreviation RouteSet := (gmap (RouteType * Endpoint) (option Z)).

(** An iteration order for the elements of every hash container. *)
Class HashOrder := { order : ∀ {A}, list A → list A }.
Class HashOrderLaws `{!HashOrder} : Prop := { order_perm : ∀ A (l : list A), order l ≡ₚ l }.

#[export] Instance identity_order : HashOrder := {| order := λ A l, l |}.
#[export] Instance identity_order_laws : HashOrderLaws.
Proof. by constructor. Qed.

Module RoutingAgent.

Record Daemon := {
  routes : gmap Endpoint RouteSet;
  last_routing_table : option (gmap Endpoint NexthopInfo);
}.

(** [EventRoutingTableUpdate] to the protocol agent. *)
Inductive Output := RoutingTableUpdate (routes : gmap Endpoint NexthopInfo).

Abbreviation handler := (actor Daemon Output).

Definition set_routes (r : gmap Endpoint RouteSet) (d : Daemon) : Daemon :=
  {| routes := r; last_routing_table := last_routing_table d |}.

Section agent.
Context `{!HashOrder}.

Definition has_connected (rs : RouteSet) : bool :=
  existsb (λ e, bool_decide (e.1.1 = Connected)) (order (map_to_list rs)).

Definition get_connected_routes (d : Daemon) : gset Endpoint :=
  list_to_set (omap (λ e, if has_connected e.2 then Some e.1 else None)
    (order (map_to_list (routes d)))).

(** [sort_unstable_by_key(|e| e.route_type)]. *)
Fixpoint insert_by_type (r : RouteStatus) (l : list RouteStatus) : list RouteStatus :=
  match l with
  | [] => [r]
  | r' :: l =>
      if route_type_key (route_type r) <=? route_type_key (route_type r')
      then r :: r' :: l else r' :: insert_by_type r l
  end.
Definition sort_by_type (l : list RouteStatus) : list RouteStatus := foldr insert_by_type [] l.

Definition status_of (connected : gset Endpoint) (t : Endpoint) (e : RouteType * Endpoint * option Z)
    : RouteStatus :=
  let '(ty, nh, m) := e in
  {| target := t; status_next_hop := nh; route_type := ty; preferred := false;
     available := bool_decide (ty = Connected) || bool_decide (nh ∈ connected);
     max_bundle_size := m |}.

Definition prefer (r : RouteStatus) : RouteStatus :=
  {| target := target r; status_next_hop := status_next_hop r; route_type := route_type r;
     preferred := true; available := available r; max_bundle_size := max_bundle_size r |}.

(** [if !routes.is_empty() && routes[0].available { routes[0].preferred = true }]. *)
Definition mark_preferred (l : list RouteStatus) : list RouteStatus :=
  match l with
  | [] => []
  | r :: l => (if available r then prefer r else r) :: l
  end.

Definition routes_to (connected : gset Endpoint) (e : Endpoint * RouteSet) : list RouteStatus :=
  mark_preferred (sort_by_type
    (map (status_of connected e.1) (order (map_to_list e.2)))).

Definition get_routes (d : Daemon) : list RouteStatus :=
  let connected := get_connected_routes d in
  concat (map (routes_to connected) (order (map_to_list (routes d)))).

(** The table: the preferred routes, collected into a map. *)
Definition info_of (r : RouteStatus) : NexthopInfo :=
  {| next_hop := status_next_hop r; max_size := max_bundle_size r |}.

Definition routing_table (d : Daemon) : gmap Endpoint NexthopInfo :=
  foldl (λ t r, <[target r := info_of r]> t) ∅ (List.filter preferred (get_routes d)).

Definition send_route_update : handler () :=
  t ← gets routing_table;
  last ← gets last_routing_table;
  if bool_decide (last = Some t) then mret () else do_send (RoutingTableUpdate t).

Definition AddRoute (t : Endpoint) (ty : RouteType) (nh : Endpoint) (m : option Z) : handler () :=
  rs ← gets routes;
  let entry : RouteSet := default ∅ (rs !! t) in
  match entry !! (ty, nh) with
  | Some _ => modify (set_routes (<[t := entry]> rs))
  | None =>
      modify (set_routes (<[t := <[(ty, nh) := m]> entry]> rs));;
      send_route_update
  end.

Definition RemoveRoute (t : Endpoint) (ty : RouteType) (nh : Endpoint) : handler () :=
  rs ← gets routes;
  let entry : RouteSet := default ∅ (rs !! t) in
  match entry !! (ty, nh) with
  | Some _ =>
      modify (set_routes (<[t := delete (ty, nh) entry]> rs));;
      send_route_update
  | None => modify (set_routes (<[t := entry]> rs))
  end.

Definition ListRoutes : handler (list RouteStatus) := gets get_routes.

Definition Daemon_default : Daemon := {| routes := ∅; last_routing_table := None |}.
End agent.
End RoutingAgent.

(** ** What the table says *)
Import RoutingAgent.

(** The routes to [t], and the neighbours. *)
Definition routes_of (d : Daemon) (t : Endpoint) : RouteSet := default ∅ (routes d !! t).
Definition neighbour (d : Daemon) (e : Endpoint) : Prop :=
  ∃ nh m, routes_of d e !! (Connected, nh) = Some m.

Section table.
Context {HO : HashOrder} {HL : HashOrderLaws}.

Lemma elem_of_order {A} (x : A) l : x ∈ order l ↔ x ∈ l.
Proof. by rewrite order_perm. Qed.

Lemma has_connected_spec rs : has_connected rs = true ↔ ∃ nh m, rs !! (Connected, nh) = Some m.
Proof.
  unfold has_connected. rewrite existsb_exists. split.
  - intros ([[ty nh] m] & Hin%list_elem_of_In & Hb). apply bool_decide_eq_true in Hb.
    rewrite elem_of_order in Hin. simpl in Hb. subst ty.
    apply elem_of_map_to_list in Hin. eauto.
  - intros (nh & m & Hl). exists (Connected, nh, m). split; [|done].
    apply list_elem_of_In. rewrite elem_of_order. by apply elem_of_map_to_list.
Qed.

Lemma elem_of_connected d e : e ∈ get_connected_routes d ↔ neighbour d e.
Proof.
  unfold get_connected_routes, neighbour, routes_of. rewrite elem_of_list_to_set, list_elem_of_omap.
  split.
  - intros ([t rs] & Hin & H). rewrite elem_of_order in Hin. apply elem_of_map_to_list in Hin.
    simpl in H. case_match eqn:E; simplify_eq. rewrite Hin. by apply has_connected_spec.
  - intros H. destruct (routes d !! e) as [rs|] eqn:E; simpl in H.
    2:{ destruct H as (nh & m & H). by rewrite lookup_empty in H. }
    exists (e, rs). rewrite elem_of_order. split; [by apply elem_of_map_to_list|]. simpl.
    by rewrite (proj2 (has_connected_spec rs) H).
Qed.

Lemma insert_by_type_perm r l : insert_by_type r l ≡ₚ r :: l.
Proof.
  induction l as [|r' l IH]; simpl; [done|]. case_match; [done|]. rewrite IH. constructor.
Qed.

Lemma sort_by_type_perm l : sort_by_type l ≡ₚ l.
Proof. induction l as [|r l IH]; simpl; [done|]. by rewrite insert_by_type_perm, IH. Qed.

(** The head of the sorted list has the smallest key. *)
Lemma sort_by_type_head l r l' :
  sort_by_type l = r :: l' →
  Forall (λ r', route_type_key (route_type r) ≤ route_type_key (route_type r')) l.
Proof.
  revert r l'. induction l as [|x l IH]; intros r l' H; simpl in H; [done|].
  destruct (sort_by_type l) as [|y s] eqn:E; simpl in H.
  - simplify_eq. constructor; [lia|].
    pose proof (sort_by_type_perm l) as Hp. rewrite E in Hp. by apply Permutation_nil in Hp as ->.
  - specialize (IH _ _ eq_refl). case_match eqn:Ec; simplify_eq.
    + constructor; [lia|]. eapply Forall_impl; [done|]. simpl. intros. lia.
    + constructor; [lia|done].
Qed.

(** The best route of a target: usable, and direct if there is a direct one. *)
Definition best_route (d : Daemon) (t : Endpoint) (info : NexthopInfo) : Prop :=
  ∃ ty, routes_of d t !! (ty, next_hop info) = Some (max_size info) ∧
    (ty = Connected ∨ neighbour d (next_hop info)) ∧
    ((∃ nh m, routes_of d t !! (Connected, nh) = Some m) → ty = Connected).

(** No route that could be chosen: there is none, or there is no direct one and
    a static one whose next hop is not a neighbour. *)
Definition no_route (d : Daemon) (t : Endpoint) : Prop :=
  (∀ k, routes_of d t !! k = None) ∨
  ¬ neighbour d t ∧ ∃ nh m, routes_of d t !! (Static, nh) = Some m ∧ ¬ neighbour d nh.

(** The preferred route among the routes to one target, if any. *)
Lemma routes_to_preferred d t rs :
  routes d !! t = Some rs →
  (∃ r, List.filter preferred (routes_to (get_connected_routes d) (t, rs)) = [r] ∧
     target r = t ∧ best_route d t (info_of r)) ∨
  (List.filter preferred (routes_to (get_connected_routes d) (t, rs)) = [] ∧ no_route d t).
Proof.
  intros Ht. unfold routes_to. cbn [fst snd].
  set (l := map (status_of (get_connected_routes d) t) (order (map_to_list rs))).
  assert (Hrs : routes_of d t = rs) by (unfold routes_of; by rewrite Ht).
  assert (Hl : ∀ r, r ∈ l ↔ ∃ ty nh m, rs !! (ty, nh) = Some m ∧
    r = status_of (get_connected_routes d) t (ty, nh, m)).
  { intros r. unfold l. rewrite list_elem_of_fmap. split.
    - intros ([[ty nh] m] & -> & Hin). rewrite elem_of_order in Hin.
      apply elem_of_map_to_list in Hin. eauto 10.
    - intros (ty & nh & m & Hin & ->). exists (ty, nh, m). split; [done|].
      rewrite elem_of_order. by apply elem_of_map_to_list. }
  assert (Hnp : ∀ s, s ⊆ l → List.filter preferred s = []).
  { intros s. induction s as [|r s IH]; intros Hs; [done|]. simpl.
    destruct (proj1 (Hl r)) as (?&?&?&_&->); [apply Hs; left|]. apply IH. set_solver. }
  destruct (sort_by_type l) as [|r0 s] eqn:E.
  { right. split; [done|]. left. intros k. rewrite Hrs.
    pose proof (sort_by_type_perm l) as Hp. rewrite E in Hp. apply Permutation_nil in Hp.
    destruct (rs !! k) as [m|] eqn:Ek; [|done]. destruct k as [ty nh].
    assert (status_of (get_connected_routes d) t (ty, nh, m) ∈ l) as Hin by (apply Hl; eauto 10).
    rewrite Hp in Hin. by apply not_elem_of_nil in Hin. }
  pose proof (sort_by_type_head _ _ _ E) as Hmin. rewrite Forall_forall in Hmin.
  assert (Hs : r0 :: s ⊆ l).
  { intros r Hr. rewrite <-E in Hr. by rewrite sort_by_type_perm in Hr. }
  destruct (proj1 (Hl r0)) as (ty & nh & m & Hin & Hr0); [apply Hs; left|].
  assert (Hdirect : (∃ nh' m', rs !! (Connected, nh') = Some m') → ty = Connected).
  { intros (nh' & m' & Hc). destruct ty; [done|].
    specialize (Hmin (status_of (get_connected_routes d) t (Connected, nh', m'))
      ltac:(apply Hl; eauto 10)). rewrite Hr0 in Hmin. simpl in Hmin. lia. }
  cbn [mark_preferred]. destruct (available r0) eqn:Ea; cbn [List.filter].
  - left. exists (prefer r0). cbn [prefer preferred]. rewrite (Hnp s) by set_solver.
    rewrite Hr0. split_and!; [done..|]. exists ty. rewrite Hrs. cbn. split_and!; [done| |done].
    rewrite Hr0 in Ea. simpl in Ea. apply orb_true_iff in Ea as [Ea|Ea];
      apply bool_decide_eq_true in Ea; [by left|right; by apply elem_of_connected].
  - right. assert (preferred r0 = false) as -> by (by rewrite Hr0). split; [apply Hnp; set_solver|].
    right. rewrite Hr0 in Ea. simpl in Ea. apply orb_false_iff in Ea as [E1 E2].
    apply bool_decide_eq_false in E1, E2. rewrite elem_of_connected in E2.
    destruct ty; [done|]. split.
    + intros Hc. unfold neighbour in Hc. rewrite Hrs in Hc. by specialize (Hdirect Hc).
    + exists nh, m. by rewrite Hrs.
Qed.

Lemma elem_of_preferred d r :
  r ∈ List.filter preferred (get_routes d) ↔
  ∃ t rs, routes d !! t = Some rs ∧
    r ∈ List.filter preferred (routes_to (get_connected_routes d) (t, rs)).
Proof.
  unfold get_routes. rewrite list_elem_of_In, filter_In, <-list_elem_of_In.
  rewrite list_elem_of_In, in_concat. split.
  - intros [(l & Hl & Hr) Hp]. apply list_elem_of_In, list_elem_of_fmap in Hl as ([t rs] & -> & Hin).
    rewrite elem_of_order in Hin. apply elem_of_map_to_list in Hin. exists t, rs. split; [done|].
    rewrite list_elem_of_In, filter_In. done.
  - intros (t & rs & Ht & Hr). rewrite list_elem_of_In, filter_In in Hr. destruct Hr as [Hr Hp].
    split; [|done]. exists (routes_to (get_connected_routes d) (t, rs)). split; [|done].
    apply list_elem_of_In, list_elem_of_fmap. exists (t, rs). split; [done|].
    rewrite elem_of_order. by apply elem_of_map_to_list.
Qed.

Lemma table_lookup l t (m : gmap Endpoint NexthopInfo) :
  match foldl (λ m r, <[target r := info_of r]> m) m l !! t with
  | Some info => (∃ r, r ∈ l ∧ target r = t ∧ info = info_of r) ∨ m !! t = Some info
  | None => (∀ r, r ∈ l → target r ≠ t) ∧ m !! t = None
  end.
Proof.
  revert m. induction l as [|r l IH]; intros m; simpl; [case_match; set_solver|].
  specialize (IH (<[target r := info_of r]> m)). case_match eqn:E.
  - destruct IH as [(r' & ? & ? & ?)|Hm]; [left; exists r'; set_solver|].
    destruct (decide (target r = t)) as [<-|].
    + rewrite lookup_insert_eq in Hm. simplify_eq. left. exists r. set_solver.
    + rewrite lookup_insert_ne in Hm by done. by right.
  - destruct IH as [Hl Hm]. destruct (decide (target r = t)) as [<-|].
    + by rewrite lookup_insert_eq in Hm.
    + rewrite lookup_insert_ne in Hm by done. split; [|done].
      intros r' [->|?]%elem_of_cons; auto.
Qed.
(** The table at one target, in terms of the routes. *)
Lemma routing_table_lookup d t :
  match routing_table d !! t with
  | Some info => best_route d t info
  | None => no_route d t
  end.
Proof.
  pose proof (table_lookup (List.filter preferred (get_routes d)) t ∅) as Hl.
  fold (routing_table d) in Hl.
  destruct (routing_table d !! t) as [info|].
  - destruct Hl as [(r & Hr & <- & ->)|Hm]; [|by rewrite lookup_empty in Hm].
    apply elem_of_preferred in Hr as (t & rs & Ht & Hr).
    destruct (routes_to_preferred d t rs Ht) as [(r' & Hf & Htr & Hb)|[Hf _]]; rewrite Hf in Hr.
    + apply list_elem_of_singleton in Hr as ->. by rewrite Htr.
    + by apply not_elem_of_nil in Hr.
  - destruct Hl as [Hno _]. destruct (routes d !! t) as [rs|] eqn:Et.
    + destruct (routes_to_preferred d t rs Et) as [(r & Hf & Htr & _)|[_ ?]]; [|done].
      destruct (Hno r); [|done]. apply elem_of_preferred. exists t, rs. split; [done|].
      rewrite Hf. left.
    + left. intros k. unfold routes_of. rewrite Et. apply lookup_empty.
Qed.

(** The effect of the two handlers on the routes. *)
Lemma send_route_update_Ok d : ∃ o, send_route_update d = Ok ((), d, o).
Proof. unfold send_route_update. arun. case_bool_decide; eexists; done. Qed.

Lemma routes_of_set (t : Endpoint) (entry : RouteSet) d t' :
  routes_of (set_routes (<[t := entry]> (routes d)) d) t' =
  if decide (t' = t) then entry else routes_of d t'.
Proof.
  unfold routes_of, set_routes. simpl. case_decide as H.
  - by rewrite H, lookup_insert_eq.
  - by rewrite lookup_insert_ne by done.
Qed.

Lemma AddRoute_routes t ty nh m d :
  ∃ d' o, AddRoute t ty nh m d = Ok ((), d', o) ∧
    ∀ t' k, routes_of d' t' !! k =
      if decide (t' = t ∧ k = (ty, nh)) then Some (default m (routes_of d t !! (ty, nh)))
      else routes_of d t' !! k.
Proof.
  unfold AddRoute. arun. fold (routes_of d t). destruct (routes_of d t !! _) as [m'|] eqn:E; arun.
  - eexists _, _. split; [done|]. intros t' k. rewrite routes_of_set.
    repeat case_decide; naive_solver.
  - match goal with |- context [set_routes ?r d] =>
      destruct (send_route_update_Ok (set_routes r d)) as [o ->] end.
    eexists _, _. split; [done|]. intros t' k. rewrite routes_of_set.
    repeat case_decide; destruct_and?; subst; try tauto.
    + by rewrite lookup_insert_eq.
    + rewrite lookup_insert_ne; [done|naive_solver].
Qed.

Lemma RemoveRoute_routes t ty nh d :
  ∃ d' o, RemoveRoute t ty nh d = Ok ((), d', o) ∧
    ∀ t' k, routes_of d' t' !! k =
      if decide (t' = t ∧ k = (ty, nh)) then None else routes_of d t' !! k.
Proof.
  unfold RemoveRoute. arun. fold (routes_of d t). destruct (routes_of d t !! _) as [m'|] eqn:E; arun.
  - match goal with |- context [set_routes ?r d] =>
      destruct (send_route_update_Ok (set_routes r d)) as [o ->] end.
    eexists _, _. split; [done|]. intros t' k. rewrite routes_of_set.
    repeat case_decide; destruct_and?; subst; try tauto.
    + by rewrite lookup_delete_eq.
    + rewrite lookup_delete_ne; [done|naive_solver].
  - eexists _, _. split; [done|]. intros t' k. rewrite routes_of_set.
    repeat case_decide; naive_solver.
Qed.
End table.


(** A neighbour [dtn://n], and a static route to [dtn://c] over it. *)
Module RoutingWitness.
Definition n : Endpoint := EDTN {| DTN.uri := str "//n" |}.
Definition c : Endpoint := EDTN {| DTN.uri := str "//c" |}.
Definition d : Daemon := {|
  routes := <[n := {[ (Connected, n) := Some 1000 ]}]> {[ c := {[ (Static, n) := None ]} ]};
  last_routing_table := None |}.
Example table : routing_table d !! c = Some {| next_hop := n; max_size := None |}.
Proof. vm_compute. reflexivity. Qed.
End RoutingWitness.

