(* ===== verification/Peers.v ===== *)
(** * The agents that know the peers

    The node agent (dtrd/src/nodeagent) keeps the list of nodes and their
    connection status, the convergence agent (dtrd/src/converganceagent) passes
    connections on, the client agent (dtrd/src/clientagent) turns the requests
    of local applications into messages.  A [Url] is its text and its scheme. *)
From S2P Require Import Prelude RustStr Actor Cbor CborRfc Flags CrcTime Endpoint PrimaryBlock.
From S2P Require Import Block Bundle Fragment FragmentSize Storage StorageSystem StorageOps.
From S2P Require Import ProtocolAgent Routing.
Import Crc Time.

Record Url := { url_text : bytes; url_scheme : bytes }.

#[export] Instance Url_eq_dec : EqDecision Url.
Proof. solve_decision. Defined.

(** ** Nodes *)
Module NodeAgent.

Inductive NodeConnectionStatus := Disconnected | Connected | Connecting | Disconnecting.

#[export] Instance NodeConnectionStatus_eq_dec : EqDecision NodeConnectionStatus.
Proof. solve_decision. Defined.

Record Node := {
  url : Url;
  connection_status : NodeConnectionStatus;
  remote_endpoint : option Endpoint;
  temporary : bool;
}.

Record Daemon := { nodes : list Node }.

Inductive Output :=
| AgentConnectNode (url : Url)
| AgentDisconnectNode (url : Url)
| AddRoute (target : Endpoint) (ty : RouteType) (next_hop : Endpoint) (max_bundle_size : option Z)
| RemoveRoute (target : Endpoint) (ty : RouteType) (next_hop : Endpoint).

Abbreviation handler := (actor Daemon Output).

(** [PartialEq for Node]: the url. *)
Definition has_url (u : Url) (n : Node) : bool := bool_decide (url n = u).

Definition ListNodes : handler (list Node) := gets nodes.

Definition AddNode (u : Url) : handler () :=
  ns ← gets nodes;
  if existsb (has_url u) ns then mret ()
  else
    modify (λ d, {| nodes := nodes d ++
      [{| url := u; connection_status := Connecting; remote_endpoint := None;
          temporary := false |}] |});;
    do_send (AgentConnectNode u).

(** Writing through [&mut self.nodes[pos]], [pos] the first node with the url. *)
Definition update_node (u : Url) (f : Node → Node) (d : Daemon) : Daemon :=
  match position (has_url u) (nodes d) with
  | Some i => {| nodes := alter f i (nodes d) |}
  | None => d
  end.

Definition RemoveNode (u : Url) : handler () :=
  ns ← gets nodes;
  match position (has_url u) ns with
  | None => mret ()
  | Some _ =>
      modify (update_node u (λ n, {| url := url n; connection_status := Disconnecting;
        remote_endpoint := remote_endpoint n; temporary := true |}));;
      do_send (AgentDisconnectNode u)
  end.

Definition NotifyNodeConnected (u : Url) (e : Endpoint) (max_bundle_size : Z) : handler () :=
  ns ← gets nodes;
  match position (has_url u) ns with
  | Some _ =>
      modify (update_node u (λ n, {| url := url n; connection_status := Connected;
        remote_endpoint := Some e; temporary := temporary n |}))
  | None =>
      modify (λ d, {| nodes := nodes d ++
        [{| url := u; connection_status := Connected; remote_endpoint := Some e;
            temporary := true |}] |})
  end;;
  do_send (AddRoute e Routing.Connected e (Some max_bundle_size)).

Definition NotifyNodeDisconnected (u : Url) : handler () :=
  ns ← gets nodes;
  match position (has_url u) ns with
  | None => mret ()
  | Some i =>
      node ← lift (unwrap (ns !! i));
      match remote_endpoint node with
      | Some e => do_send (RemoveRoute e Routing.Connected e)
      | None => mret ()
      end;;
      if temporary node then
        '(_, rest) ← lift (unwrap (vec_remove i ns));
        modify (λ _, {| nodes := rest |})
      else
        modify (update_node u (λ n, {| url := url n; connection_status := Disconnected;
          remote_endpoint := None; temporary := temporary n |}))
  end.

Definition wants_connection (n : Node) : bool :=
  bool_decide (connection_status n = Disconnected) && negb (temporary n).

Definition connecting (n : Node) : Node :=
  {| url := url n; connection_status := Connecting; remote_endpoint := remote_endpoint n;
     temporary := temporary n |}.

(** [for node in &mut self.nodes]. *)
Fixpoint try_connect_nodes (ns : list Node) : list Node * list Output :=
  match ns with
  | [] => ([], [])
  | n :: ns =>
      let '(ns, o) := try_connect_nodes ns in
      if wants_connection n then (connecting n :: ns, AgentConnectNode (url n) :: o)
      else (n :: ns, o)
  end.

Definition TryConnect : handler () := λ d,
  let '(ns, o) := try_connect_nodes (nodes d) in Ok ((), {| nodes := ns |}, o).

Definition Daemon_default : Daemon := {| nodes := [] |}.
End NodeAgent.

(** ** Connections *)
Module ConvergenceAgent.

Record Daemon := { connected_nodes : gmap Endpoint Recipient }.

Inductive Output :=
| ConnectRemote (url : Url)
| DisconnectRemote (url : Url)
| NotifyNodeConnected (url : Url) (endpoint : Endpoint) (max_bundle_size : Z)
| NotifyNodeDisconnected (url : Url)
| EventPeerConnected (destination : Endpoint) (sender : Recipient)
| EventPeerDisconnected (destination : Endpoint).

Abbreviation handler := (actor Daemon Output).

Definition AgentConnectNode (u : Url) : handler () :=
  if bool_decide (url_scheme u = str "tcpcl") then do_send (ConnectRemote u) else mret ().
Definition AgentDisconnectNode (u : Url) : handler () :=
  if bool_decide (url_scheme u = str "tcpcl") then do_send (DisconnectRemote u) else mret ().

Definition CLRegisterNode (u : Url) (node : Endpoint) (max_bundle_size : Z) (sender : Recipient)
    : handler () :=
  modify (λ d, {| connected_nodes := <[node := sender]> (connected_nodes d) |});;
  do_send (NotifyNodeConnected u node max_bundle_size);;
  do_send (EventPeerConnected node sender).

Definition CLUnregisterNode (u : Url) (node : option Endpoint) : handler () :=
  match node with
  | Some e =>
      modify (λ d, {| connected_nodes := delete e (connected_nodes d) |});;
      do_send (EventPeerDisconnected e)
  | None => mret ()
  end;;
  do_send (NotifyNodeDisconnected u).

(** [stopped] drains the map. *)
Definition stopped : handler () := modify (λ _, {| connected_nodes := ∅ |}).
End ConvergenceAgent.

(** ** Local applications *)
Module ClientAgent.

Record Daemon := {
  connected_clients : gmap Endpoint Recipient;
  endpoint : option Endpoint;
}.

Inductive Output :=
| StoreNewBundle (bundle_data : bytes)
| EventClientConnected (destination : Endpoint) (sender : Recipient)
| EventClientDisconnected (destination : Endpoint)
| StopListenBundleResponseActor (client : Recipient)
| AddNode (url : Url)
| RemoveNode (url : Url)
| AddRoute (target : Endpoint) (ty : RouteType) (next_hop : Endpoint) (max_bundle_size : option Z)
| RemoveRoute (target : Endpoint) (ty : RouteType) (next_hop : Endpoint).

Abbreviation handler := (actor Daemon Output).

Definition processing_flags (debug : bool) : Z :=
  if debug then
    Z.lor (Z.lor (Z.lor BundleFlags.BUNDLE_RECEIPTION_STATUS_REQUESTED
                        BundleFlags.BUNDLE_FORWARDING_STATUS_REQUEST)
                 BundleFlags.BUNDLE_DELIVERY_STATUS_REQUESTED)
          BundleFlags.BUNDLE_DELETION_STATUS_REQUESTED
  else BundleFlags.BUNDLE_DELETION_STATUS_REQUESTED.

Definition new_bundle (me destination : Endpoint) (payload : bytes) (lifetime : Z) (debug : bool)
    (now : DtnTime) : Bundle :=
  {| primary_block := {|
       version := 7; bundle_processing_flags := processing_flags debug; crc := NoCRC;
       destination_endpoint := destination; source_node := me; report_to := me;
       creation_timestamp := {| creation_time := now; sequence_number := 0 |};
       lifetime := lifetime; fragment_offset := None; total_data_length := None |};
     blocks := [{| block := Payload {| data := payload |}; block_flags := BlockFlags.empty;
                   block_number := 1; block_crc := NoCRC |}] |}.

Section client.
Context `{!SerdeCbor}.

Definition started (my_node_id : bytes) : handler () :=
  e ← lift (unwrap (Endpoint.new my_node_id));
  modify (λ d, {| connected_clients := connected_clients d; endpoint := Some e |}).

(** [clock] is the reading of [DtnTime::now]. *)
Definition ClientSendBundle (clock : Z) (destination : Endpoint) (payload : bytes) (lifetime : Z)
    (debug : bool) : handler () :=
  me ← gets endpoint;
  me ← lift (unwrap me);
  t ← lift (Time.now clock);
  d ← lift (unwrap_ok (bytes_of_bundle (new_bundle me destination payload lifetime debug t)));
  do_send (StoreNewBundle d).

(** [client] is the address of the actor started for the connection; the result
    tells whether the endpoint belongs to this node. *)
Definition ClientListenConnect (destination : Endpoint) (client : Recipient) : handler bool :=
  me ← gets endpoint;
  me ← lift (unwrap me);
  here ← lift (Endpoint.matches_node me destination);
  if (here : bool) then
    modify (λ d, {| connected_clients := <[destination := client]> (connected_clients d);
                    endpoint := endpoint d |});;
    do_send (EventClientConnected destination client);;
    mret true
  else mret false.

Definition ClientListenDisconnect (destination : Endpoint) : handler () :=
  cs ← gets connected_clients;
  match cs !! destination with
  | Some addr => do_send (StopListenBundleResponseActor addr)
  | None => mret ()
  end;;
  do_send (EventClientDisconnected destination).

Definition ClientAddNode (u : Url) : handler () := do_send (AddNode u).
Definition ClientRemoveNode (u : Url) : handler () := do_send (RemoveNode u).
Definition ClientAddRoute (t nh : Endpoint) : handler () := do_send (AddRoute t Static nh None).
Definition ClientRemoveRoute (t nh : Endpoint) : handler () := do_send (RemoveRoute t Static nh).

(** [Shutdown]: the clients are drained in the order of the hash map. *)
Definition Shutdown `{!HashOrder} : handler () :=
  cs ← gets connected_clients;
  modify (λ d, {| connected_clients := ∅; endpoint := endpoint d |});;
  for_each (λ c, do_send (StopListenBundleResponseActor c.2)) (order (map_to_list cs)).

(** [ListenBundleResponseActor]: it passes a bundle to its client over a channel;
    [closed] tells that the receiving end is gone.  The actor ([running]) stops
    itself then, and on request. *)
Record ListenBundleResponseActor := { listen_endpoint : Endpoint; running : bool }.

Inductive ListenOutput :=
| SentToClient (bundle : StoredBundleRef)
| EventBundleDeliveryFailed (endpoint : Endpoint) (bundle : StoredBundleRef).

Definition stop : actor ListenBundleResponseActor ListenOutput () :=
  modify (λ a, {| listen_endpoint := listen_endpoint a; running := false |}).

Definition ClientDeliverBundle (closed : bool) (bundle : StoredBundleRef)
    : actor ListenBundleResponseActor ListenOutput () :=
  if closed then
    e ← gets listen_endpoint;
    do_send (EventBundleDeliveryFailed e bundle);;
    stop
  else do_send (SentToClient bundle).
End client.
End ClientAgent.

(** ** Properties *)

(** The node agent handles a message. *)
Inductive node_step : NodeAgent.Daemon → NodeAgent.Daemon → Prop :=
| StepAddNode d u d' o : NodeAgent.AddNode u d = Ok ((), d', o) → node_step d d'
| StepRemoveNode d u d' o : NodeAgent.RemoveNode u d = Ok ((), d', o) → node_step d d'
| StepConnected d u e m d' o :
    NodeAgent.NotifyNodeConnected u e m d = Ok ((), d', o) → node_step d d'
| StepDisconnected d u d' o :
    NodeAgent.NotifyNodeDisconnected u d = Ok ((), d', o) → node_step d d'
| StepTryConnect d d' o : NodeAgent.TryConnect d = Ok ((), d', o) → node_step d d'.

Section nodes.
Import NodeAgent.

(** A url is listed once, a connected node has an endpoint, and a disconnected
    one that stays in the list has none. *)
Definition node_ok (n : Node) : Prop :=
  (connection_status n = Connected → is_Some (remote_endpoint n)) ∧
  (connection_status n = Disconnected → remote_endpoint n = None).

Record nodes_ok (d : Daemon) : Prop := {
  no_urls : NoDup (map url (nodes d));
  no_nodes : Forall node_ok (nodes d);
}.

Lemma existsb_has_url u ns : existsb (has_url u) ns = false ↔ u ∉ map url ns.
Proof.
  induction ns as [|n ns IH]; simpl; [set_solver|]. rewrite orb_false_iff, IH. unfold has_url.
  rewrite bool_decide_eq_false. set_solver.
Qed.

Lemma position_has_url_None u ns : position (has_url u) ns = None ↔ u ∉ map url ns.
Proof.
  rewrite position_None. unfold has_url. induction ns as [|n ns IH]; simpl; [split; [set_solver|constructor]|].
  rewrite Forall_cons, IH, bool_decide_eq_false. set_solver.
Qed.

Lemma nodes_ok_snoc d n :
  nodes_ok d → url n ∉ map url (nodes d) → node_ok n → nodes_ok {| nodes := nodes d ++ [n] |}.
Proof.
  intros [Hu Hn] Hnew Hok. split; simpl.
  - rewrite map_app. apply NoDup_app. split_and!; [done| |apply NoDup_singleton]. set_solver.
  - apply Forall_app_2; [done|by constructor].
Qed.

Lemma map_url_alter (f : Node → Node) i ns :
  (∀ n, url (f n) = url n) → map url (alter f i ns) = map url ns.
Proof.
  intros Hf. revert i. induction ns as [|n ns IH]; intros [|i]; simpl; [done..|by rewrite Hf|].
  f_equal. apply IH.
Qed.

Lemma nodes_ok_update u f d :
  nodes_ok d → (∀ n, url (f n) = url n) → (∀ n, node_ok (f n)) → nodes_ok (update_node u f d).
Proof.
  intros [Hu Hn] Hurl Hok. unfold update_node. destruct (position _ _) as [i|]; [|done].
  split; simpl.
  - assert (map url (alter f i (nodes d)) = map url (nodes d)) as ->; [|done].
    apply (map_url_alter f). done.
  - apply Forall_alter; [done|]. auto.
Qed.

Lemma try_connect_urls ns : map url (try_connect_nodes ns).1 = map url ns.
Proof.
  induction ns as [|n ns IH]; simpl; [done|]. destruct (try_connect_nodes ns) as [ns' o].
  simpl in *. case_match; simpl; by rewrite IH.
Qed.

Lemma try_connect_ok ns : Forall node_ok ns → Forall node_ok (try_connect_nodes ns).1.
Proof.
  induction 1 as [|n ns Hn _ IH]; simpl; [constructor|].
  destruct (try_connect_nodes ns) as [ns' o]. simpl in *. case_match; constructor; try done.
Qed.

Lemma node_step_ok d d' : nodes_ok d → node_step d d' → nodes_ok d'.
Proof.
  intros Hd Hs. destruct Hs as [d u d' o H|d u d' o H|d u e m d' o H|d u d' o H|d d' o H].
  - unfold AddNode in H. ainv. case_match eqn:E; ainv; [done|]. apply existsb_has_url in E.
    by apply nodes_ok_snoc.
  - unfold RemoveNode in H. ainv. case_match; ainv; [|done]. by apply nodes_ok_update.
  - unfold NotifyNodeConnected in H. ainv. case_match eqn:E; ainv.
    + apply nodes_ok_update; [done..|]. intros nd. split; simpl; [by eexists|done].
    + apply position_has_url_None in E. apply nodes_ok_snoc; [done..|]. split; simpl; [by eexists|done].
  - unfold NotifyNodeDisconnected in H. ainv. destruct (position _ _) as [i|] eqn:E; ainv; [|done].
    assert (s1 = s) as -> by (by destruct (remote_endpoint a); ainv).
    destruct (temporary a); ainv; [|by apply nodes_ok_update].
    destruct a0 as [x rest]. ainv. rename E2 into R.
    apply vec_remove_perm in R. destruct Hd as [Hu Hn]. rewrite R in Hu, Hn. simpl in Hu.
    apply NoDup_cons in Hu as [_ Hu]. apply Forall_cons in Hn as [_ Hn]. by split.
  - unfold TryConnect in H. pose proof (try_connect_urls (nodes d)) as Hurls.
    destruct Hd as [Hu Hn]. apply try_connect_ok in Hn.
    destruct (try_connect_nodes _) as [ns o'] eqn:E. simplify_eq/=. split; simpl; [|done].
    by rewrite Hurls.
Qed.
End nodes.

(** ** The node agent and the routing agent together *)

(** What happens to them: requests, notifications and the clock's ticks for the
    node agent, static routes from the clients for the routing agent. *)
Inductive event :=
| DoAddNode (u : Url)
| DoRemoveNode (u : Url)
| DoConnected (u : Url) (e : Endpoint) (max_bundle_size : Z)
| DoDisconnected (u : Url)
| DoTryConnect
| DoAddStatic (t nh : Endpoint)
| DoRemoveStatic (t nh : Endpoint).

Section system.
Context {HO : HashOrder}.

(** The mailbox of the routing agent gets the node agent's messages in order. *)
Definition route_message (o : NodeAgent.Output) : RoutingAgent.handler () :=
  match o with
  | NodeAgent.AddRoute t ty nh m => RoutingAgent.AddRoute t ty nh m
  | NodeAgent.RemoveRoute t ty nh => RoutingAgent.RemoveRoute t ty nh
  | NodeAgent.AgentConnectNode _ | NodeAgent.AgentDisconnectNode _ => mret ()
  end.

Definition node_event (ev : event) : NodeAgent.handler () :=
  match ev with
  | DoAddNode u => NodeAgent.AddNode u
  | DoRemoveNode u => NodeAgent.RemoveNode u
  | DoConnected u e m => NodeAgent.NotifyNodeConnected u e m
  | DoDisconnected u => NodeAgent.NotifyNodeDisconnected u
  | DoTryConnect => NodeAgent.TryConnect
  | DoAddStatic t nh => do_send (NodeAgent.AddRoute t Static nh None)
  | DoRemoveStatic t nh => do_send (NodeAgent.RemoveRoute t Static nh)
  end.

Definition peers : Type := NodeAgent.Daemon * RoutingAgent.Daemon.

Definition peers_step (ev : event) (s : peers) : outcome Empty_set peers :=
  '(_, d, o) ← node_event ev s.1;
  '(_, r, _) ← for_each route_message o s.2;
  Ok (d, r).

(** [link d u e]: over [u] the node agent is connected to [e]. *)
Definition link (d : NodeAgent.Daemon) (u : Url) (e : Endpoint) : Prop :=
  ∃ n, n ∈ NodeAgent.nodes d ∧ NodeAgent.url n = u ∧ NodeAgent.remote_endpoint n = Some e.

(** Connections are announced once, and there is one per peer. *)
Definition single_link (d : NodeAgent.Daemon) (ev : event) : Prop :=
  match ev with
  | DoConnected u e _ => (∀ u', link d u' e → u' = u) ∧ (∀ e', link d u e' → e' = e)
  | _ => True
  end.

Inductive peers_run : list event → peers → Prop :=
| peers_start : peers_run [] (NodeAgent.Daemon_default, RoutingAgent.Daemon_default)
| peers_more evs ev s s' :
    peers_run evs s → single_link s.1 ev → peers_step ev s = Ok s' → peers_run (evs ++ [ev]) s'.
End system.

(** The effect of each handler on the links, and what it sends. *)
Section links.
Import NodeAgent.

Lemma link_unique d u e e' : NoDup (map url (nodes d)) → link d u e → link d u e' → e = e'.
Proof.
  intros Hd (n & Hn & <- & He) (n' & Hn' & Hu & He').
  assert (n' = n) as ->; [|congruence].
  apply list_elem_of_lookup in Hn as (i & Hi), Hn' as (j & Hj).
  assert (i = j) as ->; [|congruence].
  eapply (NoDup_lookup _ i j); [done|..]; rewrite list_lookup_fmap.
  - by rewrite Hi.
  - rewrite Hj. simpl. by rewrite Hu.
Qed.

Lemma AddNode_links u d :
  ∃ d' o, AddNode u d = Ok ((), d', o) ∧ (∀ v e, link d' v e ↔ link d v e) ∧
    o ⊆ [AgentConnectNode u].
Proof.
  unfold AddNode. arun. case_match.
  - eexists _, _. split_and!; [done..|set_solver].
  - eexists _, _. split_and!; [done| |simpl; set_solver].
    intros v e. unfold link. simpl. setoid_rewrite elem_of_app.
    setoid_rewrite list_elem_of_singleton. split; [|naive_solver].
    intros (n & [Hn| ->] & Hu & He); [by exists n|done].
Qed.

(** Rewriting the nodes one by one, urls and endpoints kept. *)
Lemma link_Forall2 d d' :
  Forall2 (λ n n', url n' = url n ∧ remote_endpoint n' = remote_endpoint n) (nodes d) (nodes d') →
  ∀ u e, link d' u e ↔ link d u e.
Proof.
  unfold link. induction 1 as [|n n' ns ns' [Hu He] _ IH]; intros u e; [done|].
  setoid_rewrite elem_of_cons. specialize (IH u e). split.
  - intros (m & [->|Hm] & H1 & H2); [exists n; rewrite <-Hu, <-He; auto|].
    destruct (proj1 IH) as (k & ? & ? & ?); [by exists m|]. exists k. auto.
  - intros (m & [->|Hm] & H1 & H2); [exists n'; rewrite Hu, He; auto|].
    destruct (proj2 IH) as (k & ? & ? & ?); [by exists m|]. exists k. auto.
Qed.

Lemma update_node_split u f d i :
  position (has_url u) (nodes d) = Some i →
  ∃ l1 n l2, nodes d = l1 ++ n :: l2 ∧ url n = u ∧ nodes d !! i = Some n ∧
    nodes (update_node u f d) = l1 ++ f n :: l2 ∧ vec_remove i (nodes d) = Some (n, l1 ++ l2).
Proof.
  intros Hp. unfold update_node. rewrite Hp. destruct (position_Some _ _ _ Hp) as (n & Hi & Hn).
  exists (take i (nodes d)), n, (drop (S i) (nodes d)). apply bool_decide_eq_true in Hn.
  split_and!; [by rewrite take_drop_middle|done|done| |by apply vec_remove_lookup].
  simpl. rewrite <-(take_drop_middle _ _ _ Hi) at 1. apply lookup_lt_Some in Hi.
  rewrite alter_app_r_alt by (rewrite length_take; lia). rewrite length_take.
  by replace (i - i `min` length (nodes d))%nat with 0%nat by lia.
Qed.

Lemma RemoveNode_links u d :
  ∃ d' o, RemoveNode u d = Ok ((), d', o) ∧ (∀ v e, link d' v e ↔ link d v e) ∧
    o ⊆ [AgentDisconnectNode u].
Proof.
  unfold RemoveNode. arun. destruct (position _ _) as [i|] eqn:E; arun.
  - eexists _, _. split_and!; [done| |simpl; set_solver]. apply link_Forall2.
    match goal with |- context [update_node u ?f d] =>
      destruct (update_node_split u f d i E) as (l1 & n & l2 & -> & _ & _ & -> & _) end.
    apply Forall2_app; [|constructor; [done|]]; by apply Forall_Forall2_diag, Forall_true.
  - eexists _, _. split_and!; [done..|set_solver].
Qed.

Lemma TryConnect_links d :
  ∃ d' o, TryConnect d = Ok ((), d', o) ∧ (∀ v e, link d' v e ↔ link d v e) ∧
    ∀ x, x ∈ o → ∃ u, x = AgentConnectNode u.
Proof.
  unfold TryConnect. destruct (try_connect_nodes _) as [ns o] eqn:E. eexists _, _.
  split; [done|]. cut (Forall2 (λ n n', url n' = url n ∧ remote_endpoint n' = remote_endpoint n)
    (nodes d) ns ∧ ∀ x, x ∈ o → ∃ u, x = AgentConnectNode u).
  { intros [H ?]. split; [by apply link_Forall2|done]. }
  revert ns o E. induction (nodes d) as [|n l IH]; intros ns o E; simplify_eq/=.
  { split; [done|]. set_solver. }
  destruct (try_connect_nodes l) as [ns' o']. destruct (IH _ _ eq_refl) as [H1 H2].
  case_match; simplify_eq; (split; [by constructor|]); set_solver.
Qed.

Lemma nodup_url_middle l1 n l2 m :
  NoDup (map url (l1 ++ n :: l2)) → m ∈ l1 ++ l2 → url m ≠ url n.
Proof.
  intros Hd Hm Heq. rewrite map_app, map_cons in Hd. apply NoDup_app in Hd as (_ & Hd & H2).
  apply NoDup_cons in H2 as [H2 _]. apply elem_of_app in Hm as [Hm|Hm].
  - apply (Hd (url m)); [by apply list_elem_of_fmap_2|]. rewrite Heq. left.
  - apply H2. rewrite <-Heq. by apply list_elem_of_fmap_2.
Qed.

(** Links of a list in which [n] is the node with its url. *)
Lemma link_middle l1 n l2 v e :
  NoDup (map url (l1 ++ n :: l2)) →
  link {| nodes := l1 ++ n :: l2 |} v e ↔
  (v = url n ∧ remote_endpoint n = Some e) ∨ (v ≠ url n ∧ link {| nodes := l1 ++ l2 |} v e).
Proof.
  intros Hd. pose proof (λ m, nodup_url_middle l1 n l2 m Hd) as Hne.
  unfold link. simpl. split.
  - intros (m & Hm & <- & He). rewrite elem_of_app, elem_of_cons in Hm.
    assert (m = n ∨ m ∈ l1 ++ l2) as [->|Hin] by (rewrite elem_of_app; tauto); [by left|].
    right. eauto 10.
  - intros [[-> He]|(_ & m & Hm & <- & He)]; eexists; (split; [|done]); set_solver.
Qed.

Lemma NotifyNodeConnected_links u e m d :
  NoDup (map url (nodes d)) →
  ∃ d', NotifyNodeConnected u e m d
      = Ok ((), d', [AddRoute e Routing.Connected e (Some m)]) ∧
    ∀ v e', link d' v e' ↔ (v = u ∧ e' = e) ∨ (v ≠ u ∧ link d v e').
Proof.
  intros Hd. unfold NotifyNodeConnected. arun. destruct (position _ _) as [i|] eqn:E; arun.
  - eexists. split; [done|]. intros v e'.
    match goal with |- context [update_node u ?f d] =>
      destruct (update_node_split u f d i E) as (l1 & n & l2 & Hl & Hu & _ & Hn & _);
      set (d' := update_node u f d) in * end.
    destruct d as [ns], d' as [ns']. simpl in *. subst ns ns'.
    rewrite !link_middle by (rewrite map_app, map_cons in Hd |- *; exact Hd). simpl. rewrite Hu.
    naive_solver.
  - eexists. split; [done|]. intros v e'. apply position_has_url_None in E.
    unfold link. simpl. setoid_rewrite elem_of_app. setoid_rewrite list_elem_of_singleton. split.
    + intros (n & [Hn| ->] & <- & He); [right|left; naive_solver].
      split; [|by exists n]. intros <-. apply E. by apply list_elem_of_fmap_2.
    + intros [[-> ->]|(Hv & n & Hn & <- & He)]; eexists; (split; [by (right + left)|done]).
Qed.

Lemma NotifyNodeDisconnected_links u d :
  NoDup (map url (nodes d)) →
  ∃ d' o, NotifyNodeDisconnected u d = Ok ((), d', o) ∧
    (∀ v e, link d' v e ↔ v ≠ u ∧ link d v e) ∧
    ((∃ e, link d u e ∧ o = [RemoveRoute e Routing.Connected e]) ∨
     (∀ e, ¬ link d u e) ∧ o = []).
Proof.
  intros Hd. unfold NotifyNodeDisconnected. arun. destruct (position _ _) as [i|] eqn:E; arun.
  2:{ apply position_has_url_None in E.
    assert (∀ e, ¬ link d u e).
    { intros e (n & Hn & <- & _). apply E. by apply list_elem_of_fmap_2. }
    eexists _, _. split_and!; [done| |by right]. intros v e. split; [|by intros []].
    intros Hl. split; [|done]. intros ->. naive_solver. }
  destruct (update_node_split u (λ n, {| url := url n; connection_status := Disconnected;
    remote_endpoint := None; temporary := temporary n |}) d i E)
    as (l1 & n & l2 & Hl & Hu & Hi & Hn & Hr). rewrite Hi. arun.
  set (send := match remote_endpoint n with Some _ => _ | None => _ end).
  assert (∃ o, send d = Ok ((), d, o) ∧
    ((∃ e, remote_endpoint n = Some e ∧ o = [RemoveRoute e Routing.Connected e]) ∨
     remote_endpoint n = None ∧ o = [])) as (o & Hsend & Ho).
  { unfold send. destruct (remote_endpoint n); eexists; (split; [done|]); eauto. }
  rewrite (bind_step _ _ _ _ _ _ Hsend). clear Hsend send.
  destruct d as [ns]. simpl in Hl. subst ns. simpl in Hd, Hr.
  pose proof (λ v e, link_middle l1 n l2 v e Hd) as Hold.
  assert (Hout : (∃ e, link {| nodes := l1 ++ n :: l2 |} u e ∧
      o = [RemoveRoute e Routing.Connected e]) ∨
    (∀ e, ¬ link {| nodes := l1 ++ n :: l2 |} u e) ∧ o = []).
  { setoid_rewrite Hold. rewrite <-Hu. destruct Ho as [(e & He & ->)|[He ->]]; [left|right]; naive_solver. }
  destruct (temporary n).
  - simpl. rewrite Hr. arun. eexists _, _. split_and!; [done| |by rewrite app_nil_r].
    intros v e. rewrite Hold. rewrite <-Hu. split; [|naive_solver].
    intros Hv. assert (v ≠ url n); [|by auto].
    destruct Hv as (m & Hm & <- & _). by apply (nodup_url_middle l1 n l2).
  - arun. eexists _, _. split_and!; [done| |by rewrite app_nil_r].
    intros v e. destruct (update_node _ _ _) as [ns']. simpl in Hn. subst ns'.
    rewrite link_middle, Hold by (rewrite map_app, map_cons in Hd |- *; exact Hd). simpl.
    rewrite Hu. naive_solver.
Qed.
End links.

(** ** Links and direct routes *)
Section direct.
Context {HO : HashOrder} {HL : HashOrderLaws}.
Import NodeAgent.

(** What the two agents keep true together: a url has one link, a peer has one
    link, and the direct routes are those to the peers. *)
Record peers_ok (s : peers) : Prop := {
  po_nodes : nodes_ok s.1;
  po_single : ∀ u u' e, link s.1 u e → link s.1 u' e → u = u';
  po_routes : ∀ t nh, is_Some (routes_of s.2 t !! (Routing.Connected, nh)) ↔
    nh = t ∧ ∃ u, link s.1 u t;
}.

Lemma route_message_idle o r :
  (∀ x, x ∈ o → match x with AddRoute _ _ _ _ | RemoveRoute _ _ _ => False | _ => True end) →
  for_each route_message o r = Ok ((), r, []).
Proof.
  induction o as [|x o IH]; intros H; [done|]. cbn [for_each].
  assert (route_message x r = Ok ((), r, [])) as Hx.
  { specialize (H x ltac:(left)). by destruct x. }
  rewrite (bind_step _ _ _ _ _ _ Hx), IH; [done|]. intros y Hy. apply H. by right.
Qed.

Lemma node_event_ok ev d d' o :
  nodes_ok d → node_event ev d = Ok ((), d', o) → nodes_ok d'.
Proof.
  intros Hd H. destruct ev; simpl in H; try (eapply node_step_ok; [done|]; by econstructor);
    by ainv.
Qed.

Lemma for_each_single {S M A} (body : A → actor S M ()) x s s' o :
  body x s = Ok ((), s', o) → for_each body [x] s = Ok ((), s', o).
Proof. intros H. cbn [for_each]. rewrite (bind_step _ _ _ _ _ _ H). simpl. by rewrite app_nil_r. Qed.

Lemma peers_step_intro ev d r d' o r' o' :
  node_event ev d = Ok ((), d', o) → for_each route_message o r = Ok ((), r', o') →
  peers_step ev (d, r) = Ok (d', r').
Proof. intros H1 H2. unfold peers_step. simpl. rewrite H1. simpl. by rewrite H2. Qed.

(** The step returns, and the links and direct routes agree after it. *)
Definition step_good (ev : event) (d : Daemon) (r : RoutingAgent.Daemon) : Prop :=
  ∃ d' o r' o', node_event ev d = Ok ((), d', o) ∧ for_each route_message o r = Ok ((), r', o') ∧
    (∀ u u' e, link d' u e → link d' u' e → u = u') ∧
    (∀ t nh, is_Some (routes_of r' t !! (Routing.Connected, nh)) ↔ nh = t ∧ ∃ u, link d' u t).

Lemma step_good_ok ev d r :
  nodes_ok d → step_good ev d r → ∃ s', peers_step ev (d, r) = Ok s' ∧ peers_ok s'.
Proof.
  intros Hn (d' & o & r' & o' & H1 & H2 & H3 & H4). exists (d', r'). split.
  - by eapply peers_step_intro.
  - split; [by eapply node_event_ok|done..].
Qed.

Lemma idle_good ev d r d' o :
  peers_ok (d, r) → node_event ev d = Ok ((), d', o) → (∀ v e, link d' v e ↔ link d v e) →
  (∀ x, x ∈ o → match x with AddRoute _ _ _ _ | RemoveRoute _ _ _ => False | _ => True end) →
  step_good ev d r.
Proof.
  intros [_ Hs Hr] H1 H2 H3. exists d', o, r, []. simpl in *.
  split_and!; [done|by apply route_message_idle|..].
  - intros u u' e. rewrite !H2. apply Hs.
  - intros t nh. setoid_rewrite H2. apply Hr.
Qed.

Lemma connected_good u e m d r :
  peers_ok (d, r) → single_link d (DoConnected u e m) → step_good (DoConnected u e m) d r.
Proof.
  intros [[Hu _] Hs Hr] Hsl. simpl in *.
  destruct (NotifyNodeConnected_links u e m d Hu) as (d' & H1 & H2).
  destruct (AddRoute_routes e Routing.Connected e (Some m) r) as (r' & o' & H3 & H4).
  exists d', [AddRoute e Routing.Connected e (Some m)], r', o'.
  split_and!; [done|by apply for_each_single|..].
  - intros v v' e'. rewrite !H2. naive_solver.
  - intros t nh. rewrite H4. setoid_rewrite H2. case_decide as Ht; [naive_solver|].
    rewrite Hr. split; [|naive_solver]. intros [-> (v & Hv)]. split; [done|].
    exists v. right. split; [|done]. intros ->. naive_solver.
Qed.

Lemma disconnected_good u d r :
  peers_ok (d, r) → step_good (DoDisconnected u) d r.
Proof.
  intros Hok. pose proof Hok as [[Hu _] Hs Hr]. simpl in *.
  destruct (NotifyNodeDisconnected_links u d Hu) as (d' & o & H1 & H2 & [(e & He & ->)|[He ->]]).
  - destruct (RemoveRoute_routes e Routing.Connected e r) as (r' & o' & H3 & H4).
    exists d', [RemoveRoute e Routing.Connected e], r', o'.
    split_and!; [done|by apply for_each_single|..].
    + intros v v' e'. rewrite !H2. naive_solver.
    + intros t nh. rewrite H4. setoid_rewrite H2. case_decide as Ht.
      { split; [by intros []|]. naive_solver. }
      rewrite Hr. split; [|naive_solver]. intros [-> (v & Hv)]. split; [done|].
      exists v. split; [|done]. intros ->. assert (t = e); [by eapply link_unique|naive_solver].
  - eapply idle_good; [done|done| |set_solver]. intros v e. rewrite H2. naive_solver.
Qed.

Lemma peers_step_ok ev s :
  peers_ok s → single_link s.1 ev → ∃ s', peers_step ev s = Ok s' ∧ peers_ok s'.
Proof.
  destruct s as [d r]. intros Hok Hsl. apply step_good_ok; [apply Hok|].
  pose proof Hok as [_ Hs Hr]. destruct ev as [u|u|u e m|u| |t nh|t nh]; simpl in *.
  - destruct (AddNode_links u d) as (d' & o & H1 & H2 & H3). eapply idle_good; [done..|].
    intros x Hx%H3. by apply list_elem_of_singleton in Hx as ->.
  - destruct (RemoveNode_links u d) as (d' & o & H1 & H2 & H3). eapply idle_good; [done..|].
    intros x Hx%H3. by apply list_elem_of_singleton in Hx as ->.
  - by apply connected_good.
  - by apply disconnected_good.
  - destruct (TryConnect_links d) as (d' & o & H1 & H2 & H3). eapply idle_good; [done..|].
    intros x Hx%H3. by destruct Hx as [? ->].
  - destruct (AddRoute_routes t Static nh None r) as (r' & o' & H3 & H4).
    eexists d, _, r', o'. split_and!; [done|by apply for_each_single|done|].
    intros t' nh'. rewrite H4, <-Hr. case_decide; naive_solver.
  - destruct (RemoveRoute_routes t Static nh r) as (r' & o' & H3 & H4).
    eexists d, _, r', o'. split_and!; [done|by apply for_each_single|done|].
    intros t' nh'. rewrite H4, <-Hr. case_decide; naive_solver.
Qed.

Lemma peers_run_ok evs s : peers_run evs s → peers_ok s.
Proof.
  induction 1 as [|evs ev s s' _ IH Hsl Hst].
  - split; simpl; [by repeat constructor|intros ??? (n & Hn & _); by apply not_elem_of_nil in Hn|].
    intros t nh. unfold routes_of. simpl. rewrite lookup_empty. simpl. rewrite lookup_empty.
    split; [by intros []|]. intros (_ & u & n & Hn & _). by apply not_elem_of_nil in Hn.
  - destruct (peers_step_ok _ _ IH Hsl) as (s'' & Hs'' & Hok). congruence.
Qed.

(** A connection and a disconnection, seen from both agents. *)
Lemma connected_event u e m d r :
  nodes_ok d →
  ∃ d' r', peers_step (DoConnected u e m) (d, r) = Ok (d', r') ∧ nodes_ok d' ∧
    (∀ v e', link d' v e' ↔ (v = u ∧ e' = e) ∨ (v ≠ u ∧ link d v e')) ∧
    (∀ t k, routes_of r' t !! k = if decide (t = e ∧ k = (Routing.Connected, e))
       then Some (default (Some m) (routes_of r e !! (Routing.Connected, e)))
       else routes_of r t !! k).
Proof.
  intros Hd. destruct (NotifyNodeConnected_links u e m d (no_urls d Hd)) as (d' & H1 & H2).
  destruct (AddRoute_routes e Routing.Connected e (Some m) r) as (r' & o' & H3 & H4).
  exists d', r'. split_and!; [|by eapply (node_event_ok (DoConnected u e m))|done..].
  eapply peers_step_intro; [done|]. by apply for_each_single.
Qed.

Lemma disconnected_event u e d r :
  nodes_ok d → link d u e →
  ∃ d' r', peers_step (DoDisconnected u) (d, r) = Ok (d', r') ∧
    (∀ v e', link d' v e' ↔ v ≠ u ∧ link d v e') ∧
    (∀ t k, routes_of r' t !! k = if decide (t = e ∧ k = (Routing.Connected, e)) then None
       else routes_of r t !! k).
Proof.
  intros Hd He. destruct (NotifyNodeDisconnected_links u d (no_urls d Hd)) as (d' & o & H1 & H2 & H5).
  assert (o = [RemoveRoute e Routing.Connected e]) as ->.
  { destruct H5 as [(e' & He' & ->)|[Hno _]]; [|by destruct (Hno e)].
    by rewrite (link_unique d u e e' (no_urls d Hd) He He'). }
  destruct (RemoveRoute_routes e Routing.Connected e r) as (r' & o' & H3 & H4).
  exists d', r'. split_and!; [|done..].
  eapply peers_step_intro; [done|]. by apply for_each_single.
Qed.
End direct.

(** The routing table follows the links: a node with a link is its own next hop,
    and the next hop of every entry is a node with a link, after any sequence of
    requests, connections, disconnections, reconnection attempts and static
    routes in which a peer has one link at a time.  (Claim C31.) *)
Theorem table_follows_links `{!HashOrder, !HashOrderLaws} evs s :
  peers_run evs s →
  (∀ u e, link s.1 u e →
     ∃ m, RoutingAgent.routing_table s.2 !! e = Some {| next_hop := e; max_size := m |}) ∧
  (∀ t info, RoutingAgent.routing_table s.2 !! t = Some info → ∃ u, link s.1 u (next_hop info)).
Proof.
  intros Hrun. destruct (peers_run_ok _ _ Hrun) as [_ _ Hr]. destruct s as [d r]. simpl in *.
  assert (Hnb : ∀ e, neighbour r e ↔ ∃ u, link d u e).
  { intros e. unfold neighbour. split.
    - intros (nh & m & Hm). apply (Hr e nh). by eexists.
    - intros He. destruct (proj2 (Hr e e) (conj eq_refl He)) as [m Hm]. by exists e, m. }
  split.
  - intros u e He. pose proof (routing_table_lookup r e) as Ht.
    assert (neighbour r e) as Hn by (apply Hnb; by exists u).
    destruct (RoutingAgent.routing_table r !! e) as [[nh m]|] eqn:E.
    + destruct Ht as (ty & Hm & _ & Hc). simpl in *. rewrite (Hc Hn) in Hm.
      destruct (proj1 (Hr e nh)) as [-> _]; by eexists.
    + destruct Ht as [Ht|[Ht _]]; [|done]. destruct Hn as (nh & m & Hm). by rewrite Ht in Hm.
  - intros t info Ht. pose proof (routing_table_lookup r t) as Hb. rewrite Ht in Hb.
    destruct Hb as (ty & Hm & [->|Hn] & _); [|by apply Hnb].
    destruct (proj1 (Hr t (next_hop info))) as [-> He]; [by eexists|done].
Qed.

(** Two nodes, a neighbour and a static route over it. *)
Module PeersWitness.
Definition u1 : Url := {| url_text := str "tcpcl://10.0.0.1:4556"; url_scheme := str "tcpcl" |}.
Definition u2 : Url := {| url_text := str "tcpcl://10.0.0.2:4556"; url_scheme := str "tcpcl" |}.
Definition events : list event :=
  [DoAddNode u1; DoConnected u1 RoutingWitness.n 1000;
   DoAddStatic RoutingWitness.c RoutingWitness.n].
Definition s : peers := (
  {| NodeAgent.nodes := [{| NodeAgent.url := u1; NodeAgent.connection_status := NodeAgent.Connected;
       NodeAgent.remote_endpoint := Some RoutingWitness.n; NodeAgent.temporary := false |}] |},
  RoutingWitness.d).

Definition s1 : peers := (
  {| NodeAgent.nodes := [{| NodeAgent.url := u1; NodeAgent.connection_status := NodeAgent.Connecting;
       NodeAgent.remote_endpoint := None; NodeAgent.temporary := false |}] |},
  RoutingAgent.Daemon_default).
Definition s2 : peers := (s.1,
  {| RoutingAgent.routes := {[ RoutingWitness.n := {[ (Connected, RoutingWitness.n) := Some 1000 ]} ]};
     RoutingAgent.last_routing_table := None |}).

Example step1 :
  peers_step (DoAddNode u1) (NodeAgent.Daemon_default, RoutingAgent.Daemon_default) = Ok s1.
Proof. vm_compute. reflexivity. Qed.
Example step2 : peers_step (DoConnected u1 RoutingWitness.n 1000) s1 = Ok s2.
Proof. vm_compute. reflexivity. Qed.
Example step3 : peers_step (DoAddStatic RoutingWitness.c RoutingWitness.n) s2 = Ok s.
Proof. vm_compute. reflexivity. Qed.

Lemma links_run : peers_run events s.
Proof.
  apply (peers_more [_; _] _ s2 _); [|exact I|exact step3].
  apply (peers_more [_] _ s1 _); [| |exact step2].
  - apply (peers_more [] _ _ _ peers_start); [exact I|exact step1].
  - split; intros ? (nd & Hn & ? & ?); apply list_elem_of_singleton in Hn as ->; simplify_eq.
Qed.
End PeersWitness.

Lemma table_follows_links_witness :
  (∀ u e, link PeersWitness.s.1 u e → ∃ m,
     RoutingAgent.routing_table PeersWitness.s.2 !! e = Some {| next_hop := e; max_size := m |}) ∧
  (∀ t info, RoutingAgent.routing_table PeersWitness.s.2 !! t = Some info →
     ∃ u, link PeersWitness.s.1 u (next_hop info)).
Proof. apply (table_follows_links PeersWitness.events). apply PeersWitness.links_run. Defined.

(** Running a list of events. *)
Fixpoint peers_steps `{!HashOrder} (evs : list event) (s : peers) : outcome Empty_set peers :=
  match evs with
  | [] => Ok s
  | ev :: evs => s ← peers_step ev s; peers_steps evs s
  end.

(** A peer with two links is cut off when one of them goes away: the node agent
    removes the direct route, which the links share, and the routing table has no
    entry for the peer although the other link is up. *)
Theorem two_links_one_route `{!HashOrder, !HashOrderLaws} u1 u2 e m1 m2 :
  u1 ≠ u2 →
  ∃ s, peers_steps [DoConnected u1 e m1; DoConnected u2 e m2; DoDisconnected u1]
         (NodeAgent.Daemon_default, RoutingAgent.Daemon_default) = Ok s ∧
    link s.1 u2 e ∧ RoutingAgent.routing_table s.2 !! e = None.
Proof.
  intros Hne. set (d0 := NodeAgent.Daemon_default). set (r0 := RoutingAgent.Daemon_default).
  assert (nodes_ok d0) as Hd0 by (split; by constructor).
  destruct (connected_event u1 e m1 d0 r0 Hd0) as (d1 & r1 & S1 & Hd1 & L1 & R1).
  destruct (connected_event u2 e m2 d1 r1 Hd1) as (d2 & r2 & S2 & Hd2 & L2 & R2).
  assert (link d2 u1 e) as Hl. { apply L2. right. split; [done|]. apply L1. by left. }
  destruct (disconnected_event u1 e d2 r2 Hd2 Hl) as (d3 & r3 & S3 & L3 & R3).
  exists (d3, r3). cbn [peers_steps]. rewrite S1. ored. rewrite S2. ored. rewrite S3. ored.
  split_and!; [done| |].
  - apply L3. split; [done|]. apply L2. by left.
  - simpl. assert (∀ k, routes_of r3 e !! k = None) as Hno.
    { intros k. rewrite R3. case_decide as Hk; [done|]. rewrite R2, decide_False by done.
      rewrite R1, decide_False by done. apply lookup_empty. }
    pose proof (routing_table_lookup r3 e) as Ht.
    destruct (RoutingAgent.routing_table r3 !! e) as [info|]; [|done].
    destruct Ht as (ty & Hm & _). by rewrite Hno in Hm.
Qed.

Lemma two_links_one_route_witness :
  ∃ s, peers_steps [DoConnected PeersWitness.u1 RoutingWitness.n 10;
                    DoConnected PeersWitness.u2 RoutingWitness.n 10;
                    DoDisconnected PeersWitness.u1]
         (NodeAgent.Daemon_default, RoutingAgent.Daemon_default) = Ok s ∧
    link s.1 PeersWitness.u2 RoutingWitness.n ∧
    RoutingAgent.routing_table s.2 !! RoutingWitness.n = None.
Proof.
  apply (two_links_one_route PeersWitness.u1 PeersWitness.u2 RoutingWitness.n 10 10). done.
Defined.

(** ** A bundle from a client *)

Lemma new_bundle_ok me destination payload lifetime debug t :
  Endpoint.ok me → Endpoint.ok destination → bytes_ok payload → zlen payload < 2 ^ 63 →
  u64_ok lifetime → u64_ok (timestamp t) →
  bundle_ok (ClientAgent.new_bundle me destination payload lifetime debug t).
Proof.
  intros Hme Hd Hp Hl Hlife Ht.
  split_and!; [|constructor; [|constructor]|done]; unfold Primary.ok, canonical_ok; simpl.
  - split_and!; try done. by destruct debug.
  - split_and!; try done.
Qed.

(** The request handler of the client agent makes a bundle that reads back. *)
Lemma client_send_run `{!SerdeCbor, !SerdeCborLaws} clock destination payload lifetime debug me (c : ClientAgent.Daemon) :
  ClientAgent.endpoint c = Some me → node_endpoint_ok me →
  Endpoint.ok destination → bytes_ok payload → zlen payload < 2 ^ 63 → u64_ok lifetime →
  DTN_UNIX_DIFFERENCE_MS ≤ clock < 2 ^ 63 →
  ∃ d, ClientAgent.ClientSendBundle clock destination payload lifetime debug c
         = Ok ((), c, [ClientAgent.StoreNewBundle d]) ∧
    new_bundle_of me d (ClientAgent.new_bundle me destination payload lifetime debug
      {| timestamp := clock - DTN_UNIX_DIFFERENCE_MS |}).
Proof.
  intros Hc Hme Hdest Hpay Hlen Hlife Hclock.
  set (t := {| timestamp := clock - DTN_UNIX_DIFFERENCE_MS |}).
  set (b := ClientAgent.new_bundle me destination payload lifetime debug t).
  assert (Time.now (E := Empty_set) clock = Ok t) as Hnow by (by apply now_Ok).
  assert (bundle_ok b) as Hb.
  { apply new_bundle_ok; try done; [apply Hme|]. unfold t, DTN_UNIX_DIFFERENCE_MS, u64_ok in *.
    simpl. lia. }
  assert (bundle_no_crc b) as Hnc by (split; [done|repeat constructor]).
  destruct (bundle_write_read b Hb Hnc) as (d & Hw & _ & Hr). exists d. split.
  - unfold ClientAgent.ClientSendBundle. arun. rewrite Hc. arun. rewrite Hnow. arun.
    fold b. rewrite Hw. by arun.
  - split_and!; [done..|by eexists|done|].
    destruct (matches_node_iff (E := Empty_set) me me Hme Hme) as (r & Hm & Hr').
    cbn. rewrite Hm. f_equal. by apply Hr'.
Qed.

(** The bundle of a client reaches the storage: for a well-formed destination, a
    payload of any content and a clock after the year 2000, the request handler
    sends one message, the storage agent takes the bytes of it, stores a bundle
    that decodes to the requested one (apart from the sequence number, which the
    storage gives it) and announces it. *)
Theorem client_bundle_is_stored `{!SerdeCbor, !SerdeCborLaws} clock destination payload lifetime
    debug me (c : ClientAgent.Daemon) (st : Storage.Daemon) :
  ClientAgent.endpoint c = Some me → node_endpoint_ok me →
  Endpoint.ok destination → bytes_ok payload → zlen payload < 2 ^ 63 → u64_ok lifetime →
  DTN_UNIX_DIFFERENCE_MS ≤ clock < 2 ^ 63 →
  Storage.endpoint st = Some me → 0 ≤ last_sequence_number st < 2 ^ 64 - 1 →
  (∀ s, last_stamp st = Some s → timestamp (creation_time s) ≤ clock - DTN_UNIX_DIFFERENCE_MS) →
  ∃ d st' sb n,
    ClientAgent.ClientSendBundle clock destination payload lifetime debug c
      = Ok ((), c, [ClientAgent.StoreNewBundle d]) ∧
    Storage.StoreNewBundle d st = Ok ((), st', [Storage.EventBundleUpdated (get_ref sb)]) ∧
    bundles st' = bundles st ++ [sb] ∧
    bundle_of_bytes (bundle_data sb) = Ok (with_sequence_number n
      (ClientAgent.new_bundle me destination payload lifetime debug
         {| timestamp := clock - DTN_UNIX_DIFFERENCE_MS |})).
Proof.
  intros Hc Hme Hdest Hpay Hlen Hlife Hclock Hst Hseq Hmono.
  destruct (client_send_run clock destination payload lifetime debug me c Hc Hme Hdest Hpay Hlen Hlife Hclock)
    as (d & Hrun & Hnew).
  destruct (StoreNewBundle_returns me d _ st Hnew Hst Hseq Hmono) as (st' & sb & H1 & (n & H2) & H3 & _).
  by exists d, st', sb, n.
Qed.

(** A client of the node [dtn://a/] sends three bytes to [dtn://b/in]. *)
Lemma client_bundle_is_stored_witness :
  ∃ d st' sb n,
    ClientAgent.ClientSendBundle 1700000000000 (TestBundle.endpoint "//b/in") [1; 2; 3] 60000 true
      {| ClientAgent.connected_clients := ∅;
         ClientAgent.endpoint := Some NewBundleWitness.node |}
      = Ok ((), {| ClientAgent.connected_clients := ∅;
                   ClientAgent.endpoint := Some NewBundleWitness.node |},
            [ClientAgent.StoreNewBundle d]) ∧
    Storage.StoreNewBundle d NewBundleWitness.st
      = Ok ((), st', [Storage.EventBundleUpdated (get_ref sb)]) ∧
    bundles st' = bundles NewBundleWitness.st ++ [sb] ∧
    bundle_of_bytes (bundle_data sb) = Ok (with_sequence_number n
      (ClientAgent.new_bundle NewBundleWitness.node (TestBundle.endpoint "//b/in") [1; 2; 3]
         60000 true {| timestamp := 1700000000000 - DTN_UNIX_DIFFERENCE_MS |})).
Proof.
  apply (client_bundle_is_stored 1700000000000 (TestBundle.endpoint "//b/in") [1; 2; 3] 60000 true
    NewBundleWitness.node); try done; solve_ok.
Defined.
