(* ===== verification/Forwarding.v ===== *)
(** * Bundles that cross a connection

    Two nodes with a session between them: the session agents (TcpclAgents) on both
    sides of the connection (TcpclPair).  A bundle that an agent is to forward goes to
    the send channel of the session with a channel for the result; a task waits for
    the result and reports it.  A transfer that a session has received goes to the
    agent, and from there to the storage agent. *)
From S2P Require Import Prelude RustStr Actor Cbor Endpoint PrimaryBlock Storage ProtocolAgent Routing Peers.
From S2P Require Import TcpclMessages TcpclStateMachine TcpclSession TcpclAgents TcpclPair TcpclPairProps.
Import TCPCLSessionAgent.

(** An agent with what it said, everything it put on the send channel, the listeners
    that wait for a result, and the number of transfers it has taken. *)
Record Agent := {
  agent : TCPCLSessionAgent;
  said : list TCPCLSessionAgent.Output;
  channel : list (TransferRequest * StoredBundleRef);
  listeners : list (TransferRequest * StoredBundleRef);
  taken : nat;
}.

Definition fresh_agent : Agent :=
  {| agent := new_agent; said := []; channel := []; listeners := []; taken := 0 |}.

(** The request for a bundle; the channel for its result is new. *)
Definition request (g : Agent) (d : bytes) : TransferRequest :=
  {| bundle_data := d; result_sender := Z.of_nat (length (channel g)) |}.

Definition result_of (e : option TransferSendErrors) : option (option ()) :=
  Some (match e with None => Some () | Some _ => None end).

(** The handlers that have nothing to do with a transfer. *)
Inductive control : handler () → Prop :=
| CShutdown close_sent : control (Shutdown close_sent)
| CForceShutdown : control ForceShutdown
| CConnectionInfo item : control (HandleConnectionInfo item)
| CEnded failed ci : control (session_ended failed ci)
| CGone bundle : control (AgentForwardBundle bundle None true None)
| CClosed bundle d : control (AgentForwardBundle bundle (Some d) false None).

(** What an agent does; [x] is its session. *)
Inductive agent_step (x : Side) (g : Agent) : Agent → Prop :=
| AgentForwards bundle d a o :
    AgentForwardBundle bundle (Some d) true None (agent g) = Ok ((), a, o) →
    agent_step x g {| agent := a; said := said g ++ o; channel := channel g ++ [(request g d, bundle)];
                      listeners := listeners g ++ [(request g d, bundle)]; taken := taken g |}
| AgentReports r bundle e l1 l2 a o :
    OResult r e ∈ outs x → listeners g = l1 ++ (r, bundle) :: l2 →
    listener (destination_endpoint (ref_primary bundle)) bundle (result_of e) (agent g) = Ok ((), a, o) →
    agent_step x g {| agent := a; said := said g ++ o; channel := channel g; listeners := l1 ++ l2;
                      taken := taken g |}
| AgentReceives t a o :
    received (outs x) !! taken g = Some t →
    HandleTransfer true (transfer_data t) (agent g) = Ok ((), a, o) →
    agent_step x g {| agent := a; said := said g ++ o; channel := channel g; listeners := listeners g;
                      taken := S (taken g) |}
| AgentControl h a o :
    control h → h (agent g) = Ok ((), a, o) →
    agent_step x g {| agent := a; said := said g ++ o; channel := channel g; listeners := listeners g;
                      taken := taken g |}.

Record Link := { pair : Pair; active_agent : Agent; passive_agent : Agent }.

(** A session takes its requests from the channel of its agent. *)
Definition from_channel (x : Side) (g : Agent) : Prop :=
  ∀ r, r ∈ requests x → ∃ bundle, (r, bundle) ∈ channel g.

Inductive link_step (l : Link) : Link → Prop :=
| LinkSession p :
    pair_step (pair l) p → from_channel (active p) (active_agent l) → from_channel (passive p) (passive_agent l) →
    link_step l {| pair := p; active_agent := active_agent l; passive_agent := passive_agent l |}
| LinkActive g : agent_step (active (pair l)) (active_agent l) g →
    link_step l {| pair := pair l; active_agent := g; passive_agent := passive_agent l |}
| LinkPassive g : agent_step (passive (pair l)) (passive_agent l) g →
    link_step l {| pair := pair l; active_agent := active_agent l; passive_agent := g |}.

Inductive link_reachable : Link → Prop :=
| link_start id1 tls1 now1 id2 tls2 now2 :
    link_reachable {|
      pair := {| active := new_side (new_active id1 tls1) now1; passive := new_side (new_passive id2 tls2) now2 |};
      active_agent := fresh_agent; passive_agent := fresh_agent |}
| link_next l l' : link_reachable l → link_step l l' → link_reachable l'.

(** ** Invariant *)

Definition stores (o : list TCPCLSessionAgent.Output) : list bytes :=
  omap (λ o, match o with StoreReceivedBundle d => Some d | _ => None end) o.

Record agent_ok (x : Side) (g : Agent) : Prop := {
  ag_from : from_channel x g;
  ag_sender i r b : channel g !! i = Some (r, b) → result_sender r = Z.of_nat i;
  ag_listeners e : e ∈ listeners g → e ∈ channel g;
  ag_forwarded e b : EventBundleForwarded e b ∈ said g →
    ∃ r, (r, b) ∈ channel g ∧ OResult r None ∈ outs x;
  ag_taken : (taken g ≤ length (received (outs x)))%nat;
  ag_stores : stores (said g) = map transfer_data (take (taken g) (received (outs x)));
}.

Lemma stores_app l k : stores (l ++ k) = stores l ++ stores k.
Proof. apply omap_app. Qed.

Definition quiet (o : list TCPCLSessionAgent.Output) : Prop :=
  stores o = [] ∧ ∀ e b, EventBundleForwarded e b ∉ o.

Lemma control_quiet h a a' o : control h → h a = Ok ((), a', o) → quiet o.
Proof.
  intros Hc H. assert (Forall (λ m, match m with StoreReceivedBundle _ | EventBundleForwarded _ _ => False | _ => True end) o) as Ho.
  { destruct Hc as [c| |item|failed ci|bundle|bundle d];
      unfold Shutdown, ForceShutdown, ctx_stop, HandleConnectionInfo, session_ended, AgentForwardBundle,
        do_send, modify, gets, lift, mret, actor_ret, mbind, actor_bind in H.
    - destruct (close_channel a), c; simplify_eq/=; by repeat constructor.
    - simplify_eq/=. constructor.
    - destruct (peer_endpoint item) as [p|]; [|done]. simpl in H.
      destruct (Endpoint.new p); [|simplify_eq/=; constructor].
      destruct (max_bundle_size item); simplify_eq/=. by repeat constructor.
    - destruct failed; simplify_eq/=; by repeat constructor.
    - simplify_eq/=. constructor.
    - unfold ctx_stop, modify in H. simplify_eq/=. constructor. }
  clear H. split.
  - induction Ho as [|m o Hm _ IH]; [done|]. by destruct m.
  - intros e b He. rewrite Forall_forall in Ho. by specialize (Ho _ He).
Qed.

Lemma agent_step_ok x g g' : agent_ok x g → agent_step x g g' → agent_ok x g'.
Proof.
  intros [A1 A2 A3 A4 A6 A5] [bundle d a o H|r bundle e l1 l2 a o Hr Hl H|t a o Ht H|h a o Hc H].
  - unfold AgentForwardBundle, do_send, listener, mret, actor_ret, mbind, actor_bind in H. simplify_eq/=.
    split; cbn [channel listeners said taken].
    + intros r [c Hc]%A1. exists c. set_solver.
    + intros i r b [Hi|[Hi Hn]]%lookup_app_Some; [by eapply A2|].
      destruct (i - length (channel g))%nat as [|n] eqn:En; [|done]. simplify_eq/=. do 2 f_equal. lia.
    + set_solver.
    + intros e b [He|He]%elem_of_app; [|set_solver]. destruct (A4 e b He) as (r & Hr & ?). exists r. set_solver.
    + done.
    + rewrite stores_app, A5. simpl. by rewrite app_nil_r.
  - assert (o = [match e with None => EventBundleForwarded (destination_endpoint (ref_primary bundle)) bundle
                 | Some _ => EventBundleForwardingFailed (destination_endpoint (ref_primary bundle)) bundle end]) as ->.
    { unfold listener, result_of, do_send in H. by destruct e; simplify_eq/=. }
    assert ((r, bundle) ∈ channel g) as Hch by (apply A3; rewrite Hl; set_solver).
    split; cbn [channel listeners said taken]; try done.
    + intros q Hq. apply A3. rewrite Hl. set_solver.
    + intros e' b [He|He]%elem_of_app; [by apply (A4 e')|]. destruct e as [e|]; [set_solver|].
      apply list_elem_of_singleton in He. simplify_eq. by exists r.
    + rewrite stores_app, A5. destruct e; simpl; by rewrite app_nil_r.
  - unfold HandleTransfer, do_send in H. simplify_eq/=. split; cbn [channel listeners said taken]; try done.
    + intros e b [He|He]%elem_of_app; [by apply (A4 e)|set_solver].
    + apply lookup_lt_Some in Ht. lia.
    + rewrite stores_app, A5, (take_S_r _ _ _ Ht), map_app. done.
  - destruct (control_quiet _ _ _ _ Hc H) as [Hs Hf]. split; cbn [channel listeners said taken]; try done.
    + intros e b [He|He]%elem_of_app; [by apply (A4 e)|by destruct (Hf e b)].
    + by rewrite stores_app, Hs, app_nil_r.
Qed.

(** A session puts out more, and takes only what is in its channel. *)
Lemma agent_ok_session x x' g :
  agent_ok x g → outs x `prefix_of` outs x' → from_channel x' g → agent_ok x' g.
Proof.
  intros [A1 A2 A3 A4 A6 A5] [k Hk] Hf. split; try done.
  - intros e b He. destruct (A4 e b He) as (r & ? & ?). exists r. split; [done|]. rewrite Hk. set_solver.
  - rewrite Hk, received_app, length_app. lia.
  - rewrite Hk, received_app, take_app_le by done. exact A5.
Qed.

Lemma side_step_outs w x x' : side_step w x x' → outs x `prefix_of` outs x'.
Proof. intros []; simpl; rewrite <-?app_assoc; by apply prefix_app_r. Qed.

Record link_ok (l : Link) : Prop := {
  lk_pair : pair_reachable (pair l);
  lk_active : agent_ok (active (pair l)) (active_agent l);
  lk_passive : agent_ok (passive (pair l)) (passive_agent l);
}.

Lemma fresh_agent_ok m now : agent_ok (new_side m now) fresh_agent.
Proof. split; simpl; try done; try (by intros ? ?%elem_of_nil); by intros ? ? ?%elem_of_nil. Qed.

Lemma link_reachable_ok l : link_reachable l → link_ok l.
Proof.
  induction 1 as [id1 tls1 now1 id2 tls2 now2|l l' _ [L1 L2 L3] Hst].
  - split; [constructor|apply fresh_agent_ok..].
  - destruct Hst as [p Hp Hf1 Hf2|g Hg|g Hg]; split; simpl; try done; try (by eapply agent_step_ok).
    + by eapply pair_next.
    + apply agent_ok_session with (active (pair l)); [done| |done]. destruct Hp; [by eapply side_step_outs|done].
    + apply agent_ok_session with (passive (pair l)); [done| |done]. destruct Hp; [done|by eapply side_step_outs].
Qed.

(** ** What crosses *)

(** [b] was given to the agent to be forwarded, with the data [d]. *)
Definition forwards (g : Agent) (b : StoredBundleRef) (d : bytes) : Prop :=
  ∃ r, (r, b) ∈ channel g ∧ bundle_data r = d.

(** From the agent [g] of the session [x] to the agent [h] of the session [y]. *)
Definition bundles_cross (x : Side) (g : Agent) (y : Side) (h : Agent) : Prop :=
  stores (said h) `prefix_of` map bundle_data (requests x) ∧
  ∀ e b, EventBundleForwarded e b ∈ said g →
    ∃ d i, forwards g b d ∧ received (outs y) !! i = Some {| transfer_id := wrap64 (Z.of_nat i); transfer_data := d |} ∧
      ((i < taken h)%nat → StoreReceivedBundle d ∈ said h).

Lemma map_transfers_of i rqs : map transfer_data (transfers_of i rqs) = map bundle_data rqs.
Proof. revert i. induction rqs; intros; simpl; f_equal; auto. Qed.

Lemma elem_of_stores d o : d ∈ stores o → StoreReceivedBundle d ∈ o.
Proof. intros (o' & Ho & Hd)%list_elem_of_omap. by destruct o'; simplify_eq. Qed.

Lemma cross x g y h : transfers_arrive x y → agent_ok x g → agent_ok y h → bundles_cross x g y h.
Proof.
  intros [Hpre Hres] G H. split.
  - rewrite (ag_stores _ _ H), <-(map_transfers_of 0).
    assert (take (taken h) (received (outs y)) `prefix_of` transfers_of 0 (requests x)) as [k ->]
      by (etrans; [apply prefix_take|done]).
    rewrite map_app. by apply prefix_app_r.
  - intros e b (r & Hch & Hr)%(ag_forwarded _ _ G). destruct (Hres r Hr) as (i & Hi & Hd).
    exists (bundle_data r), i. split_and!; [by exists r|done|]. intros Hlt. apply elem_of_stores.
    rewrite (ag_stores _ _ H). apply list_elem_of_fmap. eexists. split; [|eapply list_elem_of_lookup_2; by rewrite lookup_take_lt].
    done.
Qed.

(** (Claim C13.) Whatever the two nodes do: the storage agent of a node is given bundles exactly
    as the other node sent them, in order and once, and a bundle that a node reports as
    forwarded has been received by the other one byte for byte, which gives it to its
    storage agent when it takes it from its session. *)
Theorem forwarded_bundle_arrives l :
  link_reachable l →
  bundles_cross (active (pair l)) (active_agent l) (passive (pair l)) (passive_agent l) ∧
  bundles_cross (passive (pair l)) (passive_agent l) (active (pair l)) (active_agent l).
Proof.
  intros [Hp Ha Hb]%link_reachable_ok.
  destruct (pair_reachable_ok _ Hp) as (H1 & H2 & H3 & H4).
  split; apply cross; done || by apply side_ok_arrive.
Qed.

(** ** A bundle in each direction *)

Module LinkWitness.
Import PairWitness.
Definition bundle : StoredBundleRef := {|
  ref_arc := 0; ref_state := Valid; ref_size := 3; ref_payload_size := 3; ref_min_size := None;
  ref_primary := Bundle.TestBundle.primary 0 |}.

Lemma step_requests w x x' r : side_step w x x' → r ∈ requests x → r ∈ requests x'.
Proof. intros [] Hr; simpl; set_solver. Qed.
Lemma pair_step_requests p p' :
  pair_step p p' → (∀ r, r ∈ requests (active p) → r ∈ requests (active p')) ∧
                   (∀ r, r ∈ requests (passive p) → r ∈ requests (passive p')).
Proof. intros [x Hs|x Hs]; split; intros r; simpl; try done; by eapply step_requests. Qed.

Lemma script_step w c cs p p' :
  script ((w, c) :: cs) p = Some p' → ∃ q, pair_step p q ∧ script cs q = Some p'.
Proof.
  intros H. destruct w; simpl in H; destruct (PairWitness.turn _ _ c) as [x|] eqn:Ht; try done;
    eexists; (split; [|exact H]); constructor; by apply (turn_sound _ _ c).
Qed.

Lemma script_requests cs p p' :
  script cs p = Some p' → (∀ r, r ∈ requests (active p) → r ∈ requests (active p')) ∧
                          (∀ r, r ∈ requests (passive p) → r ∈ requests (passive p')).
Proof.
  revert p. induction cs as [|[w c] cs IH]; intros p H; [by simplify_eq/=|].
  destruct (script_step _ _ _ _ _ H) as (q & Hq & Hs). destruct (pair_step_requests _ _ Hq), (IH _ Hs). auto.
Qed.

Lemma script_link cs p p' g h :
  from_channel (active p') g → from_channel (passive p') h → script cs p = Some p' →
  link_reachable {| pair := p; active_agent := g; passive_agent := h |} →
  link_reachable {| pair := p'; active_agent := g; passive_agent := h |}.
Proof.
  intros Hg Hh. revert p. induction cs as [|[w c] cs IH]; intros p H Hp; [by simplify_eq/=|].
  destruct (script_step _ _ _ _ _ H) as (q & Hq & Hs). apply (IH q Hs). destruct (script_requests _ _ _ Hs) as [R1 R2].
  eapply link_next; [exact Hp|]. apply LinkSession with (p := q); [done|..]; intros r Hr; [apply Hg|apply Hh]; auto.
Qed.

(** The agents after they were asked to forward a bundle, and after the results. *)
Definition asked (d : bytes) : Agent := {|
  agent := new_agent; said := [ChannelSend d]; channel := [(rq d, bundle)]; listeners := [(rq d, bundle)]; taken := 0 |}.
Definition told (g : Agent) : Agent := {|
  agent := agent g; said := said g ++ [EventBundleForwarded (destination_endpoint (ref_primary bundle)) bundle];
  channel := channel g; listeners := []; taken := taken g |}.
Definition received_one (d : bytes) (g : Agent) : Agent := {|
  agent := agent g; said := said g ++ [StoreReceivedBundle d]; channel := channel g; listeners := listeners g;
  taken := S (taken g) |}.

Definition link : Link := {|
  pair := final; active_agent := told (asked [1; 2; 3]); passive_agent := received_one [1; 2; 3] (asked [4]) |}.

Lemma finish p :
  link_reachable {| pair := p; active_agent := asked [1; 2; 3]; passive_agent := asked [4] |} →
  OResult (rq [1; 2; 3]) None ∈ outs (active p) →
  received (outs (passive p)) !! 0%nat = Some {| transfer_id := 0; transfer_data := [1; 2; 3] |} →
  link_reachable {| pair := p; active_agent := told (asked [1; 2; 3]);
                    passive_agent := received_one [1; 2; 3] (asked [4]) |}.
Proof.
  intros H Ho Hr.
  eapply link_next in H; [|by apply LinkActive, (AgentReports _ _ (rq [1; 2; 3]) bundle None [] [])].
  eapply link_next; [exact H|]. by apply LinkPassive, (AgentReceives _ _ {| transfer_id := 0; transfer_data := [1; 2; 3] |}).
Qed.

Lemma link_is_reachable : link_reachable link.
Proof.
  apply finish; [|apply list_elem_of_In; vm_compute; intuition congruence|vm_compute; reflexivity].
  apply (script_link (handshake ++ exchange) start).
  - intros r Hr. exists bundle. apply list_elem_of_In in Hr. vm_compute in Hr. destruct Hr as [<-|[]]. left.
  - intros r Hr. exists bundle. apply list_elem_of_In in Hr. vm_compute in Hr. destruct Hr as [<-|[]]. left.
  - unfold final. destruct (script (handshake ++ exchange) start) eqn:E; [done|]. by vm_compute in E.
  - pose proof (link_start (str "dtn://a") true 0 (str "dtn://p") true 0) as H.
    assert (∀ x d, agent_step x fresh_agent (asked d)) as Ha by (intros x d; exact (AgentForwards x fresh_agent bundle d new_agent [ChannelSend d] eq_refl)).
    set (l0 := {| pair := start; active_agent := fresh_agent; passive_agent := fresh_agent |}).
    assert (link_reachable {| pair := start; active_agent := asked [1; 2; 3]; passive_agent := fresh_agent |}) as H1
      by exact (link_next l0 _ H (LinkActive l0 _ (Ha _ _))).
    exact (link_next _ _ H1 (LinkPassive {| pair := start; active_agent := asked [1; 2; 3]; passive_agent := fresh_agent |}
                               _ (Ha _ _))).
Qed.
End LinkWitness.

Lemma forwarded_bundle_arrives_witness :
  bundles_cross (active (pair LinkWitness.link)) (active_agent LinkWitness.link)
    (passive (pair LinkWitness.link)) (passive_agent LinkWitness.link) ∧
  said (passive_agent LinkWitness.link) = [ChannelSend [4]; StoreReceivedBundle [1; 2; 3]].
Proof.
  split; [|reflexivity].
  destruct (forwarded_bundle_arrives LinkWitness.link LinkWitness.link_is_reachable) as [H _]. exact H.
Defined.
