(* ===== verification/TcpclSetup.v ===== *)
(** * Setting a session up (tcpcl/src/session.rs)

    What surrounds the loop of [TcpclSession.v]: opening a connection, the TLS
    context, the channels to the application, the check of the peer's certificate,
    and [manage_connection], which runs the loop and cleans up after it.  openssl,
    x509_parser, the resolver and the sockets are not part of the repository:
    [TlsCrates] and [Network] name what the code takes from them. *)
From S2P Require Import Prelude RustStr Actor Cbor CborRfc Flags CrcTime Endpoint PrimaryBlock.
From S2P Require Import Block Bundle Fragment FragmentSize Storage StorageSystem StorageOps.
From S2P Require Import ProtocolAgent Routing Peers Settings TcpclAgents.
From S2P Require Import TcpclMessages TcpclStateMachine TcpclSession.
Import TCPCLServer (OpenSsl, X509, PKey, TLSSettings, private_key, certificate, trusted_certs).

Module TcpclSetup.

(** ** Certificates

    What [x509_parser] makes of a certificate: the names of a subject alternative
    name extension, the value of an [OtherName] with its header. *)
Inductive GeneralName :=
| OtherName (oid : bytes) (value : bytes)
| DNSName (name : bytes)
| AnotherName.

Inductive ParsedExtension :=
| SubjectAlternativeName (general_names : list GeneralName)
| AnotherExtension.

(** [url::Host]. *)
Inductive Host := Domain (name : bytes) | Address.

Class TlsCrates `{!OpenSsl} := {
  ErrorStack : Type;
  X509StoreBuilder : Type;
  SslContextBuilder : Type;
  SslContext : Type;
  store_builder_new : ErrorStack + X509StoreBuilder;
  add_cert : X509 → X509StoreBuilder → ErrorStack + X509StoreBuilder;
  mozilla_modern_v5 : ErrorStack + SslContextBuilder;
  set_cert_store : X509StoreBuilder → SslContextBuilder → SslContextBuilder;
  set_private_key : PKey → SslContextBuilder → ErrorStack + SslContextBuilder;
  set_certificate : X509 → SslContextBuilder → ErrorStack + SslContextBuilder;
  check_private_key : SslContextBuilder → ErrorStack + ();
  set_verify_peer : SslContextBuilder → SslContextBuilder;
  into_context : SslContextBuilder → SslContext;
  to_der : X509 → option bytes;
  from_der : bytes → option (list ParsedExtension);
}.

(** A resolver and sockets.  [socket_addrs] fills in the port 4556. *)
Class Network := {
  SocketAddr : Type;
  TcpStream : Type;
  host : Url → option Host;
  socket_addrs : Url → option (list SocketAddr);
  tcp_connect : SocketAddr → option TcpStream;
  peer_addr : TcpStream → option bytes;
  url_parse : bytes → option Url;
}.

(** [&value[4..]]. *)
Definition slice_from {E} (n : nat) (s : bytes) : outcome E bytes :=
  assert (n <=? length s)%nat;; Ok (drop n s).

Definition BUNDLE_EID_OID : bytes := str "1.3.6.1.5.5.7.8.11".

(** The two loops over the names of one extension: has one of them matched? *)
Fixpoint names_node {E} (peer_node_id : bytes) (names : list GeneralName) : outcome E bool :=
  match names with
  | [] => Ok false
  | OtherName oid value :: names =>
      m ← (if bool_decide (oid = BUNDLE_EID_OID)
           then v ← slice_from 4 value; Ok (bool_decide (v = peer_node_id)) else Ok false);
      if (m : bool) then Ok true else names_node peer_node_id names
  | _ :: names => names_node peer_node_id names
  end.
Definition names_host (peer_name : bytes) (names : list GeneralName) : bool :=
  existsb (λ n, match n with DNSName name => bool_decide (name = peer_name) | _ => false end) names.

Fixpoint check_extensions {E} (peer_node_id : bytes) (peer_host : option Host)
    (extensions : list ParsedExtension) : outcome E bool :=
  match extensions with
  | [] => Ok false
  | SubjectAlternativeName names :: extensions =>
      m ← names_node peer_node_id names;
      if (m : bool) then Ok true else
      h ← unwrap peer_host;
      if match h with Domain peer_name => names_host peer_name names | Address => false end
      then Ok true else check_extensions peer_node_id peer_host extensions
  | AnotherExtension :: extensions => check_extensions peer_node_id peer_host extensions
  end.

Section setup.
Context `{!OpenSsl, !TlsCrates, !Network}.

Definition validate_peer_certificate (peer_node_id : bytes) (peer_url : Url) (x509 : option X509)
    : outcome () () :=
  match x509 with
  | Some cert =>
      cert_bytes ← ok_or (to_der cert) ();
      c ← ok_or (from_der cert_bytes) ();
      matched ← check_extensions peer_node_id (host peer_url) c;
      if (matched : bool) then Ok () else Err ()
  | None => Err ()
  end.

(** ** The TLS context *)
Definition or_stack {A} (r : ErrorStack + A) : outcome ErrorStack A :=
  match r with inr a => Ok a | inl e => Err e end.

Fixpoint add_certs (certs : list X509) (b : X509StoreBuilder) : outcome ErrorStack X509StoreBuilder :=
  match certs with
  | [] => Ok b
  | ca_cert :: certs => b ← or_stack (add_cert ca_cert b); add_certs certs b
  end.

Definition make_ssl_context (tls_settings : TLSSettings) : outcome ErrorStack SslContext :=
  store ← or_stack store_builder_new;
  store ← add_certs (trusted_certs tls_settings) store;
  builder ← or_stack mozilla_modern_v5;
  let builder := set_cert_store store builder in
  builder ← or_stack (set_private_key (private_key tls_settings) builder);
  builder ← or_stack (set_certificate (certificate tls_settings) builder);
  _ ← or_stack (check_private_key builder);
  Ok (into_context (set_verify_peer builder)).

(** ** The session with its channels

    Of a channel it is known which ends are still with the session; [core] is the
    part the loop works on.  [peer_cert] is [None] before the upgrade. *)
Record Stream := { tcp : TcpStream; decoder : Codec; over_tls : bool; peer_cert : option X509 }.

Record Session := {
  is_server : bool;
  stream : option Stream;
  ssl_context : option SslContext;
  core : TCPCLSession;
  connection_peer_url : Url;
  established_receiver : bool;
  close_sender : bool;
  close_receiver : bool;
  receive_receiver : bool;
}.

Definition from_tcp_stream (ts : TcpStream) : Stream :=
  {| tcp := ts; decoder := Codec_default; over_tls := false; peer_cert := None |}.

(** [handshake] is [accept] or [connect] of openssl and the certificate it leaves; the
    decoder is kept, the bytes it has buffered are not. *)
Definition upgrade_tls (handshake : TcpStream → option (option X509)) (self : Stream)
    : outcome ErrorType Stream :=
  cert ← ok_or (handshake (tcp self)) SSLError;
  Ok {| tcp := tcp self; decoder := decoder self; over_tls := true; peer_cert := cert |}.

Definition fresh_session (server : bool) (ts : TcpStream) (ctx : option SslContext) (m : StateMachine)
    (peer_url : Url) (now : Z) : Session := {|
  is_server := server; stream := Some (from_tcp_stream ts); ssl_context := ctx;
  core := new_session m now; connection_peer_url := peer_url;
  established_receiver := true; close_sender := true; close_receiver := true;
  receive_receiver := true |}.

(** [TCPCLSession::new]: an accepted connection.  The error of the context becomes an
    input/output error. *)
Definition new (ts : TcpStream) (node_id : bytes) (tls_settings : option TLSSettings) (now : Z)
    : outcome ErrorType Session :=
  ctx ← match tls_settings with
        | Some s => map_err (λ _, IOError) (Some <$> make_ssl_context s)
        | None => Ok None
        end;
  addr ← unwrap (peer_addr ts);
  peer_url ← unwrap (url_parse (str "tcpcl://" ++ addr));
  Ok (fresh_session true ts ctx (new_passive node_id (is_some tls_settings)) peer_url now).

(** [TCPCLSession::connect]: [r.pop()] takes the last address. *)
Definition connect (url : Url) (node_id : bytes) (tls_settings : option TLSSettings) (now : Z)
    : outcome ErrorType Session :=
  addrs ← ok_or (socket_addrs url) DnsError;
  addr ← ok_or (last addrs) DnsError;
  ts ← ok_or (tcp_connect addr) IOError;
  ctx ← match tls_settings with
        | Some s => map_err (λ _, SSLError) (Some <$> make_ssl_context s)
        | None => Ok None
        end;
  Ok (fresh_session false ts ctx (new_active node_id (is_some tls_settings)) url now).

(** The accessors hand out an end of a channel once. *)
Definition set_ends (er cs cr rr : bool) (s : Session) : Session := {|
  is_server := is_server s; stream := stream s; ssl_context := ssl_context s; core := core s;
  connection_peer_url := connection_peer_url s; established_receiver := er; close_sender := cs;
  close_receiver := cr; receive_receiver := rr |}.

Definition get_established_channel (s : Session) : outcome Empty_set Session :=
  assert (established_receiver s);;
  Ok (set_ends false (close_sender s) (close_receiver s) (receive_receiver s) s).
Definition get_close_channel (s : Session) : outcome Empty_set Session :=
  assert (close_sender s);;
  Ok (set_ends (established_receiver s) false (close_receiver s) (receive_receiver s) s).
Definition get_receive_channel (s : Session) : outcome Empty_set Session :=
  assert (receive_receiver s);;
  Ok (set_ends (established_receiver s) (close_sender s) (close_receiver s) false s).
Definition get_connection_info (s : Session) : TCPCLSessionAgent.ConnectionInfo := {|
  TCPCLSessionAgent.peer_endpoint := connection_peer_endpoint (core s);
  TCPCLSessionAgent.peer_url := connection_peer_url s;
  TCPCLSessionAgent.max_bundle_size := connection_max_bundle_size (core s) |}.

(** ** Running the session

    [drive_statemachine] with the events the scheduler picks and the outcome of the
    upgrade in each iteration: the loop of [TcpclSession.iteration].  [None] means
    that the session is over; a list that ends before it is a session that runs. *)
Fixpoint drive_loop (evs : list (bool * Event)) (s : TCPCLSession)
    : outcome ErrorType (option TCPCLSession * list Output) :=
  match evs with
  | [] => Ok (Some s, [])
  | (tls_ok, ev) :: evs =>
      '(r, o) ← iteration tls_ok ev s;
      match r with
      | None => Ok (None, o)
      | Some s => '(r, o') ← drive_loop evs s; Ok (r, o ++ o')
      end
  end.

Definition set_core (now : Z) (s : Session) : Session := {|
  is_server := is_server s; stream := stream s; ssl_context := ssl_context s;
  core := with_last_keepalive now (core s);
  connection_peer_url := connection_peer_url s; established_receiver := established_receiver s;
  close_sender := close_sender s; close_receiver := close_receiver s;
  receive_receiver := receive_receiver s |}.

(** The arms that read get their messages from a peer with this certificate. *)
Definition checked_by (peer_url : Url) (cert : option X509) (e : bool * Event) : Prop :=
  match e.2 with
  | EvRead _ cert_ok _ =>
      ∀ id, cert_ok id = match validate_peer_certificate id peer_url cert with Ok _ => true | _ => false end
  | _ => True
  end.

(** [manage_connection]: an error of the loop is returned after the socket was shut
    down, whatever that gives.  The result says whether it was, if it was still
    there ([left]). *)
Definition manage_connection (evs : list (bool * Event)) (left : bool) (now : Z) (s : Session)
    : outcome ErrorType (option TCPCLSession * list Output) * bool :=
  if send_channel_receiver (core s) && close_receiver s then
    match drive_loop evs (core (set_core now s)) with
    | Err error => (Err error, left)
    | r => (r, false)
    end
  else (Panic, false).
End setup.
End TcpclSetup.
