(* ===== verification/TcpclAuth.v ===== *)
(** * Authentication of TCPCL peers

    What the check of the peer's certificate accepts, and that a session that
    negotiated TLS announces a peer only under a node id its certificate was
    accepted for. *)
From S2P Require Import Prelude RustStr Actor Cbor CborRfc Flags CrcTime Endpoint PrimaryBlock.
From S2P Require Import Block Bundle Fragment FragmentSize Storage StorageSystem StorageOps.
From S2P Require Import ProtocolAgent Routing Peers Settings TcpclAgents.
From S2P Require Import TcpclMessages TcpclStateMachine TcpclSession TcpclSetup.
Import TCPCLServer (OpenSsl, X509).
Import TcpclSetup.

(** ** The certificate *)

(** The extensions name the node, or the host that was connected to. *)
Definition names_peer (id : bytes) (peer_host : option Host) (exts : list ParsedExtension) : Prop :=
  ∃ names, SubjectAlternativeName names ∈ exts ∧
    ((∃ v, OtherName BUNDLE_EID_OID v ∈ names ∧ drop 4 v = id) ∨
     (∃ d, peer_host = Some (Domain d) ∧ DNSName d ∈ names)).

(** The values of bundle endpoint names are long enough for the header. *)
Definition names_long (exts : list ParsedExtension) : Prop :=
  ∀ names v, SubjectAlternativeName names ∈ exts → OtherName BUNDLE_EID_OID v ∈ names → (4 ≤ length v)%nat.

Lemma names_node_spec {E} id names :
  (∀ v, OtherName BUNDLE_EID_OID v ∈ names → (4 ≤ length v)%nat) →
  ∃ b, names_node (E := E) id names = Ok b ∧
    (b = true ↔ ∃ v, OtherName BUNDLE_EID_OID v ∈ names ∧ drop 4 v = id).
Proof.
  induction names as [|n names IH]; intros Hl.
  { exists false. split; [done|]. split; [done|]. intros (v & Hv & _). set_solver. }
  destruct IH as (b & Hb & Hiff); [set_solver|].
  assert (Hskip : (∀ v, n = OtherName BUNDLE_EID_OID v → drop 4 v ≠ id) →
    b = true ↔ ∃ v, OtherName BUNDLE_EID_OID v ∈ n :: names ∧ drop 4 v = id).
  { intros Hn. rewrite Hiff. split; intros (v & Hv & Hd); exists v; (split; [|done]); [set_solver|].
    apply elem_of_cons in Hv as [Hv|Hv]; [|done]. by destruct (Hn v). }
  destruct n as [oid v|d|]; cbn [names_node]; [|exists b; split; [done|by apply Hskip]..].
  case_bool_decide as Ho; [subst oid|rewrite Hb; ored; exists b; split; [done|apply Hskip; congruence]].
  unfold slice_from. assert (4 ≤ length v)%nat as Hv by (apply Hl; left).
  rewrite (proj2 (Nat.leb_le 4 (length v)) Hv). ored.
  case_bool_decide as Hd; ored.
  - exists true. split; [done|]. split; [|done]. intros _. exists v. split; [left|done].
  - exists b. split; [done|]. apply Hskip. by intros ? [= <-].
Qed.

Lemma names_host_spec d names : names_host d names = true ↔ DNSName d ∈ names.
Proof.
  unfold names_host. rewrite List.existsb_exists. split.
  - intros ([?|x|] & Hin & Hx); simplify_eq. apply list_elem_of_In in Hin.
    by apply bool_decide_eq_true in Hx as ->.
  - intros Hin. exists (DNSName d). split; [by apply list_elem_of_In|]. by apply bool_decide_eq_true.
Qed.

Lemma check_extensions_spec {E} id h exts :
  names_long exts →
  ∃ b, check_extensions (E := E) id (Some h) exts = Ok b ∧ (b = true ↔ names_peer id (Some h) exts).
Proof.
  induction exts as [|e exts IH]; intros Hl.
  { exists false. split; [done|]. split; [done|]. intros (names & Hn & _). set_solver. }
  destruct IH as (b & Hb & Hiff); [intros names v Hn; apply Hl; set_solver|].
  destruct e as [names|]; cbn [check_extensions].
  2:{ exists b. split; [done|]. rewrite Hiff. unfold names_peer. set_solver. }
  destruct (names_node_spec (E := E) id names) as (m & -> & Hm); [intros v Hv; eapply Hl; [left|done]|].
  ored. assert (Hhere : names_peer id (Some h) (SubjectAlternativeName names :: exts) ↔
    m = true ∨ (∃ d, h = Domain d ∧ DNSName d ∈ names) ∨ names_peer id (Some h) exts).
  { rewrite Hm. unfold names_peer. split.
    - intros (ns & [[= ->]|Hn]%elem_of_cons & [?|(d & [= ->] & ?)]); [by left|right; left; by eexists|..];
        right; right; exists ns; (split; [done|]); [by left|right; by eexists].
    - intros [?|[(d & -> & ?)|(ns & Hn & Hc)]].
      + exists names. split; [left|by left].
      + exists names. split; [left|right; by eexists].
      + exists ns. split; [by right|done]. }
  destruct m; [exists true; split; [done|]; rewrite Hhere; naive_solver|].
  assert (Hh : match h with Domain d => names_host d names | Address => false end = true ↔
    ∃ d, h = Domain d ∧ DNSName d ∈ names).
  { destruct h as [d|]; [|naive_solver]. rewrite names_host_spec. naive_solver. }
  destruct (match h with Domain d => names_host d names | Address => false end).
  - exists true. split; [done|]. rewrite Hhere. naive_solver.
  - exists b. split; [done|]. rewrite Hhere, Hiff. naive_solver.
Qed.

Section certificate.
Context {HO : OpenSsl} {HT : TlsCrates} {HN : Network}.

(** The check of a certificate that can be read: it accepts exactly a certificate with
    an alternative name for the node id or for the host that was connected to, and
    does not panic as long as no bundle endpoint name is shorter than its header.
    Without a certificate, or with an unreadable one, the peer is refused. *)
Theorem certificate_check id url cert d exts h :
  to_der cert = Some d → from_der d = Some exts → host url = Some h → names_long exts →
  (validate_peer_certificate id url (Some cert) = Ok () ↔ names_peer id (host url) exts) ∧
  validate_peer_certificate id url (Some cert) ≠ Panic ∧
  validate_peer_certificate id url None = Err ().
Proof.
  intros Hd He Hh Hl. unfold validate_peer_certificate. rewrite Hd. ored. rewrite He. ored. rewrite Hh.
  destruct (check_extensions_spec (E := ()) id h exts Hl) as (b & -> & Hb). ored.
  rewrite <-Hb. by destruct b.
Qed.

(** A certificate with a shorter bundle endpoint name panics the session. *)
Lemma short_name_panics id url cert d v names exts :
  to_der cert = Some d →
  from_der d = Some (SubjectAlternativeName (OtherName BUNDLE_EID_OID v :: names) :: exts) →
  (length v < 4)%nat → validate_peer_certificate id url (Some cert) = Panic.
Proof.
  intros Hd He Hv. unfold validate_peer_certificate. rewrite Hd. ored. rewrite He. ored.
  cbn [check_extensions names_node]. rewrite bool_decide_eq_true_2 by done. unfold slice_from.
  by rewrite (proj2 (Nat.leb_gt 4 (length v)) Hv).
Qed.
End certificate.

(** ** The header of a bundle endpoint name

    DER: an explicit tag around an IA5String. *)
Definition der_length (n : Z) : bytes :=
  if n <? 128 then [n] else if n <? 256 then [129; n] else [130; n / 256; n mod 256].
Definition der_value (tag : Z) (content : bytes) : bytes := tag :: der_length (zlen content) ++ content.
Definition bundle_eid_value (id : bytes) : bytes := der_value 160 (der_value 22 id).

(** The four bytes that are cut off are the header exactly for node ids of up to 125
    bytes: a longer one is never found in the certificate that was made for it. *)
Lemma node_id_found_iff id :
  drop 4 (bundle_eid_value id) = id ↔ zlen id ≤ 125.
Proof.
  unfold bundle_eid_value, der_value. split.
  - intros H. apply (f_equal length) in H. rewrite length_drop in H.
    destruct (Z.le_gt_cases (zlen id) 125) as [?|Hl]; [done|exfalso].
    set (inner := 22 :: der_length (zlen id) ++ id) in *.
    assert (length id + 2 ≤ length inner)%nat as Hi.
    { unfold inner, der_length. simpl. rewrite length_app. repeat case_match; simpl; lia. }
    assert (2 ≤ length (der_length (zlen inner)))%nat as Hd.
    { unfold der_length. rewrite (proj2 (Z.ltb_ge (zlen inner) 128)) by lia. case_match; simpl; lia. }
    clearbody inner. cbn [length] in H. rewrite length_app in H. lia.
  - intros Hl. assert (∀ n, n < 128 → der_length n = [n]) as Hs.
    { intros n Hn. unfold der_length. by rewrite (proj2 (Z.ltb_lt n 128)). }
    rewrite (Hs (zlen id)) by lia. rewrite Hs by (simpl; lia). done.
Qed.

(** ** The phases of the state machine *)

(** The contact headers are still being exchanged. *)
Fixpoint contact (s : States) : bool :=
  match s with
  | ActiveSendContactHeader | PassiveWaitContactHeader
  | ActiveWaitContactHeader | PassiveSendContactHeader => true
  | SendKeepalive s => contact s
  | _ => false
  end.

(** No keepalive is pending during the exchange. *)
Definition nested_ok (s : States) : Prop := ∀ x, s = SendKeepalive x → contact x = false.

Definition uses_tls (m : StateMachine) : Prop := should_use_tls (E := unit) m = Ok true.

Lemma uses_tls_iff {E} m b : should_use_tls (E := E) m = Ok b → uses_tls m ↔ b = true.
Proof.
  unfold uses_tls, should_use_tls. destruct (my_contact_header m), (peer_contact_header m); try done.
  intros <-%Ok_inj. split; [apply Ok_inj|by intros ->].
Qed.

(** After the exchange the headers stay. *)
Record advances (m m' : StateMachine) : Prop := {
  ad_contact : contact (state m) = false → contact (state m') = false;
  ad_headers : contact (state m) = false →
    my_contact_header m' = my_contact_header m ∧ peer_contact_header m' = peer_contact_header m;
  ad_nested : nested_ok (state m) → nested_ok (state m');
}.

Lemma advances_refl m : advances m m.
Proof. by split. Qed.

Lemma advances_trans m1 m2 m3 : advances m1 m2 → advances m2 m3 → advances m1 m3.
Proof.
  intros [C1 H1 N1] [C2 H2 N2]. split; [auto| |auto].
  intros Hc. destruct (H1 Hc), (H2 (C1 Hc)). by split; etrans.
Qed.

Lemma advances_tls m m' : advances m m' → contact (state m) = false → uses_tls m' ↔ uses_tls m.
Proof. intros [_ Hh _] Hc. destruct (Hh Hc) as [H1 H2]. unfold uses_tls, should_use_tls. by rewrite H1, H2. Qed.

(** A new state that is no keepalive and after the exchange. *)
Lemma advances_to m m' :
  contact (state m') = false → my_contact_header m' = my_contact_header m →
  peer_contact_header m' = peer_contact_header m → advances m m'.
Proof. intros Hc H1 H2. split; [done..|]. intros _ x Hx. by rewrite Hx in Hc. Qed.

(** During the exchange only the contact states matter. *)
Lemma advances_from m m' :
  contact (state m) = true → (∀ x, state m' ≠ SendKeepalive x) → advances m m'.
Proof. intros Hc Hx. split; [congruence..|]. intros _ x E. by destruct (Hx x). Qed.

Lemma advances_keepalive m x : state m = SendKeepalive x → nested_ok (state m) → advances m (set_state x m).
Proof.
  intros Es Hn. pose proof (Hn x Es) as Hx. split; [done..|]. intros _ y Hy. cbn in Hy. by rewrite Hy in Hx.
Qed.

Ltac advance Es :=
  first [ by apply advances_refl | by apply advances_to
        | apply advances_from; [by rewrite Es|by intros] ].

Lemma send_message_advances {E} m msgs m' :
  send_message (E := E) m = Ok (msgs, m') → nested_ok (state m) →
  advances m m' ∧ peer_sess_init m' = peer_sess_init m.
Proof.
  unfold send_message, send_complete. intros H Hn. destruct (state m) eqn:Es; try done; simpl in H;
    rewrite ?Es in H; repeat first [progress obind | case_match]; simplify_eq/=;
    (split; [|done]); try advance Es.
  apply advances_keepalive; [done|]. by rewrite Es.
Qed.

(** What a message does to the machine: only the parameters of the peer are new. *)
Lemma decode_message_advances {E} msg m m' r :
  decode_message (E := E) msg m = Ok (m', r) →
  advances m m' ∧
  (peer_sess_init m' = peer_sess_init m ∨
   ∃ si, r = inl (MSessInit si) ∧ peer_sess_init m' = Some si ∧ contact (state m) = false).
Proof.
  unfold decode_message, decode_in_session, decode_ack, inappropriate, get_message_type, assert.
  intros H. destruct (state m) eqn:Es, msg as [[]|[]]; simpl in H; rewrite ?Es in H; simpl in H;
    repeat case_match; simplify_eq/=; repeat case_match; simplify_eq/=; try done;
    (split; [advance Es|]); try (by left); right; eexists; split_and!; try done; by rewrite Es.
Qed.

Lemma send_transfer_advances {E} d m m' r :
  send_transfer (E := E) d m = Ok (m', r) → advances m m' ∧ peer_sess_init m' = peer_sess_init m.
Proof.
  unfold send_transfer. intros H. obind. case_match; simplify_eq; [split; [apply advances_refl|done]|].
  destruct (state m) eqn:Es; simpl in H; rewrite ?Es in H; simplify_eq/=; (split; [advance Es|done]).
Qed.

Lemma send_ack_advances {E} ack m m' :
  send_ack (E := E) ack m = Ok m' → advances m m' ∧ peer_sess_init m' = peer_sess_init m.
Proof.
  unfold send_ack. intros H. destruct (state m) eqn:Es; simplify_eq/=; (split; [advance Es|done]).
Qed.

Lemma close_connection_advances {E} reason m m' :
  close_connection (E := E) reason m = Ok m' → advances m m' ∧ peer_sess_init m' = peer_sess_init m.
Proof. unfold close_connection. intros H. obind. simplify_eq. split; [by apply advances_to|done]. Qed.

Lemma send_keepalive_advances m :
  contact (state m) = false → advances m (send_keepalive m).
Proof. intros Hc. split; [done..|]. intros _ x [= <-]. done. Qed.

Lemma check_idle_advances now s m' :
  check_idle now s = Ok m' →
  advances (statemachine s) m' ∧ peer_sess_init m' = peer_sess_init (statemachine s).
Proof.
  unfold check_idle. intros H. case_match; [|simplify_eq; split; [apply advances_refl|done]].
  obind. case_match; [by apply close_connection_advances in H|simplify_eq; split; [apply advances_refl|done]].
Qed.

(** ** The session *)

(** The outputs that are neither the upgrade nor an announcement. *)
Definition plain (x : Output) : Prop :=
  match x with OUpgradeTls | OEstablished _ _ => False | _ => True end.

Section auth.
Context (cert_ok : bytes → bool).

Record auth (s : TCPCLSession) (out : list Output) : Prop := {
  au_nested : nested_ok (state (statemachine s));
  au_phase : initialized_keepalive s = true ∨ initialized_tls s = true ∨
    is_Some (peer_sess_init (statemachine s)) → contact (state (statemachine s)) = false;
  au_cert : ∀ si, peer_sess_init (statemachine s) = Some si → uses_tls (statemachine s) →
    cert_ok (SessInitMsg.node_id si) = true;
  au_tls : initialized_tls s = true → uses_tls (statemachine s) → OUpgradeTls ∈ out;
  au_upgrade : OUpgradeTls ∈ out → initialized_tls s = true ∧ uses_tls (statemachine s);
  au_announced : ∀ o1 id mru o2, out = o1 ++ OEstablished id mru :: o2 →
    initialized_tls s = true ∧
    (uses_tls (statemachine s) → OUpgradeTls ∈ o1 ∧ cert_ok id = true);
}.

(** A step that advances the machine, keeps the parameters of the peer and prints
    nothing special. *)
Lemma auth_step s s' out o :
  auth s out → advances (statemachine s) (statemachine s') →
  (peer_sess_init (statemachine s') = peer_sess_init (statemachine s) ∨
   ∃ si, peer_sess_init (statemachine s') = Some si ∧ contact (state (statemachine s)) = false ∧
     (uses_tls (statemachine s') → cert_ok (SessInitMsg.node_id si) = true)) →
  initialized_tls s' = initialized_tls s →
  (initialized_keepalive s' = true →
     initialized_keepalive s = true ∨ contact (state (statemachine s)) = false) →
  Forall plain o → auth s' (out ++ o).
Proof.
  intros [A1 A2 A3 A4 A5 A6] Had Hp Htls Hka Hpl.
  assert (Hno : ∀ x, x ∈ out ++ o → plain x ∨ x ∈ out).
  { intros x [?|Hx]%elem_of_app; [by right|left]. by eapply Forall_forall in Hx. }
  assert (Hc : initialized_keepalive s' = true ∨ initialized_tls s' = true ∨
    is_Some (peer_sess_init (statemachine s')) → contact (state (statemachine s)) = false).
  { rewrite Htls. intros [H|[H|H]]; [destruct (Hka H); auto|auto|].
    destruct Hp as [Hp|(si & _ & Hp & _)]; [|done]. rewrite Hp in H. auto. }
  assert (Hu : contact (state (statemachine s)) = false →
    uses_tls (statemachine s') → uses_tls (statemachine s)).
  { intros Hcf Hus. by apply (advances_tls _ _ Had Hcf). }
  split.
  - by eapply ad_nested.
  - intros H. eapply ad_contact; [done|by apply Hc].
  - intros si Hsi Hus. destruct Hp as [Hp|(si' & Hp & Hcf & Hok)].
    + rewrite Hp in Hsi. apply (A3 si Hsi), Hu; [apply A2; eauto|done].
    + rewrite Hp in Hsi. simplify_eq. auto.
  - rewrite Htls. intros Ht Hus. apply elem_of_app. left. apply A4; [done|]. apply Hu; auto.
  - rewrite Htls. intros [[]|Hin]%Hno. destruct (A5 Hin) as [Ht Hus]. split; [done|].
    apply (advances_tls _ _ Had); auto.
  - rewrite Htls. intros o1 id mru o2 E.
    apply app_eq_inv in E as [(k & -> & E)|(k & -> & ->)].
    + destruct k as [|x k]; simplify_eq/=.
      * exfalso. by apply Forall_cons in Hpl as [? _].
      * destruct (A6 _ _ _ _ eq_refl) as [Ht Hann]. split; [done|]. intros Hus. apply Hann, Hu; auto.
    + exfalso. apply Forall_app in Hpl as [_ [? _]%Forall_cons]. done.
Qed.

Lemma auth_init_tls tls_ok s s' o out :
  auth s out → init_tls tls_ok s = Ok (s', o) →
  auth s' (out ++ o) ∧ statemachine s' = statemachine s ∧
  (sm_contact_header_done (statemachine s) = true → initialized_tls s' = true).
Proof.
  intros A H. destruct (init_tls_frame _ _ _ _ H) as (Hm & Hk & _). unfold init_tls in H.
  destruct (initialized_tls s) eqn:Et; simpl in H.
  { simplify_eq. split_and!; [by rewrite app_nil_r|done..]. }
  destruct (sm_contact_header_done (statemachine s)) eqn:Ed; [|simplify_eq; split_and!; [by rewrite app_nil_r|done..]].
  assert (contact (state (statemachine s)) = false) as Hc.
  { destruct A as [A1 _ _ _ _ _]. unfold sm_contact_header_done in Ed.
    destruct (state (statemachine s)) eqn:Es; try done. exact (A1 _ eq_refl). }
  destruct A as [A1 A2 A3 A4 A5 A6].
  apply bind_Ok in H as (tls & Ht & H).
  assert (Hus : uses_tls (statemachine s) ↔ tls = true).
  { by eapply uses_tls_iff. }
  assert (Hnone : OUpgradeTls ∉ out) by (intros Hin; destruct (A5 Hin); congruence).
  assert (Hnoann : ∀ o1 id mru o2, out ≠ o1 ++ OEstablished id mru :: o2).
  { intros o1 id mru o2 E. destruct (A6 _ _ _ _ E); congruence. }
  assert (initialized_tls s' = true ∧ o = if tls then [OUpgradeTls] else []) as [Hi ->].
  { destruct tls; [destruct tls_ok|]; by simplify_eq. }
  split; [|split; [by rewrite Hm|done]]. split; rewrite ?Hm, ?Hk, ?Hi; try done.
  - intros _ Hu. apply Hus in Hu as ->. set_solver.
  - destruct tls; [intros _; split; [done|by apply Hus]|]. rewrite app_nil_r. intros Hin. by destruct Hnone.
  - intros o1 id mru o2 E. exfalso. destruct tls; [|rewrite app_nil_r in E; by eapply Hnoann].
    apply app_eq_inv in E as [(k & -> & E)|(k & -> & E)].
    + destruct k; simplify_eq/=. by eapply Hnoann.
    + by destruct k as [|? [|]].
Qed.

Lemma auth_announce s s' o out :
  auth s out → (sm_contact_header_done (statemachine s) = true → initialized_tls s = true) →
  announce_established s = Ok (s', o) → auth s' (out ++ o) ∧ statemachine s' = statemachine s.
Proof.
  intros A Hd H. destruct (announce_frame _ _ _ H) as (Hm & Hk & _). unfold announce_established in H.
  destruct (is_established (statemachine s) && established_channel s) eqn:Ee.
  2:{ simplify_eq. by rewrite app_nil_r. }
  apply andb_true_iff in Ee as [Ee _]. apply bind_Ok in H as (id & Hid & H).
  apply bind_Ok in H as (mru & _ & H). simplify_eq.
  assert (initialized_tls s = true) as Ht.
  { apply Hd. unfold is_established, sm_contact_header_done in *. by destruct (state (statemachine s)). }
  assert (∃ si, peer_sess_init (statemachine s) = Some si ∧ id = SessInitMsg.node_id si) as (si & Hsi & ->).
  { unfold get_peer_node_id in Hid. obind. simplify_eq. by eexists. }
  destruct A as [A1 A2 A3 A4 A5 A6]. split; [|done]. split; try done.
  - intros Hi Hu. apply elem_of_app. left. by apply A4.
  - intros [Hin|Hin]%elem_of_app; [by apply A5|]. by apply list_elem_of_singleton in Hin.
  - intros o1 id mru' o2 E. apply app_eq_inv in E as [(k & -> & E)|(k & -> & E)].
    + destruct k as [|x k]; simplify_eq/=; [|by eapply A6]. split; [done|].
      intros Hu. rewrite app_nil_r in *. split; [by apply A4|by apply A3].
    + destruct k as [|? [|]]; simplify_eq/=. split; [done|]. intros Hu. rewrite app_nil_r.
      split; [by apply A4|by apply A3].
Qed.

Lemma report_frame s s' o :
  report_result s = (s', o) →
  statemachine s' = statemachine s ∧ initialized_tls s' = initialized_tls s ∧
  initialized_keepalive s' = initialized_keepalive s ∧ Forall plain o.
Proof. unfold report_result. intros H. repeat case_match; simplify_eq; repeat constructor. Qed.

Lemma init_keepalive_tls s s' : init_keepalive s = Ok s' → initialized_tls s' = initialized_tls s.
Proof. unfold init_keepalive. intros H. case_match; obind; by simplify_eq. Qed.

Lemma auth_prologue tls_ok s s' o out :
  auth s out → prologue tls_ok s = Ok (s', o) →
  auth s' (out ++ o) ∧ statemachine s' = statemachine s.
Proof.
  intros A H. split; [|by destruct (prologue_frame _ _ _ _ H)]. unfold prologue in H.
  apply bind_Ok in H as ([sa oa] & Ha & H). apply bind_Ok in H as ([sb ob] & Hb & H).
  apply bind_Ok in H as (sc & Hc & H). destruct (report_result sc) as [sd od] eqn:Ed. simplify_eq.
  destruct (auth_init_tls _ _ _ _ _ A Ha) as (Aa & Ma & Ta).
  destruct (auth_announce sa sb ob (out ++ oa) Aa) as [Ab Mb]; [by rewrite Ma|done|].
  destruct (report_frame _ _ _ Ed) as (Md & Td & Kd & Pd).
  destruct (init_keepalive_frame _ _ Hc) as (Mc & _ & Kc).
  rewrite !app_assoc.
  eapply (auth_step sb); [done|..|done].
  - rewrite Md, Mc. apply advances_refl.
  - left. by rewrite Md, Mc.
  - rewrite Td. by apply init_keepalive_tls.
  - rewrite Kd. intros [Hx|Hx]%Kc; [by left|right].
    unfold is_established in Hx. by destruct (state (statemachine sb)).
Qed.

Lemma receive_segment_frame x s s' ack o :
  receive_segment x s = (s', ack, o) →
  statemachine s' = statemachine s ∧ initialized_tls s' = initialized_tls s ∧
  initialized_keepalive s' = initialized_keepalive s ∧ Forall plain o.
Proof. unfold receive_segment. intros H. repeat case_match; simplify_eq; repeat constructor. Qed.

(** The parameters of the peer are new only after they were checked. *)
Definition checked (m m' : StateMachine) : Prop :=
  peer_sess_init m' = peer_sess_init m ∨
  ∃ si, peer_sess_init m' = Some si ∧ contact (state m) = false ∧
    (uses_tls m' → cert_ok (SessInitMsg.node_id si) = true).

(** The events of a session check the certificate in the same way. *)
Definition same_check (e : Event) : Prop :=
  match e with EvRead _ c _ => ∀ id, c id = cert_ok id | _ => True end.

(** Reading: a parameter message is only accepted with the certificate. *)
Lemma read_advances now c msg s s' o :
  (∀ id, c id = cert_ok id) → read_message now c msg s = Ok (s', o) →
  advances (statemachine s) (statemachine s') ∧ checked (statemachine s) (statemachine s') ∧
  initialized_tls s' = initialized_tls s ∧ initialized_keepalive s' = initialized_keepalive s ∧
  Forall plain o.
Proof.
  unfold read_message. intros Hsame H. apply bind_Ok in H as ([m d] & Hd & H).
  destruct (decode_message_advances _ _ _ _ Hd) as [Had Hp].
  assert (Hkeep : (∀ si, d ≠ inl (MSessInit si)) → checked (statemachine s) m).
  { intros Hd'. destruct Hp as [?|(x & -> & _)]; [by left|]. by destruct (Hd' x). }
  destruct d as [[h|si|st| |mr|x|xa|xr]|[mt| | |id|e]]; try done;
    try (simplify_eq; split_and!; [done|by apply Hkeep|done|done|constructor]).
  - apply bind_Ok in H as (tls & Ht & H). rewrite Hsame in H.
    destruct (tls && negb (cert_ok (SessInitMsg.node_id si))) eqn:Ec; [done|]. simplify_eq.
    split_and!; [done| |done|done|constructor].
    destruct Hp as [?|(x & [= <-] & Hx & Hc)]; [by left|right]. exists si. split_and!; [done..|].
    intros Hu. apply (uses_tls_iff _ _ Ht) in Hu as ->. by destruct (cert_ok _).
  - destruct (receive_segment x (with_machine m s)) as [[s1 ack] o1] eqn:Es.
    destruct (receive_segment_frame _ _ _ _ _ Es) as (M1 & T1 & K1 & P1).
    assert (peer_sess_init m = peer_sess_init (statemachine s)) as Hck
      by (destruct Hp as [?|(y & [=] & _)]; done).
    destruct ack as [ack|]; [|simplify_eq; rewrite M1, T1, K1; split_and!; try done; by left].
    apply bind_Ok in H as (m' & Ha & H). simplify_eq. rewrite M1 in Ha.
    destruct (send_ack_advances _ _ _ Ha) as [Had' Hp'].
    split_and!; [by eapply advances_trans|left; by etrans|done..].
  - destruct e; simplify_eq; split_and!; try done; by apply Hkeep.
Qed.

Lemma written_plain msgs : Forall plain (map OWrite msgs).
Proof. by induction msgs; constructor. Qed.

(** An arm: with the check of this session, only announced and upgraded as before. *)
Lemma arm_advances ev s s' o :
  same_check ev →
  nested_ok (state (statemachine s)) →
  (initialized_keepalive s = true → contact (state (statemachine s)) = false) →
  select_arm ev s = Ok (Some s', o) →
  advances (statemachine s) (statemachine s') ∧ checked (statemachine s) (statemachine s') ∧
  initialized_tls s' = initialized_tls s ∧ initialized_keepalive s' = initialized_keepalive s ∧
  Forall plain o.
Proof.
  intros Hcert Hn Hk H. destruct ev as [now c [msg|]|io|[r|]|now|]; simpl in H.
  - apply bind_Ok in H as ([s1 o1] & Hr & H). simplify_eq. by eapply read_advances.
  - done.
  - apply bind_Ok in H as ([msgs m] & Hs & H). destruct io; [|done]. simplify_eq.
    destruct (send_message_advances _ _ _ Hs Hn). split_and!; [done|by left|done|done|apply written_plain].
  - apply bind_Ok in H as ([m e] & Hs & H). destruct (send_transfer_advances _ _ _ _ Hs).
    destruct e; simplify_eq; (split_and!; [done|by left|done|done|by repeat constructor]).
  - simplify_eq. split_and!; [apply advances_refl|by left|done|done|constructor].
  - apply bind_Ok in H as (m & Hm & H). simplify_eq. destruct (check_idle_advances _ _ _ Hm) as [Ha Hp].
    destruct (initialized_keepalive s) eqn:Ek; (split_and!; [|by left|done|done|constructor]); [|done].
    eapply advances_trans; [done|]. apply send_keepalive_advances, (ad_contact _ _ Ha). by apply Hk.
  - apply bind_Ok in H as (m & Hm & H). simplify_eq. destruct (close_connection_advances _ _ _ Hm).
    split_and!; [done|by left|done|done|constructor].
Qed.

(** What a session may have put out when it ends. *)
Definition announced_ok (out : list Output) : Prop := ∀ o1 id mru o2,
  out = o1 ++ OEstablished id mru :: o2 → OUpgradeTls ∈ out → OUpgradeTls ∈ o1 ∧ cert_ok id = true.

Lemma auth_announced s out : auth s out → announced_ok out.
Proof. intros [_ _ _ _ A5 A6] o1 id mru o2 E [_ Hu]%A5. by apply (A6 _ _ _ _ E). Qed.

Lemma auth_iteration tls_ok ev s r o out :
  same_check ev →
  auth s out → iteration tls_ok ev s = Ok (r, o) →
  announced_ok (out ++ o) ∧ ∀ s', r = Some s' → auth s' (out ++ o).
Proof.
  intros Hc A H. unfold iteration in H. apply bind_Ok in H as ([s1 o1] & Hp & H).
  destruct (auth_prologue _ _ _ _ _ A Hp) as [A1 _].
  destruct (should_close (statemachine s1)).
  { simplify_eq. split; [by eapply auth_announced|done]. }
  apply bind_Ok in H as ([r' o2] & Ha & H). simplify_eq. destruct r as [s'|].
  - assert (auth s' (out ++ o1 ++ o2)) as A2.
    { destruct (arm_advances ev s1 s' o2) as (Had & Hck & Ht & Hk & Hpl); [done|by eapply au_nested| |done|].
      { intros Hi. eapply au_phase; [exact A1|by left]. }
      rewrite app_assoc. eapply auth_step; [done..| |done]. rewrite Hk. by left. }
    split; [by eapply auth_announced|by intros ? [= <-]].
  - assert (o2 = []) as ->.
    { destruct ev as [? ? [|]|?|[|]| |]; simpl in Ha;
        repeat first [progress obind | case_match]; by simplify_eq. }
    rewrite app_nil_r. split; [by eapply auth_announced|done].
Qed.

Lemma auth_loop evs s r o out :
  Forall (λ e, same_check e.2) evs →
  auth s out → drive_loop evs s = Ok (r, o) → announced_ok (out ++ o).
Proof.
  intros Hf. revert s o out. induction Hf as [|[tls_ok ev] evs Hev Hf IH]; intros s o out A H; simpl in H.
  { simplify_eq. rewrite app_nil_r. by eapply auth_announced. }
  apply bind_Ok in H as ([r' o1] & Hi & H).
  destruct (auth_iteration _ _ _ _ _ _ Hev A Hi) as [Hann Hnext].
  destruct r' as [s'|]; [|by simplify_eq].
  apply bind_Ok in H as ([r2 o2] & Hl & H). simplify_eq. rewrite app_assoc. by eapply IH; [apply Hnext|].
Qed.

Lemma auth_new m now :
  nested_ok (state m) → peer_sess_init m = None → auth (new_session m now) [].
Proof.
  intros Hn Hp. split; cbn; rewrite ?Hp; try done.
  - intros [?|[?|[? ?]]]; done.
  - by intros ?%elem_of_nil.
  - by intros [|??] ? ? ? ?.
Qed.
End auth.

(** ** Sessions are authenticated *)

Section authenticated.
Context {HO : OpenSsl} {HT : TlsCrates} {HN : Network}.

(** The session was accepted or opened by this node. *)
Definition opened (s : Session) : Prop :=
  ∃ ts url node_id tls now, new ts node_id tls now = Ok s ∨ connect url node_id tls now = Ok s.

Lemma opened_core s now :
  opened s → ∃ m, core (set_core now s) = new_session m now ∧ nested_ok (state m) ∧ peer_sess_init m = None.
Proof.
  intros (ts & url & id & tls & t0 & [H|H]); unfold new, connect in H; obind; simplify_eq;
    eexists; (split; [reflexivity|]); (split; [by intros ? ?|done]).
Qed.

End authenticated.

(** ** Examples *)
Module AuthWitness.
(** A certificate is the node id it was made for. *)
#[export] Instance ssl : OpenSsl := {|
  X509 := bytes; TCPCLServer.PKey := bytes; TCPCLServer.SslIoError := unit;
  TCPCLServer.read_file := inr; TCPCLServer.x509_from_pem := inr; TCPCLServer.x509_from_der := inr;
  TCPCLServer.private_key_from_pem := inr; TCPCLServer.private_key_from_der := inr |}.
#[export] Instance crates : TlsCrates := {|
  ErrorStack := unit; X509StoreBuilder := list bytes; SslContextBuilder := list bytes;
  SslContext := list bytes; store_builder_new := inr []; add_cert c b := inr (c :: b);
  mozilla_modern_v5 := inr []; set_cert_store s _ := s; set_private_key _ b := inr b;
  set_certificate _ b := inr b; check_private_key _ := inr (); set_verify_peer b := b;
  into_context b := b; to_der := Some;
  from_der d := Some [AnotherExtension; SubjectAlternativeName [AnotherName; DNSName (str "host.example");
    OtherName BUNDLE_EID_OID (bundle_eid_value d)]] |}.
#[export] Instance net : Network := {|
  SocketAddr := unit; TcpStream := unit; host _ := Some (Domain (str "p.example"));
  socket_addrs _ := Some [()]; tcp_connect _ := Some (); peer_addr _ := Some (str "10.0.0.1:4556");
  url_parse t := Some {| url_text := t; url_scheme := str "tcpcl" |} |}.

Definition peer : bytes := str "dtn://p".
Definition url : Url := {| url_text := str "tcpcl://p.example"; url_scheme := str "tcpcl" |}.
Definition tls : TCPCLServer.TLSSettings := {|
  TCPCLServer.private_key := str "key"; TCPCLServer.certificate := str "dtn://a";
  TCPCLServer.trusted_certs := [str "ca"] |}.
Definition session : outcome ErrorType Session := connect url (str "dtn://a") (Some tls) 0.

Definition cert_ok (id : bytes) : bool :=
  match validate_peer_certificate id url (Some peer) with Ok _ => true | _ => false end.
Definition read (m : Messages) : bool * Event := (true, EvRead 0 cert_ok (Some (inl m))).
Definition run (id : bytes) : list (bool * Event) :=
  [ (true, EvWrite true); read (MContactHeader (ContactHeaderMsg.new true));
    (true, EvWrite true); read (MSessInit (SessInitMsg.new id)); (true, EvTick 0) ].

Lemma run_checked id : Forall (checked_by url (Some peer)) (run id).
Proof. repeat constructor. Qed.

(** A peer that claims the node id of another is refused. *)
Example impostor : ∀ s, session = Ok s →
  (manage_connection (run (str "dtn://q")) true 0 s).1 =
    Err (TCPCLError (TLSNameMissmatch (str "dtn://q"))).
Proof. intros s [= <-]. vm_compute. reflexivity. Qed.
End AuthWitness.
Import AuthWitness.


Lemma certificate_check_witness :
  (validate_peer_certificate AuthWitness.peer AuthWitness.url (Some AuthWitness.peer) = Ok () ↔
     names_peer AuthWitness.peer (host AuthWitness.url)
       (default [] (from_der AuthWitness.peer))) ∧
  validate_peer_certificate (str "dtn://q") AuthWitness.url (Some AuthWitness.peer) ≠ Ok () ∧
  names_peer AuthWitness.peer (host AuthWitness.url) (default [] (from_der AuthWitness.peer)).
Proof.
  split; [|split].
  - eapply (@certificate_check AuthWitness.ssl AuthWitness.crates AuthWitness.net AuthWitness.peer AuthWitness.url AuthWitness.peer); [reflexivity..|].
    intros names v Hn Hv. vm_compute in Hn. repeat (apply elem_of_cons in Hn as [Hn|Hn]; [|]); try discriminate.
    + injection Hn as ->. vm_compute in Hv.
      repeat (apply elem_of_cons in Hv as [Hv|Hv]; [|]); try discriminate; [|by apply elem_of_nil in Hv].
      injection Hv as ->. vm_compute. lia.
    + by apply elem_of_nil in Hn.
  - vm_compute. discriminate.
  - eexists. split; [right; left|]. left. eexists. split; [right; right; left|]. reflexivity.
Defined.
