(* ===== verification/Connections.v ===== *)
(** * The node agent, the convergence agent, the TCPCL server and its sessions together

    The agents of dtrd that manage connections, each with its mailbox, composed
    from their handlers.  A user adds and removes nodes, a timer asks for new
    connection attempts, remotes connect, sessions are established and end.  Every
    interleaving is a run of [sys_step].  There are two instances of the server
    (main.rs): the one that the listener passes connections to ([lsv]) is started by
    [main], the one that the convergence agent talks to ([sv]) is the registry's.
    The task of a session and its agent are one here: a session is announced ([CLRegisterNode]) before its end is
    ([CLUnregisterNode]). *)
From S2P Require Import Prelude RustStr Actor Cbor CborRfc Flags CrcTime Endpoint PrimaryBlock.
From S2P Require Import Block Bundle Fragment FragmentSize Storage StorageSystem StorageOps.
From S2P Require Import ProtocolAgent Routing Peers TcpclAgents.
Import NodeAgent.

Inductive NodeMsg :=
| MAddNode (u : Url)
| MRemoveNode (u : Url)
| MTryConnect
| MConnected (u : Url) (e : Endpoint) (max_bundle_size : Z)
| MDisconnected (u : Url).

Inductive ConvMsg :=
| CConnect (u : Url)
| CDisconnect (u : Url)
| CRegister (u : Url) (e : Endpoint) (max_bundle_size : Z) (sender : Recipient)
| CUnregister (u : Url) (node : option Endpoint).

Inductive ServerMsg := SConnect (u : Url) | SDisconnect (u : Url).

Definition node_handler (m : NodeMsg) : NodeAgent.handler () :=
  match m with
  | MAddNode u => AddNode u
  | MRemoveNode u => RemoveNode u
  | MTryConnect => TryConnect
  | MConnected u e z => NotifyNodeConnected u e z
  | MDisconnected u => NotifyNodeDisconnected u
  end.

Definition conv_handler (m : ConvMsg) : ConvergenceAgent.handler () :=
  match m with
  | CConnect u => ConvergenceAgent.AgentConnectNode u
  | CDisconnect u => ConvergenceAgent.AgentDisconnectNode u
  | CRegister u e z r => ConvergenceAgent.CLRegisterNode u e z r
  | CUnregister u n => ConvergenceAgent.CLUnregisterNode u n
  end.

(** Where the messages go; those to agents outside of the system are left out. *)
Definition node_to_conv (o : NodeAgent.Output) : option ConvMsg :=
  match o with
  | AgentConnectNode u => Some (CConnect u)
  | AgentDisconnectNode u => Some (CDisconnect u)
  | AddRoute _ _ _ _ | RemoveRoute _ _ _ => None
  end.

Definition conv_to_node (o : ConvergenceAgent.Output) : option NodeMsg :=
  match o with
  | ConvergenceAgent.NotifyNodeConnected u e z => Some (MConnected u e z)
  | ConvergenceAgent.NotifyNodeDisconnected u => Some (MDisconnected u)
  | _ => None
  end.

Definition conv_to_server (o : ConvergenceAgent.Output) : option ServerMsg :=
  match o with
  | ConvergenceAgent.ConnectRemote u => Some (SConnect u)
  | ConvergenceAgent.DisconnectRemote u => Some (SDisconnect u)
  | _ => None
  end.

Section system.
Context `{!TCPCLServer.OpenSsl}.

Definition server_to_conv (o : TCPCLServer.Output) : option ConvMsg :=
  match o with
  | TCPCLServer.CLUnregisterNode u n => Some (CUnregister u n)
  | TCPCLServer.SessionShutdown _ => None
  end.

Definition agent_to_conv (me : Recipient) (o : TCPCLSessionAgent.Output) : option ConvMsg :=
  match o with
  | TCPCLSessionAgent.CLRegisterNode u e z => Some (CRegister u e z me)
  | TCPCLSessionAgent.CLUnregisterNode u n => Some (CUnregister u n)
  | _ => None
  end.

(** A live session: what it knows of its peer, and its agent. *)
Record Session := {
  s_info : TCPCLSessionAgent.ConnectionInfo;
  s_agent : TCPCLSessionAgent.TCPCLSessionAgent;
}.

Definition s_url (s : Session) : Url := TCPCLSessionAgent.peer_url (s_info s).

Record System := {
  nd : NodeAgent.Daemon;
  cv : ConvergenceAgent.Daemon;
  sv : TCPCLServer.TCPCLServer;
  lsv : TCPCLServer.TCPCLServer;
  live : gmap nat Session;
  mn : list NodeMsg;
  mc : list ConvMsg;
  ms : list ServerMsg;
}.

Definition fresh_session (u : Url) : Session := {|
  s_info := {| TCPCLSessionAgent.peer_endpoint := None; TCPCLSessionAgent.peer_url := u;
               TCPCLSessionAgent.max_bundle_size := None |};
  s_agent := TCPCLSessionAgent.new_agent |}.

Inductive sys_step : System → System → Prop :=
| step_request s m :
    (match m with MConnected _ _ _ | MDisconnected _ => False | _ => True end) →
    sys_step s {| nd := nd s; cv := cv s; sv := sv s; lsv := lsv s; live := live s;
                  mn := mn s ++ [m]; mc := mc s; ms := ms s |}
| step_node s m rest nd' o :
    mn s = m :: rest → node_handler m (nd s) = Ok ((), nd', o) →
    sys_step s {| nd := nd'; cv := cv s; sv := sv s; lsv := lsv s; live := live s;
                  mn := rest; mc := mc s ++ omap node_to_conv o; ms := ms s |}
| step_conv s m rest cv' o :
    mc s = m :: rest → conv_handler m (cv s) = Ok ((), cv', o) →
    sys_step s {| nd := nd s; cv := cv'; sv := sv s; lsv := lsv s; live := live s;
                  mn := mn s ++ omap conv_to_node o; mc := rest;
                  ms := ms s ++ omap conv_to_server o |}
| step_connect s u rest i sv' o :
    ms s = SConnect u :: rest → live s !! i = None →
    TCPCLServer.ConnectRemote u (Some i) (sv s) = Ok ((), sv', o) →
    sys_step s {| nd := nd s; cv := cv s; sv := sv'; lsv := lsv s; live := <[i := fresh_session u]> (live s);
                  mn := mn s; mc := mc s ++ omap server_to_conv o; ms := rest |}
| step_connect_failed s u rest sv' o :
    ms s = SConnect u :: rest →
    TCPCLServer.ConnectRemote u None (sv s) = Ok ((), sv', o) →
    sys_step s {| nd := nd s; cv := cv s; sv := sv'; lsv := lsv s; live := live s;
                  mn := mn s; mc := mc s ++ omap server_to_conv o; ms := rest |}
| step_disconnect s u rest sv' o :
    ms s = SDisconnect u :: rest →
    TCPCLServer.DisconnectRemote u (sv s) = Ok ((), sv', o) →
    sys_step s {| nd := nd s; cv := cv s; sv := sv'; lsv := lsv s; live := live s;
                  mn := mn s; mc := mc s ++ omap server_to_conv o; ms := rest |}
| step_incoming s Url_parse address i u sv' o :
    live s !! i = None → Url_parse (str "tcpcl://" ++ address) = Some u →
    TCPCLServer.NewClientConnectedOnSocket Url_parse address (Some i) (lsv s) = Ok ((), sv', o) →
    sys_step s {| nd := nd s; cv := cv s; sv := sv s; lsv := sv'; live := <[i := fresh_session u]> (live s);
                  mn := mn s; mc := mc s ++ omap server_to_conv o; ms := ms s |}
| step_established s i x info a' o :
    live s !! i = Some x → TCPCLSessionAgent.peer_url info = s_url x →
    TCPCLSessionAgent.HandleConnectionInfo info (s_agent x) = Ok ((), a', o) →
    sys_step s {| nd := nd s; cv := cv s; sv := sv s; lsv := lsv s;
                  live := <[i := {| s_info := info; s_agent := a' |}]> (live s);
                  mn := mn s; mc := mc s ++ omap (agent_to_conv i) o; ms := ms s |}
| step_ended s i x failed a' o :
    live s !! i = Some x →
    TCPCLSessionAgent.session_ended failed (s_info x) (s_agent x) = Ok ((), a', o) →
    sys_step s {| nd := nd s; cv := cv s; sv := sv s; lsv := lsv s; live := delete i (live s);
                  mn := mn s; mc := mc s ++ omap (agent_to_conv i) o; ms := ms s |}.

Definition sys_start : System := {|
  nd := NodeAgent.Daemon_default; cv := {| ConvergenceAgent.connected_nodes := ∅ |};
  sv := TCPCLServer.TCPCLServer_default;
  lsv := TCPCLServer.TCPCLServer_default; live := ∅; mn := []; mc := []; ms := [] |}.

Inductive sys_reachable : System → Prop :=
| reach_start : sys_reachable sys_start
| reach_step s s' : sys_reachable s → sys_step s s' → sys_reachable s'.

(** ** What holds of every state *)

(** The agents regard the node as connected or on its way. *)
Definition active (u : Url) (d : NodeAgent.Daemon) : Prop :=
  ∃ n, n ∈ nodes d ∧ url n = u ∧ (connection_status n = Connecting ∨ connection_status n = Connected).

Inductive mark := Up | Down.

Definition node_mark (u : Url) (m : NodeMsg) : option mark :=
  match m with
  | MConnected v _ _ => if decide (v = u) then Some Up else None
  | MDisconnected v => if decide (v = u) then Some Down else None
  | _ => None
  end.
Definition conv_mark (u : Url) (m : ConvMsg) : option mark :=
  match m with
  | CRegister v _ _ _ => if decide (v = u) then Some Up else None
  | CUnregister v _ => if decide (v = u) then Some Down else None
  | _ => None
  end.

(** What the node agent will still be told about [u], in order. *)
Definition marks (u : Url) (s : System) : list mark :=
  omap (node_mark u) (mn s) ++ omap (conv_mark u) (mc s).

(** A connection to [u] is being asked for, attempted or alive. *)
Definition owed (u : Url) (s : System) : Prop :=
  CConnect u ∈ mc s ∨ SConnect u ∈ ms s ∨ ∃ i x, live s !! i = Some x ∧ s_url x = u.

Definition backed (u : Url) (s : System) : Prop :=
  active u (nd s) ∨ Up ∈ marks u s → owed u s ∨ last (marks u s) = Some Down.

Record sys_ok (s : System) : Prop := {
  sys_nodes : nodes_ok (nd s);
  sys_backed u : url_scheme u = str "tcpcl" → backed u s;
}.
End system.

(** ** The node agent *)
Section node.
Implicit Types (d : NodeAgent.Daemon) (u v : Url) (o : list NodeAgent.Output).

Lemma active_snoc u d n :
  active u {| nodes := nodes d ++ [n] |} → active u d ∨ u = url n.
Proof.
  intros (m & Hm & <- & Hs). simpl in Hm. apply elem_of_app in Hm as [Hm|Hm]; [left; by exists m|].
  apply list_elem_of_singleton in Hm as ->. by right.
Qed.

Lemma active_update u v f d :
  (∀ n, url (f n) = url n) → active u (update_node v f d) →
  active u d ∨ u = v ∧ ∃ n, connection_status (f n) = Connecting ∨ connection_status (f n) = Connected.
Proof.
  intros Hf. destruct (position (has_url v) (nodes d)) as [i|] eqn:E.
  2:{ unfold update_node. rewrite E. by left. }
  destruct (update_node_split v f d i E) as (l1 & n & l2 & Hl & Hv & _ & Hu & _).
  intros (m & Hm & <- & Hs). rewrite Hu in Hm. rewrite elem_of_app, elem_of_cons in Hm.
  destruct Hm as [Hm|[->|Hm]].
  - left. exists m. rewrite Hl. set_solver.
  - right. rewrite Hf. split; [done|]. by exists n.
  - left. exists m. rewrite Hl. set_solver.
Qed.

Lemma AddNode_active u v d d' o :
  AddNode v d = Ok ((), d', o) → active u d' → active u d ∨ AgentConnectNode u ∈ o.
Proof.
  unfold AddNode. intros H. ainv. case_match; ainv; [by left|].
  intros [Ha|Ha]%active_snoc; [by left|]. simpl in Ha. subst. right. simpl. set_solver.
Qed.

Lemma RemoveNode_active u v d d' o : RemoveNode v d = Ok ((), d', o) → active u d' → active u d.
Proof.
  unfold RemoveNode. intros H. ainv. case_match; ainv; [|done].
  intros [Ha|(_ & x & [?|?])]%active_update; done.
Qed.

Lemma TryConnect_active u d d' o :
  TryConnect d = Ok ((), d', o) → active u d' → active u d ∨ AgentConnectNode u ∈ o.
Proof.
  unfold TryConnect. destruct (try_connect_nodes (nodes d)) as [ns o'] eqn:E. intros [= <- <-].
  unfold active. simpl. revert ns o' E. induction (nodes d) as [|n l IH]; intros ns o' E; simplify_eq/=.
  { intros (m & Hm & _). by apply not_elem_of_nil in Hm. }
  destruct (try_connect_nodes l) as [ns' o'']. specialize (IH _ _ eq_refl).
  assert (Hold : (∃ m, m ∈ ns' ∧ url m = u ∧ (connection_status m = Connecting ∨ connection_status m = Connected)) →
    (∃ m, m ∈ n :: l ∧ url m = u ∧ (connection_status m = Connecting ∨ connection_status m = Connected))
    ∨ AgentConnectNode u ∈ o'').
  { intros Hm. destruct (IH Hm) as [(m & ? & ? & ?)|?]; [left; exists m; set_solver|by right]. }
  destruct (wants_connection n); simplify_eq; intros (m & Hm & Hu & Hs); apply elem_of_cons in Hm as [->|Hm].
  - right. simpl in Hu. subst. left.
  - destruct Hold as [?|?]; [by exists m|by left|]. right. by right.
  - left. exists n. set_solver.
  - apply Hold. by exists m.
Qed.

Lemma Connected_active u v e z d d' o :
  NotifyNodeConnected v e z d = Ok ((), d', o) → active u d' → active u d ∨ u = v.
Proof.
  unfold NotifyNodeConnected. intros H. ainv. case_match; ainv.
  - intros [Ha|[-> _]]%active_update; [by left|by right|done].
  - intros [Ha|Ha]%active_snoc; [by left|]. by right.
Qed.

Lemma Disconnected_active u v d d' o :
  nodes_ok d → NotifyNodeDisconnected v d = Ok ((), d', o) → active u d' → active u d ∧ u ≠ v.
Proof.
  intros [Hnd _] H. unfold NotifyNodeDisconnected in H. ainv.
  destruct (position (has_url v) (nodes _)) as [i|] eqn:E; ainv.
  2:{ intros Ha. split; [done|]. intros ->. destruct Ha as (m & Hm & <- & _).
      apply position_has_url_None in E. apply E. by apply list_elem_of_fmap_2. }
  assert (s1 = s) as -> by (by destruct (remote_endpoint a); ainv).
  destruct (update_node_split v (λ n, {| url := url n; connection_status := Disconnected;
    remote_endpoint := None; temporary := temporary n |}) s i E)
    as (l1 & n & l2 & Hl & Hv & Hi & Hn & Hr).
  rewrite Hl in Hnd. pose proof (λ m, nodup_url_middle l1 n l2 m Hnd) as Hne. rewrite Hv in Hne.
  destruct (temporary a); ainv.
  - destruct a0 as [x rest]. ainv.
    intros (m & Hm & <- & Hs). simpl in Hm. split; [|by apply Hne].
    exists m. rewrite Hl. set_solver.
  - intros (m & Hm & <- & Hs). rewrite Hn in Hm. rewrite elem_of_app, elem_of_cons in Hm.
    destruct Hm as [Hm|[->|Hm]]; [|by destruct Hs|];
      (split; [exists m; rewrite Hl; set_solver|apply Hne; set_solver]).
Qed.
End node.

(** ** Every step keeps the nodes backed *)
Section invariant.
Context `{!TCPCLServer.OpenSsl}.
Implicit Types (s : System) (u v : Url) (o : list NodeAgent.Output).

(** Messages about [u] were added at the end of what the node agent will be told. *)
Lemma backed_append u s s' l :
  nd s' = nd s → marks u s' = marks u s ++ l →
  (owed u s → owed u s' ∨ last l = Some Down) →
  (l = [] ∨ last l = Some Down ∨ owed u s') → backed u s → backed u s'.
Proof.
  intros Hn Hm Ho Hl Hb. unfold backed in *. rewrite Hn, Hm.
  destruct Hl as [->|[Hl|Hl]]; [|by right; rewrite last_app, Hl|by left].
  rewrite app_nil_r. intros [Hold|Hlast]%Hb; [|by right].
  destruct (Ho Hold) as [?|?]; [by left|done].
Qed.

Lemma node_to_conv_marks u o : omap (conv_mark u) (omap node_to_conv o) = [].
Proof. induction o as [|[] o IH]; simpl; done. Qed.

Lemma elem_of_node_to_conv u o : AgentConnectNode u ∈ o → CConnect u ∈ omap node_to_conv o.
Proof. intros Hin. apply list_elem_of_omap. by exists (AgentConnectNode u). Qed.

Lemma owed_mono u s s' :
  (CConnect u ∈ mc s → CConnect u ∈ mc s') → (SConnect u ∈ ms s → SConnect u ∈ ms s') →
  live s' = live s → owed u s → owed u s'.
Proof. unfold owed. intros H1 H2 ->. naive_solver. Qed.

Lemma last_cons_ne (m : mark) l : l ≠ [] → last (m :: l) = last l.
Proof. by destruct l. Qed.

Lemma node_step_backed u s m rest nd' o :
  nodes_ok (nd s) → mn s = m :: rest → node_handler m (nd s) = Ok ((), nd', o) → backed u s →
  backed u {| nd := nd'; cv := cv s; sv := sv s; lsv := lsv s; live := live s;
              mn := rest; mc := mc s ++ omap node_to_conv o; ms := ms s |}.
Proof.
  intros Hok Hm Hh Hb. set (s' := Build_System _ _ _ _ _ _ _ _).
  assert (Ho : owed u s → owed u s') by (apply owed_mono; [simpl; set_solver|done|done]).
  assert (Hnew : AgentConnectNode u ∈ o → owed u s').
  { intros Hin%elem_of_node_to_conv. left. simpl. set_solver. }
  assert (Hmk : marks u s = option_list (node_mark u m) ++ marks u s').
  { unfold marks. simpl. rewrite Hm, omap_app, node_to_conv_marks, app_nil_r. simpl.
    by destruct (node_mark u m). }
  assert (Hkeep : node_mark u m = None → (active u nd' → active u (nd s) ∨ AgentConnectNode u ∈ o) → backed u s').
  { intros Hnm Hact. rewrite Hnm in Hmk. simpl in Hmk. unfold backed in *. rewrite Hmk in Hb. simpl.
    intros [[Ha|Ha]%Hact|Hup]; [destruct Hb; auto|by left; auto|destruct Hb; auto]. }
  destruct m as [v|v| |v e z|v]; simpl in Hh.
  - apply Hkeep; [done|]. by eapply AddNode_active.
  - apply Hkeep; [done|]. intros Ha. left. by eapply RemoveNode_active.
  - apply Hkeep; [done|]. by eapply TryConnect_active.
  - simpl in *. case_decide as E; [subst v|].
    + simpl in Hmk. unfold backed in *. rewrite Hmk in Hb. intros _.
      destruct Hb as [?|Hl]; [right; left|by left; auto|]. right.
      destruct (marks u s') eqn:E'; [done|]. by rewrite last_cons_ne in Hl.
    + apply Hkeep; [done|]. intros Ha. left.
      destruct (Connected_active u v e z _ _ _ Hh Ha); [done|congruence].
  - simpl in *. case_decide as E; [subst v|].
    + simpl in Hmk. unfold backed in *. rewrite Hmk in Hb.
      intros [Ha|Hup]; [by destruct (Disconnected_active u u _ _ _ Hok Hh Ha)|].
      destruct Hb as [?|Hl]; [right; by right|by left; auto|]. right.
      destruct (marks u s') eqn:E'; [by apply not_elem_of_nil in Hup|]. by rewrite last_cons_ne in Hl.
    + apply Hkeep; [done|]. intros Ha. left. by destruct (Disconnected_active u v _ _ _ Hok Hh Ha).
Qed.

Lemma conv_step_backed u s m rest cv' (ol : list ConvergenceAgent.Output) :
  url_scheme u = str "tcpcl" →
  mc s = m :: rest → conv_handler m (cv s) = Ok ((), cv', ol) → backed u s →
  backed u {| nd := nd s; cv := cv'; sv := sv s; lsv := lsv s; live := live s;
              mn := mn s ++ omap conv_to_node ol; mc := rest;
              ms := ms s ++ omap conv_to_server ol |}.
Proof.
  intros Hu Hm Hh Hb. set (s' := Build_System _ _ _ _ _ _ _ _).
  assert (Hmarks : marks u s' = marks u s → (CConnect u = m → owed u s') → backed u s').
  { intros Hmk Hc. apply (backed_append u s s' []); [done|by rewrite Hmk, app_nil_r| |by left|done].
    intros [Hin|Hin]; left; [|right; simpl; set_solver].
    rewrite Hm in Hin. apply elem_of_cons in Hin as [E|Hin]; [auto|by left]. }
  destruct m as [v|v|v e z r|v n]; simpl in Hh.
  - unfold ConvergenceAgent.AgentConnectNode in Hh. case_bool_decide as E; ainv; apply Hmarks.
    + unfold marks. simpl. by rewrite app_nil_r, Hm.
    + intros [= <-]. right. left. simpl. set_solver.
    + unfold marks. simpl. by rewrite app_nil_r, Hm.
    + by intros [= <-].
  - apply Hmarks; [|done]. unfold ConvergenceAgent.AgentDisconnectNode in Hh.
    case_bool_decide; ainv; unfold marks; simpl; by rewrite app_nil_r, Hm.
  - apply Hmarks; [|done]. unfold ConvergenceAgent.CLRegisterNode in Hh. ainv.
    unfold marks. simpl. rewrite Hm, omap_app, <-app_assoc. simpl. by case_decide.
  - apply Hmarks; [|done]. unfold ConvergenceAgent.CLUnregisterNode in Hh.
    destruct n; ainv; unfold marks; simpl; rewrite Hm, omap_app, <-app_assoc; simpl; by case_decide.
Qed.

(** Messages of the server and of the sessions go to the end of the mailbox. *)
Lemma conv_append_backed u s s' l :
  nd s' = nd s → mn s' = mn s → mc s' = mc s ++ l →
  (owed u s → owed u s' ∨ last (omap (conv_mark u) l) = Some Down) →
  (omap (conv_mark u) l = [] ∨ last (omap (conv_mark u) l) = Some Down ∨ owed u s') →
  backed u s → backed u s'.
Proof.
  intros H1 H2 H3. apply backed_append; [done|]. unfold marks. by rewrite H2, H3, omap_app, app_assoc.
Qed.

(** What is owed when no connection attempt and no session is taken away. *)
Lemma owed_keep u s s' :
  (CConnect u ∈ mc s → CConnect u ∈ mc s') → (SConnect u ∈ ms s → SConnect u ∈ ms s') →
  (∀ i x, live s !! i = Some x → s_url x = u → ∃ j y, live s' !! j = Some y ∧ s_url y = u) →
  owed u s → owed u s'.
Proof. unfold owed. intros H1 H2 H3 [?|[?|(i & x & Hi & Hx)]]; [auto|auto|]. right. right. eauto. Qed.

Lemma owed_live u s i x : live s !! i = Some x → s_url x = u → owed u s.
Proof. intros H1 H2. right. right. eauto. Qed.

Lemma established_backed u s i x info a' (l : list TCPCLSessionAgent.Output) :
  live s !! i = Some x → TCPCLSessionAgent.peer_url info = s_url x →
  TCPCLSessionAgent.HandleConnectionInfo info (s_agent x) = Ok ((), a', l) → backed u s →
  backed u {| nd := nd s; cv := cv s; sv := sv s; lsv := lsv s;
              live := <[i := {| s_info := info; s_agent := a' |}]> (live s);
              mn := mn s; mc := mc s ++ omap (agent_to_conv i) l; ms := ms s |}.
Proof.
  intros Hx Hurl Hh Hb.
  assert (Hsame : ∀ s', live s' = <[i := {| s_info := info; s_agent := a' |}]> (live s) →
    (CConnect u ∈ mc s → CConnect u ∈ mc s') → (SConnect u ∈ ms s → SConnect u ∈ ms s') → owed u s → owed u s').
  { intros s' Hl H1 H2. apply owed_keep; [done..|]. intros j y Hj Hy. rewrite Hl.
    destruct (decide (j = i)) as [->|Hne].
    - exists i, {| s_info := info; s_agent := a' |}. rewrite lookup_insert_eq. split; [done|].
      unfold s_url at 1. simpl. rewrite Hurl. naive_solver.
    - exists j, y. by rewrite lookup_insert_ne. }
  unfold TCPCLSessionAgent.HandleConnectionInfo, TCPCLSessionAgent.ctx_stop in Hh. ainv. destruct (Endpoint.new a) as [node|]; ainv.
  - eapply (conv_append_backed u s); [done..| | |done]; simpl.
    + intros Ho. left. revert Ho. apply Hsame; simpl; [done|set_solver|set_solver].
    + case_decide as Ev; [|by left]. right. right.
      eapply owed_live; [apply lookup_insert_eq|done].
  - eapply (conv_append_backed u s _ []); [done..| |by left|done].
    intros Ho. left. revert Ho. apply Hsame; simpl; [done|set_solver|set_solver].
Qed.

Lemma ended_backed u s i x failed a' (ol : list TCPCLSessionAgent.Output) :
  live s !! i = Some x →
  TCPCLSessionAgent.session_ended failed (s_info x) (s_agent x) = Ok ((), a', ol) → backed u s →
  backed u {| nd := nd s; cv := cv s; sv := sv s; lsv := lsv s; live := delete i (live s);
              mn := mn s; mc := mc s ++ omap (agent_to_conv i) ol; ms := ms s |}.
Proof.
  intros Hx Hh Hb.
  unfold TCPCLSessionAgent.session_ended in Hh.
  assert (∃ (l : list TCPCLSessionAgent.Output) n, ol = l ++ [TCPCLSessionAgent.CLUnregisterNode (s_url x) n] ∧ omap (agent_to_conv i) l = [])
    as (l & n & -> & Hl).
  { destruct failed; ainv; [exists [TCPCLSessionAgent.ForceShutdownSelf]|exists []]; by eexists. }
  eapply (conv_append_backed u s); [done..| | |done]; simpl; rewrite omap_app, Hl; simpl;
    (case_decide as E; [by auto|]); [|by left].
  intros Ho. left. revert Ho. apply owed_keep; simpl; [set_solver|set_solver|].
  intros j y Hj Hy. exists j, y. rewrite lookup_delete_ne; [done|]. intros ->. naive_solver.
Qed.

Lemma sys_step_ok s s' : sys_ok s → sys_step s s' → sys_ok s'.
Proof.
  intros [Hn Hb] Hs. destruct Hs as
    [s m Hm|s m rest nd' o Hm Hh|s m rest cv' o Hm Hh|s v rest i sv' o Hm Hi Hh|s v rest sv' o Hm Hh
    |s v rest sv' o Hm Hh|s parse addr i v sv' o Hi Hp Hh|s i x info a' o Hx Hurl Hh|s i x failed a' o Hx Hh].
  - split; [done|]. intros u Hu. eapply (backed_append u s _ []); [done| |by left|by left|by apply Hb].
    unfold marks. simpl. rewrite omap_app, app_nil_r. destruct m; simpl; try done; by rewrite app_nil_r.
  - split; [|intros u Hu; apply (node_step_backed u s m rest nd' o); [done..|by apply Hb]].
    destruct m; simpl in Hh; (eapply node_step_ok; [done|by econstructor]).
  - split; [done|]. intros u Hu. apply (conv_step_backed u s m rest cv' o); [done..|by apply Hb].
  - split; [done|]. intros u Hu. unfold TCPCLServer.ConnectRemote in Hh. ainv.
    eapply (conv_append_backed u s _ []); [done..| |by left|by apply Hb]. intros Ho. left.
    destruct (decide (u = v)) as [->|Hne].
    { apply (owed_live _ _ i (fresh_session v)); [apply lookup_insert_eq|done]. }
    revert Ho. apply owed_keep; simpl; rewrite ?Hm; [set_solver|set_solver|].
    intros j x Hj Hx. exists j, x. by rewrite lookup_insert_ne by congruence.
  - split; [done|]. intros u Hu. unfold TCPCLServer.ConnectRemote in Hh. ainv.
    eapply (conv_append_backed u s); [done..| | |by apply Hb]; simpl;
      (case_decide as E; [by auto|]); [|by left].
    intros Ho. left. revert Ho. apply owed_keep; simpl; rewrite ?Hm; [set_solver|set_solver|eauto].
  - split; [done|]. intros u Hu. unfold TCPCLServer.DisconnectRemote in Hh. ainv.
    destruct (TCPCLServer.sessions (sv s) !! v); ainv.
    + eapply (conv_append_backed u s _ []); [done..| |by left|by apply Hb].
      intros Ho. left. revert Ho. apply owed_keep; simpl; rewrite ?Hm; [set_solver|set_solver|eauto].
    + eapply (conv_append_backed u s); [done..| | |by apply Hb]; simpl;
        (case_decide as E; [by auto|]); [|by left].
      intros Ho. left. revert Ho. apply owed_keep; simpl; rewrite ?Hm; [set_solver|set_solver|eauto].
  - split; [done|]. intros u Hu. unfold TCPCLServer.NewClientConnectedOnSocket in Hh. ainv.
    eapply (conv_append_backed u s _ []); [done..| |by left|by apply Hb]. intros Ho. left. revert Ho.
    apply owed_keep; simpl; [set_solver|set_solver|].
    intros j x Hj Hx. exists j, x. by rewrite lookup_insert_ne by congruence.
  - split; [done|]. intros u Hu. eapply established_backed; [done..|by apply Hb].
  - split; [done|]. intros u Hu. eapply ended_backed; [done..|by apply Hb].
Qed.

Lemma sys_reachable_ok s : sys_reachable s → sys_ok s.
Proof.
  induction 1 as [|s s' _ IH Hs]; [|by eapply sys_step_ok].
  split; [split; simpl; constructor|]. intros u _ [(n & Hn & _)|Hn]; by apply not_elem_of_nil in Hn.
Qed.

End invariant.

(** ** A scheduler *)
Inductive choice :=
| DoRequest (m : NodeMsg)
| DoNode
| DoConv
| DoServer (ret : option nat)
| DoIncoming (address : bytes) (i : nat)
| DoEstablished (i : nat) (endpoint : bytes) (size : Z)
| DoEnded (i : nat) (failed : bool).

Section schedule.
Context `{!TCPCLServer.OpenSsl}.

(** [Url::parse] of the text that the server makes of a remote's address. *)
Definition tcpcl_url (text : bytes) : option Url :=
  Some {| url_text := text; url_scheme := str "tcpcl" |}.

Definition sys_exec (c : choice) (s : System) : option System :=
  match c with
  | DoRequest (MConnected _ _ _) | DoRequest (MDisconnected _) => None
  | DoRequest m =>
      Some {| nd := nd s; cv := cv s; sv := sv s; lsv := lsv s; live := live s;
              mn := mn s ++ [m]; mc := mc s; ms := ms s |}
  | DoNode =>
      match mn s with
      | m :: rest =>
          match node_handler m (nd s) with
          | Ok (_, nd', o) =>
              Some {| nd := nd'; cv := cv s; sv := sv s; lsv := lsv s; live := live s;
                      mn := rest; mc := mc s ++ omap node_to_conv o; ms := ms s |}
          | _ => None
          end
      | [] => None
      end
  | DoConv =>
      match mc s with
      | m :: rest =>
          match conv_handler m (cv s) with
          | Ok (_, cv', o) =>
              Some {| nd := nd s; cv := cv'; sv := sv s; lsv := lsv s; live := live s;
                      mn := mn s ++ omap conv_to_node o; mc := rest;
                      ms := ms s ++ omap conv_to_server o |}
          | _ => None
          end
      | [] => None
      end
  | DoServer ret =>
      match ms s with
      | SConnect u :: rest =>
          match TCPCLServer.ConnectRemote u ret (sv s) with
          | Ok (_, sv', o) =>
              match ret with
              | Some i =>
                  if decide (live s !! i = None) then
                    Some {| nd := nd s; cv := cv s; sv := sv'; lsv := lsv s;
                            live := <[i := fresh_session u]> (live s);
                            mn := mn s; mc := mc s ++ omap server_to_conv o; ms := rest |}
                  else None
              | None =>
                  Some {| nd := nd s; cv := cv s; sv := sv'; lsv := lsv s; live := live s;
                          mn := mn s; mc := mc s ++ omap server_to_conv o; ms := rest |}
              end
          | _ => None
          end
      | SDisconnect u :: rest =>
          match TCPCLServer.DisconnectRemote u (sv s) with
          | Ok (_, sv', o) =>
              Some {| nd := nd s; cv := cv s; sv := sv'; lsv := lsv s; live := live s;
                      mn := mn s; mc := mc s ++ omap server_to_conv o; ms := rest |}
          | _ => None
          end
      | [] => None
      end
  | DoIncoming address i =>
      if decide (live s !! i = None) then
        match TCPCLServer.NewClientConnectedOnSocket tcpcl_url address (Some i) (lsv s) with
        | Ok (_, sv', o) =>
            Some {| nd := nd s; cv := cv s; sv := sv s; lsv := sv';
                    live := <[i := fresh_session {| url_text := str "tcpcl://" ++ address;
                                                    url_scheme := str "tcpcl" |}]> (live s);
                    mn := mn s; mc := mc s ++ omap server_to_conv o; ms := ms s |}
        | _ => None
        end
      else None
  | DoEstablished i endpoint size =>
      match live s !! i with
      | Some x =>
          let info := {| TCPCLSessionAgent.peer_endpoint := Some endpoint;
                         TCPCLSessionAgent.peer_url := s_url x;
                         TCPCLSessionAgent.max_bundle_size := Some size |} in
          match TCPCLSessionAgent.HandleConnectionInfo info (s_agent x) with
          | Ok (_, a', o) =>
              Some {| nd := nd s; cv := cv s; sv := sv s; lsv := lsv s;
                      live := <[i := {| s_info := info; s_agent := a' |}]> (live s);
                      mn := mn s; mc := mc s ++ omap (agent_to_conv i) o; ms := ms s |}
          | _ => None
          end
      | None => None
      end
  | DoEnded i failed =>
      match live s !! i with
      | Some x =>
          match TCPCLSessionAgent.session_ended failed (s_info x) (s_agent x) with
          | Ok (_, a', o) =>
              Some {| nd := nd s; cv := cv s; sv := sv s; lsv := lsv s; live := delete i (live s);
                      mn := mn s; mc := mc s ++ omap (agent_to_conv i) o; ms := ms s |}
          | _ => None
          end
      | None => None
      end
  end.

Lemma sys_exec_sound c s s' : sys_exec c s = Some s' → sys_step s s'.
Proof.
  destruct c as [m| | |ret|addr i|i e z|i failed]; cbn [sys_exec].
  - destruct m; try done; intros [= <-]; by apply step_request.
  - destruct (mn s) as [|m rest] eqn:E; [done|]. destruct (node_handler _ _) as [[[[] nd'] o]|[]|] eqn:Eh; [|done].
    intros [= <-]. by apply step_node with m.
  - destruct (mc s) as [|m rest] eqn:E; [done|]. destruct (conv_handler _ _) as [[[[] cv'] o]|[]|] eqn:Eh; [|done].
    intros [= <-]. by apply step_conv with m.
  - destruct (ms s) as [|[u|u] rest] eqn:E; [done| |].
    + destruct (TCPCLServer.ConnectRemote _ _ _) as [[[[] sv'] o]|[]|] eqn:Eh; [|done].
      destruct ret as [i|]; [case_decide; [|done]|]; intros [= <-];
        [by eapply step_connect|by eapply step_connect_failed].
    + destruct (TCPCLServer.DisconnectRemote _ _) as [[[[] sv'] o]|[]|] eqn:Eh; [|done].
      intros [= <-]. by eapply step_disconnect.
  - case_decide as Ei; [|done].
    destruct (TCPCLServer.NewClientConnectedOnSocket tcpcl_url addr (Some i) (lsv s)) as [[[[] sv'] o]|[]|] eqn:Eh; [|done].
    intros [= <-]. by eapply (step_incoming _ tcpcl_url addr).
  - destruct (live s !! i) as [x|] eqn:E; [|done].
    destruct (TCPCLSessionAgent.HandleConnectionInfo _ _) as [[[[] a'] o]|[]|] eqn:Eh; [|done].
    intros [= <-]. by eapply step_established.
  - destruct (live s !! i) as [x|] eqn:E; [|done].
    destruct (TCPCLSessionAgent.session_ended _ _ _) as [[[[] a'] o]|[]|] eqn:Eh; [|done].
    intros [= <-]. by eapply step_ended.
Qed.

Fixpoint sys_run (l : list choice) (s : System) : option System :=
  match l with
  | [] => Some s
  | c :: l => s' ← sys_exec c s; sys_run l s'
  end.

Lemma sys_run_reachable l s s' : sys_reachable s → sys_run l s = Some s' → sys_reachable s'.
Proof.
  revert s. induction l as [|c l IH]; intros s Hr; simpl; [by intros [= <-]|].
  destruct (sys_exec c s) as [s1|] eqn:E; [|done]. simpl. apply IH.
  eapply reach_step; [done|]. by apply sys_exec_sound with c.
Qed.
End schedule.

(** ** Examples *)

#[export] Instance Node_eq_dec : EqDecision Node.
Proof. solve_decision. Defined.

Section examples.
Context `{!TCPCLServer.OpenSsl}.

(** A decidable property of the state that a schedule ends in. *)
Definition run_ends (P : System → Prop) `{!∀ s, Decision (P s)} (l : list choice) : bool :=
  match sys_run l sys_start with Some s => bool_decide (P s) | None => false end.

Lemma run_ends_reachable (P : System → Prop) `{!∀ s, Decision (P s)} l :
  run_ends P l = true → ∃ s, sys_run l sys_start = Some s ∧ sys_reachable s ∧ P s.
Proof.
  unfold run_ends. destruct (sys_run l sys_start) as [s|] eqn:E; [|done].
  intros HP%bool_decide_eq_true. exists s. split_and!; [done| |done].
  by eapply sys_run_reachable; [constructor|].
Qed.

Definition peer : Url := {| url_text := str "tcpcl://10.0.0.2:4556"; url_scheme := str "tcpcl" |}.
Definition web : Url := {| url_text := str "http://10.0.0.2"; url_scheme := str "http" |}.
Definition caller : Url := {| url_text := str "tcpcl://10.0.0.2:4000"; url_scheme := str "tcpcl" |}.

Definition connect_peer : list choice :=
  [DoRequest (MAddNode peer); DoNode; DoConv; DoServer (Some 0%nat)].
Definition establish : list choice := [DoEstablished 0 (str "dtn://b/") 1000; DoConv; DoNode].

(** A node whose session ended, and that is removed before it is connected again,
    is never forgotten: the server still knows the ended session and tells only it. *)
Example removed_node_stays :
  ∃ s, sys_reachable s ∧ (mn s = [] ∧ mc s = [] ∧ ms s = []) ∧ live s = ∅ ∧
    nodes (nd s) = [{| url := peer; connection_status := Disconnecting; remote_endpoint := None;
                       temporary := true |}].
Proof.
  destruct (run_ends_reachable (λ s, (mn s = [] ∧ mc s = [] ∧ ms s = []) ∧ live s = ∅ ∧
    nodes (nd s) = [{| url := peer; connection_status := Disconnecting; remote_endpoint := None;
                       temporary := true |}])
    (connect_peer ++ establish ++ [DoEnded 0 false; DoConv; DoNode; DoRequest (MRemoveNode peer);
      DoNode; DoConv; DoServer None])) as (s & _ & Hs); [vm_compute; reflexivity|by exists s].
Qed.

(** A node that connected to us and that is removed is forgotten while its session
    lives: the instance of the server that is asked does not know the session, so
    its peer is still registered with the convergence agent. *)
Example removed_incoming_node_lives :
  ∃ s, sys_reachable s ∧ (mn s = [] ∧ mc s = [] ∧ ms s = []) ∧ nodes (nd s) = [] ∧
    (s_url <$> live s !! 0%nat) = Some caller ∧
    (Endpoint.new (str "dtn://b/") ≫= λ e, ConvergenceAgent.connected_nodes (cv s) !! e) = Some 0%nat.
Proof.
  destruct (run_ends_reachable (λ s, (mn s = [] ∧ mc s = [] ∧ ms s = []) ∧ nodes (nd s) = [] ∧
    (s_url <$> live s !! 0%nat) = Some caller ∧
    (Endpoint.new (str "dtn://b/") ≫= λ e, ConvergenceAgent.connected_nodes (cv s) !! e) = Some 0%nat)
    (DoIncoming (str "10.0.0.2:4000") 0 :: establish ++
      [DoRequest (MRemoveNode caller); DoNode; DoConv; DoServer None; DoConv; DoNode]))
    as (s & _ & Hs); [vm_compute; reflexivity|by exists s].
Qed.

(** A node with another scheme is shown as connecting forever. *)
Example unknown_scheme_stays_connecting :
  ∃ s, sys_reachable s ∧ (mn s = [] ∧ mc s = [] ∧ ms s = []) ∧ live s = ∅ ∧
    nodes (nd s) = [{| url := web; connection_status := Connecting; remote_endpoint := None;
                       temporary := false |}].
Proof.
  destruct (run_ends_reachable (λ s, (mn s = [] ∧ mc s = [] ∧ ms s = []) ∧ live s = ∅ ∧
    nodes (nd s) = [{| url := web; connection_status := Connecting; remote_endpoint := None;
                       temporary := false |}])
    [DoRequest (MAddNode web); DoNode; DoConv]) as (s & _ & Hs); [vm_compute; reflexivity|by exists s].
Qed.
End examples.

#[local] Instance no_openssl : TCPCLServer.OpenSsl := {|
  TCPCLServer.X509 := (); TCPCLServer.PKey := (); TCPCLServer.SslIoError := ();
  TCPCLServer.read_file _ := inl (); TCPCLServer.x509_from_pem _ := inl ();
  TCPCLServer.x509_from_der _ := inl (); TCPCLServer.private_key_from_pem _ := inl ();
  TCPCLServer.private_key_from_der _ := inl () |}.

Definition established_peer : System :=
  default sys_start (sys_run (connect_peer ++ establish) sys_start).

Lemma established_peer_spec :
  sys_reachable established_peer ∧ (url <$> nodes (nd established_peer)) = [peer] ∧
  Forall (λ n, connection_status n = Connected) (nodes (nd established_peer)).
Proof.
  destruct (run_ends_reachable (λ s, (url <$> nodes (nd s)) = [peer] ∧
    Forall (λ n, connection_status n = Connected) (nodes (nd s))) (connect_peer ++ establish))
    as (s & Hs & Hr & H1 & H2); [vm_compute; reflexivity|].
  unfold established_peer. rewrite Hs. done.
Qed.

