(* ===== verification/RocksDb.v ===== *)
(** * The interface of the database, and input/output with errors

    replistore keeps its state in a [rocksdb::TransactionDB], which is not part
    of the repository.  The class [RocksDB] has the operations that are used;
    each may fail with an error of the database.  [RocksDBLaws] is their
    documented meaning: a successful operation reads or changes the contents, a
    map from byte strings to byte strings; the writes of a transaction take
    effect together at its commit, and reads outside of it do not see them; the
    iterator over a prefix range gives the entries whose key has the prefix.
    [RocksDBWorks] says that no operation fails.  A database in memory
    implements all of them. *)
From S2P Require Import Prelude RustStr.

Inductive write := Put (k v : bytes) | Del (k : bytes).

Definition apply_write (m : gmap bytes bytes) (w : write) : gmap bytes bytes :=
  match w with Put k v => <[k := v]> m | Del k => delete k m end.

Class RocksDB := {
  DB : Type;
  Txn : Type;
  DbError : Type;
  db_get : DB → bytes → DbError + option bytes;
  db_put : DB → bytes → bytes → DbError + DB;
  db_transaction : DB → Txn;
  txn_put : Txn → bytes → bytes → DbError + Txn;
  txn_delete : Txn → bytes → DbError + Txn;
  txn_commit : DB → Txn → DbError + DB;
  db_prefix_iterator : DB → bytes → list (DbError + (bytes * bytes));
  db_contents : DB → gmap bytes bytes;
  txn_writes : Txn → list write;
}.

(** The entries of a map whose key starts with [p]. *)
Definition with_prefix (p : bytes) (m : gmap bytes bytes) : gmap bytes bytes :=
  filter (λ e, starts_with p e.1 = true) m.

Class RocksDBLaws `{!RocksDB} : Prop := {
  db_get_spec d k r : db_get d k = inr r → r = db_contents d !! k;
  db_put_spec d k v d' : db_put d k v = inr d' → db_contents d' = <[k := v]> (db_contents d);
  db_transaction_spec d : txn_writes (db_transaction d) = [];
  txn_put_spec t k v t' : txn_put t k v = inr t' → txn_writes t' = txn_writes t ++ [Put k v];
  txn_delete_spec t k t' : txn_delete t k = inr t' → txn_writes t' = txn_writes t ++ [Del k];
  txn_commit_spec d t d' :
    txn_commit d t = inr d' → db_contents d' = foldl apply_write (db_contents d) (txn_writes t);
  db_prefix_iterator_spec d p l :
    db_prefix_iterator d p = map inr l → l ≡ₚ map_to_list (with_prefix p (db_contents d));
}.

Class RocksDBWorks `{!RocksDB} : Prop := {
  db_get_works d k : ∃ r, db_get d k = inr r;
  db_put_works d k v : ∃ d', db_put d k v = inr d';
  txn_put_works t k v : ∃ t', txn_put t k v = inr t';
  txn_delete_works t k : ∃ t', txn_delete t k = inr t';
  txn_commit_works d t : ∃ d', txn_commit d t = inr d';
  db_prefix_iterator_works d p : ∃ l, db_prefix_iterator d p = map inr l;
}.

(** A database in memory. *)
Module MemoryDb.
#[export] Instance memory : RocksDB := {|
  DB := gmap bytes bytes;
  Txn := list write;
  DbError := Empty_set;
  db_get d k := inr (d !! k);
  db_put d k v := inr (<[k := v]> d);
  db_transaction _ := [];
  txn_put t k v := inr (t ++ [Put k v]);
  txn_delete t k := inr (t ++ [Del k]);
  txn_commit d t := inr (foldl apply_write d t);
  db_prefix_iterator d p := map inr (map_to_list (with_prefix p d));
  db_contents d := d;
  txn_writes t := t;
|}.

#[export] Instance memory_laws : RocksDBLaws.
Proof. split; simpl; intros; by simplify_eq. Qed.

#[export] Instance memory_works : RocksDBWorks.
Proof. split; simpl; intros; by eexists. Qed.
End MemoryDb.

(** ** Computations on a world that stays when they fail

    An asynchronous handler of replistore changes the database and the disk step
    by step; what it did before an error stays done. *)
Definition io (W E A : Type) : Type := W → outcome E A * W.

Section io.
Context {W : Type}.

#[global] Instance io_ret {E} : MRet (io W E) := fun A a w => (Ok a, w).
#[global] Instance io_bind {E} : MBind (io W E) := fun A B f m w =>
  match m w with
  | (Ok a, w) => f a w
  | (Err e, w) => (Err e, w)
  | (Panic, w) => (Panic, w)
  end.

Definition io_get {E} : io W E W := λ w, (Ok w, w).
Definition io_set {E} (w : W) : io W E () := λ _, (Ok (), w).
Definition io_lift {E A} (r : outcome E A) : io W E A := λ w, (r, w).
(** [?] with the conversion of the error. *)
Definition io_err {E F A} (f : E → F) (m : io W E A) : io W F A := λ w,
  let '(r, w) := m w in (map_err f r, w).

(** [for x in l { body }]. *)
Fixpoint io_for {E A} (body : A → io W E ()) (l : list A) : io W E () :=
  match l with
  | [] => mret ()
  | x :: l => body x;; io_for body l
  end.

Lemma io_bind_Ok {E A B} (m : io W E A) (f : A → io W E B) w a w1 :
  m w = (Ok a, w1) → (m ≫= f) w = f a w1.
Proof. intros H. unfold mbind, io_bind. by rewrite H. Qed.

Lemma io_bind_Err {E A B} (m : io W E A) (f : A → io W E B) w e w1 :
  m w = (Err e, w1) → (m ≫= f) w = (Err e, w1).
Proof. intros H. unfold mbind, io_bind. by rewrite H. Qed.

Lemma io_bind_get {E B} (f : W → io W E B) w : (io_get ≫= f) w = f w w.
Proof. done. Qed.
Lemma io_bind_set {E B} w' (f : () → io W E B) w : (io_set w' ≫= f) w = f () w'.
Proof. done. Qed.
Lemma io_bind_mret {E A B} (a : A) (f : A → io W E B) w :
  ((mret a : io W E A) ≫= f) w = f a w.
Proof. done. Qed.
Lemma io_bind_lift {E A B} (a : A) (f : A → io W E B) w : (io_lift (Ok a) ≫= f) w = f a w.
Proof. done. Qed.
Lemma io_bind_assoc {E A B C} (m : io W E A) (f : A → io W E B) (g : B → io W E C) w :
  ((m ≫= f) ≫= g) w = (m ≫= λ a, f a ≫= g) w.
Proof. unfold mbind, io_bind. by destruct (m w) as [[a|e|] w1]. Qed.
Lemma io_bind_inv {E A B} (m : io W E A) (f : A → io W E B) w b w' :
  (m ≫= f) w = (Ok b, w') → ∃ a w1, m w = (Ok a, w1) ∧ f a w1 = (Ok b, w').
Proof. unfold mbind, io_bind. destruct (m w) as [[a|e|] w1]; naive_solver. Qed.

(** A step either gives a value to the rest or ends the computation. *)
Lemma io_bind_cases {E A B} (m : io W E A) (f : A → io W E B) w r w' :
  (m ≫= f) w = (r, w') →
  (∃ a w1, m w = (Ok a, w1) ∧ f a w1 = (r, w')) ∨ (m w).2 = w' ∧ (∀ b, r ≠ Ok b).
Proof. unfold mbind, io_bind. destruct (m w) as [[a|e|] w1]; naive_solver. Qed.
End io.

(** [iorun] computes the steps of a handler whose results are known. *)
Ltac iorun :=
  repeat first
    [ rewrite io_bind_get | rewrite io_bind_set | rewrite io_bind_mret | rewrite io_bind_lift
    | rewrite io_bind_assoc | progress cbn [unwrap unwrap_ok assert map_err] ].
