(* ===== verification/KeyValue.v ===== *)
(** * The key-value store of replistore (replistore/src/stores)

    A [KeyValueStore] actor is its name; all of them share one database.  A key
    is a list of strings, stored under the path that joins the name of the store
    and the strings with NUL bytes.  Every change also increments the version
    kept under [version_path].  [StoreOwner] hands out the actors and remembers
    the type of every store in the database. *)
From S2P Require Import Prelude RustStr RocksDb Routing.

Abbreviation key := (list bytes) (only parsing).

(** [slice.join("\0")]. *)
Fixpoint join (sep : bytes) (l : list bytes) : bytes :=
  match l with
  | [] => []
  | [s] => s
  | s :: l => s ++ sep ++ join sep l
  end.

(** [u64::to_le_bytes] and [u64::from_le_bytes]. *)
Definition to_le_bytes (z : Z) : bytes := rev (be_bytes 8 z).
Definition from_le_bytes (b : bytes) : Z := be_val (rev b).

Definition NUL : bytes := [0].

(** [StoreError] wraps the error of the database. *)
Record StoreError `{!RocksDB} := { rocks_error : DbError }.

Abbreviation kv := (io DB StoreError).

(** An operation of the database followed by [?]. *)
Definition db_op `{!RocksDB} {A} (r : DbError + A) : kv A :=
  io_lift (match r with inr a => Ok a | inl e => Err {| rocks_error := e |} end).

Module KeyValueStore.

Record KeyValueStore := { name : bytes }.

Section store.
Context `{!RocksDB}.

Definition get_path (self : KeyValueStore) (keys : key) : bytes :=
  NUL ++ str "store" ++ NUL ++ name self ++ NUL ++ join NUL keys.

(** [iter_range]: the iterator itself; an item is checked where it is used. *)
Definition iter_range (self : KeyValueStore) (p : bytes) (d : DB) : list (DbError + (bytes * bytes)) :=
  db_prefix_iterator d p.

(** The version is read from the database, not from the transaction. *)
Definition bump_version (self : KeyValueStore) (version_path : key) (txn : Txn) : kv (Z * Txn) :=
  d ← io_get;
  old ← db_op (db_get d (get_path self version_path));
  ver ← io_lift match old with
                | Some e => assert (bool_decide (length e = 8%nat));; Ok (from_le_bytes e)
                | None => Ok 0
                end;
  let ver := wrap64 (ver + 1) in
  txn ← db_op (txn_put txn (get_path self version_path) (to_le_bytes ver));
  mret (ver, txn).

Definition commit (txn : Txn) : kv () :=
  d ← io_get;
  d ← db_op (txn_commit d txn);
  io_set d.

Definition from_utf8 (b : bytes) : kv bytes := io_lift (if utf8_valid b then Ok b else Panic).

Definition Get (self : KeyValueStore) (k : key) : kv (option bytes) :=
  d ← io_get;
  r ← db_op (db_get d (get_path self k));
  match r with
  | Some e => s ← from_utf8 e; mret (Some s)
  | None => mret None
  end.

Definition Set_ (self : KeyValueStore) (version_path k : key) (value : bytes) : kv Z :=
  d ← io_get;
  txn ← db_op (txn_put (db_transaction d) (get_path self k) value);
  '(ver, txn) ← bump_version self version_path txn;
  commit txn;;
  mret ver.

(** The puts of a drained hash map, in its order. *)
Fixpoint put_all (self : KeyValueStore) (l : list (key * bytes)) (txn : Txn) : kv Txn :=
  match l with
  | [] => mret txn
  | (k, v) :: l => txn ← db_op (txn_put txn (get_path self k) v); put_all self l txn
  end.

Definition MultiSet `{!HashOrder} (self : KeyValueStore) (version_path : key)
    (data : gmap key bytes) : kv Z :=
  d ← io_get;
  txn ← put_all self (order (map_to_list data)) (db_transaction d);
  '(ver, txn) ← bump_version self version_path txn;
  commit txn;;
  mret ver.

Definition Delete (self : KeyValueStore) (version_path k : key) : kv Z :=
  d ← io_get;
  txn ← db_op (txn_delete (db_transaction d) (get_path self k));
  '(ver, txn) ← bump_version self version_path txn;
  commit txn;;
  mret ver.

(** [for found in self.iter_range(path) { txn.delete(found?.0)?; }]. *)
Fixpoint delete_found (l : list (DbError + (bytes * bytes))) (txn : Txn) : kv Txn :=
  match l with
  | [] => mret txn
  | found :: l =>
      found ← db_op found;
      txn ← db_op (txn_delete txn found.1);
      delete_found l txn
  end.

Fixpoint delete_ranges (self : KeyValueStore) (keys : list key) (txn : Txn) : kv Txn :=
  match keys with
  | [] => mret txn
  | k :: keys =>
      d ← io_get;
      txn ← delete_found (iter_range self (get_path self k) d) txn;
      delete_ranges self keys txn
  end.

Definition MultiDelete (self : KeyValueStore) (version_path : key) (data : list key) : kv Z :=
  d ← io_get;
  txn ← delete_ranges self data (db_transaction d);
  '(ver, txn) ← bump_version self version_path txn;
  commit txn;;
  mret ver.

(** The [try_fold] of [List]: the rest of each key and its value. *)
Fixpoint list_found (n : nat) (l : list (DbError + (bytes * bytes))) (map : gmap bytes bytes)
    : kv (gmap bytes bytes) :=
  match l with
  | [] => mret map
  | e :: l =>
      e ← db_op e;
      keystring ← from_utf8 (drop n e.1);
      value ← from_utf8 e.2;
      list_found n l (<[keystring := value]> map)
  end.

Definition List_ (self : KeyValueStore) (prefix : key) : kv (gmap bytes bytes) :=
  d ← io_get;
  let path := get_path self prefix in
  list_found (length path) (iter_range self path d) ∅.
End store.
End KeyValueStore.

(** ** The owner of the stores *)
Module StoreOwner.

Inductive StoreType := ContentAddressableBlob | KeyValue.

#[export] Instance StoreType_eq_dec : EqDecision StoreType.
Proof. solve_decision. Defined.

Definition as_bytes (t : StoreType) : bytes :=
  match t with
  | ContentAddressableBlob => str "ContentAddressableBlob"
  | KeyValue => str "KeyValue"
  end.

(** The actors it has started, by name; the blob stores with their directory. *)
Record StoreOwner := {
  kv_stores : gmap bytes KeyValueStore.KeyValueStore;
  blob_stores : gmap bytes bytes;
}.

Definition StoreOwner_new : StoreOwner := {| kv_stores := ∅; blob_stores := ∅ |}.

Inductive GetOrCreateError `{!RocksDB} :=
| StoreTypeMissmatch (wanted found : bytes)
| GetStoreError (e : StoreError).

Definition type_key (name : bytes) : bytes := NUL ++ str "type" ++ NUL ++ name.

Section owner.
Context `{!RocksDB}.

Abbreviation owner := (io (StoreOwner * DB) GetOrCreateError).

Definition db_owner {A} (r : DbError + A) : owner A :=
  io_lift (match r with
           | inr a => Ok a
           | inl e => Err (GetStoreError {| rocks_error := e |})
           end).

Definition check_or_create_store_type (name : bytes) (store_type : StoreType) : owner (option ()) :=
  '(_, d) ← io_get;
  entry ← db_owner (db_get d (type_key name));
  match entry with
  | Some entry =>
      if bool_decide (entry = as_bytes store_type) then mret (Some ())
      else
        found ← io_lift (if utf8_valid entry then Ok entry else Panic);
        io_lift (Err (StoreTypeMissmatch (as_bytes store_type) found))
  | None =>
      d ← db_owner (db_put d (type_key name) (as_bytes store_type));
      '(o, _) ← io_get;
      io_set (o, d);;
      mret (Some ())
  end.

Definition GetOrCreateKeyValueStore (name : bytes) : owner KeyValueStore.KeyValueStore :=
  check_or_create_store_type name KeyValue;;
  '(o, d) ← io_get;
  match kv_stores o !! name with
  | Some addr => mret addr
  | None =>
      let s := {| KeyValueStore.name := name |} in
      io_set ({| kv_stores := <[name := s]> (kv_stores o); blob_stores := blob_stores o |}, d);;
      mret s
  end.

Definition GetOrCreateContentAddressableBlobStore (name path : bytes) : owner bytes :=
  check_or_create_store_type name ContentAddressableBlob;;
  '(o, d) ← io_get;
  match blob_stores o !! name with
  | Some addr => mret addr
  | None =>
      io_set ({| kv_stores := kv_stores o; blob_stores := <[name := path]> (blob_stores o) |}, d);;
      mret path
  end.
End owner.
End StoreOwner.
