(* ===== verification/KeyValueSpec.v ===== *)
(** * What the key-value store promises

    The abstract store is a map from keys (lists of strings) to values, which
    are texts or versions.  [KvSpec.run] says what every message does to it.  The
    store implements it on the database: a path is cut at its NUL bytes, so that
    keys whose strings contain no NUL are kept apart, and a value is written as
    its bytes.  A failed command changes nothing. *)
From S2P Require Import Prelude RustStr RocksDb Routing KeyValue.
Import KeyValueStore.

(** ** Paths *)

(** Cutting a byte string at its NUL bytes. *)
Fixpoint split_nul (s : bytes) : list bytes :=
  match s with
  | [] => [[]]
  | b :: s =>
      if decide (b = 0) then [] :: split_nul s
      else match split_nul s with
           | [] => [[b]]
           | c :: l => (b :: c) :: l
           end
  end.

Definition key_ok (k : key) : Prop :=
  k ≠ [] ∧ Forall (λ s, (0 ∉ s) ∧ utf8_valid s = true) k.

Lemma split_nul_no_nul s : 0 ∉ s → split_nul s = [s].
Proof.
  induction s as [|b s IH]; intros H; simpl; [done|]. rewrite not_elem_of_cons in H.
  rewrite decide_False by naive_solver. rewrite IH by tauto. done.
Qed.

Lemma split_nul_not_nil s : split_nul s ≠ [].
Proof. destruct s; simpl; repeat case_match; done. Qed.

Lemma split_nul_app a s : split_nul (a ++ 0 :: s) = split_nul a ++ split_nul s.
Proof.
  induction a as [|b a IH]; simpl; [done|]. rewrite IH.
  case_decide; [done|]. pose proof (split_nul_not_nil a). by destruct (split_nul a).
Qed.

Lemma split_nul_cons a s : 0 ∉ a → split_nul (a ++ 0 :: s) = a :: split_nul s.
Proof. intros H. by rewrite split_nul_app, split_nul_no_nul. Qed.

Lemma split_nul_join k : key_ok k → split_nul (join NUL k) = k.
Proof.
  intros [Hne Hk]. induction Hk as [|a k [Ha _] Hk IH]; [done|].
  destruct k as [|b k]; [by apply split_nul_no_nul|].
  change (join NUL (a :: b :: k)) with (a ++ NUL ++ join NUL (b :: k)).
  change (NUL ++ join NUL (b :: k)) with (0 :: join NUL (b :: k)).
  rewrite split_nul_cons by done. by rewrite IH.
Qed.

Lemma join_split_nul s : join NUL (split_nul s) = s.
Proof.
  induction s as [|b s IH]; [done|]. simpl. pose proof (split_nul_not_nil s).
  case_decide as Hb; [subst b|]; destruct (split_nul s) as [|c [|c' l]]; simpl in *; congruence.
Qed.

Lemma split_nul_inj s s' : split_nul s = split_nul s' → s = s'.
Proof. intros H. by rewrite <-(join_split_nul s), H, join_split_nul. Qed.

Lemma join_inj k k' : key_ok k → key_ok k' → join NUL k = join NUL k' → k = k'.
Proof. intros H H' E. by rewrite <-(split_nul_join k), E, split_nul_join. Qed.

Lemma utf8_join k : Forall (λ s, (0 ∉ s) ∧ utf8_valid s = true) k → utf8_valid (join NUL k) = true.
Proof.
  induction 1 as [|a k [_ Ha] _ IH]; [done|]. destruct k as [|b k]; [done|].
  change (join NUL (a :: b :: k)) with (a ++ NUL ++ join NUL (b :: k)).
  by rewrite !utf8_valid_app.
Qed.

(** ** The abstract store *)
Module KvSpec.

Inductive Value := Text (s : bytes) | Version (n : Z).

Abbreviation state := (gmap key Value) (only parsing).

Inductive Command :=
| CGet (k : key)
| CSet (version_path k : key) (value : bytes)
| CMultiSet (version_path : key) (data : gmap key bytes)
| CDelete (version_path k : key)
| CMultiDelete (version_path : key) (data : list key)
| CList (prefix : key).

Inductive Answer :=
| AValue (v : option bytes)
| AVersion (n : Z)
| AMap (m : gmap bytes bytes).

(** [p] covers [k] when the path of [k] begins with the path of [p]: the last
    string of [p] need not be a whole string of [k]. *)
Definition covers (p k : key) : bool := starts_with (join NUL p) (join NUL k).

Definition next_version (vp : key) (s : state) : Z :=
  match s !! vp with Some (Version n) => wrap64 (n + 1) | _ => 1 end.

Definition text (v : Value) : bytes := match v with Text s => s | Version _ => [] end.

Definition changed (vp : key) (s s' : state) : Answer * state :=
  (AVersion (next_version vp s), <[vp := Version (next_version vp s)]> s').

Definition run (c : Command) (s : state) : Answer * state :=
  match c with
  | CGet k => (AValue (text <$> s !! k), s)
  | CSet vp k v => changed vp s (<[k := Text v]> s)
  | CMultiSet vp data => changed vp s ((Text <$> data) ∪ s)
  | CDelete vp k => changed vp s (delete k s)
  | CMultiDelete vp ps =>
      changed vp s (filter (λ e, existsb (λ p, covers p e.1) ps = false) s)
  | CList p =>
      (AMap (list_to_map (map (λ e, (drop (length (join NUL p)) (join NUL e.1), text e.2))
         (map_to_list (filter (λ e, covers p e.1 = true) s)))), s)
  end.

Definition is_version (o : option Value) : Prop := ∃ n, o = Some (Version n).
Definition is_text (o : option Value) : Prop := ∃ t, o = Some (Text t).

(** What the callers keep to: well-formed strings, versions where versions
    belong, and texts where texts are read. *)
Definition command_ok (c : Command) (s : state) : Prop :=
  match c with
  | CGet k => key_ok k ∧ ¬ is_version (s !! k)
  | CSet vp k v => key_ok vp ∧ ¬ is_text (s !! vp) ∧ key_ok k ∧ utf8_valid v = true
  | CMultiSet vp data =>
      key_ok vp ∧ ¬ is_text (s !! vp) ∧ map_Forall (λ k v, key_ok k ∧ utf8_valid v = true) data
  | CDelete vp k => key_ok vp ∧ ¬ is_text (s !! vp) ∧ key_ok k
  | CMultiDelete vp ps => key_ok vp ∧ ¬ is_text (s !! vp) ∧ Forall key_ok ps
  | CList p => key_ok p ∧ ∀ k, covers p k = true → ¬ is_version (s !! k)
  end.
End KvSpec.
Import KvSpec.

Definition exec `{!RocksDB, !HashOrder} (st : KeyValueStore) (c : Command) : io DB StoreError Answer :=
  match c with
  | CGet k => v ← Get st k; mret (AValue v)
  | CSet vp k v => n ← Set_ st vp k v; mret (AVersion n)
  | CMultiSet vp data => n ← MultiSet st vp data; mret (AVersion n)
  | CDelete vp k => n ← Delete st vp k; mret (AVersion n)
  | CMultiDelete vp ps => n ← MultiDelete st vp ps; mret (AVersion n)
  | CList p => m ← List_ st p; mret (AMap m)
  end.

(** ** The abstraction relation *)

Definition encode (v : Value) : bytes :=
  match v with Text s => s | Version n => to_le_bytes n end.

Definition value_ok (v : Value) : Prop :=
  match v with Text s => utf8_valid s = true | Version n => u64_ok n end.

Definition store_prefix (st : KeyValueStore) : bytes :=
  NUL ++ str "store" ++ NUL ++ name st ++ NUL.

Arguments store_prefix : simpl never.
Arguments get_path : simpl never.
Arguments NUL : simpl never.

Record rep (st : KeyValueStore) (m : gmap bytes bytes) (s : state) : Prop := {
  rep_lookup : ∀ x, m !! (store_prefix st ++ x) = encode <$> s !! split_nul x;
  rep_ok : map_Forall (λ k v, key_ok k ∧ value_ok v) s;
}.

Definition represents `{!RocksDB} (st : KeyValueStore) (d : DB) (s : state) : Prop :=
  rep st (db_contents d) s.

Lemma get_path_prefix st k : get_path st k = store_prefix st ++ join NUL k.
Proof. unfold get_path, store_prefix. by rewrite <-!app_assoc. Qed.

Lemma get_path_inj st k k' : key_ok k → key_ok k' → get_path st k = get_path st k' → k = k'.
Proof. intros H H'. rewrite !get_path_prefix. intros ?%app_inv_head. by apply join_inj. Qed.

(** Inserting the entries of a list one by one. *)
Lemma foldl_insert_union `{Countable K} {A B C} (f : A → K) (g : B → C) (l : list (A * B))
    (m : gmap K C) :
  foldl (λ m e, <[f e.1 := g e.2]> m) m l
    = list_to_map (rev (map (λ e, (f e.1, g e.2)) l)) ∪ m.
Proof.
  revert m. induction l as [|[a b] l IH]; intros m; simpl; [by rewrite map_empty_union|].
  rewrite IH, list_to_map_app. simpl. rewrite insert_empty, <-(map_union_assoc _ {[_ := _]}).
  by rewrite <-insert_union_singleton_l.
Qed.

Lemma foldl_insert_NoDup `{Countable K} {A B C} (f : A → K) (g : B → C) (l : list (A * B))
    (m : gmap K C) k c :
  NoDup (map (λ e, f e.1) l) → m !! k = None →
  foldl (λ m e, <[f e.1 := g e.2]> m) m l !! k = Some c ↔
    ∃ a b, (a, b) ∈ l ∧ f a = k ∧ g b = c.
Proof.
  intros Hn Hm. rewrite foldl_insert_union, lookup_union, Hm, (right_id_L None (∪)).
  rewrite <-elem_of_list_to_map, <-Permutation_rev.
  - rewrite list_elem_of_fmap. split.
    + intros ([a b] & [= -> ->] & Hin). eauto.
    + intros (a & b & Hin & <- & <-). by exists (a, b).
  - rewrite map_rev, <-Permutation_rev, map_map. done.
Qed.

Section rep.
Implicit Types (m : gmap bytes bytes) (s : state).

Lemma rep_get st m s k : rep st m s → key_ok k → m !! get_path st k = encode <$> s !! k.
Proof. intros [Hl _] Hk. by rewrite get_path_prefix, Hl, split_nul_join. Qed.

Lemma rep_put st m s k v :
  rep st m s → key_ok k → value_ok v → rep st (<[get_path st k := encode v]> m) (<[k := v]> s).
Proof.
  intros [Hl Hok] Hk Hv. split; [|by apply map_Forall_insert_2].
  intros x. rewrite get_path_prefix. destruct (decide (split_nul x = k)) as [<-|Hne].
  - by rewrite join_split_nul, !lookup_insert_eq.
  - rewrite (lookup_insert_ne s) by done. rewrite lookup_insert_ne; [done|].
    intros ?%app_inv_head. apply Hne. subst x. by apply split_nul_join.
Qed.

Lemma rep_del st m s k : rep st m s → key_ok k → rep st (delete (get_path st k) m) (delete k s).
Proof.
  intros [Hl Hok] Hk. split; [|by apply map_Forall_delete].
  intros x. rewrite get_path_prefix. destruct (decide (split_nul x = k)) as [<-|Hne].
  - by rewrite join_split_nul, !lookup_delete_eq.
  - rewrite (lookup_delete_ne s) by done. rewrite lookup_delete_ne; [done|].
    intros ?%app_inv_head. apply Hne. subst x. by apply split_nul_join.
Qed.

Lemma rep_puts st m s (l : list (key * bytes)) :
  rep st m s → Forall (λ e, key_ok e.1 ∧ utf8_valid e.2 = true) l →
  rep st (foldl apply_write m (map (λ e, Put (get_path st e.1) e.2) l))
    (foldl (λ s e, <[e.1 := Text e.2]> s) s l).
Proof.
  intros Hr Hl. revert m s Hr. induction Hl as [|[k v] l [Hk Hv] _ IH]; intros m s Hr; [done|].
  simpl. apply IH. by apply (rep_put st m s k (Text v)).
Qed.

Lemma foldl_insert_map s (data : gmap key bytes) l :
  l ≡ₚ map_to_list data → foldl (λ s e, <[e.1 := Text e.2]> s) s l = (Text <$> data) ∪ s.
Proof.
  intros Hl. rewrite (foldl_insert_union (λ k, k) Text). f_equal.
  rewrite <-(list_to_map_to_list data), <-list_to_map_fmap. apply list_to_map_proper.
  - rewrite map_rev, <-Permutation_rev, map_map, Hl. apply NoDup_fst_map_to_list.
  - rewrite <-Permutation_rev. by apply Permutation_map.
Qed.

(** Deleting every path that is listed. *)
Lemma foldl_delete_lookup m (ps : list bytes) q :
  foldl apply_write m (map Del ps) !! q = if decide (q ∈ ps) then None else m !! q.
Proof.
  revert m. induction ps as [|p ps IH]; intros m; simpl; [done|]. rewrite IH.
  destruct (decide (q = p)) as [->|].
  - rewrite lookup_delete_eq. rewrite (decide_True (P := p ∈ p :: ps)) by left. by case_decide.
  - rewrite lookup_delete_ne by done.
    destruct (decide (q ∈ ps)); [rewrite decide_True by (by right)|rewrite decide_False]; set_solver.
Qed.

(** Whether a path begins with the path of [p] is whether [p] covers the key. *)
Lemma starts_with_get_path st p x :
  starts_with (get_path st p) (store_prefix st ++ x) = covers p (split_nul x).
Proof.
  unfold covers. rewrite join_split_nul, get_path_prefix. apply eq_true_iff_eq.
  rewrite !starts_with_split. setoid_rewrite <-(app_assoc (store_prefix st)).
  split; intros [r Hr]; exists r; [by apply app_inv_head in Hr|by rewrite Hr].
Qed.

(** Deleting the paths that begin with one of [ps]. *)
Lemma rep_delete_ranges st m s (ps : list key) (found : list bytes) :
  rep st m s →
  (∀ q, q ∈ found ↔ is_Some (m !! q) ∧ ∃ p, p ∈ ps ∧ starts_with (get_path st p) q = true) →
  rep st (foldl apply_write m (map Del found))
    (filter (λ e, existsb (λ p, covers p e.1) ps = false) s).
Proof.
  intros [Hl Hok] Hf. split.
  2:{ intros k v [Hk _]%map_lookup_filter_Some. by apply Hok. }
  intros x. rewrite foldl_delete_lookup.
  destruct (s !! split_nul x) as [v|] eqn:E.
  2:{ rewrite map_lookup_filter_None_2 by (by left). rewrite Hl, E. by case_decide. }
  destruct (existsb (λ p, covers p (split_nul x)) ps) eqn:Ec.
  - rewrite map_lookup_filter_None_2 by (right; intros; simplify_eq/=; congruence).
    rewrite decide_True; [done|].
    apply Hf. rewrite Hl, E. split; [by eexists|]. apply existsb_exists in Ec as (p & Hp & Hc).
    exists p. rewrite starts_with_get_path. split; [by apply list_elem_of_In|done].
  - rewrite (map_lookup_filter_Some_2 _ _ _ v) by done.
    rewrite decide_False; [by rewrite Hl, E|].
    intros (_ & p & Hp & Hs)%Hf. rewrite starts_with_get_path in Hs.
    assert (existsb (λ p, covers p (split_nul x)) ps = true); [|congruence].
    apply existsb_exists. exists p. split; [by apply list_elem_of_In|done].
Qed.
End rep.

(** ** Running the handlers *)
Section run.
Context {HR : RocksDB} {HL : RocksDBLaws} {HW : RocksDBWorks}.
Implicit Types (st : KeyValueStore) (d : DB) (txn : Txn).

Lemma db_op_inr {A} (a : A) (d : DB) : db_op (inr a) d = (Ok a, d).
Proof. done. Qed.

Lemma length_to_le n : length (to_le_bytes n) = 8%nat.
Proof. unfold to_le_bytes. by rewrite length_rev, length_be_bytes. Qed.

Lemma from_to_le n : u64_ok n → from_le_bytes (to_le_bytes n) = n.
Proof.
  intros Hn. unfold from_le_bytes, to_le_bytes. rewrite rev_involutive, be_val_bytes.
  apply Z.mod_small. unfold u64_ok in Hn. lia.
Qed.

Lemma next_version_ok (vp : key) (s : state) : u64_ok (next_version vp s).
Proof.
  unfold next_version. destruct (s !! vp) as [[]|]; try (unfold u64_ok; lia). apply wrap64_ok.
Qed.

Lemma get_run (d : DB) k : db_get d k = inr (db_contents d !! k).
Proof. destruct (db_get_works d k) as [r Hr]. by rewrite Hr, (db_get_spec d k r Hr). Qed.

(** The old version, as [bump_version] reads it. *)
Lemma read_version st (vp : key) (d : DB) (s : state) :
  represents st d s → key_ok vp → ¬ is_text (s !! vp) →
  ∃ n, match db_contents d !! get_path st vp with
       | Some e => assert (bool_decide (length e = 8%nat));; Ok (from_le_bytes e)
       | None => Ok 0
       end = Ok (E := StoreError) n ∧ wrap64 (n + 1) = next_version vp s.
Proof.
  intros Hr Hvp Hnt. rewrite (rep_get _ _ _ _ Hr Hvp). unfold next_version.
  destruct (s !! vp) as [[t|n]|] eqn:E; cbn [fmap option_fmap option_map encode].
  - destruct Hnt. by exists t.
  - rewrite bool_decide_eq_true_2 by apply length_to_le. ored. eexists. split; [done|].
    rewrite from_to_le; [done|]. destruct Hr as [_ Hok]. by destruct (Hok _ _ E).
  - eexists. split; [done|]. done.
Qed.

(** Every change ends like this: bump the version, commit. *)
Lemma bump_commit_run st (vp : key) txn (d : DB) (s : state) :
  represents st d s → key_ok vp → ¬ is_text (s !! vp) →
  ∃ d', ('(ver, txn) ← bump_version st vp txn; commit txn;; mret ver) d
      = (Ok (next_version vp s), d') ∧
    db_contents d' = <[get_path st vp := encode (Version (next_version vp s))]>
      (foldl apply_write (db_contents d) (txn_writes txn)).
Proof.
  intros Hr Hvp Hnt. destruct (read_version st vp d s Hr Hvp Hnt) as (n & Hn & Hw).
  unfold bump_version. iorun. rewrite get_run. rewrite (io_bind_Ok _ _ _ _ _ (db_op_inr _ _)).
  rewrite Hn. iorun. rewrite Hw.
  destruct (txn_put_works txn (get_path st vp) (to_le_bytes (next_version vp s))) as [t Ht].
  rewrite Ht, (io_bind_Ok _ _ _ _ _ (db_op_inr _ _)). iorun. unfold commit. iorun.
  destruct (txn_commit_works d t) as [d' Hd'].
  rewrite Hd', (io_bind_Ok _ _ _ _ _ (db_op_inr _ _)). iorun.
  exists d'. split; [done|].
  rewrite (txn_commit_spec _ _ _ Hd'), (txn_put_spec _ _ _ _ Ht), foldl_app. done.
Qed.

(** A change whose writes are [ws] and that makes [s'] of [s]. *)
Lemma change_refines st (vp : key) txn (d : DB) (s s' : state) :
  represents st d s → key_ok vp → ¬ is_text (s !! vp) →
  rep st (foldl apply_write (db_contents d) (txn_writes txn)) s' →
  ∃ d', ('(ver, txn) ← bump_version st vp txn; commit txn;; mret ver) d
      = (Ok (next_version vp s), d') ∧
    represents st d' (<[vp := Version (next_version vp s)]> s').
Proof.
  intros Hr Hvp Hnt Hs'. destruct (bump_commit_run st vp txn d s Hr Hvp Hnt) as (d' & Hd' & Hc).
  exists d'. split; [done|]. unfold represents. rewrite Hc. apply rep_put; [done..|].
  apply next_version_ok.
Qed.

Lemma finish_change st (vp : key) (m : io DB StoreError Z) txn (d : DB) (s s' : state) :
  m d = ('(ver, txn) ← bump_version st vp txn; commit txn;; mret ver) d →
  represents st d s → key_ok vp → ¬ is_text (s !! vp) →
  rep st (foldl apply_write (db_contents d) (txn_writes txn)) s' →
  ∃ d', (n ← m; mret (AVersion n)) d = (Ok (changed vp s s').1, d') ∧
    represents st d' (changed vp s s').2.
Proof.
  intros Hm Hr Hvp Hnt Hs'. destruct (change_refines st vp txn d s s') as (d' & Hd' & Hrep); [done..|].
  exists d'. split; [|done]. rewrite <-Hm in Hd'. by rewrite (io_bind_Ok _ _ _ _ _ Hd').
Qed.

Lemma put_all_run st (l : list (key * bytes)) txn (d : DB) :
  ∃ txn', put_all st l txn d = (Ok txn', d) ∧
    txn_writes txn' = txn_writes txn ++ map (λ e, Put (get_path st e.1) e.2) l.
Proof.
  revert txn. induction l as [|[k v] l IH]; intros txn; simpl.
  - exists txn. by rewrite app_nil_r.
  - destruct (txn_put_works txn (get_path st k) v) as [t Ht].
    rewrite Ht, (io_bind_Ok _ _ _ _ _ (db_op_inr _ _)).
    destruct (IH t) as (t' & -> & Hw). exists t'. split; [done|].
    by rewrite Hw, (txn_put_spec _ _ _ _ Ht), <-app_assoc.
Qed.

Lemma delete_found_run (l : list (bytes * bytes)) txn (d : DB) :
  ∃ txn', delete_found (map inr l) txn d = (Ok txn', d) ∧
    txn_writes txn' = txn_writes txn ++ map Del l.*1.
Proof.
  revert txn. induction l as [|[k v] l IH]; intros txn; simpl.
  - exists txn. by rewrite app_nil_r.
  - rewrite (io_bind_Ok _ _ _ _ _ (db_op_inr _ _)). simpl.
    destruct (txn_delete_works txn k) as [t Ht]. rewrite Ht, (io_bind_Ok _ _ _ _ _ (db_op_inr _ _)).
    destruct (IH t) as (t' & -> & Hw). exists t'. split; [done|].
    by rewrite Hw, (txn_delete_spec _ _ _ Ht), <-app_assoc.
Qed.

Lemma iter_range_run st p (d : DB) :
  ∃ l, iter_range st p d = map inr l ∧ l ≡ₚ map_to_list (with_prefix p (db_contents d)).
Proof.
  unfold iter_range. destruct (db_prefix_iterator_works d p) as [l Hl]. exists l.
  split; [done|]. by apply db_prefix_iterator_spec.
Qed.

Lemma with_prefix_lookup (p : bytes) (m : gmap bytes bytes) q v :
  with_prefix p m !! q = Some v ↔ m !! q = Some v ∧ starts_with p q = true.
Proof. unfold with_prefix. by rewrite map_lookup_filter_Some. Qed.

Lemma delete_ranges_run st (ps : list key) txn (d : DB) :
  ∃ txn' found, delete_ranges st ps txn d = (Ok txn', d) ∧
    txn_writes txn' = txn_writes txn ++ map Del found ∧
    ∀ q, q ∈ found ↔ is_Some (db_contents d !! q) ∧
      ∃ p, p ∈ ps ∧ starts_with (get_path st p) q = true.
Proof.
  revert txn. induction ps as [|p ps IH]; intros txn; simpl.
  - exists txn, []. rewrite app_nil_r. split_and!; [done..|]. set_solver.
  - iorun. destruct (iter_range_run st (get_path st p) d) as (l & -> & Hl).
    destruct (delete_found_run l txn d) as (t & Ht & Hw).
    rewrite (io_bind_Ok _ _ _ _ _ Ht). destruct (IH t) as (t' & found & -> & Hw' & Hf).
    exists t', (l.*1 ++ found). split_and!; [done|by rewrite Hw', Hw, map_app, app_assoc|].
    intros q. rewrite elem_of_app, Hf. setoid_rewrite elem_of_cons.
    assert (q ∈ l.*1 ↔ is_Some (db_contents d !! q) ∧ starts_with (get_path st p) q = true) as ->.
    { rewrite Hl, list_elem_of_fmap. split.
      - intros ([k v] & -> & Hin%elem_of_map_to_list%with_prefix_lookup). naive_solver.
      - intros [[v Hv] Hs]. exists (q, v). split; [done|].
        by apply elem_of_map_to_list, with_prefix_lookup. }
    naive_solver.
Qed.

Lemma list_found_run (n : nat) (l : list (bytes * bytes)) (acc : gmap bytes bytes) (d : DB) :
  Forall (λ e, utf8_valid (drop n e.1) = true ∧ utf8_valid e.2 = true) l →
  list_found n (map inr l) acc d
    = (Ok (foldl (λ m e, <[drop n e.1 := e.2]> m) acc l), d).
Proof.
  intros Hl. revert acc. induction Hl as [|[k v] l [Hk Hv] _ IH]; intros acc; simpl; [done|].
  rewrite (io_bind_Ok _ _ _ _ _ (db_op_inr _ _)). simpl in *. unfold from_utf8. rewrite Hk, Hv.
  iorun. apply IH.
Qed.

(** What the store lists are the entries under the prefix. *)
Lemma list_run st (p : key) d (s : state) :
  represents st d s → key_ok p → (∀ k, covers p k = true → ¬ is_version (s !! k)) →
  ∃ m, List_ st p d = (Ok m, d) ∧ (∀ y, m !! y = text <$> s !! split_nul (join NUL p ++ y)).
Proof.
  intros Hr Hp Hnv. unfold List_. iorun. set (path := get_path st p).
  destruct (iter_range_run st path d) as (l & -> & Hl).
  assert (Hin : ∀ q v, (q, v) ∈ l ↔ ∃ y, q = path ++ y ∧ db_contents d !! q = Some v).
  { intros q v. rewrite Hl, elem_of_map_to_list, with_prefix_lookup, starts_with_split. naive_solver. }
  assert (Hval : ∀ y, db_contents d !! (path ++ y) = encode <$> s !! split_nul (join NUL p ++ y)).
  { intros y. unfold path. rewrite get_path_prefix, <-app_assoc. apply Hr. }
  assert (Htext : ∀ y, encode <$> s !! split_nul (join NUL p ++ y)
                       = text <$> s !! split_nul (join NUL p ++ y)).
  { intros y. destruct (s !! _) as [[t|n]|] eqn:E; [done| |done].
    destruct (Hnv (split_nul (join NUL p ++ y))); [|by exists n].
    unfold covers. rewrite join_split_nul. apply starts_with_app. }
  eexists. split; [apply list_found_run|].
  - apply Forall_forall. intros [q v] Hq. apply Hin in Hq as (y & -> & Hv). simpl.
    rewrite drop_app_length. rewrite Hval in Hv.
    destruct (s !! split_nul (join NUL p ++ y)) as [w|] eqn:E; simplify_eq/=.
    destruct Hr as [_ Hok]. destruct (Hok _ _ E) as [[_ Hk] Hw]. apply utf8_join in Hk.
    rewrite join_split_nul, utf8_valid_app in Hk by (by apply utf8_join, Hp). split; [done|].
    specialize (Htext y). rewrite E in Htext. injection Htext as ->. by destruct w.
  - intros y. apply option_eq. intros v.
    rewrite (foldl_insert_NoDup (λ q, drop (length path) q) (λ v, v)); [|..|apply lookup_empty].
    + rewrite <-Htext, <-Hval. split.
      * intros (q & v' & (y' & -> & Hv)%Hin & <- & <-). by rewrite drop_app_length.
      * intros Hv. exists (path ++ y), v. rewrite drop_app_length. split_and!; [|done..].
        apply Hin. eauto.
    + apply NoDup_fmap_2_strong; [|rewrite Hl; apply NoDup_map_to_list].
      intros [q1 v1] [q2 v2] (y1 & -> & H1)%Hin (y2 & -> & H2)%Hin. simpl.
      rewrite !drop_app_length. naive_solver.
Qed.

(** What the specification lists, by name. *)
Lemma listed_lookup (p : key) (s : state) y :
  map_Forall (λ k v, key_ok k ∧ value_ok v) s →
  (list_to_map (map (λ e, (drop (length (join NUL p)) (join NUL e.1), text e.2))
     (map_to_list (filter (λ e, covers p e.1 = true) s))) : gmap bytes bytes) !! y
  = text <$> s !! split_nul (join NUL p ++ y).
Proof.
  intros Hok. set (l := map_to_list _).
  assert (Hin : ∀ k v, (k, v) ∈ l ↔ s !! k = Some v ∧ ∃ y, join NUL k = join NUL p ++ y).
  { intros k v. unfold l. rewrite elem_of_map_to_list, map_lookup_filter_Some. simpl.
    unfold covers. by rewrite starts_with_split. }
  apply option_eq. intros t. rewrite <-elem_of_list_to_map, list_elem_of_fmap.
  - split.
    + intros ([k v] & [= -> ->] & [Hk [y' Hy]]%Hin). rewrite Hy, drop_app_length, <-Hy.
      rewrite split_nul_join by apply (Hok _ _ Hk). by rewrite Hk.
    + intros (v & Hk & ->)%fmap_Some. exists (split_nul (join NUL p ++ y), v). simpl.
      rewrite join_split_nul, drop_app_length. split; [done|]. apply Hin. split; [done|].
      exists y. by rewrite join_split_nul.
  - rewrite map_map. apply NoDup_fmap_2_strong; [|apply NoDup_map_to_list].
    intros [k1 v1] [k2 v2] [H1 [y1 E1]]%Hin [H2 [y2 E2]]%Hin. simpl.
    rewrite E1, E2, !drop_app_length. intros ->.
    assert (k1 = k2) as ->; [|naive_solver].
    apply join_inj; [apply (Hok _ _ H1)|apply (Hok _ _ H2)|congruence].
Qed.

Lemma Get_run st (k : key) (d : DB) (s : state) :
  represents st d s → key_ok k → ¬ is_version (s !! k) → Get st k d = (Ok (text <$> s !! k), d).
Proof.
  intros Hr Hk Hnv. unfold Get. iorun.
  rewrite get_run, (io_bind_Ok _ _ _ _ _ (db_op_inr _ _)), (rep_get _ _ _ _ Hr Hk).
  destruct (s !! k) as [[t|n]|] eqn:E; [|destruct Hnv; by exists n|done]. simpl.
  destruct Hr as [_ Hok]. destruct (Hok _ _ E) as [_ Ht]. unfold from_utf8. simpl in Ht.
  by rewrite Ht.
Qed.

(** One message to one store. *)
Lemma exec_refines {HH : HashOrder} {HHL : HashOrderLaws} st (c : Command) (d : DB) (s : state) :
  represents st d s → command_ok c s →
  ∃ d', exec st c d = (Ok (run c s).1, d') ∧ represents st d' (run c s).2.
Proof.
  intros Hr Hc.
  destruct c as [k|vp k v|vp data|vp k|vp ps|p]; cbn [exec run command_ok] in *.
  - destruct Hc as [Hk Hnv]. exists d. split; [|done].
    by rewrite (io_bind_Ok _ _ _ _ _ (Get_run st k d s Hr Hk Hnv)).
  - destruct Hc as (Hvp & Hnt & Hk & Hv).
    destruct (txn_put_works (db_transaction d) (get_path st k) v) as [t Ht].
    apply (finish_change st vp _ t); [|done..|].
    + unfold Set_. iorun. by rewrite Ht, (io_bind_Ok _ _ _ _ _ (db_op_inr _ _)).
    + rewrite (txn_put_spec _ _ _ _ Ht), db_transaction_spec. by apply (rep_put st _ s k (Text v)).
  - destruct Hc as (Hvp & Hnt & Hd).
    destruct (put_all_run st (order (map_to_list data)) (db_transaction d) d) as (t & Ht & Hw).
    apply (finish_change st vp _ t); [|done..|].
    + unfold MultiSet. iorun. by rewrite (io_bind_Ok _ _ _ _ _ Ht).
    + rewrite Hw, db_transaction_spec, <-(foldl_insert_map s data _ (order_perm _ _)).
      apply rep_puts; [done|]. rewrite order_perm.
      apply Forall_forall. intros [k v] Hkv%elem_of_map_to_list. by apply (Hd k v).
  - destruct Hc as (Hvp & Hnt & Hk).
    destruct (txn_delete_works (db_transaction d) (get_path st k)) as [t Ht].
    apply (finish_change st vp _ t); [|done..|].
    + unfold Delete. iorun. by rewrite Ht, (io_bind_Ok _ _ _ _ _ (db_op_inr _ _)).
    + rewrite (txn_delete_spec _ _ _ Ht), db_transaction_spec. by apply (rep_del st _ s k).
  - destruct Hc as (Hvp & Hnt & Hps).
    destruct (delete_ranges_run st ps (db_transaction d) d) as (t & found & Ht & Hw & Hf).
    apply (finish_change st vp _ t); [|done..|].
    + unfold MultiDelete. iorun. by rewrite (io_bind_Ok _ _ _ _ _ Ht).
    + rewrite Hw, db_transaction_spec. by apply rep_delete_ranges.
  - destruct Hc as [Hp Hnv]. destruct (list_run st p d s Hr Hp Hnv) as (m & Hm & Hl).
    exists d. split; [|done]. rewrite (io_bind_Ok _ _ _ _ _ Hm).
    unfold mret, io_ret. cbn [fst]. do 3 f_equal.
    apply map_eq. intros y. rewrite Hl. symmetry. apply listed_lookup, Hr.
Qed.
End run.

(** ** Failing commands *)
Create HintDb kv_db.

Section atomic.
Context `{!RocksDB, !HashOrder}.
Implicit Types (st : KeyValueStore) (d : DB).

(** [m] does not change the database; [atomic m] does so only when it succeeds. *)
Definition read_only {E A} (m : io DB E A) : Prop := ∀ d, (m d).2 = d.
Definition atomic {E A} (m : io DB E A) : Prop := ∀ d, (∃ a, (m d).1 = Ok a) ∨ (m d).2 = d.

Lemma read_only_bind {E A B} (m : io DB E A) (f : A → io DB E B) :
  read_only m → (∀ a, read_only (f a)) → read_only (m ≫= f).
Proof.
  intros Hm Hf d. unfold mbind, io_bind. specialize (Hm d).
  destruct (m d) as [[a|e|] d1]; simpl in *; subst; [apply Hf|done..].
Qed.

Lemma atomic_bind {E A B} (m : io DB E A) (f : A → io DB E B) :
  read_only m → (∀ a, atomic (f a)) → atomic (m ≫= f).
Proof.
  intros Hm Hf d. unfold mbind, io_bind. specialize (Hm d).
  destruct (m d) as [[a|e|] d1]; simpl in *; subst; [apply Hf|by right..].
Qed.

Lemma atomic_then {E A B} (m : io DB E A) (g : A → B) : atomic m → atomic (x ← m; mret (g x)).
Proof.
  intros Hm d. unfold mbind, io_bind. specialize (Hm d).
  destruct (m d) as [[a|e|] d1]; simpl in *; [left; by eexists|destruct Hm as [[? ?]|]; [done|by right]..].
Qed.

Lemma read_only_lift {E A} (r : outcome E A) : read_only (io_lift r).
Proof. done. Qed.
Lemma read_only_get {E} : read_only (io_get : io DB E DB).
Proof. done. Qed.
Lemma read_only_mret {E A} (a : A) : read_only (mret a : io DB E A).
Proof. done. Qed.
Lemma read_only_db_op {A} (r : DbError + A) : read_only (db_op r).
Proof. done. Qed.
Lemma read_only_from_utf8 b : read_only (from_utf8 b).
Proof. done. Qed.

Hint Resolve read_only_bind read_only_lift read_only_get read_only_mret read_only_db_op
  read_only_from_utf8 : kv_db.

Lemma read_only_bump st vp txn : read_only (bump_version st vp txn).
Proof. unfold bump_version. eauto 10 with kv_db. Qed.

Lemma read_only_put_all st l txn : read_only (put_all st l txn).
Proof. revert txn. induction l as [|[k v] l IH]; intros txn; simpl; eauto with kv_db. Qed.

Lemma read_only_delete_found l txn : read_only (delete_found l txn).
Proof. revert txn. induction l; intros txn; simpl; eauto 6 with kv_db. Qed.

Hint Resolve read_only_delete_found : kv_db.

Lemma read_only_delete_ranges st ps txn : read_only (delete_ranges st ps txn).
Proof. revert txn. induction ps; intros txn; simpl; eauto 6 with kv_db. Qed.

Lemma read_only_list_found n l acc : read_only (list_found n l acc).
Proof. revert acc. induction l; intros acc; simpl; eauto 8 with kv_db. Qed.

Lemma atomic_commit txn : atomic (commit txn).
Proof.
  intros d. unfold commit. iorun. destruct (txn_commit d txn) as [e|d'] eqn:E; [by right|].
  left. by eexists.
Qed.

Lemma atomic_bump_commit st vp txn :
  atomic ('(ver, txn) ← bump_version st vp txn; commit txn;; mret ver).
Proof.
  apply atomic_bind; [apply read_only_bump|]. intros [ver txn']. apply atomic_then, atomic_commit.
Qed.

Lemma atomic_read_only {E A} (m : io DB E A) : read_only m → atomic m.
Proof. intros Hm d. right. apply Hm. Qed.

Hint Resolve read_only_put_all read_only_delete_ranges read_only_list_found : kv_db.

Lemma exec_atomic st (c : Command) : atomic (exec st c).
Proof.
  destruct c as [k|vp k v|vp data|vp k|vp ps|p]; simpl; apply atomic_then.
  - apply atomic_read_only. unfold Get. apply read_only_bind; [done|]. intros ?.
    apply read_only_bind; [done|]. intros [e|]; eauto with kv_db.
  - apply atomic_bind; [done|]. intros ?. apply atomic_bind; [done|]. intros txn.
    apply atomic_bump_commit.
  - apply atomic_bind; [done|]. intros ?. apply atomic_bind; [auto with kv_db|]. intros txn.
    apply atomic_bump_commit.
  - apply atomic_bind; [done|]. intros ?. apply atomic_bind; [done|]. intros txn.
    apply atomic_bump_commit.
  - apply atomic_bind; [done|]. intros ?. apply atomic_bind; [auto with kv_db|]. intros txn.
    apply atomic_bump_commit.
  - apply atomic_read_only. unfold List_. eauto with kv_db.
Qed.
(** (Claim C25.) Every message to the key-value store is atomic on any database
    whatever: when it fails with an error of the database, or panics, at any of its
    steps (a put, a delete, the read of the version, an item of an iterator, the
    commit), the database is exactly what it was, so no version is consumed and no
    part of a [MultiSet] or [MultiDelete] is visible. *)
Theorem kv_atomic st (c : Command) d r d' :
  exec st c d = (r, d') → (∃ a, r = Ok a) ∨ d' = d.
Proof. intros Hx. pose proof (exec_atomic st c d) as Ha. by rewrite Hx in Ha. Qed.
End atomic.

(** ** Stores do not touch each other *)
Section frame.
Context {HR : RocksDB} {HL : RocksDBLaws} {HH : HashOrder}.
Implicit Types (st : KeyValueStore) (d : DB) (txn : Txn).

Definition write_key (w : write) : bytes := match w with Put k _ => k | Del k => k end.

(** The writes of a transaction of [st] are under its prefix. *)
Definition owned st txn : Prop :=
  Forall (λ w, starts_with (store_prefix st) (write_key w) = true) (txn_writes txn).

Lemma owned_new st d : owned st (db_transaction d).
Proof. unfold owned. by rewrite db_transaction_spec. Qed.

Lemma starts_with_path st k : starts_with (store_prefix st) (get_path st k) = true.
Proof. rewrite get_path_prefix. apply starts_with_app. Qed.

Lemma owned_put st k v txn txn' :
  txn_put txn (get_path st k) v = inr txn' → owned st txn → owned st txn'.
Proof.
  intros Ht. unfold owned. rewrite (txn_put_spec _ _ _ _ Ht). rewrite Forall_app, Forall_singleton.
  split; [done|]. apply starts_with_path.
Qed.

Lemma owned_delete st q txn txn' :
  starts_with (store_prefix st) q = true →
  txn_delete txn q = inr txn' → owned st txn → owned st txn'.
Proof.
  intros Hq Ht. unfold owned. rewrite (txn_delete_spec _ _ _ Ht), Forall_app, Forall_singleton. done.
Qed.

Lemma db_op_inv {A} (r : DbError + A) d a d' : db_op r d = (Ok a, d') → r = inr a ∧ d' = d.
Proof. unfold db_op, io_lift. destruct r; naive_solver. Qed.

Lemma put_all_owned st l txn d txn' d' :
  put_all st l txn d = (Ok txn', d') → owned st txn → owned st txn'.
Proof.
  revert txn. induction l as [|[k v] l IH]; intros txn; simpl; [by intros [= -> _]|].
  intros (t & ? & [Ht ->]%db_op_inv & Hr)%io_bind_inv Ho. eauto using owned_put.
Qed.

(** An iterator that is read to its end gave no error. *)
Lemma delete_found_inv l txn d txn' d' :
  delete_found l txn d = (Ok txn', d') →
  ∃ l', l = map inr l' ∧ txn_writes txn' = txn_writes txn ++ map Del l'.*1.
Proof.
  revert txn. induction l as [|x l IH]; intros txn; simpl.
  - intros [= -> ->]. exists []. by rewrite app_nil_r.
  - intros (e & ? & [-> ->]%db_op_inv & (t & ? & [Ht ->]%db_op_inv & Hr)%io_bind_inv)%io_bind_inv.
    destruct (IH _ Hr) as (l' & -> & Hw). exists (e :: l'). split; [done|].
    rewrite Hw, (txn_delete_spec _ _ _ Ht), <-app_assoc. done.
Qed.

Lemma delete_ranges_owned st ps txn d txn' d' :
  delete_ranges st ps txn d = (Ok txn', d') → owned st txn → owned st txn'.
Proof.
  revert txn d. induction ps as [|p ps IH]; intros txn d; simpl; [by intros [= -> _]|].
  iorun. intros (t & d1 & Ht & Hr)%io_bind_inv Ho. apply (IH _ _ Hr).
  apply delete_found_inv in Ht as (l & Hl & Hw). unfold iter_range in Hl.
  apply db_prefix_iterator_spec in Hl. unfold owned. rewrite Hw, Forall_app. split; [done|].
  rewrite Forall_map, Forall_map. rewrite Hl. apply Forall_forall.
  intros [q v] [_ Hq]%elem_of_map_to_list%with_prefix_lookup. simpl.
  apply starts_with_split in Hq as [r ->]. rewrite get_path_prefix, <-app_assoc.
  apply starts_with_app.
Qed.

Lemma bump_commit_frame st vp txn d n d' q :
  ('(ver, txn) ← bump_version st vp txn; commit txn;; mret ver) d = (Ok n, d') →
  owned st txn → starts_with (store_prefix st) q = false →
  db_contents d' !! q = db_contents d !! q.
Proof.
  intros ([ver t] & d1 & Hb & (? & d2 & Hc & [= -> ->])%io_bind_inv)%io_bind_inv Ho Hq.
  assert (d1 = d ∧ owned st t) as [-> Ho'].
  { unfold bump_version in Hb. rewrite io_bind_get in Hb.
    apply io_bind_inv in Hb as (old & ? & [_ ->]%db_op_inv & Hb).
    apply io_bind_inv in Hb as (v & ? & [= Hv ->] & Hb).
    apply io_bind_inv in Hb as (t' & ? & [Ht ->]%db_op_inv & [= <- <- <-]).
    split; [done|]. by apply (owned_put _ _ _ _ _ Ht). }
  unfold commit in Hc. rewrite io_bind_get in Hc.
  apply io_bind_inv in Hc as (d3 & ? & [Hc ->]%db_op_inv & [= _ ->]).
  rewrite (txn_commit_spec _ _ _ Hc). generalize (db_contents d). clear -Ho' Hq. unfold owned in Ho'.
  induction Ho' as [|w ws Hw _ IH]; intros m; simpl; [done|]. rewrite IH.
  destruct w as [k v|k]; simpl in *;
    [rewrite lookup_insert_ne by congruence|rewrite lookup_delete_ne by congruence]; done.
Qed.

(** What a message does not own stays as it is, whether it succeeds or not. *)
Lemma kv_frame st (c : Command) d r d' q :
  exec st c d = (r, d') → starts_with (store_prefix st) q = false →
  db_contents d' !! q = db_contents d !! q.
Proof.
  intros Hx Hq. pose proof (exec_atomic st c d) as Ha. rewrite Hx in Ha. simpl in Ha.
  destruct Ha as [[a ->]| ->]; [|done].
  assert (∀ vp txn n, owned st txn → 
     ('(ver, txn) ← bump_version st vp txn; commit txn;; mret ver) d = (Ok n, d') →
     db_contents d' !! q = db_contents d !! q) as Hb by eauto using bump_commit_frame.
  destruct c as [k|vp k v|vp data|vp k|vp ps|p]; simpl in Hx;
    apply io_bind_inv in Hx as (n & d1 & Hx & [= _ ->]).
  - unfold Get in Hx. rewrite io_bind_get in Hx.
    apply io_bind_inv in Hx as (o & ? & [_ ->]%db_op_inv & Hx). destruct o; [|by injection Hx as _ <-].
    apply io_bind_inv in Hx as (? & ? & [= _ <-] & [= _ ->]). done.
  - unfold Set_ in Hx. rewrite io_bind_get in Hx.
    apply io_bind_inv in Hx as (t & ? & [Ht ->]%db_op_inv & Hx).
    apply (Hb vp t n); [|done]. apply (owned_put _ _ _ _ _ Ht), owned_new.
  - unfold MultiSet in Hx. rewrite io_bind_get in Hx.
    pose proof (read_only_put_all st (order (map_to_list data)) (db_transaction d) d) as Hro.
    apply io_bind_inv in Hx as (t & ? & Ht & Hx). rewrite Ht in Hro. simpl in Hro. subst.
    apply (Hb vp t n); [|done]. apply (put_all_owned _ _ _ _ _ _ Ht), owned_new.
  - unfold Delete in Hx. rewrite io_bind_get in Hx.
    apply io_bind_inv in Hx as (t & ? & [Ht ->]%db_op_inv & Hx).
    apply (Hb vp t n); [|done]. apply (owned_delete _ _ _ _ (starts_with_path st k) Ht), owned_new.
  - unfold MultiDelete in Hx. rewrite io_bind_get in Hx.
    pose proof (read_only_delete_ranges st ps (db_transaction d) d) as Hro.
    apply io_bind_inv in Hx as (t & ? & Ht & Hx). rewrite Ht in Hro. simpl in Hro. subst.
    apply (Hb vp t n); [|done]. apply (delete_ranges_owned _ _ _ _ _ _ Ht), owned_new.
  - pose proof (read_only_list_found (length (get_path st p)) (iter_range st (get_path st p) d) ∅ d) as Hro.
    unfold List_ in Hx. rewrite io_bind_get in Hx. rewrite Hx in Hro. simpl in Hro. by subst.
Qed.

(** Two names are apart when neither, cut at its NUL bytes, begins the other. *)
Definition apart (n n' : bytes) : Prop :=
  ¬ split_nul n `prefix_of` split_nul n' ∧ ¬ split_nul n' `prefix_of` split_nul n.

Lemma store_prefix_apart st st' x :
  apart (name st) (name st') → starts_with (store_prefix st) (store_prefix st' ++ x) = false.
Proof.
  intros [H1 H2]. apply not_true_is_false. intros [r Hr]%starts_with_split.
  unfold store_prefix in Hr. rewrite <-!app_assoc in Hr. do 3 apply app_inv_head in Hr.
  unfold NUL in Hr. simpl in Hr. apply (f_equal split_nul) in Hr. rewrite !split_nul_app in Hr.
  destruct (prefix_weak_total (split_nul (name st)) (split_nul (name st'))
    (split_nul (name st') ++ split_nul x)); [rewrite Hr| |done..]; by apply prefix_app_r.
Qed.

Lemma represents_frame st st' (c : Command) d (r : outcome StoreError Answer) d' (s : state) :
  apart (name st) (name st') → exec st c d = (r, d') → represents st' d s → represents st' d' s.
Proof.
  intros Hn Hx [Hl Hok]. split; [|done]. intros x. rewrite <-Hl.
  apply (kv_frame st c d r d' _ Hx). by apply store_prefix_apart.
Qed.
End frame.

(** ** Many stores in one database *)
Abbreviation stores := (gmap bytes (gmap key Value)) (only parsing).

(** The commands, each with the name of the store it is sent to. *)
Fixpoint exec_all `{!RocksDB, !HashOrder} (l : list (bytes * Command)) : io DB StoreError (list Answer) :=
  match l with
  | [] => mret []
  | (n, c) :: l => a ← exec {| name := n |} c; rest ← exec_all l; mret (a :: rest)
  end.

Definition store_at (S : stores) (n : bytes) : gmap key Value := default ∅ (S !! n).

Fixpoint run_all (l : list (bytes * Command)) (S : stores) : list Answer * stores :=
  match l with
  | [] => ([], S)
  | (n, c) :: l =>
      let '(a, s) := run c (store_at S n) in
      let '(rest, S') := run_all l (<[n := s]> S) in
      (a :: rest, S')
  end.

Fixpoint commands_ok (names : list bytes) (l : list (bytes * Command)) (S : stores) : Prop :=
  match l with
  | [] => True
  | (n, c) :: l =>
      n ∈ names ∧ command_ok c (store_at S n) ∧
      commands_ok names l (<[n := (run c (store_at S n)).2]> S)
  end.

Definition all_represented `{!RocksDB} (names : list bytes) (d : DB) (S : stores) : Prop :=
  ∀ n, n ∈ names → represents {| name := n |} d (store_at S n).

Section stores.
Context {HR : RocksDB} {HL : RocksDBLaws} {HW : RocksDBWorks} {HH : HashOrder} {HHL : HashOrderLaws}.

(** (Claim C11.) The key-value stores that share a database implement independent
    abstract stores, on any database that keeps its promises and does not fail.
    From a database that represents an abstract store for each of the names, any
    sequence of messages to these stores, with well-formed keys and values, is
    answered as the abstract stores answer it (what was stored, the next version of
    the version path, the entries under a prefix), and the database then represents
    the abstract stores after the sequence: a store is changed by its own messages
    only, and the order in which [MultiSet] drains its hash map is invisible. *)
Theorem kv_refines (names : list bytes) (l : list (bytes * Command)) (d : DB) (S : stores) :
  (∀ n n', n ∈ names → n' ∈ names → n ≠ n' → apart n n') →
  all_represented names d S → commands_ok names l S →
  ∃ d', exec_all l d = (Ok (run_all l S).1, d') ∧ all_represented names d' (run_all l S).2.
Proof.
  intros Hap. revert d S. induction l as [|[n c] l IH]; intros d S Hr Hc; simpl in *.
  - by exists d.
  - destruct Hc as (Hn & Hc & Hrest).
    destruct (exec_refines {| name := n |} c d (store_at S n)) as (d1 & Hd1 & Hr1); [auto..|].
    rewrite (io_bind_Ok _ _ _ _ _ Hd1). destruct (run c (store_at S n)) as [a s]. simpl in *.
    destruct (IH d1 (<[n := s]> S)) as (d2 & Hd2 & Hr2); [|done|].
    { intros n' Hn'. unfold store_at. destruct (decide (n' = n)) as [->|Hne].
      - by rewrite lookup_insert_eq.
      - rewrite lookup_insert_ne by done.
        apply (represents_frame {| name := n |} {| name := n' |} c d _ _ _ (Hap n n' Hn Hn' (not_eq_sym Hne)) Hd1).
        by apply Hr. }
    rewrite (io_bind_Ok _ _ _ _ _ Hd2). exists d2. by destruct (run_all l (<[n := s]> S)).
Qed.
End stores.

(** ** Examples, in the database in memory *)
Import MemoryDb.

Definition photos : bytes := str "s3metadata" ++ NUL ++ str "photos".
Definition photoshop : bytes := str "s3metadata" ++ NUL ++ str "photoshop".

Definition vpath : key := [str "v"].
Definition cat : key := [str "cat"].

Lemma represents_empty st : represents st (∅ : gmap bytes bytes) ∅.
Proof. split; [|apply map_Forall_empty]. intros x. by rewrite !lookup_empty. Qed.

Lemma key_ok_bool (k : key) :
  negb (bool_decide (k = [])) && forallb (λ s, bool_decide (0 ∉ s) && utf8_valid s) k = true → key_ok k.
Proof.
  intros [Hk Hf]%andb_true_iff. split; [by apply negb_true_iff, bool_decide_eq_false in Hk|].
  apply Forall_forall. intros s Hs. rewrite forallb_forall in Hf.
  specialize (Hf s (proj1 (list_elem_of_In _ _) Hs)). apply andb_true_iff in Hf as [Hn Hu].
  by apply bool_decide_eq_true in Hn.
Qed.

Definition session : list (bytes * Command) :=
  [(photos, CSet vpath cat (str "meow")); (photoshop, CMultiDelete vpath [cat]); (photos, CGet cat)].

Definition session_answers : list Answer := [AVersion 1; AVersion 1; AValue (Some (str "meow"))].

Lemma kv_refines_witness :
  ∃ d', exec_all session ∅ = (Ok session_answers, d') ∧
        all_represented [photos; photoshop] d' (run_all session ∅).2.
Proof.
  replace session_answers with (run_all session ∅).1 by (vm_compute; reflexivity).
  apply (kv_refines [photos; photoshop] session ∅ ∅).
  - intros n n' Hn Hn'. rewrite !elem_of_cons, elem_of_nil in Hn, Hn'.
    intros Hne. split; refine (bool_decide_eq_true_1 _ _); naive_solver.
  - intros n _. apply represents_empty.
  - simpl. split_and!; [set_solver|by apply key_ok_bool| |by apply key_ok_bool|done|set_solver
      |by apply key_ok_bool| | |set_solver|by apply key_ok_bool| |done].
    + by intros [? ?].
    + by intros [? ?].
    + apply Forall_singleton. by apply key_ok_bool.
    + vm_compute. by intros [? ?].
Defined.

Lemma kv_atomic_witness :
  (∃ a, (exec {| name := photos |} (CGet cat) ∅).1 = Ok a) ∨
  (exec {| name := photos |} (CGet cat) ∅).2 = ∅.
Proof. apply (kv_atomic {| name := photos |} (CGet cat) ∅ _ _). by destruct (exec _ _ _). Defined.
