(* ===== verification/BlobStore.v ===== *)
(** * The content-addressable blob store (replistore/src/stores/contentaddressableblob.rs)

    A blob is kept in the file [<base>/data/<sha256 in hex>]; an upload is first
    written to a file of [<base>/data/tmp] whose name is a fresh UUID, hashed
    there, and renamed.  The file system, the digests (md5, sha2), the hex
    printer and the UUID are not part of the repository: the first three are
    classes with the laws their documentation gives, the UUID is an argument. *)
From S2P Require Import Prelude RustStr RocksDb KeyValue.

(** [Path::join]: an absolute argument replaces the path. *)
Definition path_join (p q : bytes) : bytes :=
  if starts_with (str "/") q then q
  else if decide (p = [] ∨ last p = Some 47) then p ++ q
  else p ++ str "/" ++ q.

Inductive node := File (content : bytes) | Dir.

#[export] Instance node_eq_dec : EqDecision node.
Proof. solve_decision. Defined.

(** The operations of [tokio::fs] that are used.  [fs_write] writes to the end of
    an open file, [fs_read] reads from an open file at an offset into a buffer of
    the given size, [fs_stream] opens a file and reads it in pieces. *)
Class FileSystem := {
  FS : Type;
  IoError : Type;
  io_to_string : IoError → bytes;
  fs_create : FS → bytes → IoError + FS;
  fs_write : FS → bytes → bytes → IoError + FS;
  fs_read : FS → bytes → nat → nat → IoError + bytes;
  fs_stream : FS → bytes → IoError + list (IoError + bytes);
  fs_rename : FS → bytes → bytes → IoError + FS;
  fs_metadata : FS → bytes → IoError + (bool * Z);
  fs_remove_file : FS → bytes → IoError + FS;
  fs_create_dir_all : FS → bytes → IoError + FS;
  fs_nodes : FS → gmap bytes node;
}.

Definition file_of (n : node) : option bytes := match n with File c => Some c | Dir => None end.

(** What a successful operation means. *)
Class FileSystemLaws `{!FileSystem} : Prop := {
  fs_create_spec f p f' :
    fs_create f p = inr f' → fs_nodes f' = <[p := File []]> (fs_nodes f);
  fs_write_spec f p b f' c :
    fs_write f p b = inr f' → fs_nodes f !! p = Some (File c) →
    fs_nodes f' = <[p := File (c ++ b)]> (fs_nodes f);
  fs_read_spec f p off n b c :
    fs_read f p off n = inr b → fs_nodes f !! p = Some (File c) →
    b `prefix_of` drop off c ∧ (length b ≤ n)%nat ∧ (b = [] → (0 < n)%nat → drop off c = []);
  fs_stream_spec f p l c :
    fs_stream f p = inr (map inr l) → fs_nodes f !! p = Some (File c) → concat l = c;
  fs_rename_spec f p q f' c :
    fs_rename f p q = inr f' → fs_nodes f !! p = Some (File c) →
    fs_nodes f' = <[q := File c]> (delete p (fs_nodes f));
  fs_metadata_spec f p m :
    fs_metadata f p = inr m →
    ∃ n, fs_nodes f !! p = Some n ∧ m.1 = bool_decide (is_Some (file_of n)) ∧
      (∀ c, n = File c → m.2 = Z.of_nat (length c));
  fs_remove_file_spec f p f' :
    fs_remove_file f p = inr f' → fs_nodes f' = delete p (fs_nodes f);
  fs_create_dir_all_spec f p f' :
    fs_create_dir_all f p = inr f' →
    fs_nodes f' !! p = Some Dir ∧
    (∀ q r, p = q ++ str "/" ++ r → q ≠ [] → fs_nodes f' !! q = Some Dir) ∧
    (∀ q n, fs_nodes f !! q = Some n → fs_nodes f' !! q = Some n) ∧
    (∀ q, fs_nodes f !! q = None → is_Some (fs_nodes f' !! q) →
       q = p ∨ ∃ r, p = (q ++ str "/" ++ r));
}.

(** A plain name has no slash and is not empty; a plain path does not end in one. *)
Definition plain (q : bytes) : Prop := q ≠ [] ∧ (47 ∉ q).
Definition plain_path (p : bytes) : Prop := p ≠ [] ∧ last p ≠ Some 47.

(** [q] is a plain name for a file in the directory [p]. *)
Definition entry_of (m : gmap bytes node) (p q : bytes) : Prop :=
  m !! p = Some Dir ∧ plain q ∧ m !! (p ++ str "/" ++ q) ≠ Some Dir.

(** When the operations succeed. *)
Class FileSystemWorks `{!FileSystem} : Prop := {
  fs_create_works f p q :
    entry_of (fs_nodes f) p q → ∃ f', fs_create f (p ++ str "/" ++ q) = inr f';
  fs_write_works f p b c : fs_nodes f !! p = Some (File c) → ∃ f', fs_write f p b = inr f';
  fs_read_works f p off n c : fs_nodes f !! p = Some (File c) → ∃ b, fs_read f p off n = inr b;
  fs_stream_works f p c :
    fs_nodes f !! p = Some (File c) → ∃ l, fs_stream f p = inr (map inr l);
  fs_rename_works f p q r c :
    fs_nodes f !! p = Some (File c) → entry_of (fs_nodes f) q r →
    ∃ f', fs_rename f p (q ++ str "/" ++ r) = inr f';
  fs_metadata_works f p n : fs_nodes f !! p = Some n → ∃ m, fs_metadata f p = inr m;
  fs_remove_file_works f p c : fs_nodes f !! p = Some (File c) → ∃ f', fs_remove_file f p = inr f';
  fs_create_dir_all_works f p :
    (∀ q c, q = p ∨ (∃ r, p = (q ++ str "/" ++ r)) → fs_nodes f !! q ≠ Some (File c)) →
    ∃ f', fs_create_dir_all f p = inr f';
}.

(** ** Digests *)
Record Digest := {
  digest_state : Type;
  digest_new : digest_state;
  digest_update : digest_state → bytes → digest_state;
  digest_finalize : digest_state → bytes;
}.

Record digest_laws (D : Digest) : Prop := {
  digest_update_nil s : digest_update D s [] = s;
  digest_update_app s a b :
    digest_update D (digest_update D s a) b = digest_update D s (a ++ b);
}.

Class Hashes := { Md5 : Digest; Sha256 : Digest; hex_encode : bytes → bytes }.

Definition digest_of (D : Digest) (c : bytes) : bytes :=
  digest_finalize D (digest_update D (digest_new D) c).

Definition hex_digit (b : Z) : Prop := 48 ≤ b ≤ 57 ∨ 97 ≤ b ≤ 102.

Class HashesLaws `{!Hashes} : Prop := {
  md5_laws : digest_laws Md5;
  sha256_laws : digest_laws Sha256;
  sha256_length c : length (digest_of Sha256 c) = 32%nat;
  hex_encode_digits b : Forall hex_digit (hex_encode b);
  hex_encode_length b : length (hex_encode b) = (2 * length b)%nat;
}.

(** ** The store *)
Module BlobStore.

Record BlobReadError := { msg : bytes }.

Section store.
Context `{!FileSystem, !Hashes, !RocksDB}.

Record ContentAddressableBlobStore := { name : bytes; base_path : bytes }.

Record BlobInfo := { md5sum : bytes; sha256sum : bytes; size : Z }.

Inductive PutBlobError :=
| PutStore (e : StoreError)
| PutBlobRead (e : BlobReadError)
| PutIo (e : IoError).

Inductive GetBlobError :=
| GetStore (e : StoreError)
| GetBlobRead (e : BlobReadError)
| GetIo (e : IoError)
| GetBlobDoesNotExist.

Inductive DeleteBlobError :=
| DeleteStore (e : StoreError)
| DeleteIo (e : IoError)
| DeleteBlobDoesNotExist.

Definition get_disk_base_path (self : ContentAddressableBlobStore) : bytes :=
  path_join (base_path self) (str "data").

Definition get_disk_path (self : ContentAddressableBlobStore) (sha256sum : bytes) : bytes :=
  path_join (get_disk_base_path self) sha256sum.

Definition get_disk_tmp_path (self : ContentAddressableBlobStore) (uuid : bytes) : bytes :=
  path_join (path_join (get_disk_base_path self) (str "tmp")) uuid.

(** An operation of the file system followed by [?]. *)
Definition fs_op {E A} (err : IoError → E) (r : IoError + A) : io FS E A :=
  io_lift (match r with inr a => Ok a | inl e => Err (err e) end).

(** An operation that changes the file system. *)
Definition fs_do {E} (err : IoError → E) (op : FS → IoError + FS) : io FS E () :=
  f ← io_get; f' ← fs_op err (op f); io_set f'.

(** The loop of [hash_file], with the offset of the next read. *)
Fixpoint hash_loop (fuel : nat) (path : bytes) (off : nat)
    (md5_hash : digest_state Md5) (sha2_256_hash : digest_state Sha256)
    : io FS IoError (digest_state Md5 * digest_state Sha256) :=
  match fuel with
  | O => io_lift Panic
  | S fuel =>
      f ← io_get;
      buf ← fs_op id (fs_read f path off (Z.to_nat 65536));
      match buf with
      | [] => mret (md5_hash, sha2_256_hash)
      | _ => hash_loop fuel path (off + length buf)
               (digest_update Md5 md5_hash buf) (digest_update Sha256 sha2_256_hash buf)
      end
  end.

(** The file bounds the reads that give something. *)
Definition hash_fuel (f : FS) (path : bytes) : nat :=
  match fs_nodes f !! path with Some (File c) => S (length c) | _ => 1 end.

Definition hash_file (path : bytes) : io FS IoError (bytes * bytes) :=
  f ← io_get;
  '(md5_hash, sha2_256_hash) ← hash_loop (hash_fuel f path) path 0 (digest_new Md5) (digest_new Sha256);
  mret (hex_encode (digest_finalize Md5 md5_hash),
        hex_encode (digest_finalize Sha256 sha2_256_hash)).

Definition started (self : ContentAddressableBlobStore) : io FS Empty_set () :=
  let fullpath := path_join (path_join (base_path self) (str "data")) (str "tmp") in
  f ← io_get;
  f' ← io_lift (match fs_create_dir_all f fullpath with inr f' => Ok f' | inl _ => Panic end);
  io_set f'.

(** [data.forward(file)]: the pieces are written until the stream ends or gives
    an error. *)
Fixpoint forward (data : list (BlobReadError + bytes)) (file : bytes) : io FS PutBlobError () :=
  match data with
  | [] => mret ()
  | inl e :: _ => io_lift (Err (PutBlobRead e))
  | inr chunk :: data => fs_do PutIo (λ f, fs_write f file chunk);; forward data file
  end.

Definition PutBlob (self : ContentAddressableBlobStore) (uuid : bytes)
    (data : list (BlobReadError + bytes)) : io FS PutBlobError BlobInfo :=
  let basedir := get_disk_base_path self in
  let tmpfile := get_disk_tmp_path self uuid in
  fs_do PutIo (λ f, fs_create f tmpfile);;
  forward data tmpfile;;
  '(md5, sha256) ← io_err PutIo (hash_file tmpfile);
  let target_name := path_join basedir sha256 in
  fs_do PutIo (λ f, fs_rename f tmpfile target_name);;
  f ← io_get;
  metadata ← fs_op PutIo (fs_metadata f target_name);
  mret {| md5sum := md5; sha256sum := sha256; size := metadata.2 |}.

(** The stream of the open file is returned, its errors turned into texts. *)
Definition GetBlob (self : ContentAddressableBlobStore) (sha256sum : bytes)
    : io FS GetBlobError (list (BlobReadError + bytes)) :=
  let filepath := get_disk_path self sha256sum in
  f ← io_get;
  metadata ← fs_op GetIo (fs_metadata f filepath);
  if negb (fst metadata) then io_lift (Err GetBlobDoesNotExist)
  else
    f ← io_get;
    items ← fs_op GetIo (fs_stream f filepath);
    mret (map (λ i, match i with
                    | inr b => inr b
                    | inl e => inl {| msg := io_to_string e |}
                    end) items).

Definition DeleteBlob (self : ContentAddressableBlobStore) (sha256sum : bytes)
    : io FS DeleteBlobError () :=
  let filepath := get_disk_path self sha256sum in
  f ← io_get;
  metadata ← fs_op DeleteIo (fs_metadata f filepath);
  if negb (fst metadata) then io_lift (Err DeleteBlobDoesNotExist)
  else fs_do DeleteIo (λ f, fs_remove_file f filepath).
End store.
End BlobStore.

(** ** Paths *)
Import BlobStore.

Lemma path_join_plain p q : plain_path p → plain q → path_join p q = p ++ str "/" ++ q.
Proof.
  intros [Hp Hl] [Hq Hs]. unfold path_join.
  destruct (starts_with (str "/") q) eqn:E.
  { apply starts_with_split in E as [r ->]. destruct Hs. left. }
  rewrite decide_False; [done|]. tauto.
Qed.

Lemma plain_path_join p q : plain q → plain_path (p ++ str "/" ++ q).
Proof.
  intros [Hq Hs]. split; [by destruct p|]. rewrite !last_app. destruct (last q) as [b|] eqn:E.
  - intros [= ->]. apply Hs. apply last_Some in E as [l ->]. set_solver.
  - by apply last_None in E.
Qed.

Lemma plain_data : plain (str "data").
Proof. split; [done|]. refine (bool_decide_eq_true_1 _ _). by vm_compute. Qed.
Lemma plain_tmp : plain (str "tmp").
Proof. split; [done|]. refine (bool_decide_eq_true_1 _ _). by vm_compute. Qed.

Lemma slash_name_inj p q p' q' :
  47 ∉ q → 47 ∉ q' → p ++ str "/" ++ q = p' ++ str "/" ++ q' → p = p' ∧ q = q'.
Proof.
  intros Hq Hq' H%(f_equal (@rev Z)). rewrite !rev_app_distr in H. simpl in H.
  change (str "/") with [47] in H. rewrite <-!app_assoc in H.
  apply (f_equal (split_once 47)) in H. simpl in H.
  rewrite !split_once_app in H by (by rewrite list_elem_of_In, <-in_rev, <-list_elem_of_In).
  injection H as H1 H2. apply (f_equal (@rev Z)) in H1, H2. by rewrite !rev_involutive in H1, H2.
Qed.

Lemma hex_name `{!Hashes, !HashesLaws} b : b ≠ [] → plain (hex_encode b).
Proof.
  intros Hb. split.
  - intros E%(f_equal length). rewrite hex_encode_length in E. destruct b; [done|simpl in E; lia].
  - intros Hin. pose proof (hex_encode_digits b) as Hd. rewrite Forall_forall in Hd.
    destruct (Hd _ Hin); lia.
Qed.

Lemma sha_name `{!Hashes, !HashesLaws} c :
  plain (hex_encode (digest_of Sha256 c)) ∧ hex_encode (digest_of Sha256 c) ≠ str "tmp".
Proof.
  split.
  - apply hex_name. intros E%(f_equal length). by rewrite sha256_length in E.
  - intros E%(f_equal length). by rewrite hex_encode_length, sha256_length in E.
Qed.

(** ** Running the operations *)
Section run.
Context {HF : FileSystem} {HFL : FileSystemLaws} {HFW : FileSystemWorks}.
Context {HH : Hashes} {HHL : HashesLaws} {HR : RocksDB}.
Implicit Types (f : FS) (p : bytes).

Abbreviation sha c := (hex_encode (digest_of Sha256 c)) (only parsing).
Abbreviation md5 c := (hex_encode (digest_of Md5 c)) (only parsing).

Lemma fs_op_inr {E A} (err : IoError → E) (a : A) f : fs_op err (inr a) f = (Ok a, f).
Proof. done. Qed.

Lemma fs_do_run {E} (err : IoError → E) op f f' : op f = inr f' → fs_do err op f = (Ok (), f').
Proof. intros H. unfold fs_do. iorun. by rewrite H. Qed.

(** The loop reads the rest of the file, whatever the sizes of the reads. *)
Lemma hash_loop_run fuel p off c h h' f :
  fs_nodes f !! p = Some (File c) → (length c - off < fuel)%nat →
  hash_loop fuel p off h h' f
    = (Ok (digest_update Md5 h (drop off c), digest_update Sha256 h' (drop off c)), f).
Proof.
  intros Hp. revert off h h'. induction fuel as [|fuel IH]; intros off h h' Hfuel; [lia|].
  cbn [hash_loop]. iorun. destruct (fs_read_works f p off (Z.to_nat 65536) c Hp) as [buf Hbuf].
  rewrite Hbuf, (io_bind_Ok _ _ _ _ _ (fs_op_inr _ _ _)).
  destruct (fs_read_spec _ _ _ _ _ _ Hbuf Hp) as ([rest Hrest] & Hlen & Hend).
  destruct buf as [|b buf].
  { rewrite Hend by (done || lia). destruct md5_laws as [-> _], sha256_laws as [-> _]. done. }
  rewrite IH.
  2:{ apply (f_equal length) in Hrest. rewrite length_drop, length_app in Hrest. simpl in *. lia. }
  assert (drop (off + length (b :: buf)) c = rest) as ->.
  { rewrite <-drop_drop, Hrest. by rewrite drop_app_length. }
  destruct md5_laws as [_ ->], sha256_laws as [_ ->]. by rewrite <-Hrest.
Qed.

Lemma hash_file_run p c f :
  fs_nodes f !! p = Some (File c) → hash_file p f = (Ok (md5 c, sha c), f).
Proof.
  intros Hp. unfold hash_file, hash_fuel. iorun. rewrite Hp.
  rewrite (io_bind_Ok _ _ _ _ _ (hash_loop_run (S (length c)) p 0 c _ _ f Hp ltac:(lia))). done.
Qed.

Lemma forward_run p (chunks : list bytes) c f :
  fs_nodes f !! p = Some (File c) →
  ∃ f', forward (map inr chunks) p f = (Ok (), f') ∧
    fs_nodes f' = <[p := File (c ++ concat chunks)]> (fs_nodes f).
Proof.
  revert c f. induction chunks as [|b chunks IH]; intros c f Hp; simpl.
  - exists f. split; [done|]. rewrite app_nil_r. by rewrite insert_id.
  - destruct (fs_write_works f p b c Hp) as [f1 H1].
    pose proof (fs_write_spec _ _ _ _ _ H1 Hp) as Hn1.
    rewrite (io_bind_Ok _ _ _ _ _ (fs_do_run _ _ _ _ H1)).
    destruct (IH (c ++ b) f1) as (f' & -> & Hn'); [by rewrite Hn1, lookup_insert_eq|].
    exists f'. split; [done|]. by rewrite Hn', Hn1, insert_insert_eq, app_assoc.
Qed.

(** The directories of a store are there, and no directory has the name of a blob. *)
Definition data_dir (self : ContentAddressableBlobStore) : bytes := base_path self ++ str "/" ++ str "data".
Definition tmp_dir (self : ContentAddressableBlobStore) : bytes := data_dir self ++ str "/" ++ str "tmp".
Definition blob_path (self : ContentAddressableBlobStore) (c : bytes) : bytes :=
  data_dir self ++ str "/" ++ sha c.

Record blobs_ok (self : ContentAddressableBlobStore) (m : gmap bytes node) : Prop := {
  bo_base : plain_path (base_path self);
  bo_data : m !! data_dir self = Some Dir;
  bo_tmp : m !! tmp_dir self = Some Dir;
  bo_files : ∀ c, m !! blob_path self c ≠ Some Dir;
}.

Lemma disk_base_path self : plain_path (base_path self) → get_disk_base_path self = data_dir self.
Proof. intros H. apply path_join_plain; [done|]. apply plain_data. Qed.

Lemma plain_data_dir self : plain_path (data_dir self).
Proof. apply plain_path_join, plain_data. Qed.

Lemma disk_path self c : plain_path (base_path self) → get_disk_path self (sha c) = blob_path self c.
Proof.
  intros H. unfold get_disk_path. rewrite disk_base_path by done.
  apply path_join_plain; [apply plain_data_dir|apply sha_name].
Qed.

Lemma disk_tmp_path self uuid :
  plain_path (base_path self) → plain uuid → get_disk_tmp_path self uuid = tmp_dir self ++ str "/" ++ uuid.
Proof.
  intros H Hu. unfold get_disk_tmp_path. rewrite disk_base_path by done.
  rewrite (path_join_plain (data_dir self)) by (apply plain_data_dir || apply plain_tmp).
  apply path_join_plain; [|done]. apply plain_path_join, plain_tmp.
Qed.

Lemma blob_path_not_tmp self uuid c : plain uuid → blob_path self c ≠ tmp_dir self ++ str "/" ++ uuid.
Proof.
  intros [_ Hu] E. destruct (sha_name c) as [[_ Hs] _].
  apply slash_name_inj in E as [E _]; [|done..].
  apply (f_equal length) in E. unfold tmp_dir in E. rewrite length_app in E. simpl in E. lia.
Qed.

Lemma blob_path_inj self c c' : blob_path self c = blob_path self c' → sha c = sha c'.
Proof. unfold blob_path. intros E%app_inv_head. by injection E. Qed.

Lemma blobs_ok_insert self m p c :
  blobs_ok self m → p ≠ data_dir self → p ≠ tmp_dir self → blobs_ok self (<[p := File c]> m).
Proof.
  intros [Hb Hd Ht Hf] H1 H2. split; [done|by rewrite lookup_insert_ne..|].
  intros c'. destruct (decide (p = blob_path self c')) as [->|];
    [by rewrite lookup_insert_eq|by rewrite lookup_insert_ne].
Qed.

Lemma blob_path_apart self c : blob_path self c ≠ data_dir self ∧ blob_path self c ≠ tmp_dir self.
Proof.
  unfold blob_path, tmp_dir. split.
  - intros E%(f_equal length). rewrite length_app in E. simpl in E. lia.
  - intros E%app_inv_head. injection E as E. by destruct (sha_name c).
Qed.

(** An upload whose stream gives no error becomes the file named by its digest. *)
Lemma PutBlob_run self uuid (chunks : list bytes) f :
  blobs_ok self (fs_nodes f) → plain uuid → fs_nodes f !! (tmp_dir self ++ str "/" ++ uuid) = None →
  let c := concat chunks in
  ∃ f', PutBlob self uuid (map inr chunks) f
      = (Ok {| md5sum := md5 c; sha256sum := sha c; size := Z.of_nat (length c) |}, f') ∧
    fs_nodes f' = <[blob_path self c := File c]> (fs_nodes f).
Proof.
  intros Hok Hu Hfresh c. unfold PutBlob.
  rewrite disk_base_path, disk_tmp_path by (done || apply Hok). set (tmp := tmp_dir self ++ _) in *.
  destruct (fs_create_works f (tmp_dir self) uuid) as [f1 H1].
  { split_and!; [apply Hok|apply Hu..|]. fold tmp. by rewrite Hfresh. }
  fold tmp in H1. rewrite (io_bind_Ok _ _ _ _ _ (fs_do_run _ _ _ _ H1)).
  pose proof (fs_create_spec _ _ _ H1) as N1.
  destruct (forward_run tmp chunks [] f1) as (f2 & H2 & N2); [by rewrite N1, lookup_insert_eq|].
  rewrite (io_bind_Ok _ _ _ _ _ H2). rewrite N1, insert_insert_eq in N2. simpl in N2. fold c in N2.
  assert (Hc : fs_nodes f2 !! tmp = Some (File c)) by (by rewrite N2, lookup_insert_eq).
  unfold io_err at 1. rewrite (io_bind_Ok _ _ f2 (md5 c, sha c) f2)
    by (by rewrite (hash_file_run _ _ _ Hc)).
  rewrite (path_join_plain (data_dir self)) by (apply plain_data_dir || apply sha_name).
  fold (blob_path self c).
  pose proof (blob_path_not_tmp self uuid c Hu) as Hne. fold tmp in Hne.
  destruct (fs_rename_works f2 tmp (data_dir self) (sha c) c Hc) as [f3 H3].
  { split_and!; [|apply sha_name..|].
    - rewrite N2, lookup_insert_ne; [apply Hok|]. unfold tmp, tmp_dir.
      intros E%(f_equal length). rewrite !length_app in E. simpl in E. lia.
    - fold (blob_path self c). rewrite N2, lookup_insert_ne by done. apply Hok. }
  rewrite (io_bind_Ok _ _ _ _ _ (fs_do_run _ _ _ _ H3)). iorun.
  pose proof (fs_rename_spec _ _ _ _ _ H3 Hc) as N3. fold (blob_path self c) in N3.
  rewrite N2, delete_insert_id in N3 by done.
  assert (Hf3 : fs_nodes f3 !! blob_path self c = Some (File c)) by (by rewrite N3, lookup_insert_eq).
  destruct (fs_metadata_works f3 _ _ Hf3) as [meta Hmeta].
  rewrite Hmeta, (io_bind_Ok _ _ _ _ _ (fs_op_inr _ _ _)).
  destruct (fs_metadata_spec _ _ _ Hmeta) as (n & Hn & _ & Hsize).
  rewrite Hf3 in Hn. injection Hn as <-. rewrite (Hsize c eq_refl). eauto.
Qed.

Lemma GetBlob_run self c f :
  plain_path (base_path self) → fs_nodes f !! blob_path self c = Some (File c) →
  ∃ chunks, GetBlob self (sha c) f = (Ok (map inr chunks), f) ∧ concat chunks = c.
Proof.
  intros Hb Hc. unfold GetBlob. rewrite disk_path by done. iorun.
  destruct (fs_metadata_works f _ _ Hc) as [meta Hmeta].
  rewrite Hmeta, (io_bind_Ok _ _ _ _ _ (fs_op_inr _ _ _)).
  destruct (fs_metadata_spec _ _ _ Hmeta) as (n & Hn & Hfile & _).
  rewrite Hc in Hn. injection Hn as <-. rewrite Hfile, bool_decide_eq_true_2 by (by eexists).
  cbn [negb]. iorun. destruct (fs_stream_works f _ _ Hc) as [l Hl].
  rewrite Hl, (io_bind_Ok _ _ _ _ _ (fs_op_inr _ _ _)). exists l. split.
  - by rewrite map_map.
  - by apply (fs_stream_spec _ _ _ _ Hl).
Qed.

Lemma DeleteBlob_run self c f :
  plain_path (base_path self) → fs_nodes f !! blob_path self c = Some (File c) →
  ∃ f', DeleteBlob self (sha c) f = (Ok (), f') ∧
    fs_nodes f' = delete (blob_path self c) (fs_nodes f).
Proof.
  intros Hb Hc. unfold DeleteBlob. rewrite disk_path by done. iorun.
  destruct (fs_metadata_works f _ _ Hc) as [meta Hmeta].
  rewrite Hmeta, (io_bind_Ok _ _ _ _ _ (fs_op_inr _ _ _)).
  destruct (fs_metadata_spec _ _ _ Hmeta) as (n & Hn & Hfile & _).
  rewrite Hc in Hn. injection Hn as <-. rewrite Hfile, bool_decide_eq_true_2 by (by eexists).
  destruct (fs_remove_file_works f _ _ Hc) as [f' Hf'].
  exists f'. split; [by apply fs_do_run|]. by apply fs_remove_file_spec.
Qed.
End run.

(** ** What every operation keeps, whatever fails *)
Section integrity.
Context {HF : FileSystem} {HFL : FileSystemLaws}.
Context {HH : Hashes} {HHL : HashesLaws} {HR : RocksDB}.
Implicit Types (f : FS) (p : bytes).

Abbreviation sha c := (hex_encode (digest_of Sha256 c)) (only parsing).

(** Every file of the data directory is named by the digest of its content. *)
Definition integrity (self : ContentAddressableBlobStore) (f : FS) : Prop :=
  ∀ n c, plain n → fs_nodes f !! (data_dir self ++ str "/" ++ n) = Some (File c) → n = sha c.

Lemma fs_do_cases {E} (err : IoError → E) op f r f' :
  fs_do err op f = (r, f') → op f = inr f' ∧ r = Ok () ∨ f' = f ∧ ∃ e, r = Err e.
Proof. unfold fs_do. iorun. unfold fs_op, io_lift, mbind, io_bind, io_set. destruct (op f); naive_solver. Qed.

Lemma hash_loop_spec fuel p off c h h' f r f' :
  fs_nodes f !! p = Some (File c) → hash_loop fuel p off h h' f = (r, f') →
  f' = f ∧ ∀ x, r = Ok x → x = (digest_update Md5 h (drop off c), digest_update Sha256 h' (drop off c)).
Proof.
  intros Hp. revert off h h'. induction fuel as [|fuel IH]; intros off h h'; cbn [hash_loop].
  { intros [= <- <-]. naive_solver. }
  iorun. unfold fs_op. destruct (fs_read f p off _) as [e|buf] eqn:Hbuf.
  { intros [= <- <-]. naive_solver. }
  rewrite io_bind_lift.
  destruct (fs_read_spec _ _ _ _ _ _ Hbuf Hp) as ([rest Hrest] & Hlen & Hend).
  destruct buf as [|b buf].
  { intros [= <- <-]. split; [done|]. intros x [= <-]. rewrite Hend by (done || lia).
    destruct md5_laws as [-> _], sha256_laws as [-> _]. done. }
  intros (-> & Hx)%IH. split; [done|]. intros x ->%Hx.
  assert (drop (off + length (b :: buf)) c = rest) as ->.
  { rewrite <-drop_drop, Hrest. by rewrite drop_app_length. }
  destruct md5_laws as [_ ->], sha256_laws as [_ ->]. by rewrite <-Hrest.
Qed.

Lemma hash_file_spec p c f r f' :
  fs_nodes f !! p = Some (File c) → hash_file p f = (r, f') →
  f' = f ∧ ∀ x, r = Ok x → x.2 = sha c.
Proof.
  intros Hp. unfold hash_file. iorun. intros [(h & f1 & H1 & Hr)|[H1 Hr]]%io_bind_cases.
  - apply (hash_loop_spec _ _ _ _ _ _ _ _ _ Hp) in H1 as [-> Hh]. rewrite (Hh h eq_refl) in Hr.
    injection Hr as <- <-. split; [done|]. by intros x [= <-].
  - destruct (hash_loop _ _ _ _ _ f) as [r0 f0] eqn:E. simpl in *. subst f0.
    apply (hash_loop_spec _ _ _ _ _ _ _ _ _ Hp) in E as [-> _]. split; [done|].
    intros x ->. by destruct (Hr x).
Qed.

Lemma forward_frame p data c f r f' :
  fs_nodes f !! p = Some (File c) → forward data p f = (r, f') →
  ∃ c', fs_nodes f' = <[p := File c']> (fs_nodes f).
Proof.
  revert c f. induction data as [|[e|b] data IH]; intros c f Hp; simpl.
  - intros [= <- <-]. exists c. by rewrite insert_id.
  - intros [= <- <-]. exists c. by rewrite insert_id.
  - intros [([] & f1 & H1 & Hr)|[H1 _]]%io_bind_cases.
    + apply fs_do_cases in H1 as [[H1 _]|[_ [? ?]]]; [|done].
      pose proof (fs_write_spec _ _ _ _ _ H1 Hp) as N1.
      destruct (IH (c ++ b) f1) as [c' Hc']; [by rewrite N1, lookup_insert_eq|done|].
      exists c'. by rewrite Hc', N1, insert_insert_eq.
    + destruct (fs_do _ _ f) as [r0 f0] eqn:E. simpl in H1. subst f0.
      apply fs_do_cases in E as [[E ->]|[-> _]].
      * exists (c ++ b). by apply (fs_write_spec _ _ _ _ _ E Hp).
      * exists c. by rewrite insert_id.
Qed.

Lemma integrity_tmp self uuid f f' c :
  plain uuid → integrity self f →
  fs_nodes f' = <[tmp_dir self ++ str "/" ++ uuid := File c]> (fs_nodes f) → integrity self f'.
Proof.
  intros Hu Hi N n c' Hn. rewrite N, lookup_insert_ne; [by apply Hi|].
  intros E. destruct Hu as [_ Hu], Hn as [_ Hn]. apply slash_name_inj in E as [E _]; [|done..].
  apply (f_equal length) in E. unfold tmp_dir in E. rewrite length_app in E. simpl in E. lia.
Qed.

Lemma PutBlob_integrity self uuid data f r f' :
  plain_path (base_path self) → plain uuid → integrity self f →
  PutBlob self uuid data f = (r, f') → integrity self f'.
Proof.
  intros Hb Hu Hi. unfold PutBlob. rewrite disk_base_path, disk_tmp_path by done.
  set (tmp := tmp_dir self ++ str "/" ++ uuid).
  intros [([] & f1 & H1 & H)|[<- _]]%io_bind_cases.
  2:{ destruct (fs_do _ _ f) as [r0 f0] eqn:E. apply fs_do_cases in E as [[E _]|[-> _]]; [|done].
      apply (integrity_tmp self uuid f f0 []); [done..|]. by apply fs_create_spec. }
  apply fs_do_cases in H1 as [[H1 _]|[_ [? ?]]]; [|done]. apply fs_create_spec in H1 as N1.
  assert (Ht1 : fs_nodes f1 !! tmp = Some (File [])) by (by rewrite N1, lookup_insert_eq).
  assert (Hi2 : ∀ r2 f2, forward data tmp f1 = (r2, f2) →
     ∃ c, fs_nodes f2 !! tmp = Some (File c) ∧ integrity self f2).
  { intros r2 f2 H2. destruct (forward_frame _ _ _ _ _ _ Ht1 H2) as [c N2].
    rewrite N1, insert_insert_eq in N2. exists c. split; [by rewrite N2, lookup_insert_eq|].
    by apply (integrity_tmp self uuid f f2 c). }
  apply io_bind_cases in H as [([] & f2 & H2 & H)|[<- _]].
  2:{ destruct (forward data tmp f1) as [r2 f2] eqn:E. by destruct (Hi2 r2 f2 eq_refl) as (_ & _ & ?). }
  destruct (Hi2 _ _ H2) as (c & Hc & Hint).
  assert (Hh : ∀ r3 f3, io_err PutIo (hash_file tmp) f2 = (r3, f3) → f3 = f2 ∧ ∀ x, r3 = Ok x → x.2 = sha c).
  { intros r3 f3. unfold io_err. destruct (hash_file tmp f2) as [r0 f0] eqn:E. intros [= <- <-].
    apply (hash_file_spec _ _ _ _ _ Hc) in E as [-> Hx]. split; [done|].
    intros x Hr. apply Hx. by destruct r0; simplify_eq/=. }
  apply io_bind_cases in H as [([m s] & f3 & H3 & H)|[<- _]].
  2:{ destruct (io_err _ _ f2) as [r3 f3]. by destruct (Hh r3 f3 eq_refl) as [-> _]. }
  apply Hh in H3 as [-> Hs]. specialize (Hs _ eq_refl). simpl in Hs. subst s.
  rewrite (path_join_plain (data_dir self)) in H by (apply plain_data_dir || apply sha_name).
  assert (Hi4 : ∀ r4 f4, fs_do PutIo (λ f, fs_rename f tmp (data_dir self ++ str "/" ++ sha c)) f2 = (r4, f4) →
    integrity self f4).
  { intros r4 f4 [[E _]|[-> _]]%fs_do_cases; [|done]. apply (fs_rename_spec _ _ _ _ _ E) in Hc as N4.
    intros n c' Hn. rewrite N4. destruct (decide (n = sha c)) as [->|Hne].
    - rewrite lookup_insert_eq. by intros [= ->].
    - rewrite lookup_insert_ne by (intros E'%app_inv_head; injection E' as E'; congruence).
      intros [_ Hl]%lookup_delete_Some. by apply Hint. }
  apply io_bind_cases in H as [([] & f4 & H4 & H)|[<- _]].
  2:{ destruct (fs_do _ _ f2) as [r4 f4]. by apply (Hi4 r4 f4 eq_refl). }
  assert (f' = f4) as ->; [|by apply (Hi4 _ _ H4)].
  revert H. iorun. unfold fs_op, io_lift, mbind, io_bind. destruct (fs_metadata f4 _); by intros [= _ ->].
Qed.

Lemma DeleteBlob_integrity self s f r f' :
  integrity self f → DeleteBlob self s f = (r, f') → integrity self f'.
Proof.
  intros Hi. unfold DeleteBlob. iorun. unfold fs_op.
  destruct (fs_metadata f _) as [e|[[] z]]; [by intros [= _ <-]| |by intros [= _ <-]].
  rewrite io_bind_lift. simpl. intros [[E _]|[-> _]]%fs_do_cases; [|done].
  intros n c Hn. rewrite (fs_remove_file_spec _ _ _ E). intros [_ Hl]%lookup_delete_Some. by apply Hi.
Qed.

(** The messages of a store, in any order, successful or not. *)
Inductive BlobOp :=
| OpPut (uuid : bytes) (data : list (BlobReadError + bytes))
| OpGet (sha256sum : bytes)
| OpDelete (sha256sum : bytes).

Definition run_op (self : ContentAddressableBlobStore) (f : FS) (o : BlobOp) : FS :=
  match o with
  | OpPut uuid data => (PutBlob self uuid data f).2
  | OpGet s => (GetBlob self s f).2
  | OpDelete s => (DeleteBlob self s f).2
  end.

Lemma GetBlob_same self s f : (GetBlob self s f).2 = f.
Proof.
  unfold GetBlob. iorun. unfold fs_op. destruct (fs_metadata f _) as [e|[[] z]]; [done| |done].
  rewrite io_bind_lift. simpl. iorun. by destruct (fs_stream f _).
Qed.

(** (Claim C18.) A file of the data directory is always named by the SHA-256 digest
    of its content: this holds after any sequence of uploads, downloads and
    deletions, with any streams and UUIDs, and whichever operations of the file
    system and items of the streams fail in between (a failed upload leaves at most
    a file in the directory for temporary files). *)
Theorem blob_integrity (self : ContentAddressableBlobStore) (ops : list BlobOp) (f : FS) :
  plain_path (base_path self) →
  Forall (λ o, ∀ uuid data, o = OpPut uuid data → plain uuid) ops →
  integrity self f → integrity self (foldl (run_op self) f ops).
Proof.
  intros Hb Hops. revert f. induction Hops as [|o ops Ho _ IH]; intros f Hi; [done|].
  simpl. apply IH. destruct o as [uuid data|s|s]; simpl.
  - destruct (PutBlob self uuid data f) as [r f'] eqn:E.
    apply (PutBlob_integrity self uuid data f r f'); [done|by eapply Ho|done..].
  - by rewrite GetBlob_same.
  - destruct (DeleteBlob self s f) as [r f'] eqn:E. by apply (DeleteBlob_integrity self s f r f').
Qed.
End integrity.

Section roundtrip.
Context {HF : FileSystem} {HFL : FileSystemLaws} {HFW : FileSystemWorks}.
Context {HH : Hashes} {HHL : HashesLaws} {HR : RocksDB}.

(** (Claim C26.) Hashing a file in blocks is hashing its content: however short the
    reads of the file system are, the loop ends (it needs at most one read per byte
    and one more) and the two digests are those of the whole content. *)
Theorem hash_file_equiv (path c : bytes) (f : FS) :
  fs_nodes f !! path = Some (File c) →
  hash_file path f = (Ok (hex_encode (digest_of Md5 c), hex_encode (digest_of Sha256 c)), f).
Proof. apply hash_file_run. Qed.

(** (Claim C27.) What is uploaded is read back: an upload, in whatever pieces it
    arrives, answers with the digests and the length of its content, and a download
    under the answered digest gives the content, also after any other upload that
    does not collide with it. *)
Theorem blob_roundtrip (self : ContentAddressableBlobStore) (uuid uuid' : bytes)
    (chunks others : list bytes) (f : FS) :
  blobs_ok self (fs_nodes f) → plain uuid → plain uuid' →
  fs_nodes f !! (tmp_dir self ++ str "/" ++ uuid) = None →
  fs_nodes f !! (tmp_dir self ++ str "/" ++ uuid') = None →
  (hex_encode (digest_of Sha256 (concat chunks)) = hex_encode (digest_of Sha256 (concat others)) →
   concat chunks = concat others) →
  ∃ info info' f1 f2 pieces,
    PutBlob self uuid (map inr chunks) f = (Ok info, f1) ∧
    size info = Z.of_nat (length (concat chunks)) ∧
    PutBlob self uuid' (map inr others) f1 = (Ok info', f2) ∧
    GetBlob self (sha256sum info) f2 = (Ok (map inr pieces), f2) ∧
    concat pieces = concat chunks.
Proof.
  intros Hok Hu Hu' Hf Hf' Hcoll.
  destruct (PutBlob_run self uuid chunks f) as (f1 & H1 & N1); [done..|].
  destruct (PutBlob_run self uuid' others f1) as (f2 & H2 & N2); [| |rewrite N1|].
  { rewrite N1. apply blobs_ok_insert; [done|apply blob_path_apart..]. }
  { done. }
  { rewrite lookup_insert_ne; [done|]. by apply blob_path_not_tmp. }
  destruct (GetBlob_run self (concat chunks) f2) as (pieces & H3 & Hp).
  { apply Hok. }
  { rewrite N2, N1. destruct (decide (blob_path self (concat others) = blob_path self (concat chunks)))
      as [E|Hne].
    - rewrite E, lookup_insert_eq. by rewrite Hcoll by (symmetry; by apply (blob_path_inj self)).
    - by rewrite lookup_insert_ne, lookup_insert_eq. }
  eexists _, _, f1, f2, pieces. split_and!; [apply H1|done|apply H2|apply H3|done].
Qed.
End roundtrip.

(** ** A file system in memory, and digests for examples *)
Module MemoryFs.

Definition parent_dirs (p : bytes) : list bytes :=
  omap (λ i, if decide (p !! i = Some 47 ∧ i ≠ 0%nat) then Some (take i p) else None) (seq 0 (length p)).

Definition file_op {A : Type} (m : gmap bytes node) (p : bytes) (g : bytes → A) : () + A :=
  match m !! p with Some (File c) => inr (g c) | _ => inl () end.

#[export] Instance memory_fs : FileSystem := {|
  FS := gmap bytes node;
  IoError := ();
  io_to_string _ := str "No such file or directory";
  fs_create m p := inr (<[p := File []]> m);
  fs_write m p b := file_op m p (λ c, <[p := File (c ++ b)]> m);
  fs_read m p off n := file_op m p (λ c, take n (drop off c));
  fs_stream m p := file_op m p (λ c, [inr c]);
  fs_rename m p q := file_op m p (λ c, <[q := File c]> (delete p m));
  fs_metadata m p :=
    match m !! p with
    | Some (File c) => inr (true, Z.of_nat (length c))
    | Some Dir => inr (false, 4096)
    | None => inl ()
    end;
  fs_remove_file m p := file_op m p (λ _, delete p m);
  fs_create_dir_all m p :=
    if decide (Forall (λ q, m !! q ≠ None → m !! q = Some Dir) (p :: parent_dirs p))
    then inr (foldr (λ q m, <[q := Dir]> m) m (p :: parent_dirs p)) else inl ();
  fs_nodes m := m;
|}.

Lemma elem_of_parent_dirs p q r : p = (q ++ str "/" ++ r) → q ≠ [] → q ∈ parent_dirs p.
Proof.
  intros -> Hq. unfold parent_dirs. apply list_elem_of_omap. exists (length q). split.
  - rewrite elem_of_seq, length_app. simpl. lia.
  - rewrite decide_True, take_app_length; [done|]. split; [|by destruct q].
    rewrite lookup_app_r, Nat.sub_diag by lia. done.
Qed.

Lemma elem_of_parent_dirs_inv p q : q ∈ parent_dirs p → ∃ r, p = (q ++ str "/" ++ r).
Proof.
  unfold parent_dirs. intros (i & _ & H)%list_elem_of_omap. case_decide as Hi; [|done].
  injection H as <-. destruct Hi as [Hi _]. exists (drop (S i) p).
  rewrite <-(take_drop_middle p i 47 Hi) at 1. done.
Qed.

Lemma foldr_dirs (m : gmap bytes node) l q :
  foldr (λ q m, <[q := Dir]> m) m l !! q = if decide (q ∈ l) then Some Dir else m !! q.
Proof.
  induction l as [|x l IH]; simpl; [done|]. destruct (decide (q = x)) as [->|].
  - rewrite lookup_insert_eq. by rewrite decide_True by left.
  - rewrite lookup_insert_ne, IH by done.
    destruct (decide (q ∈ l)); [rewrite decide_True by (by right)|rewrite decide_False]; set_solver.
Qed.

#[export] Instance memory_fs_laws : FileSystemLaws.
Proof.
  split; simpl; unfold file_op; intros.
  - by simplify_eq.
  - by simplify_option_eq.
  - simplify_option_eq. split_and!; [apply prefix_take|apply firstn_le_length|].
    intros E ?. destruct (drop off c), n; (done || lia).
  - simplify_option_eq. destruct l as [|? [|]]; simplify_eq/=. apply app_nil_r.
  - by simplify_option_eq.
  - destruct (f !! p) as [[c|]|] eqn:E; simplify_eq/=; eexists; (split; [done|]); split; naive_solver.
  - repeat case_match; by simplify_eq.
  - case_decide as Hd; [|done]. simplify_eq. rewrite Forall_forall in Hd. split_and!.
    + by rewrite lookup_insert_eq.
    + intros q r Hp Hq. pose proof (foldr_dirs f (p :: parent_dirs p) q) as Hf. simpl in Hf.
      rewrite Hf. rewrite decide_True; [done|]. right. by apply (elem_of_parent_dirs p q r).
    + intros q n Hn. pose proof (foldr_dirs f (p :: parent_dirs p) q) as Hf. simpl in Hf.
      rewrite Hf. case_decide as Hin; [|done]. rewrite <-Hn. symmetry. apply Hd; [done|]. by rewrite Hn.
    + intros q Hn Hq. pose proof (foldr_dirs f (p :: parent_dirs p) q) as Hf. simpl in Hf.
      rewrite Hf in Hq. case_decide as Hin; [|rewrite Hn in Hq; by destruct Hq].
      apply elem_of_cons in Hin as [->|Hin]; [by left|]. right. by apply elem_of_parent_dirs_inv.
Qed.

#[export] Instance memory_fs_works : FileSystemWorks.
Proof.
  split; simpl; unfold file_op; intros; repeat match goal with H : _ !! _ = Some _ |- _ => rewrite H end;
    eauto.
  - by exists [c].
  - destruct n; eauto.
  - rewrite decide_True; [by eexists|]. apply Forall_forall. intros q Hq Hn.
    destruct (f !! q) as [[c|]|] eqn:E; [|done..]. exfalso. apply (H q c); [|done].
    apply elem_of_cons in Hq as [->|Hq]; [by left|]. right. by apply elem_of_parent_dirs_inv.
Qed.

(** The digests of the examples keep the first bytes of the content. *)
Definition prefix_digest (n : nat) : Digest := {|
  digest_state := bytes;
  digest_new := [];
  digest_update := app;
  digest_finalize s := take n (s ++ replicate n 0);
|}.

Lemma prefix_digest_laws n : digest_laws (prefix_digest n).
Proof. split; simpl; intros; [apply app_nil_r|by rewrite app_assoc]. Qed.

Definition hex_char (z : Z) : Z := if z <? 10 then 48 + z else 87 + z.

#[export] Instance example_hashes : Hashes := {|
  Md5 := prefix_digest 16;
  Sha256 := prefix_digest 32;
  hex_encode b := concat (map (λ z, [hex_char ((z / 16) mod 16); hex_char (z mod 16)]) b);
|}.

Lemma hex_char_digit z : 0 ≤ z < 16 → hex_digit (hex_char z).
Proof. unfold hex_char, hex_digit. intros. destruct (Z.ltb_spec z 10); lia. Qed.

#[export] Instance example_hashes_laws : HashesLaws.
Proof.
  split; [apply prefix_digest_laws..| | |].
  - intros c. change (length (take 32 (c ++ replicate 32 0)) = 32%nat).
    rewrite length_take, length_app, length_replicate. lia.
  - intros b. simpl. induction b as [|z b IH]; simpl; [done|].
    apply Forall_cons_2; [|apply Forall_cons_2; [|done]]; apply hex_char_digit, Z.mod_pos_bound; lia.
  - intros b. simpl. induction b as [|z b IH]; simpl in *; [done|]. rewrite IH. lia.
Qed.
End MemoryFs.

(** ** Examples *)
Import MemoryFs MemoryDb.

Definition example_store : ContentAddressableBlobStore :=
  {| name := str "s3data"; base_path := str "/srv/s3data" |}.

Definition example_fs : FS := (started example_store (∅ : gmap bytes node)).2.

Definition uuid_1 : bytes := str "7c1f0d2e-0000-4000-8000-000000000001".
Definition uuid_2 : bytes := str "7c1f0d2e-0000-4000-8000-000000000002".

Lemma plain_bool q : negb (bool_decide (q = [])) && bool_decide (47 ∉ q) = true → plain q.
Proof.
  intros [H1 H2]%andb_true_iff. split; [by apply negb_true_iff, bool_decide_eq_false in H1|].
  by apply bool_decide_eq_true in H2.
Qed.

Lemma example_fs_dirs q n : fs_nodes example_fs !! q = Some n → n = Dir.
Proof.
  intros H. assert (map_Forall (λ _ n, n = Dir) (fs_nodes example_fs)) as Hall.
  { apply (bool_decide_eq_true_1 _). by vm_compute. }
  by apply (Hall q n).
Qed.

Lemma example_fs_ok : blobs_ok example_store (fs_nodes example_fs).
Proof.
  split; [split; [done|by vm_compute]|vm_compute; reflexivity..|].
  intros c E. 
  assert (set_Forall (λ q, (length q < 21)%nat) (dom (fs_nodes example_fs))) as Hall.
  { apply (bool_decide_eq_true_1 _). by vm_compute. }
  specialize (Hall (blob_path example_store c)). apply elem_of_dom_2 in E. apply Hall in E.
  unfold blob_path in E. rewrite !length_app, hex_encode_length, sha256_length in E. lia.
Qed.

Lemma blob_integrity_witness :
  integrity example_store
    (foldl (run_op example_store) example_fs
       [OpPut uuid_1 [inr (str "cat"); inl {| msg := str "closed" |}];
        OpPut uuid_2 [inr (str "cat")]; OpDelete (str "none")]).
Proof.
  apply (blob_integrity example_store).
  - split; [done|by vm_compute].
  - rewrite !Forall_cons. split_and!; [..|done]; intros uuid data E; [| |done];
      injection E as <- _; by apply plain_bool.
  - intros n c _ H. by apply example_fs_dirs in H.
Defined.

Lemma hash_file_equiv_witness :
  hash_file (str "/f") ({[str "/f" := File (str "cat")]} : gmap bytes node)
    = (Ok (hex_encode (digest_of Md5 (str "cat")), hex_encode (digest_of Sha256 (str "cat"))),
       {[str "/f" := File (str "cat")]}).
Proof. apply (hash_file_equiv (str "/f") (str "cat")). by vm_compute. Defined.

Lemma blob_roundtrip_witness :
  ∃ info info' f1 f2 pieces,
    PutBlob example_store uuid_1 (map inr [str "ca"; str "t"]) example_fs = (Ok info, f1) ∧
    size info = 3 ∧
    PutBlob example_store uuid_2 (map inr [str "dog"]) f1 = (Ok info', f2) ∧
    GetBlob example_store (sha256sum info) f2 = (Ok (map inr pieces), f2) ∧
    concat pieces = str "cat".
Proof.
  apply (blob_roundtrip example_store uuid_1 uuid_2 [str "ca"; str "t"] [str "dog"] example_fs);
    [apply example_fs_ok|by apply plain_bool..|by vm_compute|by vm_compute|by vm_compute].
Defined.
