(* ===== verification/S3Backend.v ===== *)
(** * The S3 backend of replistore (replistore/src/frontend/s3/s3_backend.rs, messages.rs)

    The actor [S3] keeps the buckets in the key-value store [s3metadata\0root],
    the objects of a bucket and their metadata in the store
    [s3metadata\0<bucket>], and the contents in the blob store [s3data].  A
    handler is a future that sends messages to these actors one after the other;
    it is modelled as a computation on the world they share: the owner of the
    stores, the database, the file system and the events given to the replicator.
    A failed or panicking handler leaves in the world what it did before. *)
From S2P Require Import Prelude RustStr RocksDb Routing KeyValue BlobStore.
Import KeyValueStore StoreOwner BlobStore.

(** The crate [time]: instants, and their Unix time in seconds. *)
Class TimeCrate := {
  OffsetDateTime : Type;
  unix_timestamp : OffsetDateTime → Z;
  from_unix_timestamp : Z → option OffsetDateTime;
}.

Class TimeCrateLaws `{!TimeCrate} : Prop := {
  unix_timestamp_range t : i64_ok (unix_timestamp t);
  from_unix_timestamp_spec t :
    ∃ t', from_unix_timestamp (unix_timestamp t) = Some t' ∧ unix_timestamp t' = unix_timestamp t;
  from_unix_timestamp_value z t : from_unix_timestamp z = Some t → unix_timestamp t = z;
  from_unix_timestamp_epoch : is_Some (from_unix_timestamp 0);
}.

(** ** The events of the replication protocol (replication/messages.proto) *)
Record Timestamp := { seconds : Z; nanos : Z }.
Record ObjectMeta := {
  om_last_modified : option Timestamp;
  om_size : Z;
  om_md5sum : bytes;
  om_sha256sum : bytes;
}.
Inductive EventType := EvPut | EvDelete.
Record Event := {
  ev_type : EventType;
  ev_version : Z;
  ev_object_name : bytes;
  ev_object_meta : option ObjectMeta;
}.
Record ProtoObject := { po_sha256sum : bytes; po_data : bytes }.
Record BucketEvent := {
  be_bucket_name : bytes;
  be_events : list Event;
  be_objects : list ProtoObject;
}.

Module S3.

Section backend.
Context `{!RocksDB, !FileSystem, !Hashes, !TimeCrate, !HashOrder}.

(** ** The messages *)
Record S3Error := { store_error : StoreError }.

Record Object := {
  o_key : bytes;
  o_md5sum : bytes;
  o_sha256sum : bytes;
  o_last_modified : OffsetDateTime;
  o_size : Z;
}.

Record ReadDataError := { rd_msg : bytes }.

Inductive CreateBucketError := CreateS3Error (e : S3Error) | BucketAlreadyExists.
Inductive PutObjectError :=
| PutS3Error (e : S3Error) | PutBucketNotFound | PutReadDataError (e : ReadDataError).
Inductive ListObjectError := ListS3Error (e : S3Error) | ListBucketNotFound.
Inductive HeadObjectError :=
| HeadS3Error (e : S3Error) | HeadBucketNotFound | HeadObjectNotFound.
Inductive GetObjectError :=
| GetS3Error (e : S3Error) | GetBucketNotFound | GetObjectNotFound
| GetReadDataError (e : ReadDataError).
Inductive DeleteObjectError :=
| DeleteS3Error (e : S3Error) | DeleteBucketNotFound | DeleteObjectNotFound
| DeleteReadDataError (e : ReadDataError).
Inductive ReceiveEventError := ReceiveS3Error (e : S3Error) | BucketNotExists.

(** The conversions of [From]. *)
Definition s3_error (e : StoreError) : S3Error := {| store_error := e |}.

Definition put_error (e : PutBlobError) : PutObjectError :=
  match e with
  | PutStore e => PutS3Error (s3_error e)
  | PutBlobRead e => PutReadDataError {| rd_msg := msg e |}
  | PutIo e => PutReadDataError {| rd_msg := io_to_string e |}
  end.

Definition get_error (e : GetBlobError) : GetObjectError :=
  match e with
  | GetStore e => GetS3Error (s3_error e)
  | GetBlobRead e => GetReadDataError {| rd_msg := msg e |}
  | GetIo e => GetReadDataError {| rd_msg := io_to_string e |}
  | GetBlobDoesNotExist => GetObjectNotFound
  end.

Definition delete_error (e : DeleteBlobError) : DeleteObjectError :=
  match e with
  | DeleteStore e => DeleteS3Error (s3_error e)
  | DeleteIo e => DeleteReadDataError {| rd_msg := io_to_string e |}
  | DeleteBlobDoesNotExist => DeleteObjectNotFound
  end.

(** ** The world *)
Record World := {
  w_owner : StoreOwner;
  w_db : DB;
  w_fs : FS;
  w_sent : list BucketEvent;
}.

Definition set_db (w : World) (d : DB) : World :=
  {| w_owner := w_owner w; w_db := d; w_fs := w_fs w; w_sent := w_sent w |}.
Definition set_fs (w : World) (f : FS) : World :=
  {| w_owner := w_owner w; w_db := w_db w; w_fs := f; w_sent := w_sent w |}.

(** A message to another actor and its answer, with [?] on the answer. *)
Definition in_db {E A} (f : StoreError → E) (m : io DB StoreError A) : io World E A := λ w,
  let '(r, d) := m (w_db w) in (map_err f r, set_db w d).

Definition in_fs {E F A} (f : E → F) (m : io FS E A) : io World F A := λ w,
  let '(r, fs) := m (w_fs w) in (map_err f r, set_fs w fs).

Definition in_owner {E A} (m : io (StoreOwner * DB) E A) : io World E A := λ w,
  let '(r, (o, d)) := m (w_owner w, w_db w) in
  (r, {| w_owner := o; w_db := d; w_fs := w_fs w; w_sent := w_sent w |}).

(** [replicator.do_send(ReplicateEvent { .. })]. *)
Definition replicate {E} (e : BucketEvent) : io World E () := λ w,
  (Ok (), {| w_owner := w_owner w; w_db := w_db w; w_fs := w_fs w; w_sent := w_sent w ++ [e] |}).

(** ** The actor *)
Record S3 := {
  kv_store : option KeyValueStore;
  blob_store : option ContentAddressableBlobStore;
  storage_dir : bytes;
}.

Definition S3_new (storage_dir : bytes) : S3 :=
  {| kv_store := None; blob_store := None; storage_dir := storage_dir |}.

Definition store {E} (self : S3) : io World E KeyValueStore := io_lift (unwrap (kv_store self)).
Definition get_blob_store {E} (self : S3) : io World E ContentAddressableBlobStore :=
  io_lift (unwrap (blob_store self)).

Definition bucket_path (name : bytes) : key := [str "buckets"; name].
Definition bucket_version_path (name : bytes) : key := [str "bucketmeta"; name; str "version"].
Definition object_path (bucket k : bytes) : key := [str "objects"; bucket; k].
Definition objectmeta_path (bucket k suffix : bytes) : key := [str "objectmeta"; bucket; k; suffix].

Definition root_store_name : bytes := str "s3metadata" ++ NUL ++ str "root".
Definition bucket_store_name (bucket : bytes) : bytes := str "s3metadata" ++ NUL ++ bucket.

(** The answer of the owner: a mismatch of the types is a panic. *)
Definition bucket_store {E} (from_store : StoreError → E) (bucket : bytes) : io World E KeyValueStore := λ w,
  match in_owner (GetOrCreateKeyValueStore (bucket_store_name bucket)) w with
  | (Ok addr, w) => (Ok addr, w)
  | (Err (GetStoreError e), w) => (Err (from_store e), w)
  | (Err (StoreTypeMissmatch _ _), w) | (Panic, w) => (Panic, w)
  end.

(** The store of a bucket that exists. *)
Definition with_bucket_store {E A} (self : S3) (from_store : StoreError → E) (bucket : bytes)
    (not_found_error : E) (handler : KeyValueStore → io World E A) : io World E A :=
  root_store ← store self;
  r ← in_db from_store (Get root_store (bucket_path bucket));
  match r with
  | None => io_lift (Err not_found_error)
  | Some _ => addr ← bucket_store from_store bucket; handler addr
  end.

(** [e.parse().unwrap_or_default()] of an entry that may be missing. *)
Definition parse_or_default (parse : bytes → option Z) (o : option bytes) : Z :=
  default 0 (o ≫= parse).

Definition meta_to_obj (st : KeyValueStore) (bucket obj : bytes) : io DB StoreError Object :=
  meta ← List_ st [str "objectmeta"; bucket; obj; []];
  last_modified ← io_lift (unwrap (from_unix_timestamp
    (parse_or_default parse_i64 (meta !! str "last_modified"))));
  mret {|
    o_key := obj;
    o_md5sum := default [] (meta !! str "md5sum");
    o_sha256sum := default [] (meta !! str "sha256sum");
    o_last_modified := last_modified;
    o_size := parse_or_default parse_u64 (meta !! str "size");
  |}.

(** The owner starts a blob store the first time it is asked for it. *)
Definition create_blob_store (name path : bytes) : io World GetOrCreateError ContentAddressableBlobStore :=
  w ← io_get;
  dir ← in_owner (GetOrCreateContentAddressableBlobStore name path);
  let st := {| BlobStore.name := name; base_path := dir |} in
  match blob_stores (w_owner w) !! name with
  | Some _ => mret st
  | None => in_fs (Empty_set_rect _) (BlobStore.started st);; mret st
  end.

(** [started]: whether the actor was stopped comes with its fields. *)
Definition started (self : S3) : io World Empty_set (S3 * bool) := λ w,
  match in_owner (GetOrCreateKeyValueStore root_store_name) w with
  | (Panic, w) => (Panic, w)
  | (r, w) =>
      let '(kv, stopped) := match r with Ok addr => (Some addr, false) | _ => (kv_store self, true) end in
      match create_blob_store (str "s3data") (path_join (storage_dir self) (str "s3data")) w with
      | (Panic, w) => (Panic, w)
      | (r, w) =>
          let '(blob, stopped) :=
            match r with Ok addr => (Some addr, stopped) | _ => (blob_store self, true) end in
          (Ok ({| kv_store := kv; blob_store := blob; storage_dir := storage_dir self |}, stopped), w)
      end
  end.

Definition ListBuckets (self : S3) : io World S3Error (list bytes) :=
  st ← store self;
  resp ← in_db s3_error (List_ st [str "buckets"; []]);
  mret (order (map_to_list resp)).*1.

Definition CreateBucket (self : S3) (name : bytes) : io World CreateBucketError bytes :=
  st ← store self;
  resp ← in_db (λ e, CreateS3Error (s3_error e)) (Get st (bucket_path name));
  match resp with
  | Some _ => io_lift (Err BucketAlreadyExists)
  | None =>
      in_db (λ e, CreateS3Error (s3_error e))
        (Set_ st (bucket_version_path name) (bucket_path name) []);;
      mret name
  end.

Definition HeadBucket (self : S3) (name : bytes) : io World S3Error (option ()) :=
  st ← store self;
  resp ← in_db s3_error (Get st (bucket_path name));
  mret (match resp with Some _ => Some () | None => None end).

(** [for obj in .. { result.push(Self::meta_to_obj(..).await?); }]. *)
Fixpoint list_objects (st : KeyValueStore) (bucket : bytes) (objs : list bytes)
    : io DB StoreError (list Object) :=
  match objs with
  | [] => mret []
  | obj :: objs =>
      o ← meta_to_obj st bucket obj;
      result ← list_objects st bucket objs;
      mret (o :: result)
  end.

Definition ListObject (self : S3) (bucket prefix : bytes) : io World ListObjectError (list Object) :=
  with_bucket_store self (λ e, ListS3Error (s3_error e)) bucket ListBucketNotFound (λ st,
    in_db (λ e, ListS3Error (s3_error e))
      (found ← List_ st (object_path bucket prefix);
       list_objects st bucket (order (map_to_list found)).*1)).

Definition HeadObject (self : S3) (bucket k : bytes) : io World HeadObjectError Object :=
  with_bucket_store self (λ e, HeadS3Error (s3_error e)) bucket HeadBucketNotFound (λ st,
    resp ← in_db (λ e, HeadS3Error (s3_error e)) (Get st (object_path bucket k));
    match resp with
    | None => io_lift (Err HeadObjectNotFound)
    | Some _ => in_db (λ e, HeadS3Error (s3_error e)) (meta_to_obj st bucket k)
    end).

(** The entries that describe an object; their keys are different. *)
Definition object_entries (bucket k : bytes) (info : BlobInfo) (last_modified : OffsetDateTime)
    : gmap key bytes :=
  list_to_map [
    (object_path bucket k, []);
    (objectmeta_path bucket k (str "last_modified"), display_i64 (unix_timestamp last_modified));
    (objectmeta_path bucket k (str "md5sum"), md5sum info);
    (objectmeta_path bucket k (str "sha256sum"), sha256sum info);
    (objectmeta_path bucket k (str "size"), display_u64 (size info))].

Definition put_event (bucket k : bytes) (version : Z) (info : BlobInfo) (last_modified : OffsetDateTime)
    : BucketEvent := {|
  be_bucket_name := bucket;
  be_events := [{|
    ev_type := EvPut;
    ev_version := version;
    ev_object_name := k;
    ev_object_meta := Some {|
      om_last_modified := Some {| seconds := unix_timestamp last_modified; nanos := 0 |};
      om_size := size info;
      om_md5sum := md5sum info;
      om_sha256sum := sha256sum info |} |}];
  be_objects := [];
|}.

Definition PutObject (self : S3) (uuid : bytes) (now : OffsetDateTime) (bucket k : bytes)
    (data : list (ReadDataError + bytes)) : io World PutObjectError Object :=
  blob ← get_blob_store self;
  with_bucket_store self (λ e, PutS3Error (s3_error e)) bucket PutBucketNotFound (λ st,
    info ← in_fs put_error (PutBlob blob uuid
      (map (λ i, match i with inr b => inr b | inl e => inl {| msg := rd_msg e |} end) data));
    version ← in_db (λ e, PutS3Error (s3_error e))
      (MultiSet st (bucket_version_path bucket) (object_entries bucket k info now));
    replicate (put_event bucket k version info now);;
    mret {|
      o_key := k;
      o_md5sum := md5sum info;
      o_sha256sum := sha256sum info;
      o_size := size info;
      o_last_modified := now |}).

Definition GetObject (self : S3) (bucket k : bytes)
    : io World GetObjectError (Object * list (ReadDataError + bytes)) :=
  blob ← get_blob_store self;
  with_bucket_store self (λ e, GetS3Error (s3_error e)) bucket GetBucketNotFound (λ st,
    resp ← in_db (λ e, GetS3Error (s3_error e)) (Get st (object_path bucket k));
    match resp with
    | None => io_lift (Err GetObjectNotFound)
    | Some _ =>
        meta ← in_db (λ e, GetS3Error (s3_error e)) (meta_to_obj st bucket k);
        resp ← in_fs get_error (GetBlob blob (o_sha256sum meta));
        mret (meta, map (λ i, match i with
                              | inr b => inr b
                              | inl e => inl {| rd_msg := msg e |}
                              end) resp)
    end).

Definition delete_event (bucket k : bytes) (version : Z) : BucketEvent := {|
  be_bucket_name := bucket;
  be_events := [{|
    ev_type := EvDelete;
    ev_version := version;
    ev_object_name := k;
    ev_object_meta := None |}];
  be_objects := [];
|}.

Definition DeleteObject (self : S3) (bucket k : bytes) : io World DeleteObjectError () :=
  blob ← get_blob_store self;
  with_bucket_store self (λ e, DeleteS3Error (s3_error e)) bucket DeleteBucketNotFound (λ st,
    resp ← in_db (λ e, DeleteS3Error (s3_error e)) (Get st (object_path bucket k));
    match resp with
    | None => io_lift (Err DeleteObjectNotFound)
    | Some _ =>
        meta ← in_db (λ e, DeleteS3Error (s3_error e)) (meta_to_obj st bucket k);
        version ← in_db (λ e, DeleteS3Error (s3_error e))
          (MultiDelete st (bucket_version_path bucket)
             [object_path bucket k; [str "objectmeta"; bucket; k; []]]);
        replicate (delete_event bucket k version);;
        in_fs delete_error (DeleteBlob blob (o_sha256sum meta))
    end).

(** The versions are only compared in the log. *)
Fixpoint receive_events (st : KeyValueStore) (bucket : bytes) (events : list Event)
    : io DB StoreError () :=
  match events with
  | [] => mret ()
  | _ :: events => Get st (bucket_version_path bucket);; receive_events st bucket events
  end.

Definition EventReplicationReceived (self : S3) (e : BucketEvent) : io World ReceiveEventError () :=
  with_bucket_store self (λ e, ReceiveS3Error (s3_error e)) (be_bucket_name e) BucketNotExists (λ st,
    in_db (λ e, ReceiveS3Error (s3_error e)) (receive_events st (be_bucket_name e) (be_events e))).
End backend.
End S3.
