(* ===== verification/S3Spec.v ===== *)
(** * What the S3 backend promises

    The abstract store has buckets, a bucket has objects and the version of its
    last change, an object has its content and the second of its upload.
    [s3_step] says what every request answers and changes.  The backend implements
    it on the database and the file system: the relation [s3_rep] says how. *)
From S2P Require Import Prelude RustStr RocksDb Routing KeyValue KeyValueSpec BlobStore S3Backend.
Import KeyValueStore StoreOwner BlobStore KvSpec.

(** ** The abstract store *)
Module S3Spec.

Record Obj := { ob_content : bytes; ob_modified : Z }.
Record Bucket := { b_objects : gmap bytes Obj; b_version : option Z }.

Definition new_bucket : Bucket := {| b_objects := ∅; b_version := None |}.

Abbreviation state := (gmap bytes Bucket) (only parsing).

Definition bump (B : Bucket) : Z := match b_version B with Some n => wrap64 (n + 1) | None => 1 end.

Definition put_obj (k : bytes) (o : Obj) (B : Bucket) : Bucket :=
  {| b_objects := <[k := o]> (b_objects B); b_version := Some (bump B) |}.
Definition delete_obj (k : bytes) (B : Bucket) : Bucket :=
  {| b_objects := delete k (b_objects B); b_version := Some (bump B) |}.
End S3Spec.
Import S3Spec.

(** ** How it is kept *)
Section representation.
Context `{!RocksDB, !FileSystem, !Hashes, !TimeCrate}.

Abbreviation sha c := (hex_encode (digest_of Sha256 c)) (only parsing).
Abbreviation md5 c := (hex_encode (digest_of Md5 c)) (only parsing).

Definition meta_field (o : Obj) (suffix : bytes) : option bytes :=
  if decide (suffix = str "last_modified") then Some (display_i64 (ob_modified o))
  else if decide (suffix = str "md5sum") then Some (md5 (ob_content o))
  else if decide (suffix = str "sha256sum") then Some (sha (ob_content o))
  else if decide (suffix = str "size") then Some (display_u64 (Z.of_nat (length (ob_content o))))
  else None.

(** The entries of the store of the bucket [b]. *)
Inductive bucket_entry (b : bytes) (B : Bucket) : key → Value → Prop :=
| entry_object k o :
    b_objects B !! k = Some o → bucket_entry b B (S3.object_path b k) (Text [])
| entry_meta k o suffix v :
    b_objects B !! k = Some o → meta_field o suffix = Some v →
    bucket_entry b B (S3.objectmeta_path b k suffix) (Text v)
| entry_version n :
    b_version B = Some n → bucket_entry b B (S3.bucket_version_path b) (Version n).

(** The entries of the root store. *)
Inductive root_entry (S : state) : key → Value → Prop :=
| entry_bucket b : is_Some (S !! b) → root_entry S (S3.bucket_path b) (Text [])
| entry_bucket_version b :
    is_Some (S !! b) → root_entry S (S3.bucket_version_path b) (Version 1).

Definition name_ok (s : bytes) : Prop := (0 ∉ s) ∧ utf8_valid s = true.

Definition bstore (n : bytes) : KeyValueStore := {| KeyValueStore.name := S3.bucket_store_name n |}.

Record db_rep (d : DB) (S : state) (K : bytes → gmap key Value) : Prop := {
  dr_stores n : 0 ∉ n → represents (bstore n) d (K n);
  dr_root p v : K (str "root") !! p = Some v ↔ root_entry S p v;
  dr_bucket b p v :
    b ≠ str "root" → K b !! p = Some v ↔ bucket_entry b (default new_bucket (S !! b)) p v;
  dr_types n e : db_contents d !! type_key (S3.bucket_store_name n) = Some e → e = as_bytes KeyValue;
}.

Definition owner_ok (o : StoreOwner) : Prop :=
  ∀ n st, kv_stores o !! n = Some st → st = {| KeyValueStore.name := n |}.

(** [used] are the UUIDs that uploads have been given. *)
Record fs_rep (blob : ContentAddressableBlobStore) (f : FS) (S : state) (used : gset bytes) : Prop := {
  fr_ok : blobs_ok blob (fs_nodes f);
  fr_tmp u : plain u → u ∉ used → fs_nodes f !! (tmp_dir blob ++ str "/" ++ u) = None;
  fr_blob b B k o :
    S !! b = Some B → b_objects B !! k = Some o →
    fs_nodes f !! blob_path blob (ob_content o) = Some (File (ob_content o));
}.

(** What holds of the abstract store itself. *)
Definition obj_ok (o : Obj) : Prop :=
  (∃ t, ob_modified o = unix_timestamp t) ∧ u64_ok (Z.of_nat (length (ob_content o))).
Definition state_ok (S : state) : Prop :=
  map_Forall (λ b B, name_ok b ∧ b ≠ str "root" ∧
    map_Forall (λ k o, name_ok k ∧ obj_ok o) (b_objects B)) S.

Definition s3_rep (blob : ContentAddressableBlobStore) (w : S3.World) (S : state) (used : gset bytes) : Prop :=
  (∃ K, db_rep (S3.w_db w) S K) ∧ owner_ok (S3.w_owner w) ∧
  fs_rep blob (S3.w_fs w) S used ∧ state_ok S.
End representation.

(** ** Paths and stores *)
Section stores.
Context {HR : RocksDB} {HL : RocksDBLaws} {HW : RocksDBWorks} {HO : HashOrder} {HOL : HashOrderLaws}.
Implicit Types (st : KeyValueStore) (n b k : bytes) (d : DB).

Lemma split_store_name n : 0 ∉ n → split_nul (S3.bucket_store_name n) = [str "s3metadata"; n].
Proof.
  intros Hn. change (S3.bucket_store_name n) with (str "s3metadata" ++ 0 :: n).
  rewrite split_nul_cons.
  - by rewrite split_nul_no_nul.
  - refine (bool_decide_eq_true_1 _ _). by vm_compute.
Qed.

Lemma store_names_apart n n' :
  0 ∉ n → 0 ∉ n' → n ≠ n' → apart (S3.bucket_store_name n) (S3.bucket_store_name n').
Proof.
  intros Hn Hn' Hne. unfold apart. rewrite !split_store_name by done.
  split; intros [r Hr]; by simplify_eq/=.
Qed.

(** The types of the stores are kept apart from their entries. *)
Lemma type_key_apart st n : starts_with (store_prefix st) (type_key n) = false.
Proof.
  apply not_true_is_false. intros [r Hr]%starts_with_split. unfold store_prefix, type_key in Hr.
  rewrite <-!app_assoc in Hr. apply app_inv_head in Hr. done.
Qed.

Lemma rep_type_key (st : KeyValueStore) (n v : bytes) (m : gmap bytes bytes) (s : gmap key Value) : rep st m s → rep st (<[type_key n := v]> m) s.
Proof.
  intros [Hl Hok]. split; [|done]. intros x. rewrite lookup_insert_ne; [apply Hl|].
  intros E. pose proof (type_key_apart st n) as Hf. rewrite E in Hf.
  by rewrite starts_with_app in Hf.
Qed.

(** A command to one of the stores, seen on all of them. *)
Lemma exec_family n (c : Command) (d : DB) (K : bytes → gmap key Value) :
  (∀ n, 0 ∉ n → represents (bstore n) d (K n)) → 0 ∉ n → command_ok c (K n) →
  ∃ d', exec (bstore n) c d = (Ok (run c (K n)).1, d') ∧
    (∀ m, 0 ∉ m → represents (bstore m) d' (if decide (m = n) then (run c (K n)).2 else K m)) ∧
    (∀ m, db_contents d' !! type_key m = db_contents d !! type_key m).
Proof.
  intros HK Hn Hc. destruct (exec_refines (bstore n) c d (K n)) as (d' & Hd' & Hr); [auto..|].
  exists d'. split_and!; [done| |].
  - intros m Hm. case_decide as E; [by subst|].
    apply (represents_frame (bstore n) (bstore m) c d _ d' _ (store_names_apart n m Hn Hm (not_eq_sym E)) Hd').
    by apply HK.
  - intros m. apply (kv_frame (bstore n) c d _ d' _ Hd'). apply type_key_apart.
Qed.

Lemma name_ok_lit (s : bytes) : bool_decide (0 ∉ s) && utf8_valid s = true → name_ok s.
Proof. intros [H1 H2]%andb_true_iff. by apply bool_decide_eq_true in H1. Qed.

Lemma bucket_path_ok b : name_ok b → key_ok (S3.bucket_path b).
Proof. intros Hb. split; [done|]. repeat constructor; try apply Hb; by apply name_ok_lit. Qed.
Lemma version_path_ok b : name_ok b → key_ok (S3.bucket_version_path b).
Proof. intros Hb. split; [done|]. repeat constructor; try apply Hb; by apply name_ok_lit. Qed.
Lemma object_path_ok b k : name_ok b → name_ok k → key_ok (S3.object_path b k).
Proof. intros Hb Hk. split; [done|]. repeat constructor; try apply Hb; try apply Hk; by apply name_ok_lit. Qed.
Lemma objectmeta_path_ok b k suffix :
  name_ok b → name_ok k → name_ok suffix → key_ok (S3.objectmeta_path b k suffix).
Proof.
  intros Hb Hk Hs. split; [done|].
  repeat constructor; try apply Hb; try apply Hk; try apply Hs; by apply name_ok_lit.
Qed.
End stores.

(** [path_cases] uses that different kinds of entries have different paths. *)
Ltac path_cases :=
  unfold S3.object_path, S3.objectmeta_path, S3.bucket_path, S3.bucket_version_path in *;
  simplify_eq/=;
  repeat match goal with H : str _ = str _ |- _ => solve [vm_compute in H; discriminate H] || clear H end.

Section lookup.
Context {HR : RocksDB} {HF : FileSystem} {HH : Hashes} {HT : TimeCrate}.
Implicit Types (n b k : bytes) (d : DB) (B : Bucket).

Lemma entry_object_iff b B k v :
  bucket_entry b B (S3.object_path b k) v ↔ v = Text [] ∧ is_Some (b_objects B !! k).
Proof.
  split.
  - remember (S3.object_path b k) as p. destruct 1; path_cases. eauto.
  - intros [-> [o Ho]]. by apply entry_object with o.
Qed.

Lemma entry_meta_iff b B k suffix v :
  bucket_entry b B (S3.objectmeta_path b k suffix) v ↔
  ∃ o t, b_objects B !! k = Some o ∧ meta_field o suffix = Some t ∧ v = Text t.
Proof.
  split.
  - remember (S3.objectmeta_path b k suffix) as p. destruct 1; path_cases. eauto.
  - intros (o & t & Ho & Ht & ->). by apply entry_meta with o.
Qed.

Lemma entry_version_iff b B v :
  bucket_entry b B (S3.bucket_version_path b) v ↔ ∃ z, v = Version z ∧ b_version B = Some z.
Proof.
  split.
  - remember (S3.bucket_version_path b) as p. destruct 1; path_cases. eauto.
  - intros (z & -> & Hz). by apply entry_version.
Qed.

Lemma root_bucket_iff (S : gmap bytes Bucket) b v :
  root_entry S (S3.bucket_path b) v ↔ v = Text [] ∧ is_Some (S !! b).
Proof.
  split.
  - remember (S3.bucket_path b) as p. destruct 1; path_cases. eauto.
  - intros [-> Hb]. by apply entry_bucket.
Qed.

Context {d : DB} {S : gmap bytes Bucket} {K : bytes → gmap key Value} (Hdb : db_rep d S K).

Lemma lookup_bucket b : K (str "root") !! S3.bucket_path b = (λ _, Text []) <$> S !! b.
Proof.
  apply option_eq. intros v. rewrite (dr_root _ _ _ Hdb), root_bucket_iff.
  destruct (S !! b); naive_solver eauto.
Qed.

Lemma lookup_root_version b : ¬ is_text (K (str "root") !! S3.bucket_version_path b).
Proof.
  intros [t Ht]. apply (dr_root _ _ _ Hdb) in Ht. remember (S3.bucket_version_path b) as p.
  remember (Text t) as v. destruct Ht; path_cases.
Qed.

Context {b : bytes} {B : Bucket} (Hb : b ≠ str "root") (HB : default new_bucket (S !! b) = B).

Lemma lookup_object k : K b !! S3.object_path b k = (λ _, Text []) <$> b_objects B !! k.
Proof.
  apply option_eq. intros v. rewrite (dr_bucket _ _ _ Hdb) by done. rewrite HB, entry_object_iff.
  destruct (b_objects B !! k); naive_solver eauto.
Qed.

Lemma lookup_meta k suffix :
  K b !! S3.objectmeta_path b k suffix = Text <$> (b_objects B !! k ≫= λ o, meta_field o suffix).
Proof.
  apply option_eq. intros v. rewrite (dr_bucket _ _ _ Hdb) by done. rewrite HB, entry_meta_iff.
  destruct (b_objects B !! k) as [o|]; simpl; [|naive_solver].
  destruct (meta_field o suffix) eqn:E; naive_solver.
Qed.

Lemma lookup_version : K b !! S3.bucket_version_path b = Version <$> b_version B.
Proof.
  apply option_eq. intros v. rewrite (dr_bucket _ _ _ Hdb) by done. rewrite HB, entry_version_iff.
  destruct (b_version B); naive_solver.
Qed.

Lemma next_version_bump : next_version (S3.bucket_version_path b) (K b) = bump B.
Proof. unfold next_version, bump. rewrite lookup_version. by destruct (b_version B). Qed.
End lookup.

(** ** Running the backend *)
Section run.
Context {HR : RocksDB} {HRL : RocksDBLaws} {HRW : RocksDBWorks}.
Context {HF : FileSystem} {HFL : FileSystemLaws} {HFW : FileSystemWorks}.
Context {HH : Hashes} {HHL : HashesLaws} {HT : TimeCrate} {HTL : TimeCrateLaws}.
Context {HO : HashOrder} {HOL : HashOrderLaws}.
Implicit Types (n b k c : bytes) (d : DB) (B : Bucket) (w : S3.World) (st : KeyValueStore) (z : Z) (p : key) (v : Value) (now : OffsetDateTime).

Lemma in_db_Ok {E A} (f : StoreError → E) (m : io DB StoreError A) w a d :
  m (S3.w_db w) = (Ok a, d) → S3.in_db f m w = (Ok a, S3.set_db w d).
Proof. intros H. unfold S3.in_db. by rewrite H. Qed.

Lemma in_fs_Ok {E F A} (f : E → F) (m : io FS E A) w a fs :
  m (S3.w_fs w) = (Ok a, fs) → S3.in_fs f m w = (Ok a, S3.set_fs w fs).
Proof. intros H. unfold S3.in_fs. by rewrite H. Qed.

Lemma set_db_same w : S3.set_db w (S3.w_db w) = w.
Proof. by destruct w. Qed.

Lemma db_rep_type d d' (S : gmap bytes Bucket) K n :
  db_rep d S K →
  db_contents d' = <[type_key (S3.bucket_store_name n) := as_bytes KeyValue]> (db_contents d) →
  db_rep d' S K.
Proof.
  intros [Hs Hr Hb Ht] Hd. split; [|done..|].
  - intros m Hm. unfold represents. rewrite Hd. by apply rep_type_key, Hs.
  - intros m e. rewrite Hd. intros [[_ <-]|[_ H]]%lookup_insert_Some; [done|]. by apply (Ht m).
Qed.

(** What a world and the one after looking up a store have in common. *)
Definition same_world w w' (S : gmap bytes Bucket) (K : bytes → gmap key Value) : Prop :=
  db_rep (S3.w_db w') S K ∧ owner_ok (S3.w_owner w') ∧
  S3.w_fs w' = S3.w_fs w ∧ S3.w_sent w' = S3.w_sent w.

Lemma owner_run n w (S : gmap bytes Bucket) K :
  db_rep (S3.w_db w) S K → owner_ok (S3.w_owner w) →
  ∃ w', S3.in_owner (GetOrCreateKeyValueStore (S3.bucket_store_name n)) w = (Ok (bstore n), w') ∧
    same_world w w' S K.
Proof.
  intros Hdb Ho. set (nm := S3.bucket_store_name n).
  assert (∃ d', db_rep d' S K ∧
    check_or_create_store_type nm KeyValue (S3.w_owner w, S3.w_db w)
      = (Ok (Some ()), (S3.w_owner w, d'))) as (d' & Hd' & Hc).
  { unfold check_or_create_store_type. rewrite io_bind_get, get_run. unfold db_owner.
    rewrite io_bind_lift. destruct (db_contents (S3.w_db w) !! type_key nm) as [e|] eqn:E.
    - apply (dr_types _ _ _ Hdb) in E as ->. rewrite bool_decide_eq_true_2 by done. eauto.
    - destruct (db_put_works (S3.w_db w) (type_key nm) (as_bytes KeyValue)) as [d1 H1].
      rewrite H1, io_bind_lift. exists d1. split; [|done].
      by apply (db_rep_type (S3.w_db w) d1 S K n), db_put_spec. }
  unfold S3.in_owner, GetOrCreateKeyValueStore. rewrite (io_bind_Ok _ _ _ _ _ Hc), io_bind_get.
  destruct (kv_stores (S3.w_owner w) !! nm) as [st|] eqn:E.
  - apply Ho in E as ->. eexists. split; [done|]. done.
  - eexists. split; [done|]. split_and!; [done| |done..]. intros m st. simpl.
    intros [[<- <-]|[_ H]]%lookup_insert_Some; [done|]. by apply Ho.
Qed.

Lemma bucket_store_run {E} (f : StoreError → E) b w (S : gmap bytes Bucket) K :
  db_rep (S3.w_db w) S K → owner_ok (S3.w_owner w) →
  ∃ w', S3.bucket_store f b w = (Ok (bstore b), w') ∧ same_world w w' S K.
Proof.
  intros Hdb Ho. destruct (owner_run b w S K Hdb Ho) as (w' & Hw & Hs). exists w'.
  split; [|done]. unfold S3.bucket_store. by rewrite Hw.
Qed.

(** The actor once it has started. *)
Definition running (blob : ContentAddressableBlobStore) (dir : bytes) : S3.S3 :=
  {| S3.kv_store := Some (bstore (str "root")); S3.blob_store := Some blob; S3.storage_dir := dir |}.

Context (blob : ContentAddressableBlobStore) (dir : bytes).

Lemma store_run {E} w : S3.store (E := E) (running blob dir) w = (Ok (bstore (str "root")), w).
Proof. done. Qed.

Lemma blob_store_run {E} w : S3.get_blob_store (E := E) (running blob dir) w = (Ok blob, w).
Proof. done. Qed.

Lemma get_bucket_run b d (S : gmap bytes Bucket) K :
  db_rep d S K → name_ok b →
  Get (bstore (str "root")) (S3.bucket_path b) d = (Ok ((λ _, []) <$> S !! b), d).
Proof.
  intros Hdb Hb. rewrite (Get_run _ _ _ (K (str "root"))).
  - rewrite (lookup_bucket Hdb). by destruct (S !! b).
  - apply (dr_stores _ _ _ Hdb). refine (bool_decide_eq_true_1 _ _). by vm_compute.
  - by apply bucket_path_ok.
  - rewrite (lookup_bucket Hdb). destruct (S !! b); by intros [? ?].
Qed.

Lemma with_bucket_store_run {E} (f : StoreError → E) b w (S : gmap bytes Bucket) K B :
  db_rep (S3.w_db w) S K → owner_ok (S3.w_owner w) → name_ok b → S !! b = Some B →
  ∃ w', same_world w w' S K ∧
    ∀ A (nf : E) (h : KeyValueStore → io S3.World E A),
      S3.with_bucket_store (running blob dir) f b nf h w = h (bstore b) w'.
Proof.
  intros Hdb Ho Hb HB. destruct (bucket_store_run f b w S K Hdb Ho) as (w' & Hw & Hs).
  exists w'. split; [done|]. intros A nf h. unfold S3.with_bucket_store.
  rewrite (io_bind_Ok _ _ _ _ _ (store_run w)).
  rewrite (io_bind_Ok _ _ _ _ _ (in_db_Ok _ _ _ _ _ (get_bucket_run b _ S K Hdb Hb))).
  rewrite HB, set_db_same. simpl. by rewrite (io_bind_Ok _ _ _ _ _ Hw).
Qed.

Lemma with_bucket_store_missing {E A} (f : StoreError → E) (nf : E) (h : KeyValueStore → io S3.World E A) b w
    (S : gmap bytes Bucket) K :
  db_rep (S3.w_db w) S K → name_ok b → S !! b = None →
  S3.with_bucket_store (running blob dir) f b nf h w = (Err nf, w).
Proof.
  intros Hdb Hb HB. unfold S3.with_bucket_store.
  rewrite (io_bind_Ok _ _ _ _ _ (store_run w)).
  rewrite (io_bind_Ok _ _ _ _ _ (in_db_Ok _ _ _ _ _ (get_bucket_run b _ S K Hdb Hb))).
  by rewrite HB, set_db_same.
Qed.

(** What an answer says about an object. *)
Definition object_is (obj : S3.Object) (k : bytes) (o : Obj) : Prop :=
  S3.o_key obj = k ∧
  S3.o_md5sum obj = hex_encode (digest_of Md5 (ob_content o)) ∧
  S3.o_sha256sum obj = hex_encode (digest_of Sha256 (ob_content o)) ∧
  unix_timestamp (S3.o_last_modified obj) = ob_modified o ∧
  S3.o_size obj = Z.of_nat (length (ob_content o)).

Section bucket.
Context {d : DB} {S : gmap bytes Bucket} {K : bytes → gmap key Value} (Hdb : db_rep d S K).
Context {b : bytes} {B : Bucket} (HB : S !! b = Some B) (HS : state_ok S).

Lemma bucket_name : name_ok b.
Proof. apply (HS _ _ HB). Qed.
Lemma bucket_not_root : b ≠ str "root".
Proof. apply (HS _ _ HB). Qed.
Lemma bucket_default : default new_bucket (S !! b) = B.
Proof. by rewrite HB. Qed.
Lemma bucket_represents : represents (bstore b) d (K b).
Proof. apply (dr_stores _ _ _ Hdb), bucket_name. Qed.

(** The version is the only entry that is not a text. *)
Lemma version_entry p : is_version (K b !! p) → p = S3.bucket_version_path b.
Proof.
  intros [z Hz]. apply (dr_bucket _ _ _ Hdb _ _ _ bucket_not_root) in Hz.
  remember (Version z) as v. by destruct Hz.
Qed.

Lemma get_object_run k :
  name_ok k → Get (bstore b) (S3.object_path b k) d = (Ok ((λ _, []) <$> b_objects B !! k), d).
Proof.
  intros Hk. rewrite (Get_run _ _ _ (K b)).
  - rewrite (lookup_object Hdb bucket_not_root bucket_default). by destruct (b_objects B !! k).
  - apply bucket_represents.
  - apply object_path_ok; [apply bucket_name|done].
  - intros Hv%version_entry. path_cases.
Qed.

Lemma list_meta_run k :
  name_ok k →
  ∃ m, List_ (bstore b) [str "objectmeta"; b; k; []] d = (Ok m, d) ∧
    ∀ suffix, name_ok suffix →
      m !! suffix = b_objects B !! k ≫= λ o, meta_field o suffix.
Proof.
  intros Hk. destruct (list_run (bstore b) [str "objectmeta"; b; k; []] d (K b)) as (m & Hm & Hl).
  - apply bucket_represents.
  - apply (objectmeta_path_ok b k []); [apply bucket_name|done|by apply name_ok_lit].
  - intros p Hc Hv%version_entry. subst p. apply starts_with_split in Hc as [r Hr]. done.
  - exists m. split; [done|]. intros suffix Hs. rewrite Hl.
    assert (join NUL [str "objectmeta"; b; k; []] ++ suffix
            = join NUL (S3.objectmeta_path b k suffix)) as ->.
    { unfold S3.objectmeta_path. cbn [join]. by rewrite <-!app_assoc. }
    rewrite split_nul_join by (apply objectmeta_path_ok; [apply bucket_name|done..]).
    rewrite (lookup_meta Hdb bucket_not_root bucket_default).
    destruct (b_objects B !! k ≫= _); done.
Qed.

Lemma parse_i64_entry z : i64_ok z → S3.parse_or_default parse_i64 (Some (display_i64 z)) = z.
Proof.
  intros Hz. unfold S3.parse_or_default. cbn [mbind option_bind]. by rewrite parse_display_i64.
Qed.

Lemma parse_u64_entry z : u64_ok z → S3.parse_or_default parse_u64 (Some (display_u64 z)) = z.
Proof.
  intros Hz. unfold S3.parse_or_default. cbn [mbind option_bind]. by rewrite parse_display_u64.
Qed.

Lemma meta_to_obj_run k o :
  b_objects B !! k = Some o →
  ∃ obj, S3.meta_to_obj (bstore b) b k d = (Ok obj, d) ∧ object_is obj k o.
Proof.
  intros Ho. destruct (HS _ _ HB) as (_ & _ & Hobj).
  destruct (Hobj _ _ Ho) as [Hk [[t Ht] Hsize]]. destruct (list_meta_run k Hk) as (m & Hm & Hl).
  rewrite Ho in Hl. simpl in Hl. unfold S3.meta_to_obj. rewrite (io_bind_Ok _ _ _ _ _ Hm).
  rewrite !Hl by (by apply name_ok_lit).
  change (meta_field o (str "last_modified")) with (Some (display_i64 (ob_modified o))).
  rewrite parse_i64_entry by (rewrite Ht; apply unix_timestamp_range). rewrite Ht.
  destruct (from_unix_timestamp_spec t) as (t' & -> & Ht'). iorun. eexists. split; [done|].
  split_and!; cbn [S3.o_key S3.o_md5sum S3.o_sha256sum S3.o_last_modified S3.o_size];
    [done..|by rewrite Ht', Ht|]. by apply parse_u64_entry.
Qed.
End bucket.

(** Creating a bucket. *)
Lemma Set_of_exec st (vp p : key) (t : bytes) d z d' :
  exec st (CSet vp p t) d = (Ok (AVersion z), d') → Set_ st vp p t d = (Ok z, d').
Proof. intros (z' & d1 & Hd & [= <- <-])%io_bind_inv. done. Qed.

Lemma MultiSet_of_exec st (vp : key) (data : gmap key bytes) d z d' :
  exec st (CMultiSet vp data) d = (Ok (AVersion z), d') → MultiSet st vp data d = (Ok z, d').
Proof. intros (z' & d1 & Hd & [= <- <-])%io_bind_inv. done. Qed.

Lemma MultiDelete_of_exec st (vp : key) (ps : list key) d z d' :
  exec st (CMultiDelete vp ps) d = (Ok (AVersion z), d') → MultiDelete st vp ps d = (Ok z, d').
Proof. intros (z' & d1 & Hd & [= <- <-])%io_bind_inv. done. Qed.

Lemma root_entry_new (S : gmap bytes Bucket) (R : gmap key Value) b p v :
  (∀ p v, R !! p = Some v ↔ root_entry S p v) → S !! b = None →
  <[S3.bucket_version_path b := Version 1]> (<[S3.bucket_path b := Text []]> R) !! p = Some v ↔
  root_entry (<[b := new_bucket]> S) p v.
Proof.
  intros HRt Hb. rewrite !lookup_insert_Some, HRt. split.
  - intros [[<- <-]|(Hne & [[<- <-]|(Hne' & He)])].
    + apply entry_bucket_version. by rewrite lookup_insert_eq.
    + apply entry_bucket. by rewrite lookup_insert_eq.
    + destruct He as [b' [B HB]|b' [B HB]]; [apply entry_bucket|apply entry_bucket_version];
        rewrite lookup_insert_ne by congruence; by eexists.
  - intros [b' HB|b' HB]; destruct (decide (b' = b)) as [->|Hne].
    + right. split; [intros ?; path_cases|]. by left.
    + right. split; [intros ?; path_cases|]. right. split; [intros ?; path_cases|].
      rewrite lookup_insert_ne in HB by done. by apply entry_bucket.
    + by left.
    + right. split; [intros ?; path_cases|]. right. split; [intros ?; path_cases|].
      rewrite lookup_insert_ne in HB by done. by apply entry_bucket_version.
Qed.

Lemma create_run b d (S : gmap bytes Bucket) K :
  db_rep d S K → name_ok b → S !! b = None →
  ∃ d' K', Set_ (bstore (str "root")) (S3.bucket_version_path b) (S3.bucket_path b) [] d = (Ok 1, d') ∧
    db_rep d' (<[b := new_bucket]> S) K'.
Proof.
  intros Hdb Hb Hnone.
  assert (Hv : K (str "root") !! S3.bucket_version_path b = None).
  { apply eq_None_not_Some. intros [v Hv]. apply (dr_root _ _ _ Hdb) in Hv.
    remember (S3.bucket_version_path b) as p. destruct Hv as [b' [B HB]|b' [B HB]]; path_cases. }
  destruct (exec_family (str "root") (CSet (S3.bucket_version_path b) (S3.bucket_path b) []) d K)
    as (d' & Hd & Hs & Ht).
  - apply Hdb.
  - refine (bool_decide_eq_true_1 _ _). by vm_compute.
  - simpl. split_and!; [by apply version_path_ok|rewrite Hv; by intros [? ?]|by apply bucket_path_ok|done].
  - cbn [run changed fst snd] in *. unfold next_version in *. rewrite Hv in *.
    eexists d', _. split; [by apply Set_of_exec|]. split; [apply Hs|..].
    + intros p v. cbv beta. rewrite decide_True by done. apply root_entry_new; [apply Hdb|done].
    + intros b' p v Hb'. cbv beta. rewrite decide_False by done. rewrite (dr_bucket _ _ _ Hdb) by done.
      destruct (decide (b' = b)) as [->|]; [by rewrite lookup_insert_eq, Hnone|by rewrite lookup_insert_ne].
    + intros n e. rewrite Ht. apply Hdb.
Qed.

(** ** Storing an object *)
Definition info_of (c : bytes) : BlobInfo := {|
  md5sum := hex_encode (digest_of Md5 c);
  sha256sum := hex_encode (digest_of Sha256 c);
  size := Z.of_nat (length c) |}.

Definition obj_of (c : bytes) (now : OffsetDateTime) : Obj :=
  {| ob_content := c; ob_modified := unix_timestamp now |}.

Lemma meta_field_Some o suffix t :
  meta_field o suffix = Some t ↔
  suffix = str "last_modified" ∧ t = display_i64 (ob_modified o) ∨
  suffix = str "md5sum" ∧ t = hex_encode (digest_of Md5 (ob_content o)) ∨
  suffix = str "sha256sum" ∧ t = hex_encode (digest_of Sha256 (ob_content o)) ∨
  suffix = str "size" ∧ t = display_u64 (Z.of_nat (length (ob_content o))).
Proof.
  unfold meta_field. split.
  - repeat case_decide; intros [= <-]; subst; tauto.
  - intros [[-> ->]|[[-> ->]|[[-> ->]|[-> ->]]]]; done.
Qed.

Lemma object_entries_lookup b k c now p t :
  S3.object_entries b k (info_of c) now !! p = Some t ↔
  p = S3.object_path b k ∧ t = [] ∨
  ∃ suffix, p = S3.objectmeta_path b k suffix ∧ meta_field (obj_of c now) suffix = Some t.
Proof.
  unfold S3.object_entries. rewrite <-elem_of_list_to_map.
  2:{ simpl. rewrite !NoDup_cons, !not_elem_of_cons. split_and!; try apply not_elem_of_nil;
      try apply NoDup_nil_2; intros ?; path_cases. }
  setoid_rewrite meta_field_Some. rewrite !elem_of_cons, elem_of_nil.
  unfold S3.objectmeta_path. naive_solver.
Qed.

Lemma utf8_hex x : utf8_valid (hex_encode x) = true.
Proof.
  apply utf8_ascii. eapply Forall_impl; [apply hex_encode_digits|]. intros z.
  unfold hex_digit, in_range. lia.
Qed.

Lemma meta_field_utf8 o suffix t :
  meta_field o suffix = Some t → name_ok suffix ∧ utf8_valid t = true.
Proof.
  intros [[-> ->]|[[-> ->]|[[-> ->]|[-> ->]]]]%meta_field_Some;
    (split; [by apply name_ok_lit|]).
  - apply utf8_display_i64.
  - apply utf8_hex.
  - apply utf8_hex.
  - apply utf8_display_u64. lia.
Qed.

Lemma object_entries_object b k c now :
  S3.object_entries b k (info_of c) now !! S3.object_path b k = Some [].
Proof. apply object_entries_lookup. by left. Qed.

Lemma object_entries_meta b k c now suffix t :
  meta_field (obj_of c now) suffix = Some t →
  S3.object_entries b k (info_of c) now !! S3.objectmeta_path b k suffix = Some t.
Proof. intros H. apply object_entries_lookup. right. eauto. Qed.

Lemma object_entries_None b k c now p :
  p ≠ S3.object_path b k ∧ (∀ suffix, p ≠ S3.objectmeta_path b k suffix) →
  S3.object_entries b k (info_of c) now !! p = None.
Proof.
  intros [H1 H2]. apply eq_None_not_Some. intros [t [[H _]|(suffix & H & _)]%object_entries_lookup]; naive_solver.
Qed.

Lemma meta_field_dom o o' suffix t : meta_field o suffix = Some t → is_Some (meta_field o' suffix).
Proof. unfold meta_field. intros H. repeat case_decide; by eauto. Qed.

Lemma bucket_entry_put b B k c now (M : gmap key Value) p v :
  (∀ p v, M !! p = Some v ↔ bucket_entry b B p v) →
  <[S3.bucket_version_path b := Version (bump B)]>
    ((Text <$> S3.object_entries b k (info_of c) now) ∪ M) !! p = Some v ↔
  bucket_entry b (put_obj k (obj_of c now) B) p v.
Proof.
  intros HM. rewrite lookup_insert_Some, lookup_union_Some_raw, lookup_fmap_Some, lookup_fmap, fmap_None, HM.
  split.
  - intros [[<- <-]|(Hvp & [(t & <- & Ht)|[Hnone He]])].
    + by apply entry_version.
    + apply object_entries_lookup in Ht as [[-> ->]|(suffix & -> & Hs)].
      * apply entry_object with (obj_of c now). apply lookup_insert_eq.
      * apply entry_meta with (obj_of c now); [apply lookup_insert_eq|done].
    + destruct He as [k' o Ho|k' o suffix t Ho Hs|z Hz]; [| |done].
      * apply entry_object with o. destruct (decide (k' = k)) as [->|];
          [by rewrite object_entries_object in Hnone|by simpl; rewrite lookup_insert_ne].
      * apply entry_meta with o; [|done]. destruct (decide (k' = k)) as [->|];
          [|by simpl; rewrite lookup_insert_ne].
        destruct (meta_field_dom o (obj_of c now) suffix t Hs) as [t' Ht'].
        by rewrite (object_entries_meta _ _ _ _ _ _ Ht') in Hnone.
  - intros He. destruct He as [k' o Ho|k' o suffix t Ho Hs|z Hz]; simpl in *.
    + right. split; [intros ?; path_cases|]. destruct (decide (k' = k)) as [->|Hne].
      * left. exists []. by rewrite object_entries_object.
      * right. rewrite lookup_insert_ne in Ho by done. split; [|by apply entry_object with o].
        apply object_entries_None. split; [intros ?; path_cases|intros suffix ?; path_cases].
    + right. split; [intros ?; path_cases|]. destruct (decide (k' = k)) as [->|Hne].
      * left. rewrite lookup_insert_eq in Ho. injection Ho as <-. exists t. split; [done|].
        by apply object_entries_meta.
      * right. rewrite lookup_insert_ne in Ho by done. split; [|by apply entry_meta with o].
        apply object_entries_None. split; [intros ?; path_cases|intros suffix' ?; path_cases].
    + injection Hz as <-. by left.
Qed.

Lemma root_entry_same (S : gmap bytes Bucket) b B p v :
  is_Some (S !! b) → root_entry (<[b := B]> S) p v ↔ root_entry S p v.
Proof.
  intros Hb. assert (∀ b', is_Some (<[b := B]> S !! b') ↔ is_Some (S !! b')) as Hdom.
  { intros b'. rewrite lookup_insert_is_Some'. naive_solver. }
  split; destruct 1 as [b' H|b' H]; constructor; by apply Hdom.
Qed.

(** A change of the entries of one bucket. *)
Lemma bucket_change (cm : Command) d (S : gmap bytes Bucket) K b B B' :
  db_rep d S K → S !! b = Some B → state_ok S → command_ok cm (K b) →
  (∀ p v, (run cm (K b)).2 !! p = Some v ↔ bucket_entry b B' p v) →
  ∃ d' K', exec (bstore b) cm d = (Ok (run cm (K b)).1, d') ∧ db_rep d' (<[b := B']> S) K'.
Proof.
  intros Hdb HB HS Hc Hrun. destruct (HS _ _ HB) as ([Hb _] & Hroot & _).
  destruct (exec_family b cm d K (dr_stores _ _ _ Hdb) Hb Hc) as (d' & Hd & Hs & Ht).
  eexists d', _. split; [done|]. split; [apply Hs|..].
  - intros p v. cbv beta. rewrite decide_False by done. rewrite root_entry_same by (by rewrite HB).
    apply Hdb.
  - intros b' p v Hb'. cbv beta. destruct (decide (b' = b)) as [->|Hne].
    + by rewrite lookup_insert_eq.
    + rewrite lookup_insert_ne by done. by apply Hdb.
  - intros n e. rewrite Ht. apply Hdb.
Qed.

Lemma version_not_text d (S : gmap bytes Bucket) K b B :
  db_rep d S K → S !! b = Some B → state_ok S → ¬ is_text (K b !! S3.bucket_version_path b).
Proof.
  intros Hdb HB HS. rewrite (lookup_version Hdb (bucket_not_root HB HS) (bucket_default HB)).
  destruct (b_version B); by intros [? ?].
Qed.

Lemma put_run d (S : gmap bytes Bucket) K b B k c now :
  db_rep d S K → S !! b = Some B → state_ok S → name_ok k →
  ∃ d' K', MultiSet (bstore b) (S3.bucket_version_path b) (S3.object_entries b k (info_of c) now) d
      = (Ok (bump B), d') ∧
    db_rep d' (<[b := put_obj k (obj_of c now) B]> S) K'.
Proof.
  intros Hdb HB HS Hk. pose proof (bucket_name HB HS) as Hb.
  pose proof (next_version_bump Hdb (bucket_not_root HB HS) (bucket_default HB)) as Hv.
  destruct (bucket_change (CMultiSet (S3.bucket_version_path b) (S3.object_entries b k (info_of c) now))
    d S K b B (put_obj k (obj_of c now) B)) as (d' & K' & Hd & Hdb'); [done..| | |].
  - split_and!; [by apply version_path_ok|by eapply version_not_text|].
    intros p t [[-> ->]|(suffix & -> & Hs)]%object_entries_lookup.
    + split; [|done]. by apply object_path_ok.
    + destruct (meta_field_utf8 _ _ _ Hs). split; [|done]. by apply objectmeta_path_ok.
  - intros p v. cbn [run changed snd]. rewrite Hv. apply bucket_entry_put.
    intros p' v'. rewrite (dr_bucket _ _ _ Hdb) by apply (bucket_not_root HB HS).
    by rewrite (bucket_default HB).
  - cbn [run changed fst] in Hd. rewrite Hv in Hd. exists d', K'. split; [by apply MultiSet_of_exec|done].
Qed.

(** ** Removing an object *)
Lemma starts_with_app_head (a x y : bytes) : starts_with (a ++ x) (a ++ y) = starts_with x y.
Proof.
  apply eq_true_iff_eq. rewrite !starts_with_split. setoid_rewrite <-app_assoc.
  split; intros [r Hr]; exists r; [by apply app_inv_head in Hr|by rewrite Hr].
Qed.

Lemma covers_object b k k' : covers (S3.object_path b k) (S3.object_path b k') = starts_with k k'.
Proof. unfold covers, S3.object_path. cbn [join]. by rewrite !starts_with_app_head. Qed.

Lemma covers_meta b k k' suffix :
  0 ∉ k → 0 ∉ k' →
  covers [str "objectmeta"; b; k; []] (S3.objectmeta_path b k' suffix) = bool_decide (k' = k).
Proof.
  intros Hk Hk'. unfold covers, S3.objectmeta_path. cbn [join]. rewrite !starts_with_app_head.
  apply eq_true_iff_eq. rewrite starts_with_split, bool_decide_eq_true. unfold NUL. split.
  - intros [r Hr]. rewrite <-app_assoc in Hr. simpl in Hr. apply (f_equal split_nul) in Hr.
    rewrite !split_nul_cons in Hr by done. by simplify_eq.
  - intros ->. exists suffix. by rewrite <-app_assoc.
Qed.

(** Literals that differ are not covered. *)
Lemma covers_lit (a a' : bytes) (l l' : list bytes) :
  (∀ r r', a ++ r ≠ a' ++ r') → l ≠ [] → covers (a :: l) (a' :: l') = false.
Proof.
  intros Ha Hl. apply not_true_is_false. intros [r Hr]%starts_with_split.
  destruct l as [|x l]; [done|].
  destruct l' as [|x' l']; cbn [join] in Hr; rewrite <-?app_assoc in Hr.
  - rewrite <-(app_nil_r a') in Hr. symmetry in Hr. by apply Ha in Hr.
  - symmetry in Hr. by apply Ha in Hr.
Qed.

(** The ranges that [DeleteObject] deletes. *)
Definition ranges b k : list key := [S3.object_path b k; [str "objectmeta"; b; k; []]].

Definition in_ranges b k p : bool := existsb (λ q, covers q p) (ranges b k).

Lemma in_ranges_object b k k' : in_ranges b k (S3.object_path b k') = starts_with k k'.
Proof.
  unfold in_ranges, ranges. cbn [existsb]. rewrite covers_object.
  unfold S3.object_path. rewrite covers_lit; [by destruct (starts_with k k')|by intros r r'|done].
Qed.

Lemma in_ranges_meta b k k' suffix :
  0 ∉ k → 0 ∉ k' → in_ranges b k (S3.objectmeta_path b k' suffix) = bool_decide (k' = k).
Proof.
  intros Hk Hk'. unfold in_ranges, ranges. cbn [existsb]. rewrite covers_meta, orb_false_r by done.
  unfold S3.object_path, S3.objectmeta_path. rewrite covers_lit; [done|by intros r r'|done].
Qed.

Lemma in_ranges_version b k : in_ranges b k (S3.bucket_version_path b) = false.
Proof.
  unfold in_ranges, ranges, S3.object_path, S3.bucket_version_path. cbn [existsb].
  rewrite !covers_lit; [done|by intros r r'|done|by intros r r'|done].
Qed.

Lemma bucket_entry_delete b B k (M : gmap key Value) p v :
  (∀ p v, M !! p = Some v ↔ bucket_entry b B p v) → 0 ∉ k →
  map_Forall (λ k' _, (0 ∉ k') ∧ (k' ≠ k → starts_with k k' = false)) (b_objects B) →
  <[S3.bucket_version_path b := Version (bump B)]>
    (filter (λ e, in_ranges b k e.1 = false) M) !! p = Some v ↔
  bucket_entry b (delete_obj k B) p v.
Proof.
  intros HM Hk Hext. rewrite lookup_insert_Some, map_lookup_filter_Some, HM. simpl. split.
  - intros [[<- <-]|(Hvp & He & Hr)]; [by apply entry_version|].
    destruct He as [k' o Ho|k' o suffix t Ho Hs|z Hz]; [| |done].
    + rewrite in_ranges_object in Hr. apply entry_object with o. simpl.
      rewrite lookup_delete_ne; [done|]. intros ->. pose proof (starts_with_app k' []) as E.
      rewrite app_nil_r in E. congruence.
    + destruct (Hext _ _ Ho) as [Hk' _]. rewrite in_ranges_meta in Hr by done.
      apply bool_decide_eq_false in Hr. apply entry_meta with o; [|done]. simpl.
      by rewrite lookup_delete_ne.
  - intros He. destruct He as [k' o Ho|k' o suffix t Ho Hs|z Hz]; simpl in *.
    + apply lookup_delete_Some in Ho as [Hne Ho]. right. split; [intros ?; path_cases|].
      split; [by apply entry_object with o|]. rewrite in_ranges_object. by apply (Hext _ _ Ho).
    + apply lookup_delete_Some in Ho as [Hne Ho]. right. split; [intros ?; path_cases|].
      split; [by apply entry_meta with o|]. destruct (Hext _ _ Ho) as [Hk' _].
      rewrite in_ranges_meta by done. by apply bool_decide_eq_false.
    + injection Hz as <-. by left.
Qed.

Lemma delete_run d (S : gmap bytes Bucket) K b B k :
  db_rep d S K → S !! b = Some B → state_ok S → name_ok k →
  (∀ k', is_Some (b_objects B !! k') → k' ≠ k → starts_with k k' = false) →
  ∃ d' K', MultiDelete (bstore b) (S3.bucket_version_path b) (ranges b k) d = (Ok (bump B), d') ∧
    db_rep d' (<[b := delete_obj k B]> S) K'.
Proof.
  intros Hdb HB HS Hk Hext. pose proof (bucket_name HB HS) as Hb.
  pose proof (next_version_bump Hdb (bucket_not_root HB HS) (bucket_default HB)) as Hv.
  destruct (bucket_change (CMultiDelete (S3.bucket_version_path b) (ranges b k))
    d S K b B (delete_obj k B)) as (d' & K' & Hd & Hdb'); [done..| | |].
  - split_and!; [by apply version_path_ok|by eapply version_not_text|].
    apply Forall_cons_2; [by apply object_path_ok|]. apply Forall_singleton.
    apply (objectmeta_path_ok b k []); [done..|by apply name_ok_lit].
  - intros p v. cbn [run changed snd]. rewrite Hv.
    apply (bucket_entry_delete b B k (K b)); [|apply Hk|].
    + intros p' v'. rewrite (dr_bucket _ _ _ Hdb) by apply (bucket_not_root HB HS).
      by rewrite (bucket_default HB).
    + intros k' o Ho. destruct (HS _ _ HB) as (_ & _ & Hobj). split; [apply (Hobj _ _ Ho)|].
      apply Hext. by eexists.
  - cbn [run changed fst] in Hd. rewrite Hv in Hd. exists d', K'. split; [by apply MultiDelete_of_exec|done].
Qed.

(** ** Listing *)
Lemma keys_permutation {A C : Type} (m : gmap bytes A) (m' : gmap bytes C) :
  (∀ y, is_Some (m !! y) ↔ is_Some (m' !! y)) → (map_to_list m).*1 ≡ₚ (map_to_list m').*1.
Proof.
  intros Hdom. apply NoDup_Permutation; [apply NoDup_fst_map_to_list..|]. intros y.
  rewrite !list_elem_of_fmap. split; intros ([y' a] & -> & Ha%elem_of_map_to_list).
  - destruct (proj1 (Hdom y')) as [a' Ha']; [by eexists|]. exists (y', a').
    by rewrite elem_of_map_to_list.
  - destruct (proj2 (Hdom y')) as [a' Ha']; [by eexists|]. exists (y', a').
    by rewrite elem_of_map_to_list.
Qed.

Lemma list_buckets_run d (S : gmap bytes Bucket) K :
  db_rep d S K → state_ok S →
  ∃ m, List_ (bstore (str "root")) [str "buckets"; []] d = (Ok m, d) ∧
    ∀ y, is_Some (m !! y) ↔ is_Some (S !! y).
Proof.
  intros Hdb HS.
  destruct (list_run (bstore (str "root")) [str "buckets"; []] d (K (str "root"))) as (m & Hm & Hl).
  - apply (dr_stores _ _ _ Hdb). refine (bool_decide_eq_true_1 _ _). by vm_compute.
  - apply (bucket_path_ok []). by apply name_ok_lit.
  - intros p Hc [z Hz]. apply (dr_root _ _ _ Hdb) in Hz. remember (Version z) as v.
    destruct Hz as [b|b]; [done|]. by apply starts_with_split in Hc as [r Hr].
  - exists m. split; [done|]. intros y. rewrite Hl, fmap_is_Some. set (X := join NUL _ ++ y).
    assert (HX : X = join NUL (S3.bucket_path y)).
    { unfold X, S3.bucket_path. cbn [join]. by rewrite <-!app_assoc. }
    split.
    + intros [v Hv]. apply (dr_root _ _ _ Hdb) in Hv. pose proof (join_split_nul X) as HJ.
      remember (split_nul X) as p. destruct Hv as [b Hb|b Hb]; rewrite HX in HJ.
      * unfold S3.bucket_path in HJ. cbn [join] in HJ. do 2 apply app_inv_head in HJ. by subst.
      * done.
    + intros Hy. rewrite HX, split_nul_join, (lookup_bucket Hdb), fmap_is_Some; [done|].
      destruct Hy as [B HB]. by apply bucket_path_ok, (HS _ _ HB).
Qed.

Lemma list_objects_run d (S : gmap bytes Bucket) K b B :
  db_rep d S K → S !! b = Some B → state_ok S →
  ∃ m, List_ (bstore b) (S3.object_path b []) d = (Ok m, d) ∧
    ∀ y, is_Some (m !! y) ↔ is_Some (b_objects B !! y).
Proof.
  intros Hdb HB HS. pose proof (bucket_name HB HS) as Hb.
  destruct (list_run (bstore b) (S3.object_path b []) d (K b)) as (m & Hm & Hl).
  - apply (bucket_represents Hdb HB HS).
  - apply object_path_ok; [done|by apply name_ok_lit].
  - intros p Hc Hv%(version_entry Hdb HB HS). subst p. by apply starts_with_split in Hc as [r Hr].
  - exists m. split; [done|]. intros y. rewrite Hl, fmap_is_Some. set (X := join NUL _ ++ y).
    assert (HX : X = join NUL (S3.object_path b y)).
    { unfold X, S3.object_path. cbn [join]. by rewrite <-!app_assoc. }
    split.
    + intros [v Hv]. apply (dr_bucket _ _ _ Hdb _ _ _ (bucket_not_root HB HS)) in Hv.
      rewrite (bucket_default HB) in Hv. pose proof (join_split_nul X) as HJ.
      remember (split_nul X) as p. destruct Hv as [k o Ho|k o suffix t Ho _|z Hz]; rewrite HX in HJ; [|done..].
      unfold S3.object_path in HJ. cbn [join] in HJ. do 4 apply app_inv_head in HJ. subst. by eexists.
    + intros [o Ho]. rewrite HX, split_nul_join, (lookup_object Hdb (bucket_not_root HB HS) (bucket_default HB)).
      * by rewrite Ho.
      * apply object_path_ok; [done|]. destruct (HS _ _ HB) as (_ & _ & Hobj). apply (Hobj _ _ Ho).
Qed.

Lemma list_metas_run d (S : gmap bytes Bucket) K b B (l : list bytes) :
  db_rep d S K → S !! b = Some B → state_ok S → Forall (λ k, is_Some (b_objects B !! k)) l →
  ∃ objs, S3.list_objects (bstore b) b l d = (Ok objs, d) ∧
    Forall2 (λ obj k, ∃ o, b_objects B !! k = Some o ∧ object_is obj k o) objs l.
Proof.
  intros Hdb HB HS. induction 1 as [|k l [o Ho] _ IH]; simpl; [by exists []|].
  destruct (meta_to_obj_run Hdb HB HS k o Ho) as (obj & Hobj & His).
  rewrite (io_bind_Ok _ _ _ _ _ Hobj). destruct IH as (objs & Hobjs & Hall).
  rewrite (io_bind_Ok _ _ _ _ _ Hobjs). exists (obj :: objs). split; [done|].
  constructor; [by exists o|done].
Qed.
End run.
