(* ===== verification/S3Refines.v ===== *)
(** * The S3 backend implements its specification

    The requests of the backend, what the abstract store answers to them and how
    it changes, and the proof that the backend running on a database and a file
    system answers so, request after request. *)
From S2P Require Import Prelude RustStr RocksDb Routing KeyValue KeyValueSpec BlobStore S3Backend S3Spec.
Import KeyValueStore StoreOwner BlobStore KvSpec S3Spec.

Section requests.
Context `{!RocksDB, !FileSystem, !Hashes, !TimeCrate, !HashOrder}.

Inductive Request :=
| RCreateBucket (b : bytes)
| RHeadBucket (b : bytes)
| RListBuckets
| RPutObject (uuid : bytes) (now : OffsetDateTime) (b k : bytes) (data : list (S3.ReadDataError + bytes))
| RHeadObject (b k : bytes)
| RGetObject (b k : bytes)
| RDeleteObject (b k : bytes)
| RListObjects (b : bytes).

Inductive Reply :=
| BucketCreated (b : bytes)
| BucketExists
| BucketFound (found : bool)
| BucketNames (l : list bytes)
| NoSuchBucket
| NoSuchKey
| Stored (o : S3.Object)
| PutFailed (e : S3.ReadDataError)
| Info (o : S3.Object)
| Content (o : S3.Object) (data : list (S3.ReadDataError + bytes))
| Objects (l : list S3.Object)
| Deleted.

(** An answer, or an error of the database or the file system. *)
Definition answer {E A} (ok : A → Reply) (err : E → option Reply) (m : io S3.World E A)
    : io S3.World () Reply := λ w,
  match m w with
  | (Ok a, w) => (Ok (ok a), w)
  | (Err e, w) => (match err e with Some r => Ok r | None => Err () end, w)
  | (Panic, w) => (Panic, w)
  end.

Definition serve (self : S3.S3) (r : Request) : io S3.World () Reply :=
  match r with
  | RCreateBucket b =>
      answer BucketCreated
        (λ e, match e with S3.BucketAlreadyExists => Some BucketExists | _ => None end)
        (S3.CreateBucket self b)
  | RHeadBucket b =>
      answer (λ o, BucketFound (bool_decide (is_Some o))) (λ _, None) (S3.HeadBucket self b)
  | RListBuckets => answer BucketNames (λ _, None) (S3.ListBuckets self)
  | RPutObject uuid now b k data =>
      answer Stored
        (λ e, match e with
              | S3.PutBucketNotFound => Some NoSuchBucket
              | S3.PutReadDataError e => Some (PutFailed e)
              | _ => None
              end)
        (S3.PutObject self uuid now b k data)
  | RHeadObject b k =>
      answer Info
        (λ e, match e with
              | S3.HeadBucketNotFound => Some NoSuchBucket
              | S3.HeadObjectNotFound => Some NoSuchKey
              | _ => None
              end)
        (S3.HeadObject self b k)
  | RGetObject b k =>
      answer (λ x, Content x.1 x.2)
        (λ e, match e with
              | S3.GetBucketNotFound => Some NoSuchBucket
              | S3.GetObjectNotFound => Some NoSuchKey
              | _ => None
              end)
        (S3.GetObject self b k)
  | RDeleteObject b k =>
      answer (λ _, Deleted)
        (λ e, match e with
              | S3.DeleteBucketNotFound => Some NoSuchBucket
              | S3.DeleteObjectNotFound => Some NoSuchKey
              | _ => None
              end)
        (S3.DeleteObject self b k)
  | RListObjects b =>
      answer Objects
        (λ e, match e with S3.ListBucketNotFound => Some NoSuchBucket | _ => None end)
        (S3.ListObject self b [])
  end.

Fixpoint serve_all (self : S3.S3) (l : list Request) : io S3.World () (list Reply) :=
  match l with
  | [] => mret []
  | r :: l => a ← serve self r; rest ← serve_all self l; mret (a :: rest)
  end.

(** ** The specification *)

(** The content of a stream without errors, or its first error. *)
Fixpoint collect (data : list (S3.ReadDataError + bytes)) : S3.ReadDataError + bytes :=
  match data with
  | [] => inr []
  | inl e :: _ => inl e
  | inr c :: data => match collect data with inr rest => inr (c ++ rest) | inl e => inl e end
  end.

(** The bucket a request is about, and the object. *)
Definition bucket_of (r : Request) : option bytes :=
  match r with
  | RPutObject _ _ b _ _ | RHeadObject b _ | RGetObject b _ | RDeleteObject b _ | RListObjects b => Some b
  | _ => None
  end.
Definition object_of (r : Request) : option (bytes * bytes) :=
  match r with
  | RHeadObject b k | RGetObject b k | RDeleteObject b k => Some (b, k)
  | _ => None
  end.

Definition after (r : Request) (S : gmap bytes Bucket) : gmap bytes Bucket :=
  match r with
  | RCreateBucket b => match S !! b with None => <[b := new_bucket]> S | Some _ => S end
  | RPutObject _ now b k data =>
      match S !! b, collect data with
      | Some B, inr c => <[b := put_obj k (obj_of c now) B]> S
      | _, _ => S
      end
  | RDeleteObject b k =>
      match S !! b with
      | Some B => if decide (is_Some (b_objects B !! k)) then <[b := delete_obj k B]> S else S
      | None => S
      end
  | _ => S
  end.

(** What the store [S] may answer, and the events it gives to the replicator. *)
Inductive answers (S : gmap bytes Bucket) : Request → Reply → list BucketEvent → Prop :=
| answer_created b : S !! b = None → answers S (RCreateBucket b) (BucketCreated b) []
| answer_exists b : is_Some (S !! b) → answers S (RCreateBucket b) BucketExists []
| answer_head_bucket b : answers S (RHeadBucket b) (BucketFound (bool_decide (is_Some (S !! b)))) []
| answer_buckets l : l ≡ₚ (map_to_list S).*1 → answers S RListBuckets (BucketNames l) []
| answer_no_bucket r b : bucket_of r = Some b → S !! b = None → answers S r NoSuchBucket []
| answer_no_key r b k B :
    object_of r = Some (b, k) → S !! b = Some B → b_objects B !! k = None → answers S r NoSuchKey []
| answer_stored uuid now b k data B c obj :
    S !! b = Some B → collect data = inr c → object_is obj k (obj_of c now) →
    answers S (RPutObject uuid now b k data) (Stored obj)
      [S3.put_event b k (bump B) (info_of c) now]
| answer_put_failed uuid now b k data B e :
    S !! b = Some B → collect data = inl e →
    answers S (RPutObject uuid now b k data) (PutFailed e) []
| answer_head b k B o obj :
    S !! b = Some B → b_objects B !! k = Some o → object_is obj k o →
    answers S (RHeadObject b k) (Info obj) []
| answer_get b k B o obj chunks :
    S !! b = Some B → b_objects B !! k = Some o → object_is obj k o →
    concat chunks = ob_content o →
    answers S (RGetObject b k) (Content obj (map inr chunks)) []
| answer_deleted b k B o :
    S !! b = Some B → b_objects B !! k = Some o →
    answers S (RDeleteObject b k) Deleted [S3.delete_event b k (bump B)]
| answer_objects b B objs keys :
    S !! b = Some B → keys ≡ₚ (map_to_list (b_objects B)).*1 →
    Forall2 (λ obj k, ∃ o, b_objects B !! k = Some o ∧ object_is obj k o) objs keys →
    answers S (RListObjects b) (Objects objs) [].

Definition uuids (r : Request) : gset bytes :=
  match r with RPutObject uuid _ _ _ _ => {[uuid]} | _ => ∅ end.

(** No other content of the store has the digest of [c]. *)
Definition no_collision (c : bytes) (S : gmap bytes Bucket) : Prop :=
  ∀ b B k o, S !! b = Some B → b_objects B !! k = Some o →
    hex_encode (digest_of Sha256 (ob_content o)) = hex_encode (digest_of Sha256 c) → ob_content o = c.

(** An object can be removed when no other key of the bucket begins with its
    key, and no other object has its content. *)
Definition removable (b k : bytes) (S : gmap bytes Bucket) : Prop :=
  ∀ B o, S !! b = Some B → b_objects B !! k = Some o →
    (∀ k', is_Some (b_objects B !! k') → k' ≠ k → starts_with k k' = false) ∧
    (∀ b' B' k' o', S !! b' = Some B' → b_objects B' !! k' = Some o' → (b', k') ≠ (b, k) →
       hex_encode (digest_of Sha256 (ob_content o')) ≠ hex_encode (digest_of Sha256 (ob_content o))).

Definition request_ok (r : Request) (S : gmap bytes Bucket) (used : gset bytes) : Prop :=
  match r with
  | RCreateBucket b => name_ok b ∧ b ≠ str "root"
  | RHeadBucket b | RListObjects b => name_ok b
  | RListBuckets => True
  | RPutObject uuid now b k data =>
      name_ok b ∧ name_ok k ∧ plain uuid ∧ (uuid ∉ used) ∧
      ∀ c, collect data = inr c → u64_ok (Z.of_nat (length c)) ∧ no_collision c S
  | RHeadObject b k | RGetObject b k => name_ok b ∧ name_ok k
  | RDeleteObject b k => name_ok b ∧ name_ok k ∧ removable b k S
  end.

Fixpoint requests_ok (l : list Request) (S : gmap bytes Bucket) (used : gset bytes) : Prop :=
  match l with
  | [] => True
  | r :: l => request_ok r S used ∧ requests_ok l (after r S) (uuids r ∪ used)
  end.

Fixpoint answers_all (S : gmap bytes Bucket) (l : list Request) (replies : list Reply)
    (events : list BucketEvent) : Prop :=
  match l, replies with
  | [], [] => events = []
  | r :: l, a :: replies =>
      ∃ ev rest, events = ev ++ rest ∧ answers S r a ev ∧ answers_all (after r S) l replies rest
  | _, _ => False
  end.

Definition after_all (l : list Request) (S : gmap bytes Bucket) : gmap bytes Bucket :=
  foldl (λ S r, after r S) S l.
End requests.

Section refinement.
Context {HR : RocksDB} {HRL : RocksDBLaws} {HRW : RocksDBWorks}.
Context {HF : FileSystem} {HFL : FileSystemLaws} {HFW : FileSystemWorks}.
Context {HH : Hashes} {HHL : HashesLaws} {HT : TimeCrate} {HTL : TimeCrateLaws}.
Context {HO : HashOrder} {HOL : HashOrderLaws}.
Context (blob : ContentAddressableBlobStore) (dir : bytes).
Implicit Types (b k c : bytes) (w : S3.World) (S : gmap bytes Bucket) (used : gset bytes).

Definition served (r : Request) w S used : Prop :=
  ∃ reply w' events,
    serve (running blob dir) r w = (Ok reply, w') ∧ answers S r reply events ∧
    s3_rep blob w' (after r S) (uuids r ∪ used) ∧ S3.w_sent w' = S3.w_sent w ++ events.

(** A request that reads. *)
Lemma served_read r w w' S used reply :
  s3_rep blob w S used → after r S = S → uuids r = ∅ → (∃ K, same_world w w' S K) →
  serve (running blob dir) r w = (Ok reply, w') → answers S r reply [] → served r w S used.
Proof.
  intros (_ & _ & Hfs & HS) Ha Hu (K & Hdb & Ho & Hf & Hsent) Hs Hans.
  exists reply, w', []. rewrite Ha, Hu, (left_id_L ∅ (∪)), app_nil_r.
  split_and!; [done..| |done]. split_and!; [by exists K|done|by rewrite Hf|done].
Qed.

Lemma same_world_refl w S K : db_rep (S3.w_db w) S K → owner_ok (S3.w_owner w) → same_world w w S K.
Proof. done. Qed.

Lemma same_world_trans w1 w2 w3 S K :
  same_world w1 w2 S K → same_world w2 w3 S K → same_world w1 w3 S K.
Proof. unfold same_world. intros (_ & _ & E1 & E2) (? & ? & E3 & E4). split_and!; [done..|congruence|congruence]. Qed.

(** Requests about a bucket that does not exist. *)
Lemma answer_run {E A} (ok : A → Reply) (err : E → option Reply) m w a w' :
  m w = (Ok a, w') → answer ok err m w = (Ok (ok a), w').
Proof. intros H. unfold answer. by rewrite H. Qed.

Lemma answer_err {E A} (ok : A → Reply) (err : E → option Reply) m w e w' r :
  m w = (Err e, w') → err e = Some r → answer ok err m w = (Ok r, w').
Proof. intros H He. unfold answer. by rewrite H, He. Qed.

Lemma served_no_bucket r b w S used :
  s3_rep blob w S used → bucket_of r = Some b → S !! b = None → name_ok b →
  served r w S used.
Proof.
  intros Hrep Hr Hb Hn. pose proof Hrep as ((K & Hdb) & Ho & _).
  assert (serve (running blob dir) r w = (Ok NoSuchBucket, w)) as Hs.
  { destruct r; simplify_eq/=; (eapply answer_err;
      [first [eapply with_bucket_store_missing; done
             |etrans; [apply (io_bind_Ok _ _ _ _ _ (blob_store_run blob dir w))|];
              eapply with_bucket_store_missing; done]|done]). }
  assert (after r S = S) as Ha.
  { destruct r; simplify_eq/=; by rewrite ?Hb. }
  destruct r; simplify_eq/=; try (eapply served_read; [done..| |done|by eapply answer_no_bucket];
    exists K; by apply same_world_refl).
  exists NoSuchBucket, w, []. split_and!; [done|by eapply answer_no_bucket| |by rewrite app_nil_r].
  cbn [after]. rewrite Hb. destruct Hrep as (_ & _ & [F1 F2 F3] & HS). split_and!; [by exists K|done| |done].
  split; [done| |done]. intros u Hu Hin. apply F2; [done|set_solver].
Qed.

Lemma served_create b w S used :
  s3_rep blob w S used → name_ok b → b ≠ str "root" → served (RCreateBucket b) w S used.
Proof.
  intros Hrep Hb Hroot. pose proof Hrep as ((K & Hdb) & Ho & Hfs & HS).
  pose proof (in_db_Ok (λ e, S3.CreateS3Error (S3.s3_error e)) _ w _ _ (get_bucket_run b _ S K Hdb Hb)) as Hget.
  rewrite set_db_same in Hget. destruct (S !! b) as [B|] eqn:HB.
  - eapply (served_read _ w w _ _ BucketExists); [done|by simpl; rewrite HB|done|exists K; by apply same_world_refl| |].
    + apply (answer_err _ _ _ _ S3.BucketAlreadyExists); [|done]. unfold S3.CreateBucket.
      rewrite (io_bind_Ok _ _ _ _ _ (store_run blob dir w)). by rewrite (io_bind_Ok _ _ _ _ _ Hget).
    + apply answer_exists. by rewrite HB.
  - destruct (create_run b _ S K Hdb Hb HB) as (d' & K' & Hset & Hdb').
    exists (BucketCreated b), (S3.set_db w d'), []. split_and!.
    + eapply answer_run. unfold S3.CreateBucket.
      rewrite (io_bind_Ok _ _ _ _ _ (store_run blob dir w)), (io_bind_Ok _ _ _ _ _ Hget). simpl.
      by rewrite (io_bind_Ok _ _ _ _ _ (in_db_Ok _ _ w _ _ Hset)).
    + by apply answer_created.
    + simpl. rewrite HB, (left_id_L ∅ (∪)). split_and!; [by exists K'|done| |].
      * destruct Hfs as [F1 F2 F3]. split; [done..|]. intros b' B k o.
        intros [[<- <-]|[_ HB']]%lookup_insert_Some; [done|by eapply F3].
      * apply map_Forall_insert_2; [|done]. split_and!; [done..|]. apply map_Forall_empty.
    + by rewrite app_nil_r.
Qed.

Lemma served_head_bucket b w S used :
  s3_rep blob w S used → name_ok b → served (RHeadBucket b) w S used.
Proof.
  intros Hrep Hb. pose proof Hrep as ((K & Hdb) & Ho & _).
  pose proof (in_db_Ok S3.s3_error _ w _ _ (get_bucket_run b _ S K Hdb Hb)) as Hget.
  rewrite set_db_same in Hget.
  eapply (served_read _ w w); [done..|exists K; by apply same_world_refl| |apply answer_head_bucket].
  etrans; [eapply answer_run|].
  - unfold S3.HeadBucket. rewrite (io_bind_Ok _ _ _ _ _ (store_run blob dir w)).
    by rewrite (io_bind_Ok _ _ _ _ _ Hget).
  - by destruct (S !! b).
Qed.

Lemma served_list_buckets w S used : s3_rep blob w S used → served RListBuckets w S used.
Proof.
  intros Hrep. pose proof Hrep as ((K & Hdb) & Ho & _ & HS).
  destruct (list_buckets_run _ S K Hdb HS) as (m & Hm & Hdom).
  pose proof (in_db_Ok S3.s3_error _ w _ _ Hm) as Hl. rewrite set_db_same in Hl.
  eapply (served_read _ w w _ _ (BucketNames (order (map_to_list m)).*1));
    [done..|exists K; by apply same_world_refl| |].
  - eapply answer_run. unfold S3.ListBuckets. rewrite (io_bind_Ok _ _ _ _ _ (store_run blob dir w)).
    by rewrite (io_bind_Ok _ _ _ _ _ Hl).
  - apply answer_buckets. rewrite order_perm. by apply keys_permutation.
Qed.

(** The steps that the requests about an object share. *)
Lemma get_key_run {E} (f : StoreError → E) b k w S K B :
  db_rep (S3.w_db w) S K → state_ok S → S !! b = Some B → name_ok k →
  S3.in_db f (Get (bstore b) (S3.object_path b k)) w = (Ok ((λ _, []) <$> b_objects B !! k), w).
Proof.
  intros Hdb HS HB Hk. rewrite (in_db_Ok _ _ w _ _ (get_object_run Hdb HB HS k Hk)). by rewrite set_db_same.
Qed.

Lemma meta_key_run {E} (f : StoreError → E) b k w S K B o :
  db_rep (S3.w_db w) S K → state_ok S → S !! b = Some B → b_objects B !! k = Some o →
  ∃ obj, S3.in_db f (S3.meta_to_obj (bstore b) b k) w = (Ok obj, w) ∧ object_is obj k o.
Proof.
  intros Hdb HS HB Hk. destruct (meta_to_obj_run Hdb HB HS k o Hk) as (obj & Hobj & His).
  exists obj. rewrite (in_db_Ok _ _ w _ _ Hobj), set_db_same. done.
Qed.

Lemma with_object_run {E A} (f : StoreError → E) (nf nk : E) b k w S K B
    (body : KeyValueStore → S3.Object → io S3.World E A) :
  db_rep (S3.w_db w) S K → owner_ok (S3.w_owner w) → state_ok S → S !! b = Some B → name_ok k →
  let m := S3.with_bucket_store (running blob dir) f b nf (λ st,
      resp ← S3.in_db f (Get st (S3.object_path b k));
      match resp with
      | None => io_lift (Err nk)
      | Some _ => meta ← S3.in_db f (S3.meta_to_obj st b k); body st meta
      end) in
  ∃ w', same_world w w' S K ∧
    match b_objects B !! k with
    | Some o => ∃ obj, object_is obj k o ∧ m w = body (bstore b) obj w'
    | None => m w = (Err nk, w')
    end.
Proof.
  intros Hdb Ho HS HB Hk m.
  destruct (with_bucket_store_run blob dir f b w S K B) as (w' & Hsame & Hw);
    [done..|by apply (bucket_name HB HS)|done|].
  exists w'. split; [done|]. destruct Hsame as (Hdb' & _).
  unfold m. rewrite Hw, (io_bind_Ok _ _ _ _ _ (get_key_run _ b k w' S K B Hdb' HS HB Hk)).
  destruct (b_objects B !! k) as [o|] eqn:Hko; simpl; [|done].
  destruct (meta_key_run f b k w' S K B o Hdb' HS HB Hko) as (obj & Hobj & His).
  exists obj. split; [done|]. by rewrite (io_bind_Ok _ _ _ _ _ Hobj).
Qed.

Lemma served_head b k w S used B :
  s3_rep blob w S used → S !! b = Some B → name_ok k → served (RHeadObject b k) w S used.
Proof.
  intros Hrep HB Hk. pose proof Hrep as ((K & Hdb) & Ho & _ & HS).
  destruct (with_bucket_store_run blob dir (λ e, S3.HeadS3Error (S3.s3_error e)) b w S K B)
    as (w' & Hsame & Hw); [done..|by apply (bucket_name HB HS)|done|].
  assert (∃ reply, serve (running blob dir) (RHeadObject b k) w = (Ok reply, w') ∧
    answers S (RHeadObject b k) reply []) as (reply & Hs & Hans);
    [|by apply (served_read _ w w' S used reply); [..|exists K| |]].
  pose proof Hsame as (Hdb' & _). cbn [serve]. unfold S3.HeadObject, answer.
  rewrite Hw, (io_bind_Ok _ _ _ _ _ (get_key_run _ b k w' S K B Hdb' HS HB Hk)).
  destruct (b_objects B !! k) as [o|] eqn:Hko; simpl.
  - destruct (meta_key_run (λ e, S3.HeadS3Error (S3.s3_error e)) b k w' S K B o Hdb' HS HB Hko)
      as (obj & Hobj & His). rewrite Hobj.
    exists (Info obj). split; [done|by eapply answer_head].
  - exists NoSuchKey. split; [done|by eapply answer_no_key].
Qed.

Lemma served_get b k w S used B :
  s3_rep blob w S used → S !! b = Some B → name_ok k → served (RGetObject b k) w S used.
Proof.
  intros Hrep HB Hk. pose proof Hrep as ((K & Hdb) & Ho & Hfs & HS).
  destruct (with_object_run (λ e, S3.GetS3Error (S3.s3_error e)) S3.GetBucketNotFound S3.GetObjectNotFound
    b k w S K B (λ _ meta, resp ← S3.in_fs S3.get_error (GetBlob blob (S3.o_sha256sum meta));
      mret (meta, map (λ i, match i with inr b => inr b | inl e => inl {| S3.rd_msg := msg e |} end) resp)))
    as (w' & Hsame & Hm); [done..|].
  assert (∃ reply, serve (running blob dir) (RGetObject b k) w = (Ok reply, w') ∧
    answers S (RGetObject b k) reply []) as (reply & Hs & Hans);
    [|by apply (served_read _ w w' S used reply); [..|exists K| |]].
  cbn [serve]. unfold S3.GetObject, answer.
  rewrite (io_bind_Ok _ _ _ _ _ (blob_store_run blob dir w)).
  destruct (b_objects B !! k) as [o|] eqn:Hko.
  - destruct Hm as (obj & His & Hm). rewrite Hm. pose proof His as (_ & _ & Hsha & _). rewrite Hsha.
    destruct (GetBlob_run blob (ob_content o) (S3.w_fs w')) as (chunks & Hg & Hc).
    { apply Hfs. }
    { destruct Hsame as (_ & _ & -> & _). by apply (fr_blob _ _ _ _ Hfs b B k o). }
    rewrite (io_bind_Ok _ _ _ _ _ (in_fs_Ok _ _ _ _ _ Hg)). rewrite map_map.
    exists (Content obj (map inr chunks)). split; [|by eapply answer_get]. by destruct w'.
  - rewrite Hm. exists NoSuchKey. split; [done|by eapply answer_no_key].
Qed.

Lemma served_list b w S used B :
  s3_rep blob w S used → S !! b = Some B → served (RListObjects b) w S used.
Proof.
  intros Hrep HB. pose proof Hrep as ((K & Hdb) & Ho & _ & HS).
  destruct (with_bucket_store_run blob dir (λ e, S3.ListS3Error (S3.s3_error e)) b w S K B)
    as (w' & Hsame & Hw); [done..|by apply (bucket_name HB HS)|done|].
  assert (∃ reply, serve (running blob dir) (RListObjects b) w = (Ok reply, w') ∧
    answers S (RListObjects b) reply []) as (reply & Hs & Hans);
    [|by apply (served_read _ w w' S used reply); [..|exists K| |]].
  pose proof Hsame as (Hdb' & _). cbn [serve]. unfold S3.ListObject, answer. rewrite Hw.
  destruct (list_objects_run _ S K b B Hdb' HB HS) as (m & Hm & Hdom).
  assert (Hkeys : (order (map_to_list m)).*1 ≡ₚ (map_to_list (b_objects B)).*1)
    by (rewrite order_perm; by apply keys_permutation).
  destruct (list_metas_run _ S K b B (order (map_to_list m)).*1 Hdb' HB HS) as (objs & Hobjs & Hall).
  { rewrite Hkeys. apply Forall_forall. intros x ([k o] & -> & Hk%elem_of_map_to_list)%list_elem_of_fmap.
    by eexists. }
  rewrite (in_db_Ok _ _ w' objs (S3.w_db w')) by (by rewrite (io_bind_Ok _ _ _ _ _ Hm)).
  exists (Objects objs). rewrite set_db_same. split; [done|]. by eapply answer_objects.
Qed.

(** ** Requests that change the store *)
Lemma state_ok_put S b B k o :
  state_ok S → S !! b = Some B → name_ok k → obj_ok o → state_ok (<[b := put_obj k o B]> S).
Proof.
  intros HS HB Hk Ho. destruct (HS _ _ HB) as (Hb & Hroot & Hobj).
  apply map_Forall_insert_2; [|done]. split_and!; [done..|]. by apply map_Forall_insert_2.
Qed.

Lemma state_ok_delete S b B k : state_ok S → S !! b = Some B → state_ok (<[b := delete_obj k B]> S).
Proof.
  intros HS HB. destruct (HS _ _ HB) as (Hb & Hroot & Hobj).
  apply map_Forall_insert_2; [|done]. split_and!; [done..|]. by apply map_Forall_delete.
Qed.

(** The blob of an object that nothing shares. *)
Lemma fs_rep_delete f f' S used b B k o :
  fs_rep blob f S used → S !! b = Some B → b_objects B !! k = Some o → removable b k S →
  fs_nodes f' = delete (blob_path blob (ob_content o)) (fs_nodes f) →
  fs_rep blob f' (<[b := delete_obj k B]> S) used.
Proof.
  intros [[F1 F2 F3 F4] Ft Fb] HB Hk Hrem N. destruct (Hrem B o HB Hk) as [_ Hshare].
  destruct (blob_path_apart blob (ob_content o)) as [A1 A2]. split.
  - split; rewrite ?N; [done|by rewrite lookup_delete_ne..|]. intros c E.
    apply lookup_delete_Some in E as [_ E]. by apply (F4 c).
  - intros u Hu Hin. rewrite N. apply lookup_delete_None. right. by apply Ft.
  - intros b' B' k' o' HB' Hk'. rewrite N.
    assert (∃ B0, S !! b' = Some B0 ∧ b_objects B0 !! k' = Some o' ∧ (b', k') ≠ (b, k)) as (B0 & H0 & Hk0 & Hne).
    { apply lookup_insert_Some in HB' as [[<- <-]|[Hne HB']].
      - simpl in Hk'. apply lookup_delete_Some in Hk' as [Hne Hk']. exists B. naive_solver.
      - exists B'. naive_solver. }
    rewrite lookup_delete_ne; [by eapply Fb|]. intros E%blob_path_inj.
    by apply (Hshare b' B0 k' o' H0 Hk0 Hne).
Qed.

Lemma served_delete b k w S used B :
  s3_rep blob w S used → S !! b = Some B → name_ok k → removable b k S →
  served (RDeleteObject b k) w S used.
Proof.
  intros Hrep HB Hk Hrem. pose proof Hrep as ((K & Hdb) & Ho & Hfs & HS).
  destruct (with_object_run (λ e, S3.DeleteS3Error (S3.s3_error e)) S3.DeleteBucketNotFound
    S3.DeleteObjectNotFound b k w S K B (λ st meta,
      version ← S3.in_db (λ e, S3.DeleteS3Error (S3.s3_error e))
        (MultiDelete st (S3.bucket_version_path b) (ranges b k));
      S3.replicate (S3.delete_event b k version);;
      S3.in_fs S3.delete_error (DeleteBlob blob (S3.o_sha256sum meta))))
    as (w1 & Hsame & Hm); [done..|]. pose proof Hsame as (Hdb1 & Ho1 & Hfs1 & Hsent1).
  destruct (b_objects B !! k) as [o|] eqn:Hko.
  - destruct Hm as (obj & (_ & _ & Hsha & _) & Hm). rewrite Hsha in Hm.
    destruct (delete_run _ S K b B k Hdb1 HB HS Hk) as (d' & K' & Hdel & Hdb').
    { by destruct (Hrem B o HB Hko). }
    rewrite (io_bind_Ok _ _ _ _ _ (in_db_Ok _ _ w1 _ _ Hdel)) in Hm.
    destruct (DeleteBlob_run blob (ob_content o) (S3.w_fs w1)) as (f' & Hf' & N).
    { apply Hfs. } { rewrite Hfs1. by apply (fr_blob _ _ _ _ Hfs b B k o). }
    rewrite (io_bind_Ok (S3.replicate _) _ (S3.set_db w1 d') () _ eq_refl) in Hm.
    rewrite (in_fs_Ok S3.delete_error _ _ () f') in Hm by exact Hf'.
    eexists Deleted, _, [S3.delete_event b k (bump B)]. split_and!.
    + apply (answer_run (λ _, Deleted) _ _ w ()). unfold S3.DeleteObject.
      rewrite (io_bind_Ok _ _ _ _ _ (blob_store_run blob dir w)). exact Hm.
    + by eapply answer_deleted.
    + cbn [after uuids]. rewrite HB, decide_True by (by rewrite Hko). rewrite (left_id_L ∅ (∪)).
      split_and!; [by exists K'|done| |by apply state_ok_delete].
      apply (fs_rep_delete (S3.w_fs w) f' S used b B k o); [done..|]. simpl. by rewrite N, Hfs1.
    + simpl. by rewrite Hsent1.
  - eapply (served_read _ w w1 S used NoSuchKey); [done| |done|by exists K| |by eapply answer_no_key].
    + simpl. rewrite HB, decide_False; [done|]. rewrite Hko. by intros [? ?].
    + apply (answer_err _ _ _ _ S3.DeleteObjectNotFound); [|done]. unfold S3.DeleteObject.
      rewrite (io_bind_Ok _ _ _ _ _ (blob_store_run blob dir w)). exact Hm.
Qed.

(** The stream as the blob store sees it. *)
Definition to_blob (data : list (S3.ReadDataError + bytes)) : list (BlobReadError + bytes) :=
  map (λ i, match i with inr b => inr b | inl e => inl {| msg := S3.rd_msg e |} end) data.

Lemma collect_inr data c :
  collect data = inr c → ∃ chunks, to_blob data = map inr chunks ∧ concat chunks = c.
Proof.
  revert c. induction data as [|[e|x] data IH]; intros c; simpl; [intros [= <-]; by exists []|done|].
  destruct (collect data) as [e|rest]; [done|]. intros [= <-].
  destruct (IH rest eq_refl) as (chunks & -> & <-). by exists (x :: chunks).
Qed.

(** A stream with an error stops the upload in the temporary file. *)
Lemma forward_failed p data c e f :
  fs_nodes f !! p = Some (File c) → collect data = inl e →
  ∃ f' c', forward (to_blob data) p f = (Err (PutBlobRead {| msg := S3.rd_msg e |}), f') ∧
    fs_nodes f' = <[p := File c']> (fs_nodes f).
Proof.
  revert c f. induction data as [|[e'|x] data IH]; intros c f Hp; simpl; [done| |].
  - intros [= <-]. exists f, c. split; [done|]. by rewrite insert_id.
  - intros He. assert (collect data = inl e) as Hd by (by destruct (collect data); simplify_eq).
    destruct (fs_write_works f p x c Hp) as [f1 H1]. pose proof (fs_write_spec _ _ _ _ _ H1 Hp) as N1.
    rewrite (io_bind_Ok _ _ _ _ _ (fs_do_run _ _ _ _ H1)).
    destruct (IH (c ++ x) f1) as (f' & c' & -> & N'); [by rewrite N1, lookup_insert_eq|done|].
    exists f', c'. split; [done|]. by rewrite N', N1, insert_insert_eq.
Qed.

Lemma tmp_path_apart uuid :
  plain uuid → tmp_dir blob ++ str "/" ++ uuid ≠ data_dir blob ∧ tmp_dir blob ++ str "/" ++ uuid ≠ tmp_dir blob.
Proof.
  intros _. split; intros E%(f_equal length); unfold tmp_dir in E; rewrite !length_app in E; simpl in E; lia.
Qed.

Lemma PutBlob_failed uuid data e f S used :
  fs_rep blob f S used → plain uuid → uuid ∉ used → collect data = inl e →
  ∃ f', PutBlob blob uuid (to_blob data) f = (Err (PutBlobRead {| msg := S3.rd_msg e |}), f') ∧
    fs_rep blob f' S ({[uuid]} ∪ used).
Proof.
  intros [Fok Ft Fb] Hu Hin He. unfold PutBlob. rewrite disk_tmp_path by (done || apply Fok).
  set (tmp := tmp_dir blob ++ str "/" ++ uuid).
  destruct (fs_create_works f (tmp_dir blob) uuid) as [f1 H1].
  { split_and!; [apply Fok|apply Hu..|]. by rewrite Ft. }
  fold tmp in H1. rewrite (io_bind_Ok _ _ _ _ _ (fs_do_run _ _ _ _ H1)).
  pose proof (fs_create_spec _ _ _ H1) as N1.
  destruct (forward_failed tmp data [] e f1) as (f2 & c' & H2 & N2); [by rewrite N1, lookup_insert_eq|done|].
  rewrite (io_bind_Err _ _ _ _ _ H2). exists f2. split; [done|].
  rewrite N1, insert_insert_eq in N2. destruct (tmp_path_apart uuid Hu). split.
  - rewrite N2. by apply blobs_ok_insert.
  - intros u Hpu Hni. rewrite N2, lookup_insert_ne; [apply Ft; [done|set_solver]|].
    unfold tmp. intros E%app_inv_head. injection E as ->. set_solver.
  - intros b B k o HB Hk. rewrite N2, lookup_insert_ne; [by eapply Fb|].
    intros E. by apply (blob_path_not_tmp blob uuid (ob_content o) Hu).
Qed.

Lemma fs_rep_put f f' S used uuid b B k o :
  fs_rep blob f S used → S !! b = Some B → no_collision (ob_content o) S →
  fs_nodes f' = <[blob_path blob (ob_content o) := File (ob_content o)]> (fs_nodes f) →
  fs_rep blob f' (<[b := put_obj k o B]> S) ({[uuid]} ∪ used).
Proof.
  intros [Fok Ft Fb] HB Hcoll N. split.
  - rewrite N. apply blobs_ok_insert; [done|apply blob_path_apart..].
  - intros u Hu Hin. rewrite N, lookup_insert_ne by (by apply blob_path_not_tmp).
    apply Ft; [done|set_solver].
  - assert (Hold : ∀ b' B' k' o', S !! b' = Some B' → b_objects B' !! k' = Some o' →
      fs_nodes f' !! blob_path blob (ob_content o') = Some (File (ob_content o'))).
    { intros b' B' k' o' HB' Hk'. rewrite N.
      destruct (decide (blob_path blob (ob_content o) = blob_path blob (ob_content o'))) as [E|E].
      - rewrite E, lookup_insert_eq. apply blob_path_inj in E.
        by rewrite (Hcoll b' B' k' o' HB' Hk' (eq_sym E)).
      - rewrite lookup_insert_ne by done. by eapply Fb. }
    intros b' B' k' o' [[<- <-]|[_ HB']]%lookup_insert_Some Hk'; [|by eapply Hold].
    simpl in Hk'. apply lookup_insert_Some in Hk' as [[<- <-]|[_ Hk']]; [|by eapply Hold].
    by rewrite N, lookup_insert_eq.
Qed.

Lemma served_put uuid now b k data w S used B :
  s3_rep blob w S used → S !! b = Some B → request_ok (RPutObject uuid now b k data) S used →
  served (RPutObject uuid now b k data) w S used.
Proof.
  intros Hrep HB (Hb & Hk & Hu & Hin & Hdata). pose proof Hrep as ((K & Hdb) & Ho & Hfs & HS).
  destruct (with_bucket_store_run blob dir (λ e, S3.PutS3Error (S3.s3_error e)) b w S K B)
    as (w1 & Hsame & Hw); [done..|]. pose proof Hsame as (Hdb1 & Ho1 & Hfs1 & Hsent1).
  unfold served. cbn [serve]. unfold S3.PutObject, answer.
  rewrite (io_bind_Ok _ _ _ _ _ (blob_store_run blob dir w)), Hw. fold (to_blob data).
  cbn [after uuids]. rewrite HB. destruct (collect data) as [e|c] eqn:Hc.
  - destruct (PutBlob_failed uuid data e (S3.w_fs w1) S used) as (f' & Hp & Hfs'); [by rewrite Hfs1|done..|].
    rewrite (io_bind_Err _ _ w1 (S3.PutReadDataError e) (S3.set_fs w1 f')).
    2:{ unfold S3.in_fs. rewrite Hp. by destruct e. }
    eexists (PutFailed e), _, []. split_and!; [done|by eapply answer_put_failed| |by simpl; rewrite Hsent1, app_nil_r].
    split_and!; [by exists K|done..].
  - destruct (Hdata c eq_refl) as [Hlen Hcoll]. destruct (collect_inr data c Hc) as (chunks & -> & Hcc).
    destruct (PutBlob_run blob uuid chunks (S3.w_fs w1)) as (f' & Hp & N); rewrite ?Hfs1.
    { apply Hfs. } { done. } { by apply Hfs. }
    rewrite Hcc in *. fold (info_of c) in Hp. rewrite Hfs1 in N.
    rewrite (io_bind_Ok _ _ _ _ _ (in_fs_Ok _ _ w1 _ _ Hp)).
    destruct (put_run _ S K b B k c now Hdb1 HB HS Hk) as (d' & K' & Hset & Hdb').
    rewrite (io_bind_Ok _ _ _ _ _ (in_db_Ok _ _ (S3.set_fs w1 f') _ _ Hset)).
    rewrite (io_bind_Ok (S3.replicate _) _ _ () _ eq_refl).
    eexists (Stored _), _, [_]. split_and!; [done|by eapply answer_stored| |by simpl; rewrite Hsent1].
    split_and!; [by exists K'|done| |].
    + by apply (fs_rep_put (S3.w_fs w) f' S used uuid b B k (obj_of c now)).
    + apply state_ok_put; [done..|]. split; [by exists now|done].
Qed.

Lemma serve_step r w S used :
  s3_rep blob w S used → request_ok r S used → served r w S used.
Proof.
  intros Hrep Hok.
  destruct (bucket_of r) as [b|] eqn:Hr.
  - assert (name_ok b) as Hb by (destruct r; simplify_eq/=; apply Hok).
    destruct (S !! b) as [B|] eqn:HB; [|by eapply served_no_bucket].
    destruct r; simplify_eq/=.
    + by eapply served_put.
    + destruct Hok. by eapply served_head.
    + destruct Hok. by eapply served_get.
    + destruct Hok as (_ & ? & ?). by eapply served_delete.
    + by eapply served_list.
  - destruct r; simplify_eq/=.
    + destruct Hok. by apply served_create.
    + by apply served_head_bucket.
    + by apply served_list_buckets.
Qed.

End refinement.
