(* ===== verification/S3Start.v ===== *)
(** * The S3 backend from its start, and what it does that its specification does not

    A fresh backend represents the empty store.  The examples run the backend on
    a database and a file system in memory; some of them show requests outside
    the conditions of the refinement theorem, where the backend loses data. *)
From S2P Require Import Prelude RustStr RocksDb Routing KeyValue KeyValueSpec BlobStore S3Backend S3Spec S3Refines.
Import KeyValueStore StoreOwner BlobStore KvSpec S3Spec.

Section start.
Context {HR : RocksDB} {HRL : RocksDBLaws} {HRW : RocksDBWorks}.
Context {HF : FileSystem} {HFL : FileSystemLaws} {HFW : FileSystemWorks}.
Context {HH : Hashes} {HHL : HashesLaws} {HT : TimeCrate} {HTL : TimeCrateLaws}.
Implicit Types (d : DB) (w : S3.World) (dir : bytes).

Definition s3data dir : ContentAddressableBlobStore :=
  {| BlobStore.name := str "s3data"; base_path := dir ++ str "/" ++ str "s3data" |}.

(** Asking for a store whose type is not known yet. *)
Lemma check_type_new n t (o : StoreOwner) d :
  db_contents d !! type_key n = None →
  ∃ d', check_or_create_store_type n t (o, d) = (Ok (Some ()), (o, d')) ∧
    db_contents d' = <[type_key n := as_bytes t]> (db_contents d).
Proof.
  intros Hn. unfold check_or_create_store_type. rewrite io_bind_get, get_run. unfold db_owner.
  rewrite io_bind_lift, Hn. destruct (db_put_works d (type_key n) (as_bytes t)) as [d' Hd'].
  rewrite Hd', io_bind_lift. exists d'. split; [done|]. by apply db_put_spec.
Qed.

Lemma type_key_inj n n' : type_key n = type_key n' → n = n'.
Proof. unfold type_key. by intros E%app_inv_head%app_inv_head%app_inv_head. Qed.

Lemma db_rep_fresh d :
  db_contents d = <[type_key (str "s3data") := as_bytes ContentAddressableBlob]>
    (<[type_key S3.root_store_name := as_bytes KeyValue]> ∅) →
  db_rep d ∅ (λ _, ∅).
Proof.
  intros Hd. split.
  - intros n Hn. unfold represents. rewrite Hd. do 2 apply rep_type_key.
    split; [|apply map_Forall_empty]. intros x. by rewrite !lookup_empty.
  - intros p v. rewrite lookup_empty. split; [done|]. destruct 1 as [b Hb|b Hb];
      rewrite lookup_empty in Hb; by destruct Hb.
  - intros b p v _. rewrite !lookup_empty. split; [done|]. simpl. destruct 1 as [k o Ho|k o s t Ho|z Hz];
      by rewrite ?lookup_empty in *.
  - intros n e. rewrite Hd. intros [[E _]|[_ [[E <-]|[_ E]]%lookup_insert_Some]]%lookup_insert_Some;
      [by apply type_key_inj in E|done|by rewrite lookup_empty in E].
Qed.

(** Nothing is where the store will put its directories and files. *)
Definition fresh_disk dir (f : FS) : Prop :=
  (∀ q, starts_with (data_dir (s3data dir)) q = true → fs_nodes f !! q = None) ∧
  (∀ q r c, (tmp_dir (s3data dir)) = (q ++ str "/" ++ r) → fs_nodes f !! q ≠ Some (File c)).

Lemma starts_with_self (p x : bytes) : starts_with p (p ++ x) = true.
Proof. apply starts_with_app. Qed.

Lemma blob_started_run dir f :
  plain_path dir → fresh_disk dir f →
  ∃ f', BlobStore.started (s3data dir) f = (Ok (), f') ∧ fs_rep (s3data dir) f' ∅ ∅.
Proof.
  intros Hd [Hfresh Hanc]. set (blob := s3data dir) in *.
  assert (Hb : plain_path (base_path blob)).
  { apply plain_path_join. by apply plain_bool. }
  unfold BlobStore.started. rewrite io_bind_get.
  rewrite (path_join_plain (base_path blob)) by (done || apply plain_data). fold (data_dir blob).
  rewrite (path_join_plain (data_dir blob)) by (apply plain_data_dir || apply plain_tmp). fold (tmp_dir blob).
  destruct (fs_create_dir_all_works f (tmp_dir blob)) as [f' Hf'].
  { intros q c [->|[r Hr]] E; [|by eapply Hanc]. rewrite Hfresh in E; [done|]. apply starts_with_self. }
  rewrite Hf', io_bind_lift. exists f'. split; [done|].
  destruct (fs_create_dir_all_spec _ _ _ Hf') as (Ht & Hp & Hold & Hnew).
  assert (Hnone : ∀ x, x ≠ str "/" ++ str "tmp" → x ≠ [] → fs_nodes f' !! (data_dir blob ++ x) = None).
  { intros x Hx Hx'. apply eq_None_not_Some. intros Hs.
    destruct (Hnew (data_dir blob ++ x)) as [E|[r E]]; [by apply Hfresh, starts_with_self|done| |].
    - unfold tmp_dir in E. by apply app_inv_head in E.
    - unfold tmp_dir in E. rewrite <-app_assoc in E. apply app_inv_head in E.
      apply (f_equal (λ s, bool_decide (47 ∈ drop 1 s))) in E. destruct x as [|a x]; [done|].
      simpl in E. change (bool_decide (47 ∈ str "tmp")) with false in E. symmetry in E.
      apply bool_decide_eq_false in E. set_solver. }
  split.
  - split; [done| |done|].
    + apply (Hp _ (str "tmp")); [done|]. by destruct (plain_data_dir blob).
    + intros c E. destruct (sha_name c) as [_ Hs]. unfold blob_path in E.
      rewrite Hnone in E; [done| |done]. intros E'. by injection E'.
  - intros u Hu _. unfold tmp_dir. rewrite <-app_assoc. apply Hnone; [|done].
    intros E%(f_equal length). rewrite !length_app in E. simpl in E. lia.
  - intros b B k o HB. by rewrite lookup_empty in HB.
Qed.

(** A backend that starts on an empty database, with nothing in its
    data directory, does not stop: it opens the two stores and creates the
    directories, and the world then represents the store without buckets, so that
    the refinement theorem applies to everything it serves from then on. *)
Theorem s3_started dir w :
  plain_path dir → db_contents (S3.w_db w) = ∅ → S3.w_owner w = StoreOwner_new →
  fresh_disk dir (S3.w_fs w) →
  ∃ w', S3.started (S3.S3_new dir) w = (Ok (running (s3data dir) dir, false), w') ∧
    s3_rep (s3data dir) w' ∅ ∅ ∧ S3.w_sent w' = S3.w_sent w.
Proof.
  intros Hdir Hdb Ho Hfs. destruct w as [o d f sent]. simpl in *. subst o.
  destruct (check_type_new S3.root_store_name KeyValue StoreOwner_new d) as (d1 & H1 & N1);
    [by rewrite Hdb|].
  set (o1 := {| kv_stores := <[S3.root_store_name := bstore (str "root")]> ∅; blob_stores := ∅ |}).
  assert (Hkv : S3.in_owner (GetOrCreateKeyValueStore S3.root_store_name) (S3.Build_World StoreOwner_new d f sent)
            = (Ok (bstore (str "root")), S3.Build_World o1 d1 f sent)).
  { unfold S3.in_owner, GetOrCreateKeyValueStore. by rewrite (io_bind_Ok _ _ _ _ _ H1). }
  unfold S3.started. rewrite Hkv.
  destruct (check_type_new (str "s3data") ContentAddressableBlob o1 d1) as (d2 & H2 & N2).
  { rewrite N1, Hdb, lookup_insert_ne; [done|]. by intros E%type_key_inj. }
  destruct (blob_started_run dir f Hdir Hfs) as (f' & Hf' & Hrep).
  change (S3.storage_dir (S3.S3_new dir)) with dir.
  rewrite path_join_plain by (done || by apply plain_bool).
  set (o2 := {| kv_stores := kv_stores o1; blob_stores := <[str "s3data" := base_path (s3data dir)]> ∅ |}).
  assert (Hblob : S3.create_blob_store (str "s3data") (dir ++ str "/" ++ str "s3data") (S3.Build_World o1 d1 f sent)
            = (Ok (s3data dir), S3.Build_World o2 d2 f' sent)).
  { unfold S3.create_blob_store. rewrite io_bind_get.
    rewrite (io_bind_Ok _ _ _ (base_path (s3data dir)) (S3.Build_World o2 d2 f sent)).
    - cbn [S3.w_owner blob_stores o1]. rewrite lookup_empty.
      by rewrite (io_bind_Ok _ _ _ () _ (in_fs_Ok _ _ (S3.Build_World o2 d2 f sent) _ _ Hf')).
    - unfold S3.in_owner, GetOrCreateContentAddressableBlobStore. by rewrite (io_bind_Ok _ _ _ _ _ H2). }
  rewrite Hblob. eexists. split; [done|]. split; [|done]. split_and!.
  - exists (λ _, ∅). apply db_rep_fresh. simpl. by rewrite N2, N1, Hdb.
  - intros n st. simpl. intros [[<- <-]|[_ E]]%lookup_insert_Some; [done|by rewrite lookup_empty in E].
  - done.
  - apply map_Forall_empty.
Qed.
End start.

(** ** Events from other replicas *)
Section receive.
Context {HR : RocksDB} {HRL : RocksDBLaws} {HRW : RocksDBWorks}.
Context {HF : FileSystem} {HFL : FileSystemLaws} {HFW : FileSystemWorks}.
Context {HH : Hashes} {HHL : HashesLaws} {HT : TimeCrate} {HTL : TimeCrateLaws}.
Implicit Types (d : DB) (w : S3.World) (dir b : bytes).

(** The version is read as if it were a text. *)
Definition version_readable (B : Bucket) : bool :=
  match b_version B with Some n => utf8_valid (to_le_bytes n) | None => true end.

Lemma get_version_run d (S : gmap bytes Bucket) K b B :
  db_rep d S K → S !! b = Some B → state_ok S →
  Get (bstore b) (S3.bucket_version_path b) d
    = (if version_readable B then Ok (to_le_bytes <$> b_version B) else Panic, d).
Proof.
  intros Hdb HB HS. unfold Get. iorun. rewrite get_run, (io_bind_Ok _ _ _ _ _ (db_op_inr _ _)).
  rewrite (rep_get _ _ _ _ (bucket_represents Hdb HB HS)) by apply version_path_ok, (bucket_name HB HS).
  rewrite (lookup_version Hdb (bucket_not_root HB HS) (bucket_default HB)). unfold version_readable.
  destruct (b_version B) as [n|]; [|done]. simpl. unfold from_utf8. by destruct (utf8_valid _).
Qed.

Lemma receive_events_run d (S : gmap bytes Bucket) K b B (events : list Event) :
  db_rep d S K → S !! b = Some B → state_ok S →
  S3.receive_events (bstore b) b events d
    = (if bool_decide (events = []) || version_readable B then Ok () else Panic, d).
Proof.
  intros Hdb HB HS. induction events as [|e events IH]; simpl; [done|].
  unfold mbind, io_bind. rewrite (get_version_run d S K b B Hdb HB HS).
  destruct (version_readable B); [|done]. rewrite IH. by rewrite orb_true_r.
Qed.

(** What an event of another replica does: nothing is stored; it is
    refused when the bucket does not exist, and otherwise accepted, except that the
    handler panics when the event is not empty and the eight bytes of the version
    of the bucket are not a valid string, as happens first after 128 changes. *)
Theorem receive_event_spec (blob : ContentAddressableBlobStore) dir (e : BucketEvent) w
    (S : gmap bytes Bucket) (used : gset bytes) :
  s3_rep blob w S used → name_ok (be_bucket_name e) →
  ∃ w', s3_rep blob w' S used ∧ S3.w_sent w' = S3.w_sent w ∧ 
    S3.EventReplicationReceived (running blob dir) e w =
      (match S !! be_bucket_name e with
       | None => Err S3.BucketNotExists
       | Some B =>
           if bool_decide (be_events e = []) || version_readable B then Ok () else Panic
       end, w').
Proof.
  intros ((K & Hdb) & Ho & Hfs & HS) Hb. unfold S3.EventReplicationReceived.
  destruct (S !! be_bucket_name e) as [B|] eqn:HB.
  - destruct (with_bucket_store_run blob dir (λ e, S3.ReceiveS3Error (S3.s3_error e)) (be_bucket_name e) w S K B)
      as (w' & (Hdb' & Ho' & Hfs' & Hsent) & Hw); [done..|].
    exists w'. split; [split_and!; [by exists K|done|by rewrite Hfs'|done]|]. split; [done|].
    rewrite Hw. unfold S3.in_db. rewrite (receive_events_run _ S K _ B) by done. rewrite set_db_same.
    by destruct (_ || _).
  - exists w. split; [split_and!; [by exists K|done..]|]. split; [done|].
    by apply (with_bucket_store_missing blob dir _ _ _ _ _ S K).
Qed.
End receive.

(** ** Examples *)
Import MemoryFs MemoryDb.

(** Instants of the examples are seconds. *)
#[export] Instance seconds_time : TimeCrate := {|
  OffsetDateTime := Z;
  unix_timestamp z := z mod 2 ^ 63;
  from_unix_timestamp z := if decide (0 ≤ z < 2 ^ 63) then Some z else None;
|}.

#[export] Instance seconds_time_laws : TimeCrateLaws.
Proof.
  split; simpl; intros.
  - pose proof (Z.mod_pos_bound t (2 ^ 63) ltac:(lia)). unfold i64_ok. lia.
  - pose proof (Z.mod_pos_bound t (2 ^ 63) ltac:(lia)). rewrite decide_True by lia.
    eexists. split; [done|]. apply Z.mod_mod. lia.
  - case_decide; [|done]. simplify_eq. by apply Z.mod_small.
  - by eexists.
Qed.

Definition noon : @OffsetDateTime seconds_time := 43200.

Definition home : bytes := str "/srv".

Definition empty_world : S3.World :=
  {| S3.w_owner := StoreOwner_new; S3.w_db := (∅ : gmap bytes bytes); S3.w_fs := (∅ : gmap bytes node);
     S3.w_sent := [] |}.

Definition world0 : S3.World := (S3.started (S3.S3_new home) empty_world).2.
Definition s3 : S3.S3 := running (s3data home) home.

Lemma s3_started_witness :
  ∃ w', S3.started (S3.S3_new home) empty_world = (Ok (s3, false), w') ∧
    s3_rep (s3data home) w' ∅ ∅ ∧ S3.w_sent w' = [].
Proof. by apply (s3_started home empty_world). Defined.

Definition photos : bytes := str "photos".
Definition cat : bytes := str "cat".

Definition visit : list Request := [
  RCreateBucket photos; RPutObject uuid_1 noon photos cat [inr (str "me"); inr (str "ow")];
  RGetObject photos cat; RHeadObject photos (str "dog"); RDeleteObject photos cat; RListObjects photos].

Definition state1 : gmap bytes Bucket := <[photos := new_bucket]> ∅.
Definition state2 : gmap bytes Bucket := <[photos := put_obj cat (obj_of (str "meow") noon) new_bucket]> state1.

Lemma visit_state1 : after (RCreateBucket photos) ∅ = state1.
Proof. vm_compute. reflexivity. Qed.
Lemma visit_state2 :
  after (RPutObject uuid_1 noon photos cat [inr (str "me"); inr (str "ow")]) state1 = state2.
Proof. vm_compute. reflexivity. Qed.

Lemma visit_ok : requests_ok visit ∅ ∅.
Proof.
  assert (Hlit : ∀ s, bool_decide (0 ∉ s) && utf8_valid s = true → name_ok s) by apply name_ok_lit.
  unfold visit. cbn [requests_ok request_ok]. rewrite visit_state1, visit_state2. split_and!; try (by apply Hlit); try done.
  - by apply plain_bool.
  - intros c [= <-]. split; [by vm_compute|]. intros b B k o HB Hk. exfalso. unfold state1 in HB.
    apply lookup_insert_Some in HB as [[<- <-]|[_ HB]]; [done|by rewrite lookup_empty in HB].
  - cbn [after]. assert (Hone : ∀ b B k o, state2 !! b = Some B → b_objects B !! k = Some o →
      b = photos ∧ k = cat).
    { unfold state2, state1. intros b B k o HB Hk. apply lookup_insert_Some in HB as [[<- <-]|[_ HB]].
      - simpl in Hk. apply lookup_insert_Some in Hk as [[<- <-]|[_ Hk]]; [done|by rewrite lookup_empty in Hk].
      - exfalso. apply lookup_insert_Some in HB as [[<- <-]|[_ HB]]; [done|by rewrite lookup_empty in HB]. }
    intros B o HB Hk. split.
    + intros k' [o' Ho'] Hne. by destruct (Hone _ _ _ _ HB Ho') as [_ ->].
    + intros b' B' k' o' HB' Hk' Hne. by destruct (Hone _ _ _ _ HB' Hk') as [-> ->].
Qed.

Definition fresh_db : @DB memory :=
  (<[type_key (str "s3data") := as_bytes ContentAddressableBlob]>
    (<[type_key S3.root_store_name := as_bytes KeyValue]> ∅) : gmap bytes bytes).

Lemma fresh_world_rep : ∃ w, s3_rep (s3data home) w ∅ ∅.
Proof.
  destruct (blob_started_run (HF := memory_fs) home (∅ : gmap bytes node)) as (f & _ & Hf); [done..|].
  exists {| S3.w_owner := StoreOwner_new; S3.w_db := fresh_db; S3.w_fs := f; S3.w_sent := [] |}.
  split_and!; [exists (λ _, ∅); by apply db_rep_fresh|by intros n st|done|apply map_Forall_empty].
Qed.

(** A world with a bucket, and one with an object in it. *)
Lemma state1_rep : ∃ w, s3_rep (s3data home) w state1 ∅.
Proof.
  destruct fresh_world_rep as [w Hrep].
  destruct (serve_step (s3data home) home (RCreateBucket photos) w ∅ ∅ Hrep) as (_ & w' & _ & _ & _ & Hrep' & _).
  { apply visit_ok. }
  exists w'. rewrite visit_state1 in Hrep'. cbn [uuids] in Hrep'. by rewrite (left_id_L ∅ (∪)) in Hrep'.
Qed.

Lemma state2_rep : ∃ w used, s3_rep (s3data home) w state2 used.
Proof.
  destruct state1_rep as [w Hrep].
  destruct (serve_step (s3data home) home (RPutObject uuid_1 noon photos cat [inr (str "me"); inr (str "ow")])
    w state1 ∅ Hrep) as (_ & w' & _ & _ & _ & Hrep' & _).
  { pose proof visit_ok as H. unfold visit in H. cbn [requests_ok] in H. rewrite visit_state1 in H.
    cbn [uuids] in H. rewrite (left_id_L ∅ (∪)) in H. apply H. }
  exists w'. eexists. by rewrite visit_state2 in Hrep'.
Qed.


(** The answer to the last of some requests. *)
Definition last_answer (l : list Request) : outcome () (option Reply) :=
  last <$> (serve_all s3 l world0).1.

(** Removing "ca" also removes "cat": the keys are deleted by their beginning. *)
Example delete_removes_longer_keys :
  last_answer [RCreateBucket photos; RPutObject uuid_1 noon photos (str "ca") [inr (str "x")];
    RPutObject uuid_2 noon photos cat [inr (str "meow")]; RDeleteObject photos (str "ca");
    RHeadObject photos cat] = Ok (Some NoSuchKey).
Proof. vm_cast_no_check (eq_refl (@Ok () _ (Some NoSuchKey))). Qed.

(** Removing one of two objects with the same content makes the other unreadable. *)
Example delete_removes_shared_blob :
  last_answer [RCreateBucket photos; RPutObject uuid_1 noon photos (str "dog") [inr (str "woof")];
    RPutObject uuid_2 noon photos cat [inr (str "woof")]; RDeleteObject photos (str "dog");
    RGetObject photos cat] = Err ().
Proof. vm_cast_no_check (eq_refl (@Err () (option Reply) ())). Qed.

(** Listing with a prefix gives the rest of the keys, without their metadata. *)
Example list_with_prefix_strips_keys :
  let w := (serve_all s3 [RCreateBucket photos;
    RPutObject uuid_1 noon photos cat [inr (str "meow")]] world0).2 in
  (S3.ListObject s3 photos (str "c") w).1
    = Ok [{| S3.o_key := str "at"; S3.o_md5sum := []; S3.o_sha256sum := [];
             S3.o_last_modified := 0; S3.o_size := 0 |}].
Proof. intros w. vm_cast_no_check (eq_refl (S3.ListObject s3 photos (str "c") w).1). Qed.

(** An upload that fails leaves its temporary file behind. *)
Example failed_upload_leaves_file :
  let w := (serve_all s3 [RCreateBucket photos;
    RPutObject uuid_1 noon photos cat [inr (str "me"); inl {| S3.rd_msg := str "closed" |}]] world0).2 in
  fs_nodes (S3.w_fs w) !! (tmp_dir (s3data home) ++ str "/" ++ uuid_1) = Some (File (str "me")).
Proof. vm_compute. reflexivity. Qed.

Lemma receive_event_spec_witness :
  ∃ w, s3_rep (s3data home) w ∅ ∅ ∧
    ∃ w', s3_rep (s3data home) w' ∅ ∅ ∧ S3.w_sent w' = S3.w_sent w ∧
      S3.EventReplicationReceived s3 (S3.delete_event photos cat 3) w = (Err S3.BucketNotExists, w').
Proof.
  destruct fresh_world_rep as [w Hrep]. exists w. split; [done|].
  apply (receive_event_spec (s3data home) home (S3.delete_event photos cat 3) _ ∅ ∅ Hrep).
  by apply name_ok_lit.
Defined.

(** The first version that cannot be read. *)
Example version_128_unreadable :
  map (λ n, version_readable {| b_objects := ∅; b_version := Some n |}) [1; 127; 128] = [true; true; false].
Proof. reflexivity. Qed.
