(* ===== verification/S3Frontend.v ===== *)
(** * The S3 frontend of replistore (replistore/src/frontend/s3/s3_frontend.rs)

    The service translates the requests of the crate [s3s] into messages to the
    backend, and the answers and errors back.  Of the inputs and outputs of [s3s]
    the fields the code reads or sets are modelled; all others of the outputs are
    [None].  The texts that [s3s] and [Debug] make, and the conversion of
    timestamps, are parameters. *)
From S2P Require Import Prelude RustStr RocksDb Routing KeyValue KeyValueSpec BlobStore S3Backend S3Spec S3Refines S3Start.
Import BlobStore S3Spec.

(** [z as i64] of a [u64]. *)
Definition as_i64 (z : Z) : Z := if z <? 2 ^ 63 then z else z - 2 ^ 64.

Module S3Frontend.

Inductive S3ErrorCode := InternalError | CodeBucketAlreadyExists | CodeNoSuchBucket | CodeNoSuchKey | InvalidRequest.

Record S3sError := { code : S3ErrorCode; message : option bytes }.

(** [s3_error!(..)]. *)
Definition s3_error_code (c : S3ErrorCode) : S3sError := {| code := c; message := None |}.

Section frontend.
Context `{!RocksDB, !FileSystem, !Hashes, !TimeCrate, !HashOrder}.

(** [format!("{value:?}")] of an error, the timestamps of [s3s], and the errors of
    a request body. *)
Context (debug_s3_error : S3.S3Error → bytes).
Context {Timestamp : Type} (timestamp_from : OffsetDateTime → Timestamp).
Context {StdError : Type} (std_to_string : StdError → bytes).

Definition internal (msg : bytes) : S3sError := {| code := InternalError; message := Some msg |}.

Definition from_s3_error (e : S3.S3Error) : S3sError := internal (debug_s3_error e).

Definition from_create_bucket (e : S3.CreateBucketError) : S3sError :=
  match e with
  | S3.CreateS3Error e => from_s3_error e
  | S3.BucketAlreadyExists => s3_error_code CodeBucketAlreadyExists
  end.

Definition from_list_object (e : S3.ListObjectError) : S3sError :=
  match e with
  | S3.ListS3Error e => from_s3_error e
  | S3.ListBucketNotFound => s3_error_code CodeNoSuchBucket
  end.

Definition from_put_object (e : S3.PutObjectError) : S3sError :=
  match e with
  | S3.PutS3Error e => from_s3_error e
  | S3.PutBucketNotFound => s3_error_code CodeNoSuchBucket
  | S3.PutReadDataError e => internal (S3.rd_msg e)
  end.

Definition from_head_object (e : S3.HeadObjectError) : S3sError :=
  match e with
  | S3.HeadS3Error e => from_s3_error e
  | S3.HeadBucketNotFound => s3_error_code CodeNoSuchBucket
  | S3.HeadObjectNotFound => s3_error_code CodeNoSuchKey
  end.

Definition from_get_object (e : S3.GetObjectError) : S3sError :=
  match e with
  | S3.GetS3Error e => from_s3_error e
  | S3.GetBucketNotFound => s3_error_code CodeNoSuchBucket
  | S3.GetObjectNotFound => s3_error_code CodeNoSuchKey
  | S3.GetReadDataError e => internal (S3.rd_msg e)
  end.

Definition from_delete_object (e : S3.DeleteObjectError) : S3sError :=
  match e with
  | S3.DeleteS3Error e => from_s3_error e
  | S3.DeleteBucketNotFound => s3_error_code CodeNoSuchBucket
  | S3.DeleteObjectNotFound => s3_error_code CodeNoSuchKey
  | S3.DeleteReadDataError e => internal (S3.rd_msg e)
  end.

(** [send_s3(..).await??]: a handler that panicked answers with a mailbox error. *)
Definition send_s3 {E A} (from : E → S3sError) (m : io S3.World E A) : io S3.World S3sError A := λ w,
  match m w with
  | (Ok a, w) => (Ok a, w)
  | (Err e, w) => (Err (from e), w)
  | (Panic, w) => (Err (internal (str "actix error")), w)
  end.

(** ** The outputs *)
Record BucketDto := { bd_creation_date : option Timestamp; bd_name : option bytes }.
Record OwnerDto := { ow_display_name : option bytes; ow_id : option bytes }.
Record ListBucketsOutput := { lb_buckets : option (list BucketDto); lb_owner : option OwnerDto }.
Record ObjectDto := { od_key : option bytes; od_last_modified : option Timestamp; od_size : option Z }.
Record ListObjectsOutput := { lo_contents : option (list ObjectDto); lo_name : option bytes }.
Record HeadObjectOutput := {
  ho_last_modified : option Timestamp;
  ho_content_length : option Z;
  ho_e_tag : option bytes;
  ho_checksum_sha256 : option bytes;
}.
Record GetObjectOutput := {
  go_body : option (list (bytes + bytes));
  go_last_modified : option Timestamp;
  go_content_length : option Z;
  go_e_tag : option bytes;
  go_checksum_sha256 : option bytes;
}.
Record PutObjectOutput := { pu_e_tag : option bytes; pu_checksum_sha256 : option bytes }.

(** ** The service *)
Record S3Frontend := { s3 : S3.S3; s3_port : Z }.

Definition get_bucket_location (self : S3Frontend) : io S3.World S3sError (option bytes) := mret None.

(** [now] gives the time for each of the buckets. *)
Definition list_buckets (self : S3Frontend) (now : nat → Timestamp) : io S3.World S3sError ListBucketsOutput :=
  buckets ← send_s3 from_s3_error (S3.ListBuckets (s3 self));
  mret {|
    lb_buckets := Some (imap (λ i name, {| bd_creation_date := Some (now i); bd_name := Some name |}) buckets);
    lb_owner := Some {| ow_display_name := Some (str "ich teste mal"); ow_id := Some (str "test") |} |}.

(** The location of the new bucket. *)
Definition create_bucket (self : S3Frontend) (bucket : bytes) : io S3.World S3sError (option bytes) :=
  bucket ← send_s3 from_create_bucket (S3.CreateBucket (s3 self) bucket);
  mret (Some (str "/" ++ bucket)).

Definition head_bucket (self : S3Frontend) (bucket : bytes) : io S3.World S3sError () :=
  found ← send_s3 from_s3_error (S3.HeadBucket (s3 self) bucket);
  match found with
  | Some () => mret ()
  | None => io_lift (Err (s3_error_code CodeNoSuchBucket))
  end.

Definition object_dto (obj : S3.Object) : ObjectDto := {|
  od_key := Some (S3.o_key obj);
  od_last_modified := Some (timestamp_from (S3.o_last_modified obj));
  od_size := Some (as_i64 (S3.o_size obj)) |}.

Definition list_objects (self : S3Frontend) (bucket : bytes) (prefix : option bytes)
    : io S3.World S3sError ListObjectsOutput :=
  objects ← send_s3 from_list_object (S3.ListObject (s3 self) bucket (default [] prefix));
  mret {| lo_contents := Some (map object_dto objects); lo_name := Some bucket |}.

(** The second version of the request has the same fields. *)
Definition list_objects_v2 (self : S3Frontend) (bucket : bytes) (prefix : option bytes)
    : io S3.World S3sError ListObjectsOutput :=
  objects ← send_s3 from_list_object (S3.ListObject (s3 self) bucket (default [] prefix));
  mret {| lo_contents := Some (map object_dto objects); lo_name := Some bucket |}.

Definition head_object (self : S3Frontend) (bucket k : bytes) : io S3.World S3sError HeadObjectOutput :=
  obj ← send_s3 from_head_object (S3.HeadObject (s3 self) bucket k);
  mret {|
    ho_last_modified := Some (timestamp_from (S3.o_last_modified obj));
    ho_content_length := Some (as_i64 (S3.o_size obj));
    ho_e_tag := Some (S3.o_md5sum obj);
    ho_checksum_sha256 := Some (S3.o_sha256sum obj) |}.

Definition get_object (self : S3Frontend) (bucket k : bytes) : io S3.World S3sError GetObjectOutput :=
  result ← send_s3 from_get_object (S3.GetObject (s3 self) bucket k);
  let obj := fst result in
  mret {|
    go_body := Some (map (λ i, match i with inr b => inr b | inl e => inl (S3.rd_msg e) end) (snd result));
    go_last_modified := Some (timestamp_from (S3.o_last_modified obj));
    go_content_length := Some (as_i64 (S3.o_size obj));
    go_e_tag := Some (S3.o_md5sum obj);
    go_checksum_sha256 := Some (S3.o_sha256sum obj) |}.

Definition delete_object (self : S3Frontend) (bucket k : bytes) : io S3.World S3sError () :=
  send_s3 from_delete_object (S3.DeleteObject (s3 self) bucket k);;
  mret ().

Definition put_object (self : S3Frontend) (uuid : bytes) (now : OffsetDateTime) (bucket k : bytes)
    (body : option (list (StdError + bytes))) : io S3.World S3sError PutObjectOutput :=
  match body with
  | None => io_lift (Err (s3_error_code InvalidRequest))
  | Some body =>
      object ← send_s3 from_put_object (S3.PutObject (s3 self) uuid now bucket k
        (map (λ i, match i with inr b => inr b | inl e => inl {| S3.rd_msg := std_to_string e |} end) body));
      mret {| pu_e_tag := Some (S3.o_md5sum object); pu_checksum_sha256 := Some (S3.o_sha256sum object) |}
  end.
End frontend.
End S3Frontend.

(** ** What the clients see *)
Import S3Frontend.

Lemma as_i64_spec z : u64_ok z →
  i64_ok (as_i64 z) ∧ (z < 2 ^ 63 → as_i64 z = z) ∧ (2 ^ 63 ≤ z → as_i64 z < 0).
Proof. unfold u64_ok, i64_ok, as_i64. intros Hz. destruct (Z.ltb_spec z (2 ^ 63)); lia. Qed.

Section clients.
Context {HR : RocksDB} {HRL : RocksDBLaws} {HRW : RocksDBWorks}.
Context {HF : FileSystem} {HFL : FileSystemLaws} {HFW : FileSystemWorks}.
Context {HH : Hashes} {HHL : HashesLaws} {HT : TimeCrate} {HTL : TimeCrateLaws}.
Context {HO : HashOrder} {HOL : HashOrderLaws}.
Context (debug_s3_error : S3.S3Error → bytes).
Context {Timestamp : Type} (timestamp_from : OffsetDateTime → Timestamp).
Context {StdError : Type} (std_to_string : StdError → bytes).
Context (blob : ContentAddressableBlobStore) (dir : bytes) (port : Z).
Implicit Types (b k : bytes) (w : S3.World) (S : gmap bytes Bucket) (used : gset bytes).

Definition frontend : S3Frontend := {| s3 := running blob dir; s3_port := port |}.

Lemma answer_inv {E A} (ok : A → Reply) (err : E → option Reply) m w r w' :
  answer ok err m w = (Ok r, w') →
  (∃ a, m w = (Ok a, w') ∧ ok a = r) ∨ (∃ e, m w = (Err e, w') ∧ err e = Some r).
Proof.
  unfold answer. destruct (m w) as [[a|e|] w1]; [naive_solver| |naive_solver].
  destruct (err e) eqn:E1; naive_solver.
Qed.

Lemma send_s3_Ok {E A} (from : E → S3sError) (m : io S3.World E A) w a w' :
  m w = (Ok a, w') → send_s3 from m w = (Ok a, w').
Proof. intros H. unfold send_s3. by rewrite H. Qed.

Lemma send_s3_Err {E A} (from : E → S3sError) (m : io S3.World E A) w e w' :
  m w = (Err e, w') → send_s3 from m w = (Err (from e), w').
Proof. intros H. unfold send_s3. by rewrite H. Qed.

(** The answers of the backend to requests about an object that is there. *)
Lemma GetObject_run b k w S used B o :
  s3_rep blob w S used → S !! b = Some B → b_objects B !! k = Some o → name_ok k →
  ∃ obj chunks w', S3.GetObject (running blob dir) b k w = (Ok (obj, map inr chunks), w') ∧
    object_is obj k o ∧ concat chunks = ob_content o ∧ s3_rep blob w' S used.
Proof.
  intros Hrep HB Ho Hk. destruct (served_get blob dir b k w S used B Hrep HB Hk)
    as (reply & w' & ev & Hs & Ha & Hrep' & _).
  inversion Ha as [| | | |r' b' Hb' Hn|r' b' k' B' Hb' HB' Hn| | | |b' k' B' o' obj chunks HB' Ho' His Hc| |];
    subst; simplify_eq/=.
  apply answer_inv in Hs as [([x y] & Hm & [= -> ->])|(e & _ & He)]; [|by destruct e].
  rewrite (left_id_L ∅ (∪)) in Hrep'. eauto 10.
Qed.

Lemma HeadObject_run b k w S used B o :
  s3_rep blob w S used → S !! b = Some B → b_objects B !! k = Some o → name_ok k →
  ∃ obj w', S3.HeadObject (running blob dir) b k w = (Ok obj, w') ∧ object_is obj k o.
Proof.
  intros Hrep HB Ho Hk. destruct (served_head blob dir b k w S used B Hrep HB Hk)
    as (reply & w' & ev & Hs & Ha & _).
  inversion Ha; subst; simplify_eq/=.
  apply answer_inv in Hs as [(x & Hm & [= ->])|(e & _ & He)]; [|by destruct e]. eauto.
Qed.

Lemma PutObject_run uuid now b k data c w S used B :
  s3_rep blob w S used → S !! b = Some B → request_ok (RPutObject uuid now b k data) S used →
  collect data = inr c →
  ∃ obj w', S3.PutObject (running blob dir) uuid now b k data w = (Ok obj, w') ∧
    object_is obj k (obj_of c now) ∧
    s3_rep blob w' (<[b := put_obj k (obj_of c now) B]> S) ({[uuid]} ∪ used).
Proof.
  intros Hrep HB Hok Hc. destruct (served_put blob dir uuid now b k data w S used B Hrep HB Hok)
    as (reply & w' & ev & Hs & Ha & Hrep' & _).
  cbn [after uuids] in Hrep'. rewrite HB, Hc in Hrep'.
  inversion Ha; subst; simplify_eq/=; rewrite Hc in *; simplify_eq.
  apply answer_inv in Hs as [(x & Hm & [= ->])|(e & _ & He)]; [|by destruct e]. eauto.
Qed.

(** (Claim C35.) A client reads back what it stored: an upload to an existing bucket
    is accepted, and a download of the key then gives the bytes of the upload in
    order, the entity tag and the checksum that the upload answered (the MD5 and
    SHA-256 digests of the bytes in hex), and as content length the number of bytes
    for everything shorter than 2^63 bytes. *)
Theorem frontend_put_get (uuid : bytes) (now : OffsetDateTime) b k (chunks : list bytes) w S used B :
  s3_rep blob w S used → S !! b = Some B →
  request_ok (RPutObject uuid now b k (map inr chunks)) S used →
  Z.of_nat (length (concat chunks)) < 2 ^ 63 →
  ∃ put w1 got pieces w2,
    put_object debug_s3_error std_to_string frontend uuid now b k (Some (map inr chunks)) w = (Ok put, w1) ∧
    get_object debug_s3_error timestamp_from frontend b k w1 = (Ok got, w2) ∧
    go_body got = Some (map inr pieces) ∧ concat pieces = concat chunks ∧
    go_content_length got = Some (Z.of_nat (length (concat chunks))) ∧
    pu_e_tag put = Some (hex_encode (digest_of Md5 (concat chunks))) ∧
    go_e_tag got = pu_e_tag put ∧
    pu_checksum_sha256 put = Some (hex_encode (digest_of Sha256 (concat chunks))) ∧
    go_checksum_sha256 got = pu_checksum_sha256 put.
Proof.
  intros Hrep HB Hok Hlen.
  assert (Hc : collect (map inr chunks) = inr (concat chunks)).
  { clear. induction chunks as [|x chunks IH]; simpl; [done|]. by rewrite IH. }
  destruct (PutObject_run uuid now b k _ _ w S used B Hrep HB Hok Hc) as (obj & w1 & Hp & His & Hrep1).
  destruct (GetObject_run b k w1 _ _ (put_obj k (obj_of (concat chunks) now) B) (obj_of (concat chunks) now) Hrep1)
    as (obj' & pieces & w2 & Hg & His' & Hpieces & _).
  { apply lookup_insert_eq. } { apply lookup_insert_eq. } { apply Hok. }
  unfold put_object, get_object. cbn [s3 frontend]. rewrite map_map.
  rewrite (io_bind_Ok _ _ _ _ _ (send_s3_Ok _ _ _ _ _ Hp)).
  eexists _, w1. eexists _, pieces, w2. split; [done|].
  rewrite (io_bind_Ok _ _ _ _ _ (send_s3_Ok _ _ _ _ _ Hg)). split; [done|]. cbn [fst snd].
  destruct His as (_ & Hm & Hs & _), His' as (_ & Hm' & Hs' & _ & Hsize'). simpl.
  rewrite map_map, Hm, Hm', Hs, Hs', Hsize'. split_and!; try done.
  simpl. f_equal. apply as_i64_spec; [unfold u64_ok; lia|done].
Qed.

(** (Claim C36.) The length that a client is told, and its bounds: for an object that
    is stored, [head_object] answers with a length that is a signed 64-bit number;
    it is the number of bytes when that is below 2^63 and a negative number
    otherwise, since the unsigned size is cast. *)
Theorem head_object_length b k w S used B o :
  s3_rep blob w S used → S !! b = Some B → b_objects B !! k = Some o → name_ok k →
  ∃ out w' n, head_object debug_s3_error timestamp_from frontend b k w = (Ok out, w') ∧
    ho_content_length out = Some n ∧ i64_ok n ∧
    (Z.of_nat (length (ob_content o)) < 2 ^ 63 → n = Z.of_nat (length (ob_content o))) ∧
    (2 ^ 63 ≤ Z.of_nat (length (ob_content o)) → n < 0).
Proof.
  intros Hrep HB Ho Hk. destruct (HeadObject_run b k w S used B o Hrep HB Ho Hk) as (obj & w' & Hh & His).
  destruct Hrep as (_ & _ & _ & HS). destruct (HS _ _ HB) as (_ & _ & Hobj).
  destruct (Hobj _ _ Ho) as (_ & _ & Hsize).
  unfold head_object. cbn [s3 frontend]. rewrite (io_bind_Ok _ _ _ _ _ (send_s3_Ok _ _ _ _ _ Hh)).
  eexists _, w', _. split; [done|]. cbn [ho_content_length]. split; [done|].
  destruct His as (_ & _ & _ & _ & ->). by apply as_i64_spec.
Qed.

(** Requests about what is not there: with a bucket that does not exist
    an upload, a download, a head, a removal and a listing are refused with
    NoSuchBucket; with a key that does not exist a download, a head and a removal
    are refused with NoSuchKey; an upload without a body is refused with
    InvalidRequest before the backend is asked.  In every case the store is as
    before. *)
Theorem frontend_missing (uuid : bytes) (now : OffsetDateTime) b k (body : list (StdError + bytes)) w S used :
  s3_rep blob w S used → name_ok b → name_ok k →
  put_object debug_s3_error std_to_string frontend uuid now b k None w
    = (Err (s3_error_code InvalidRequest), w) ∧
  (S !! b = None →
     put_object debug_s3_error std_to_string frontend uuid now b k (Some body) w
       = (Err (s3_error_code CodeNoSuchBucket), w) ∧
     get_object debug_s3_error timestamp_from frontend b k w = (Err (s3_error_code CodeNoSuchBucket), w) ∧
     head_object debug_s3_error timestamp_from frontend b k w = (Err (s3_error_code CodeNoSuchBucket), w) ∧
     delete_object debug_s3_error frontend b k w = (Err (s3_error_code CodeNoSuchBucket), w) ∧
     list_objects debug_s3_error timestamp_from frontend b None w
       = (Err (s3_error_code CodeNoSuchBucket), w)) ∧
  (∀ B, S !! b = Some B → b_objects B !! k = None →
     (∃ w', s3_rep blob w' S used ∧
        get_object debug_s3_error timestamp_from frontend b k w = (Err (s3_error_code CodeNoSuchKey), w')) ∧
     (∃ w', s3_rep blob w' S used ∧
        head_object debug_s3_error timestamp_from frontend b k w = (Err (s3_error_code CodeNoSuchKey), w')) ∧
     (∃ w', s3_rep blob w' S used ∧
        delete_object debug_s3_error frontend b k w = (Err (s3_error_code CodeNoSuchKey), w'))).
Proof.
  intros Hrep Hb Hk. pose proof Hrep as ((K & Hdb) & _). split; [done|]. split.
  - intros Hn. unfold put_object, get_object, head_object, delete_object, list_objects. cbn [s3 frontend].
    assert (Hmiss : ∀ E A f nf h, S3.with_bucket_store (E := E) (A := A) (running blob dir) f b nf h w = (Err nf, w))
      by (intros; by apply (with_bucket_store_missing blob dir _ _ _ _ _ S K)).
    assert (Hblob : ∀ E A (m : ContentAddressableBlobStore → io S3.World E A) e,
      m blob w = (Err e, w) → (st ← S3.get_blob_store (running blob dir); m st) w = (Err e, w))
      by (intros E A m e Hm; by rewrite (io_bind_Ok _ _ _ _ _ (blob_store_run blob dir w))).
    split_and!; (etrans; [eapply io_bind_Err, send_s3_Err; first [apply Hmiss|apply Hblob, Hmiss]|done]).
  - intros B HB Hko.
    assert (Hrem : removable b k S) by (intros B' o HB' Ho; simplify_eq). split_and!.
    + destruct (served_get blob dir b k w S used B Hrep HB Hk) as (reply & w' & ev & Hs & Ha & Hrep' & _).
      cbn [after uuids] in Hrep'. rewrite (left_id_L ∅ (∪)) in Hrep'. exists w'. split; [done|]. unfold get_object. cbn [s3 frontend].
      inversion Ha; subst; simplify_eq/=.
      apply answer_inv in Hs as [(x & Hm & [=])|(e & Hm & He)]. destruct e; simplify_eq/=.
      by rewrite (io_bind_Err _ _ _ _ _ (send_s3_Err _ _ _ _ _ Hm)).
    + destruct (served_head blob dir b k w S used B Hrep HB Hk) as (reply & w' & ev & Hs & Ha & Hrep' & _).
      cbn [after uuids] in Hrep'. rewrite (left_id_L ∅ (∪)) in Hrep'. exists w'. split; [done|]. unfold head_object. cbn [s3 frontend].
      inversion Ha; subst; simplify_eq/=.
      apply answer_inv in Hs as [(x & Hm & [=])|(e & Hm & He)]. destruct e; simplify_eq/=.
      by rewrite (io_bind_Err _ _ _ _ _ (send_s3_Err _ _ _ _ _ Hm)).
    + destruct (served_delete blob dir b k w S used B Hrep HB Hk Hrem) as (reply & w' & ev & Hs & Ha & Hrep' & _).
      cbn [after] in Hrep'. rewrite HB, decide_False in Hrep' by (rewrite Hko; by intros [? ?]).
      cbn [after uuids] in Hrep'. rewrite (left_id_L ∅ (∪)) in Hrep'. exists w'. split; [done|]. unfold delete_object. cbn [s3 frontend].
      inversion Ha; subst; simplify_eq/=.
      apply answer_inv in Hs as [(x & Hm & [=])|(e & Hm & He)]. destruct e; simplify_eq/=.
      by rewrite (io_bind_Err _ _ _ _ _ (send_s3_Err _ _ _ _ _ Hm)).
Qed.
End clients.

(** ** Examples *)
Import MemoryFs MemoryDb.

Definition no_text {A} (_ : A) : bytes := [].

Abbreviation example_frontend := (frontend (s3data home) home 8080).

Lemma frontend_put_get_witness :
  ∃ w, s3_rep (s3data home) w state1 ∅ ∧
    ∃ put w1 got pieces w2,
      put_object no_text (no_text (A := ())) example_frontend uuid_1 noon photos cat
        (Some (map inr [str "me"; str "ow"])) w = (Ok put, w1) ∧
      get_object no_text id example_frontend photos cat w1 = (Ok got, w2) ∧
      go_body got = Some (map inr pieces) ∧ concat pieces = str "meow" ∧
      go_content_length got = Some 4 ∧
      pu_e_tag put = Some (hex_encode (digest_of Md5 (str "meow"))) ∧
      go_e_tag got = pu_e_tag put ∧
      pu_checksum_sha256 put = Some (hex_encode (digest_of Sha256 (str "meow"))) ∧
      go_checksum_sha256 got = pu_checksum_sha256 put.
Proof.
  destruct state1_rep as [w Hrep]. exists w. split; [done|].
  apply (frontend_put_get no_text id (no_text (A := ())) (s3data home) home 8080 uuid_1 noon photos cat
    [str "me"; str "ow"] w state1 ∅ new_bucket Hrep); [done| |done].
  pose proof visit_ok as H. unfold visit in H. cbn [requests_ok] in H. rewrite visit_state1 in H.
  cbn [uuids] in H. rewrite (left_id_L ∅ (∪)) in H. apply H.
Defined.

Lemma head_object_length_witness :
  ∃ w used, s3_rep (s3data home) w state2 used ∧
    ∃ out w' n, head_object no_text id example_frontend photos cat w = (Ok out, w') ∧
      ho_content_length out = Some n ∧ i64_ok n ∧ (4 < 2 ^ 63 → n = 4) ∧ (2 ^ 63 ≤ 4 → n < 0).
Proof.
  destruct state2_rep as (w & used & Hrep). exists w, used. split; [done|].
  apply (head_object_length no_text id (s3data home) home 8080 photos cat w state2 used
    (put_obj cat (obj_of (str "meow") noon) new_bucket) (obj_of (str "meow") noon) Hrep);
    [done|done|by apply name_ok_lit].
Defined.

Lemma frontend_missing_witness :
  ∃ w used, s3_rep (s3data home) w state2 used ∧
    put_object no_text (no_text (A := ())) example_frontend uuid_1 noon photos cat None w
      = (Err (s3_error_code InvalidRequest), w).
Proof.
  destruct state2_rep as (w & used & Hrep). exists w, used. split; [done|].
  apply (frontend_missing no_text id (no_text (A := ())) (s3data home) home 8080 uuid_1 noon photos cat [] w
    state2 used Hrep); by apply name_ok_lit.
Defined.
