(* ===== verification/Grpc.v ===== *)
(** * The gRPC interface of the daemon and its client library

    [dtrd/src/clientgrpcagent/agent.rs] serves the requests of local applications:
    it checks the arguments, asks the client agent and turns the reply into a
    response.  [client/src/lib.rs] is the library that applications use.  tonic
    (the server, the generated stubs, the transport) is not part of the
    repository; a [Status] is its code and message, and the stubs are an argument
    of the client's functions.  The requests and responses are the messages of
    [protobuf/bundle/*.proto]. *)
From S2P Require Import Prelude RustStr Actor Cbor CborRfc Flags CrcTime Endpoint PrimaryBlock.
From S2P Require Import Block Bundle Fragment FragmentSize Storage StorageSystem StorageOps.
From S2P Require Import ProtocolAgent Routing Peers RocksDb.
Import Crc Time.

(** ** Messages *)
Module proto.
Record SubmitBundleRequest := {
  sb_destination : bytes; sb_payload : bytes; sb_lifetime : Z; sb_debug : bool }.
Record SubmitBundleRespone := { success : bool; message : bytes }.
Record ListenBundleRequest := { lb_endpoint : bytes }.
Record ListenBundleResponse := { source : bytes; payload : bytes }.

Record Node := { n_url : bytes; status : bytes; n_endpoint : bytes; n_temporary : bool }.
Record Route := { r_target : bytes; r_next_hop : bytes }.
Record RouteStatus := {
  rs_route : option Route;
  rs_type : Z;
  rs_preferred : bool;
  rs_available : bool;
  rs_max_bundle_size : Z;
}.
End proto.
Import proto.

Inductive Code := InvalidArgument | Unknown | Internal.
Record Status := { code : Code; st_message : bytes }.

Definition invalid_argument (m : bytes) : Status := {| code := InvalidArgument; st_message := m |}.
Definition unknown (m : bytes) : Status := {| code := Unknown; st_message := m |}.
Definition internal (m : bytes) : Status := {| code := Internal; st_message := m |}.

(** [Url::parse] with the text of its error, and the text of a [MailboxError]. *)
Class GrpcCrates := {
  url_parse : bytes → bytes + Url;
  mailbox_error : bytes;
}.

(** ** The server *)
Module Grpc.

(** The agents that a request involves.  [client] is [None] when a panic ended the
    client agent; the storage agent is the registry's, which starts a new instance
    ([disk] is what it finds) after a panic.  [sent] is what was sent without
    waiting for a reply. *)
Inductive Sent := FromClient (m : ClientAgent.Output) | FromStorage (m : Storage.Effect).

Record World := {
  client : option ClientAgent.Daemon;
  storage : option Storage.Daemon;
  node_agent : NodeAgent.Daemon;
  routing : RoutingAgent.Daemon;
  my_node_id : bytes;
  disk : list (bytes * bytes);
  sent : list Sent;
}.

Definition set_client (c : option ClientAgent.Daemon) (w : World) : World := {|
  client := c; storage := storage w; node_agent := node_agent w; routing := routing w;
  my_node_id := my_node_id w; disk := disk w; sent := sent w |}.
Definition set_storage (s : option Storage.Daemon) (w : World) : World := {|
  client := client w; storage := s; node_agent := node_agent w; routing := routing w;
  my_node_id := my_node_id w; disk := disk w; sent := sent w |}.
Definition add_sent (l : list Sent) (w : World) : World := {|
  client := client w; storage := storage w; node_agent := node_agent w; routing := routing w;
  my_node_id := my_node_id w; disk := disk w; sent := sent w ++ l |}.

Abbreviation rpc := (io World Status).

Section server.
Context `{!SerdeCbor} `{!GrpcCrates} `{!HashOrder}.

(** [self.client_agent.send(..).await.map_err(|e| Status::unknown(e.to_string()))]:
    the handler runs in the client agent, a panic of it closes its mailbox. *)
Definition ask {A} (h : ClientAgent.handler A) : rpc A := λ w,
  match client w with
  | None => (Err (unknown mailbox_error), w)
  | Some c =>
      match h c with
      | Ok (a, c, o) => (Ok a, add_sent (FromClient <$> o) (set_client (Some c) w))
      | _ => (Err (unknown mailbox_error), set_client None w)
      end
  end.

(** [from_registry()] of the storage agent. *)
Definition storage_registry (w : World) : outcome Empty_set (Storage.Daemon * list Storage.Effect) :=
  match storage w with
  | Some s => Ok (s, [])
  | None =>
      '(_, s, o) ← Storage.started (my_node_id w) (disk w) Storage.Daemon_default;
      Ok (s, o)
  end.

(** The future of [ClientSendBundle]: [.send(StoreNewBundle ..).await.unwrap()].  It
    runs outside of the client agent; when it panics the reply is lost. *)
Definition send_StoreNewBundle (d : bytes) : rpc () := λ w,
  match storage_registry w with
  | Ok (s, o) =>
      match Storage.StoreNewBundle d s with
      | Ok (_, s, o') => (Ok (), add_sent (FromStorage <$> (o ++ o')) (set_storage (Some s) w))
      | _ => (Err (unknown mailbox_error), add_sent (FromStorage <$> o) (set_storage None w))
      end
  | _ => (Err (unknown mailbox_error), w)
  end.

Definition ask_ClientSendBundle (clock : Z) (destination : Endpoint) (payload : bytes) (lifetime : Z)
    (debug : bool) : rpc () := λ w,
  match client w with
  | None => (Err (unknown mailbox_error), w)
  | Some c =>
      match ClientAgent.ClientSendBundle clock destination payload lifetime debug c with
      | Ok (_, c, [ClientAgent.StoreNewBundle d]) => send_StoreNewBundle d (set_client (Some c) w)
      | _ => (Err (unknown mailbox_error), set_client None w)
      end
  end.

(** [ClientListNodes] and [ClientListRoutes]: the client agent passes the question on. *)
Definition ask_ClientListNodes : rpc (list NodeAgent.Node) := λ w,
  match client w with
  | None => (Err (unknown mailbox_error), w)
  | Some _ =>
      match NodeAgent.ListNodes (node_agent w) with
      | Ok (l, _, _) => (Ok l, w)
      | _ => (Err (unknown mailbox_error), w)
      end
  end.
Definition ask_ClientListRoutes : rpc (list Routing.RouteStatus) := λ w,
  match client w with
  | None => (Err (unknown mailbox_error), w)
  | Some _ =>
      match RoutingAgent.ListRoutes (routing w) with
      | Ok (l, _, _) => (Ok l, w)
      | _ => (Err (unknown mailbox_error), w)
      end
  end.

Definition submit_bundle (clock : Z) (req : SubmitBundleRequest) : rpc SubmitBundleRespone :=
  destination ← io_lift (ok_or (Endpoint.new (sb_destination req))
                  (invalid_argument (str "destination invalid")));
  ask_ClientSendBundle clock destination (sb_payload req) (sb_lifetime req) (sb_debug req);;
  mret {| success := true; message := [] |}.

(** [ListenBundleResponseTransformer]: [rec] is the receiving end of the channel,
    what is in it and whether all senders are gone. *)
Record ListenBundleResponseTransformer := {
  l_destination : Endpoint;
  rec : list StoredBundleRef;
  senders_gone : bool;
}.

(** [addr] is the address of the actor that the client agent starts. *)
Definition listen_bundles (addr : Recipient) (req : ListenBundleRequest)
    : rpc ListenBundleResponseTransformer :=
  destination ← io_lift (ok_or (Endpoint.new (lb_endpoint req))
                  (invalid_argument (str "destination invalid")));
  result ← ask (ClientAgent.ClientListenConnect destination addr);
  if (result : bool) then
    mret {| l_destination := destination; rec := []; senders_gone := false |}
  else io_lift (Err (invalid_argument (str "Listening endpoint does not match local node"))).

Inductive Poll (A : Type) := Ready (a : A) | Pending.
Arguments Ready {A} a.
Arguments Pending {A}.

(** [EventBundleDelivered] to the protocol agent. *)
Inductive Delivered := EventBundleDelivered (endpoint : Endpoint) (bundle : StoredBundleRef).

Definition set_rec (l : list StoredBundleRef) (t : ListenBundleResponseTransformer) :=
  {| l_destination := l_destination t; rec := l; senders_gone := senders_gone t |}.

(** [data] is [get_bundle_data]: the bytes of a reference while they are held. *)
Definition poll_next (data : StoredBundleRef → option bytes)
    : actor ListenBundleResponseTransformer Delivered (Poll (option ListenBundleResponse)) :=
  l ← gets rec;
  gone ← gets senders_gone;
  match l with
  | cdb :: rest =>
      modify (set_rec rest);;
      match data cdb with
      | Some bundle_data =>
          bundle ← lift (unwrap_ok (bundle_of_bytes bundle_data));
          p ← lift (payload_block bundle);
          let lbr := {| source := Endpoint.fmt (source_node (ref_primary cdb));
                        payload := Block.data p |} in
          do_send (EventBundleDelivered (destination_endpoint (ref_primary cdb)) cdb);;
          mret (Ready (Some lbr))
      | None => mret Pending
      end
  | [] => mret (if (gone : bool) then Ready None else Pending)
  end.

(** [Drop]: [do_send], which a closed mailbox ignores. *)
Definition drop_listener (t : ListenBundleResponseTransformer) (w : World) : World :=
  (ask (ClientAgent.ClientListenDisconnect (l_destination t)) w).2.

(** [Display for NodeConnectionStatus]. *)
Definition status_fmt (s : NodeAgent.NodeConnectionStatus) : bytes :=
  match s with
  | NodeAgent.Disconnected => str "Disconnected"
  | NodeAgent.Connected => str "Connected"
  | NodeAgent.Connecting => str "Connecting"
  | NodeAgent.Disconnecting => str "Disconnecting"
  end.

Definition node_response (n : NodeAgent.Node) : proto.Node := {|
  n_url := url_text (NodeAgent.url n);
  status := status_fmt (NodeAgent.connection_status n);
  n_endpoint := default [] (Endpoint.fmt <$> NodeAgent.remote_endpoint n);
  n_temporary := NodeAgent.temporary n |}.

Definition list_nodes : rpc (list proto.Node) :=
  l ← ask_ClientListNodes; mret (map node_response l).

Definition parse_url (text : bytes) : rpc Url :=
  io_lift (match url_parse text with inr u => Ok u | inl e => Err (invalid_argument e) end).

Definition add_node (url : bytes) : rpc () :=
  u ← parse_url url; ask (ClientAgent.ClientAddNode u).
Definition remove_node (url : bytes) : rpc () :=
  u ← parse_url url; ask (ClientAgent.ClientRemoveNode u).

Definition route_response (r : Routing.RouteStatus) : proto.RouteStatus := {|
  rs_route := Some {| r_target := Endpoint.fmt (target r);
                      r_next_hop := Endpoint.fmt (status_next_hop r) |};
  rs_type := match route_type r with Routing.Connected => 0 | Static => 1 end;
  rs_preferred := preferred r;
  rs_available := available r;
  rs_max_bundle_size := default 0 (max_bundle_size r) |}.

Definition list_routes : rpc (list proto.RouteStatus) :=
  l ← ask_ClientListRoutes; mret (map route_response l).

(** The checks that [add_route] and [remove_route] begin with. *)
Definition route_of (r : option Route) : rpc (Endpoint * Endpoint) :=
  route ← io_lift (ok_or r (invalid_argument (str "Route must be set")));
  target ← io_lift (ok_or (Endpoint.new (r_target route)) (invalid_argument (str "target invalid")));
  next_hop ← io_lift (ok_or (Endpoint.new (r_next_hop route))
               (invalid_argument (str "next_hop invalid")));
  mret (target, next_hop).

Definition add_route (r : option Route) : rpc () :=
  '(target, next_hop) ← route_of r; ask (ClientAgent.ClientAddRoute target next_hop).
Definition remove_route (r : option Route) : rpc () :=
  '(target, next_hop) ← route_of r; ask (ClientAgent.ClientRemoveRoute target next_hop).
End server.
End Grpc.
Arguments Grpc.Ready {A} a.
Arguments Grpc.Pending {A}.

(** ** The client library *)
Module DtrdClient.

Inductive Error :=
| InvalidUrl
| TransportError (e : bytes)
| GrpcError (s : Status)
| NoMessage.

(** [Display for Error]; [fmt] is that of a status. *)
Definition error_fmt (fmt : Status → bytes) (e : Error) : bytes :=
  match e with
  | InvalidUrl => str "Invalid URL"
  | TransportError t => str "Error when communicating with dtrd: " ++ t
  | GrpcError s => str "Error when communicating with dtrd: " ++ fmt s
  | NoMessage => str "No Message to be received"
  end.

(** The generated stubs over an open channel, in a world [W]: a call gives the
    response of the service or a status. *)
Record Client (W : Type) := {
  bc_submit_bundle : SubmitBundleRequest → io W Status SubmitBundleRespone;
  bc_listen_bundles : ListenBundleRequest → io W Status (list (Status + ListenBundleResponse));
  ac_list_nodes : io W Status (list proto.Node);
  ac_add_node : bytes → io W Status ();
  ac_remove_node : bytes → io W Status ();
  ac_list_routes : io W Status (list proto.RouteStatus);
  ac_add_route : option Route → io W Status ();
  ac_remove_route : option Route → io W Status ();
}.
Arguments bc_submit_bundle {W} _ _.
Arguments bc_listen_bundles {W} _ _.
Arguments ac_list_nodes {W} _.
Arguments ac_add_node {W} _ _.
Arguments ac_remove_node {W} _ _.
Arguments ac_list_routes {W} _.
Arguments ac_add_route {W} _ _.
Arguments ac_remove_route {W} _ _.

(** The transport of tonic: parsing an [Uri], opening a channel to it and the stubs
    over the channel. *)
Class Tonic (W : Type) := {
  Uri : Type;
  uri_from_str : bytes → option Uri;
  connect : Uri → io W bytes (Client W);
}.

Definition new {W} `{!Tonic W} (url : bytes) : io W Error (Client W) :=
  uri ← io_lift (ok_or (uri_from_str url) InvalidUrl);
  io_err TransportError (connect uri).

Section client.
Context {W : Type}.
Implicit Types (self : Client W).

Definition submit_bundle self (target : bytes) (lifetime : Z) (data : bytes) (debug : bool)
    : io W Error () :=
  io_err GrpcError (bc_submit_bundle self {| sb_destination := target; sb_payload := data;
    sb_lifetime := lifetime; sb_debug := debug |});;
  mret ().

(** The stream is the list of its items; [.map] keeps the payloads. *)
Definition item_payload (r : Status + ListenBundleResponse) : Error + bytes :=
  match r with inr b => inr (payload b) | inl e => inl (GrpcError e) end.

Definition listen_bundles self (endpoint : bytes) : io W Error (list (Error + bytes)) :=
  stream ← io_err GrpcError (bc_listen_bundles self {| lb_endpoint := endpoint |});
  mret (map item_payload stream).

(** [stream.take(1).map(..).next().await.ok_or(Error::NoMessage)?] *)
Definition receive_bundle self (endpoint : bytes) : io W Error bytes :=
  stream ← io_err GrpcError (bc_listen_bundles self {| lb_endpoint := endpoint |});
  r ← io_lift (ok_or (hd_error (map item_payload (take 1 stream))) NoMessage);
  io_lift (match r with inr p => Ok p | inl e => Err e end).

Definition list_nodes self : io W Error (list proto.Node) := io_err GrpcError (ac_list_nodes self).
Definition add_node self (url : bytes) : io W Error () := io_err GrpcError (ac_add_node self url).
Definition remove_node self (url : bytes) : io W Error () := io_err GrpcError (ac_remove_node self url).
Definition list_routes self : io W Error (list proto.RouteStatus) :=
  io_err GrpcError (ac_list_routes self).
Definition add_route self (target next_hop : bytes) : io W Error () :=
  io_err GrpcError (ac_add_route self (Some {| r_target := target; r_next_hop := next_hop |})).
Definition remove_route self (target next_hop : bytes) : io W Error () :=
  io_err GrpcError (ac_remove_route self (Some {| r_target := target; r_next_hop := next_hop |})).
End client.
End DtrdClient.
