(* ===== verification/GrpcProps.v ===== *)
(** * What the gRPC interface promises

    A bundle that an application submits through the client library is stored and
    readable for a listener ([submit_run]); requests with arguments that do not parse change nothing; what
    the interface prints for a route is accepted back. *)
From S2P Require Import Prelude RustStr Actor Cbor CborRfc Flags CrcTime Endpoint PrimaryBlock.
From S2P Require Import Block Bundle Fragment FragmentSize Storage StorageSystem StorageOps.
From S2P Require Import ProtocolAgent Routing Peers RocksDb Grpc.
From Stdlib Require Import Sorting.Sorted.
Import Crc Time proto.

(** The data of every stored bundle was allocated before the next allocation. *)
Definition arcs_fresh (st : Storage.Daemon) : Prop :=
  Forall (λ sb, (data_arc sb < next_arc st)%nat) (bundles st).

(** The storage agent of node [me], ready for a bundle created at [t]. *)
Record storage_ready (me : Endpoint) (t : Z) (st : Storage.Daemon) : Prop := {
  sr_endpoint : Storage.endpoint st = Some me;
  sr_arcs : arcs_fresh st;
  sr_sequence : 0 ≤ last_sequence_number st < 2 ^ 64 - 1;
  sr_clock : ∀ s, last_stamp st = Some s → timestamp (creation_time s) ≤ t;
}.

Section submit.
Context `{!SerdeCbor, !SerdeCborLaws} `{!GrpcCrates} `{!HashOrder}.

Lemma find_fresh st sb :
  arcs_fresh st → data_arc sb = next_arc st →
  List.find (λ x, (data_arc x =? next_arc st)%nat) (bundles st ++ [sb]) = Some sb.
Proof.
  intros Hf Hsb. apply find_first; [|by apply Nat.eqb_eq].
  eapply Forall_impl; [exact Hf|]. simpl. intros x Hx. apply Nat.eqb_neq. lia.
Qed.

(** [StoreNewBundle] in the terms of a reader: the reference that it announces
    leads to bytes with the payload and the primary block of the reference. *)
Lemma store_new_readable me b d st :
  new_bundle_of me d b →
  storage_ready me (timestamp (creation_time (creation_timestamp (primary_block b)))) st →
  ∃ st' r n bd, Storage.StoreNewBundle d st = Ok ((), st', [Storage.EventBundleUpdated r]) ∧
    upgrade st' r = Some bd ∧ bundle_of_bytes bd = Ok (with_sequence_number n b) ∧
    ref_primary r = primary_block (with_sequence_number n b).
Proof.
  intros Hnew [He Harc Hseq Hclk].
  destruct (StoreNewBundle_returns me d b st Hnew He Hseq Hclk) as (st' & sb & Hrun & (n & Hn) & Hb & _).
  destruct (StoreNewBundle_Ok _ _ _ _ _ Hrun) as (b' & n' & d' & sb' & _ & _ & Hsb & Hb' & _ & _).
  assert (sb' = sb) as ->.
  { rewrite Hb in Hb'. apply app_inj_tail in Hb' as [_ ?]. congruence. }
  destruct (stored_of_bytes_Ok _ _ _ Hsb) as (Hd & Ha & _ & _ & _ & [(b'' & Hb'' & Hp & _) _]).
  exists st', (get_ref sb), n, (bundle_data sb). split_and!; [done| |done|].
  - unfold upgrade. rewrite Hb. cbn [ref_arc get_ref]. rewrite Ha, find_fresh by done. done.
  - cbn [ref_primary get_ref]. rewrite Hn in Hb''. injection Hb'' as <-. done.
Qed.

Lemma poll_next_run (data : StoredBundleRef → option bytes) t r rest bd b p :
  Grpc.rec t = r :: rest → data r = Some bd → bundle_of_bytes bd = Ok b →
  payload_block (E := Empty_set) b = Ok p →
  Grpc.poll_next data t =
    Ok (Grpc.Ready (Some {| source := Endpoint.fmt (source_node (ref_primary r));
                            payload := Block.data p |}), Grpc.set_rec rest t,
        [Grpc.EventBundleDelivered (destination_endpoint (ref_primary r)) r]).
Proof.
  intros Hr Hd Hb Hp. unfold Grpc.poll_next. arun. rewrite Hr. arun. rewrite Hd. arun. rewrite Hb.
  arun. rewrite Hp. by arun.
Qed.

(** A submitted bundle is stored and announced with a reference that leads to it. *)
Lemma submit_run (cl : DtrdClient.Client Grpc.World) clock target dest payload lifetime debug me c st w :
  (∀ req v, DtrdClient.bc_submit_bundle cl req v = Grpc.submit_bundle clock req v) →
  Endpoint.new target = Some dest → Endpoint.ok dest →
  bytes_ok payload → zlen payload < 2 ^ 63 → u64_ok lifetime →
  DTN_UNIX_DIFFERENCE_MS ≤ clock < 2 ^ 63 → node_endpoint_ok me →
  Grpc.client w = Some c → ClientAgent.endpoint c = Some me →
  Grpc.storage w = Some st → storage_ready me (clock - DTN_UNIX_DIFFERENCE_MS) st →
  ∃ w' r st',
    DtrdClient.submit_bundle cl target lifetime payload debug w = (Ok (), w') ∧
    Grpc.sent w' = Grpc.sent w ++ [Grpc.FromStorage (Storage.EventBundleUpdated r)] ∧
    Grpc.storage w' = Some st' ∧ destination_endpoint (ref_primary r) = dest ∧
    ∀ t rest, Grpc.rec t = r :: rest →
      Grpc.poll_next (upgrade st') t =
        Ok (Grpc.Ready (Some {| source := Endpoint.fmt me; payload := payload |}),
            Grpc.set_rec rest t, [Grpc.EventBundleDelivered dest r]).
Proof.
  intros Hcl Htarget Hdest Hpay Hlen Hlife Hclock Hme Hc Hce Hst Hready.
  destruct (client_send_run clock dest payload lifetime debug me c Hce Hme Hdest Hpay Hlen Hlife Hclock)
    as (d & Hrun & Hnew).
  destruct (store_new_readable me _ d st Hnew Hready) as (st' & r & n & bd & Hstore & Hup & Hbd & Hpb).
  eexists _, r, st'. split; [|split; [|split; [|split]]].
  - unfold DtrdClient.submit_bundle. erewrite io_bind_Ok; [done|].
    unfold io_err. rewrite Hcl. unfold Grpc.submit_bundle. cbn [sb_destination]. rewrite Htarget.
    cbn [ok_or]. iorun. erewrite io_bind_Ok; [done|]. unfold Grpc.ask_ClientSendBundle. rewrite Hc.
    cbn [sb_payload sb_lifetime sb_debug]. rewrite Hrun. unfold Grpc.send_StoreNewBundle.
    unfold Grpc.storage_registry. cbn [Grpc.storage Grpc.set_client]. rewrite Hst. by rewrite Hstore.
  - done.
  - done.
  - by rewrite Hpb.
  - intros t rest Ht. rewrite (poll_next_run _ t r rest bd _ {| Block.data := payload |} Ht Hup Hbd eq_refl).
    by rewrite Hpb.
Qed.
End submit.

(** ** Every request gets an answer *)

(** What the type [String] guarantees. *)
Definition string_ok (s : bytes) : Prop :=
  bytes_ok s ∧ utf8_valid s = true ∧ zlen s < 2 ^ 63.

Lemma parse_digits_ok s acc z : u64_ok acc → parse_digits acc s = Some z → u64_ok z.
Proof.
  revert acc. induction s as [|b s IH]; intros acc Hacc; simpl; [by intros [= <-]|].
  destruct (digit b) as [d|] eqn:E; ored; [|done].
  assert (0 ≤ d).
  { unfold digit in E. destruct (RustStr.in_range 48 57 b) eqn:E'; simplify_eq. unfold RustStr.in_range in E'. lia. }
  destruct (_ <? _) eqn:El; [|done]. apply IH. apply Z.ltb_lt in El.
  unfold u64_ok in *. lia.
Qed.

Lemma parse_u64_ok s z : parse_u64 s = Some z → u64_ok z.
Proof.
  unfold parse_u64. destruct s as [|b s]; [done|].
  repeat case_match; try done; apply parse_digits_ok; done.
Qed.

(** Every endpoint that parses can be asked for its node. *)
Lemma new_node_endpoint_ok s e : string_ok s → Endpoint.new s = Some e → node_endpoint_ok e.
Proof.
  intros (Hb & Hu & Hl). unfold Endpoint.new.
  destruct (split_once 58 s) as [[sch rest]|] eqn:Hs; [|done]. ored.
  apply split_once_Some in Hs as [-> _]. case_decide as Hd.
  - subst sch. unfold DTN.from_str. destruct (starts_with (str "//") rest) eqn:Hst; [|done]. ored.
    intros [= <-]. split_and!.
    + split_and!; simpl.
      * by apply bytes_ok_app in Hb as [_ [_ Hb]%bytes_ok_cons].
      * change (str "dtn" ++ 58 :: rest) with (str "dtn:" ++ rest) in Hu. by rewrite utf8_valid_app in Hu.
      * rewrite length_app in Hl. simpl in Hl. lia.
    + simpl. unfold DTN.validate. simpl. rewrite Hst. simpl. by rewrite andb_false_r.
    + simpl. unfold DTN.is_null_endpoint. simpl. apply bool_decide_eq_false. intros ->. done.
  - case_decide; [|done]. unfold IPN.from_str.
    destruct (split_once 58 rest) as [[? hier]|]; [|done]. ored. case_decide; [|done].
    destruct (split_once 46 hier) as [[n s]|]; [|done]. ored.
    destruct (parse_u64 n) as [n'|] eqn:E1; [|done]. ored.
    destruct (parse_u64 s) as [s'|] eqn:E2; [|done]. ored. intros [= <-].
    split_and!; [|done..]. split; by eapply parse_u64_ok.
Qed.

Inductive Request :=
| SubmitBundle (req : SubmitBundleRequest)
| ListenBundles (addr : Recipient) (req : ListenBundleRequest)
| ListNodes
| AddNode (url : bytes)
| RemoveNode (url : bytes)
| ListRoutes
| AddRoute (route : option Route)
| RemoveRoute (route : option Route).

Definition request_ok (q : Request) : Prop :=
  match q with
  | SubmitBundle req =>
      string_ok (sb_destination req) ∧ bytes_ok (sb_payload req) ∧ zlen (sb_payload req) < 2 ^ 63 ∧
      u64_ok (sb_lifetime req)
  | ListenBundles _ req => string_ok (lb_endpoint req)
  | AddRoute (Some r) | RemoveRoute (Some r) => string_ok (r_target r) ∧ string_ok (r_next_hop r)
  | _ => True
  end.

Section requests.
Context `{!SerdeCbor, !SerdeCborLaws} `{!GrpcCrates} `{!HashOrder}.

Definition serve (clock : Z) (q : Request) : io Grpc.World Status () :=
  match q with
  | SubmitBundle req => Grpc.submit_bundle clock req;; mret ()
  | ListenBundles addr req => Grpc.listen_bundles addr req;; mret ()
  | ListNodes => Grpc.list_nodes;; mret ()
  | AddNode u => Grpc.add_node u
  | RemoveNode u => Grpc.remove_node u
  | ListRoutes => Grpc.list_routes;; mret ()
  | AddRoute r => Grpc.add_route r
  | RemoveRoute r => Grpc.remove_route r
  end.

Definition url_ok (u : bytes) : bool := match url_parse u with inr _ => true | inl _ => false end.
Definition endpoint_ok (e : bytes) : bool := bool_decide (is_Some (Endpoint.new e)).

(** The requests that node [me] accepts. *)
Definition accepted (me : Endpoint) (q : Request) : bool :=
  match q with
  | SubmitBundle req => endpoint_ok (sb_destination req)
  | ListenBundles _ req =>
      match Endpoint.new (lb_endpoint req) with
      | Some e => bool_decide (Endpoint.matches_node (E := Empty_set) me e = Ok true)
      | None => false
      end
  | ListNodes | ListRoutes => true
  | AddNode u | RemoveNode u => url_ok u
  | AddRoute (Some r) | RemoveRoute (Some r) => endpoint_ok (r_target r) && endpoint_ok (r_next_hop r)
  | AddRoute None | RemoveRoute None => false
  end.

(** The agents of node [me] are up, [n] bounds the sequence number and [t] the clock. *)
Record serving (me : Endpoint) (n t : Z) (w : Grpc.World) : Prop := {
  sv_client : ∃ c, Grpc.client w = Some c ∧ ClientAgent.endpoint c = Some me;
  sv_storage : ∃ st, Grpc.storage w = Some st ∧ Storage.endpoint st = Some me ∧ arcs_fresh st ∧
    0 ≤ last_sequence_number st ≤ n ∧
    ∀ s, last_stamp st = Some s → timestamp (creation_time s) ≤ t - DTN_UNIX_DIFFERENCE_MS;
}.

Lemma serving_weaken me n n' t t' w : n ≤ n' → t ≤ t' → serving me n t w → serving me n' t' w.
Proof.
  intros Hn Ht [Hc (st & Hst & He & Ha & Hq & Hcl)]. split; [done|]. exists st.
  split_and!; try done; try lia. intros s Hs. specialize (Hcl s Hs). lia.
Qed.

(** A handler of the client agent that returns and keeps the endpoint. *)
Lemma ask_run {A} (h : ClientAgent.handler A) me n t w :
  serving me n t w →
  (∀ c, ClientAgent.endpoint c = Some me →
     ∃ a c' o, h c = Ok (a, c', o) ∧ ClientAgent.endpoint c' = Some me) →
  ∃ a w', Grpc.ask h w = (Ok a, w') ∧ serving me n t w' ∧
    ∃ c c' o, Grpc.client w = Some c ∧ h c = Ok (a, c', o).
Proof.
  intros [(c & Hc & He) Hst] Hh. destruct (Hh c He) as (a & c' & o & Hr & He').
  unfold Grpc.ask. rewrite Hc, Hr. eexists _, _. split; [done|]. split; [|by eauto 10].
  split; [by exists c'|done].
Qed.

(** Storing a new bundle keeps the storage agent ready for the next. *)
Lemma store_serving me n clock b d st :
  new_bundle_of me d b →
  timestamp (creation_time (creation_timestamp (primary_block b))) = clock - DTN_UNIX_DIFFERENCE_MS →
  Storage.endpoint st = Some me → arcs_fresh st → 0 ≤ last_sequence_number st ≤ n → n < 2 ^ 64 - 1 →
  (∀ s, last_stamp st = Some s → timestamp (creation_time s) ≤ clock - DTN_UNIX_DIFFERENCE_MS) →
  ∃ st' o, Storage.StoreNewBundle d st = Ok ((), st', o) ∧ Storage.endpoint st' = Some me ∧
    arcs_fresh st' ∧ 0 ≤ last_sequence_number st' ≤ n + 1 ∧
    ∀ s, last_stamp st' = Some s → timestamp (creation_time s) ≤ clock - DTN_UNIX_DIFFERENCE_MS.
Proof.
  intros Hnew Ht He Ha Hq Hn Hcl.
  destruct (StoreNewBundle_returns me d b st Hnew He) as
    (st' & sb & Hrun & _ & Hb & He' & Hl & Hts & _ & Hq'); [lia|by rewrite Ht|].
  exists st', [Storage.EventBundleUpdated (get_ref sb)].
  split_and!; [done|done| |lia|lia|].
  - destruct (StoreNewBundle_Ok _ _ _ _ _ Hrun) as (b' & n' & d' & sb' & _ & _ & Hsb & Hb' & _ & _ & _ & _ & _ & Hnext).
    destruct (stored_of_bytes_Ok _ _ _ Hsb) as (_ & Harc & _).
    unfold arcs_fresh in *. rewrite Hb', Hnext. apply Forall_app. split.
    + eapply Forall_impl; [exact Ha|]. simpl. lia.
    + constructor; [|constructor]. lia.
  - intros s Hs. rewrite Hl in Hs. injection Hs as <-. rewrite Hts, Ht. lia.
Qed.

(** What a request comes to: an accepted one succeeds, another one is an invalid
    argument and changes nothing. *)
Definition answered (me : Endpoint) (n t : Z) (q : Request) (w : Grpc.World)
    (r : outcome Status () * Grpc.World) : Prop :=
  if accepted me q then r.1 = Ok () ∧ serving me n t r.2
  else ∃ m, r = (Err (invalid_argument m), w).

Lemma submit_answered me n clock req w :
  node_endpoint_ok me → request_ok (SubmitBundle req) → n < 2 ^ 64 - 1 →
  DTN_UNIX_DIFFERENCE_MS ≤ clock < 2 ^ 63 → serving me n clock w →
  answered me (n + 1) clock (SubmitBundle req) w (serve clock (SubmitBundle req) w).
Proof.
  intros Hme (Hs & Hp & Hlen & Hlife) Hn Hclock [(c & Hc & Hce) (st & Hst & He & Ha & Hq & Hcl)].
  unfold answered, accepted, endpoint_ok, serve, Grpc.submit_bundle.
  destruct (Endpoint.new (sb_destination req)) as [dest|] eqn:Ed; [|by eexists].
  rewrite bool_decide_eq_true_2 by eauto.
  destruct (client_send_run clock dest (sb_payload req) (sb_lifetime req) (sb_debug req) me c)
    as (d & Hrun & Hnew); try done; [by apply (new_node_endpoint_ok _ _ Hs Ed)|].
  destruct (store_serving me n clock _ d st Hnew eq_refl He Ha Hq Hn Hcl)
    as (st' & o & Hstore & He' & Ha' & Hq' & Hcl').
  assert (Hask : ∃ w', Grpc.ask_ClientSendBundle clock dest (sb_payload req) (sb_lifetime req)
    (sb_debug req) w = (Ok (), w') ∧ serving me (n + 1) clock w').
  { unfold Grpc.ask_ClientSendBundle, Grpc.send_StoreNewBundle, Grpc.storage_registry.
    rewrite Hc, Hrun. cbn [Grpc.storage Grpc.set_client]. rewrite Hst, Hstore. eexists. split; [done|].
    split; [by exists c|]. exists st'. done. }
  destruct Hask as (w' & Hask & Hw'). cbn [ok_or]. iorun.
  rewrite (io_bind_Ok _ _ _ _ _ Hask). done.
Qed.

Lemma listen_answered me n t clock addr req w :
  node_endpoint_ok me → request_ok (ListenBundles addr req) → serving me n t w →
  answered me n t (ListenBundles addr req) w (serve clock (ListenBundles addr req) w).
Proof.
  intros Hme Hs Hw. unfold answered, accepted, serve, Grpc.listen_bundles.
  destruct (Endpoint.new (lb_endpoint req)) as [e|] eqn:Ed; [|by eexists].
  destruct (matches_node_iff (E := Empty_set) me e Hme (new_node_endpoint_ok _ _ Hs Ed)) as (r & Hm & _).
  rewrite Hm. cbn [ok_or]. iorun. pose proof Hw as [(c & Hc & Hce) Hst].
  assert (Hh : ClientAgent.ClientListenConnect e addr c =
    (if r then ClientAgent.ClientListenConnect e addr c else Ok (false, c, []))).
  { unfold ClientAgent.ClientListenConnect. arun. rewrite Hce. arun. rewrite Hm. arun. by destruct r. }
  destruct r.
  - rewrite bool_decide_eq_true_2 by done.
    destruct (ask_run (ClientAgent.ClientListenConnect e addr) me n t w Hw) as (b & w' & Hask & Hw' & Hex).
    { intros c' Hc'. unfold ClientAgent.ClientListenConnect. arun. rewrite Hc'. arun. rewrite Hm. arun.
      eexists _, _, _. by split. }
    assert (b = true) as ->.
    { destruct Hex as (c1 & c' & o & Hc1 & Hr). assert (c1 = c) as -> by congruence.
      unfold ClientAgent.ClientListenConnect in Hr. revert Hr. arun. rewrite Hce. arun. rewrite Hm. arun.
      by intros [= <-]. }
    rewrite (io_bind_Ok _ _ _ _ _ Hask). done.
  - rewrite bool_decide_eq_false_2 by done. eexists.
    assert (Hask : Grpc.ask (ClientAgent.ClientListenConnect e addr) w = (Ok false, w)).
    { unfold Grpc.ask. rewrite Hc, Hh. unfold Grpc.add_sent, Grpc.set_client. simpl.
      rewrite app_nil_r, <-Hc. by destruct w. }
    rewrite (io_bind_Ok _ _ _ _ _ Hask). done.
Qed.

(** The handlers that only pass a message on. *)
Lemma pass_on_answered me n t w (h : ClientAgent.handler ()) :
  serving me n t w → (∀ c, ∃ o, h c = Ok ((), c, o)) →
  (Grpc.ask h w).1 = Ok () ∧ serving me n t (Grpc.ask h w).2.
Proof.
  intros Hw Hh. destruct (ask_run h me n t w Hw) as ([] & w' & -> & Hw' & _); [|done].
  intros c Hc. destruct (Hh c) as (o & Ho). by eauto 10.
Qed.

Lemma route_of_run r w :
  Grpc.route_of r w =
    match r with
    | None => (Err (invalid_argument (str "Route must be set")), w)
    | Some r =>
        match Endpoint.new (r_target r), Endpoint.new (r_next_hop r) with
        | Some t, Some nh => (Ok (t, nh), w)
        | None, _ => (Err (invalid_argument (str "target invalid")), w)
        | _, None => (Err (invalid_argument (str "next_hop invalid")), w)
        end
    end.
Proof.
  unfold Grpc.route_of. destruct r as [r|]; [|done]. cbn [ok_or]. iorun.
  destruct (Endpoint.new (r_target r)); [|done]. cbn [ok_or]. iorun.
  by destruct (Endpoint.new (r_next_hop r)).
Qed.

Lemma route_answered (me : Endpoint) n t w r (h : Endpoint → Endpoint → ClientAgent.handler ())
    (f : Endpoint * Endpoint → io Grpc.World Status ()) :
  serving me n t w → (∀ x y c, ∃ o, h x y c = Ok ((), c, o)) → (∀ x y, f (x, y) = Grpc.ask (h x y)) →
  let res := (Grpc.route_of r ≫= f) w in
  if match r with Some r => endpoint_ok (r_target r) && endpoint_ok (r_next_hop r) | None => false end
  then res.1 = Ok () ∧ serving me n t res.2 else ∃ m, res = (Err (invalid_argument m), w).
Proof.
  intros Hw Hh Hf. cbv zeta. pose proof (route_of_run r w) as Hr. destruct r as [r|].
  2:{ rewrite (io_bind_Err _ _ _ _ _ Hr). by eexists. }
  unfold endpoint_ok. destruct (Endpoint.new (r_target r)) as [tg|].
  2:{ rewrite (io_bind_Err _ _ _ _ _ Hr). by eexists. }
  destruct (Endpoint.new (r_next_hop r)) as [nh|].
  2:{ rewrite (io_bind_Err _ _ _ _ _ Hr), andb_comm. by eexists. }
  rewrite (io_bind_Ok _ _ _ _ _ Hr), Hf, !bool_decide_eq_true_2 by eauto. simpl.
  apply pass_on_answered; [done|apply Hh].
Qed.

Lemma url_answered (me : Endpoint) n t w u (h : Url → ClientAgent.handler ()) :
  serving me n t w → (∀ x c, ∃ o, h x c = Ok ((), c, o)) →
  let res := (Grpc.parse_url u ≫= λ x, Grpc.ask (h x)) w in
  if url_ok u then res.1 = Ok () ∧ serving me n t res.2 else ∃ m, res = (Err (invalid_argument m), w).
Proof.
  intros Hw Hh. cbv zeta. unfold Grpc.parse_url, url_ok. destruct (url_parse u) as [e|x]; [by eexists|].
  iorun. apply pass_on_answered; [done|apply Hh].
Qed.

Lemma list_answered {A B} (me : Endpoint) n t w (m : io Grpc.World Status A) (f : A → B) :
  serving me n t w → (∃ a, m w = (Ok a, w)) →
  let res := ((m ≫= λ l, mret (f l)) ≫= λ _, mret ()) w in
  res.1 = Ok () ∧ serving me n t res.2.
Proof. intros Hw (a & Ha). cbv zeta. iorun. by rewrite (io_bind_Ok _ _ _ _ _ Ha). Qed.

Lemma serve_answered me n clock q w :
  node_endpoint_ok me → request_ok q → n < 2 ^ 64 - 1 →
  DTN_UNIX_DIFFERENCE_MS ≤ clock < 2 ^ 63 → serving me n clock w →
  answered me (n + 1) clock q w (serve clock q w).
Proof.
  intros Hme Hq Hn Hclock Hw. pose proof (serving_weaken me n (n + 1) clock clock w ltac:(lia) ltac:(lia) Hw) as Hw'.
  destruct q as [req|addr req| |u|u| |r|r].
  - by apply submit_answered.
  - by apply listen_answered.
  - apply (list_answered me (n + 1) clock); [done|]. destruct Hw as [(c & Hc & _) _].
    unfold Grpc.ask_ClientListNodes. rewrite Hc. by eexists.
  - apply (url_answered me (n + 1) clock w u); [done|]. intros x c. by eexists.
  - apply (url_answered me (n + 1) clock w u); [done|]. intros x c. by eexists.
  - apply (list_answered me (n + 1) clock); [done|]. destruct Hw as [(c & Hc & _) _].
    unfold Grpc.ask_ClientListRoutes. rewrite Hc. by eexists.
  - pose proof (route_answered me (n + 1) clock w r ClientAgent.ClientAddRoute
      (λ '(x, y), Grpc.ask (ClientAgent.ClientAddRoute x y)) Hw'
      ltac:(intros x y c; by eexists) ltac:(done)) as Hr. by destruct r.
  - pose proof (route_answered me (n + 1) clock w r ClientAgent.ClientRemoveRoute
      (λ '(x, y), Grpc.ask (ClientAgent.ClientRemoveRoute x y)) Hw'
      ltac:(intros x y c; by eexists) ltac:(done)) as Hr. by destruct r.
Qed.

(** Requests with the clock at the time of each, one after the other. *)
Fixpoint serve_all (qs : list (Z * Request)) (w : Grpc.World) : list (outcome Status ()) * Grpc.World :=
  match qs with
  | [] => ([], w)
  | (clock, q) :: qs =>
      let '(r, w) := serve clock q w in
      let '(rs, w) := serve_all qs w in (r :: rs, w)
  end.

(** (Claim C17.) No request takes the service down.  Of any sequence of requests, with
    a clock that does not go back and fewer than 2^64 - 1 of them, each one gets an
    answer that depends on the request alone: one whose endpoints, url and route
    parse, and whose listening endpoint belongs to this node, succeeds; any other is
    an invalid argument.  The client agent and the storage agent are up afterwards:
    no handler panics. *)
Theorem requests_answered me t w qs :
  node_endpoint_ok me → serving me 0 t w → zlen qs < 2 ^ 64 - 1 → DTN_UNIX_DIFFERENCE_MS ≤ t →
  StronglySorted Z.le (t :: map fst qs) → Forall (λ q, q.1 < 2 ^ 63 ∧ request_ok q.2) qs →
  Forall2 (λ q r, if accepted me q.2 then r = Ok () else ∃ m, r = Err (invalid_argument m))
    qs (serve_all qs w).1 ∧
  ∃ t', serving me (zlen qs) t' (serve_all qs w).2.
Proof.
  intros Hme Hw Hlen Ht Hsort Hq.
  cut (∀ n, serving me n t w → n + zlen qs < 2 ^ 64 - 1 →
    Forall2 (λ q r, if accepted me q.2 then r = Ok () else ∃ m, r = Err (invalid_argument m))
      qs (serve_all qs w).1 ∧ ∃ t', serving me (n + zlen qs) t' (serve_all qs w).2).
  { intros Hcut. destruct (Hcut 0 Hw) as [? (t' & ?)]; [lia|]. split; [done|]. by exists t'. }
  clear Hw Hlen. revert t w Ht Hsort Hq.
  induction qs as [|[clock q] qs IH]; intros t w Ht Hsort Hq n Hw Hlen.
  { split; [constructor|]. exists t. simpl. by rewrite Z.add_0_r. }
  apply Forall_cons in Hq as [[Hc Hq0] Hq]. simpl in Hc, Hq0.
  apply StronglySorted_inv in Hsort as [Hsort Hall]. simpl in Hsort, Hall.
  apply Forall_cons in Hall as [Hle _]. simpl length in Hlen |- *.
  assert (serving me n clock w) as Hw1 by (by eapply serving_weaken; [..|exact Hw]; lia).
  pose proof (serve_answered me n clock q w Hme Hq0 ltac:(lia) ltac:(lia) Hw1) as Ha.
  simpl. destruct (serve clock q w) as [r w1] eqn:E. unfold answered in Ha.
  assert (serving me (n + 1) clock w1 ∧
    (if accepted me q then r = Ok () else ∃ m, r = Err (invalid_argument m))) as [Hw2 Hr].
  { destruct (accepted me q); [by destruct Ha|]. destruct Ha as (m & [= -> ->]). split; [|by eexists].
    by eapply serving_weaken; [..|exact Hw1]; lia. }
  destruct (IH clock w1 ltac:(lia) Hsort Hq (n + 1) Hw2 ltac:(lia)) as [Hall (t' & Ht')].
  destruct (serve_all qs w1) as [rs w2]. split; [by constructor|]. exists t'.
  by replace (n + Z.of_nat (S (length qs))) with (n + 1 + zlen qs) by lia.
Qed.
End requests.

(** ** Giving a printed route back *)
Section routes.
Context `{!SerdeCbor} `{!GrpcCrates} `{!HashOrder}.

Definition is_dtn (e : Endpoint) : bool := match e with EDTN _ => true | EIPN _ => false end.

(** A DTN endpoint is read back from its text, an IPN endpoint is not. *)
Lemma new_fmt e : node_endpoint_ok e → Endpoint.new (Endpoint.fmt e) = if is_dtn e then Some e else None.
Proof.
  intros He. destruct e as [e|e]; simpl.
  - by apply (proj1 dtn_endpoint_print_parse).
  - destruct He as [[Hn Hs] _]. by apply ipn_endpoint_never_parses.
Qed.

(** A route that is listed can be given back to be removed, as long as it
    is between DTN endpoints: [remove_route] of the printed route sends the routing
    agent exactly the removal of this static route, and the agent then has no such
    route and all others.  A listed route with an IPN endpoint is refused as an
    invalid argument. *)
Theorem listed_route_removal c w (r : Routing.RouteStatus) (d : RoutingAgent.Daemon) :
  Grpc.client w = Some c → node_endpoint_ok (target r) → node_endpoint_ok (status_next_hop r) →
  let res := Grpc.remove_route (rs_route (Grpc.route_response r)) w in
  if is_dtn (target r) && is_dtn (status_next_hop r) then
    res.1 = Ok () ∧
    Grpc.sent res.2 = Grpc.sent w ++
      [Grpc.FromClient (ClientAgent.RemoveRoute (target r) Static (status_next_hop r))] ∧
    ∃ d' o, RoutingAgent.RemoveRoute (target r) Static (status_next_hop r) d = Ok ((), d', o) ∧
      ∀ t k, routes_of d' t !! k =
        if decide (t = target r ∧ k = (Static, status_next_hop r)) then None else routes_of d t !! k
  else ∃ m, res = (Err (invalid_argument m), w).
Proof.
  intros Hc Ht Hn. cbv zeta. unfold Grpc.remove_route.
  pose proof (route_of_run (rs_route (Grpc.route_response r)) w) as Hr. simpl in Hr.
  rewrite !new_fmt in Hr by done. destruct (is_dtn (target r)).
  2:{ rewrite (io_bind_Err _ _ _ _ _ Hr). by eexists. }
  destruct (is_dtn (status_next_hop r)).
  2:{ rewrite (io_bind_Err _ _ _ _ _ Hr). by eexists. }
  rewrite (io_bind_Ok _ _ _ _ _ Hr). unfold Grpc.ask. rewrite Hc. simpl.
  split_and!; [done..|]. apply RemoveRoute_routes.
Qed.
End routes.

(** ** Witnesses *)
Module GrpcWitness.
#[export] Instance crates : GrpcCrates := {|
  url_parse u := if starts_with (str "tcpcl://") u
    then inr {| url_text := u; url_scheme := str "tcpcl" |}
    else inl (str "relative URL without a base");
  mailbox_error := str "Mailbox has closed" |}.

Definition node : Endpoint := NewBundleWitness.node.
Definition agent : ClientAgent.Daemon :=
  {| ClientAgent.connected_clients := ∅; ClientAgent.endpoint := Some node |}.
Definition world : Grpc.World := {|
  Grpc.client := Some agent; Grpc.storage := Some NewBundleWitness.st;
  Grpc.node_agent := NodeAgent.Daemon_default; Grpc.routing := RoutingAgent.Daemon_default;
  Grpc.my_node_id := str "dtn://a/"; Grpc.disk := []; Grpc.sent := [] |}.

(** A client whose stub calls the service. *)
Definition client (clock : Z) : DtrdClient.Client Grpc.World := {|
  DtrdClient.bc_submit_bundle := Grpc.submit_bundle clock;
  DtrdClient.bc_listen_bundles _ w := (Ok [], w);
  DtrdClient.ac_list_nodes := Grpc.list_nodes;
  DtrdClient.ac_add_node := Grpc.add_node;
  DtrdClient.ac_remove_node := Grpc.remove_node;
  DtrdClient.ac_list_routes := Grpc.list_routes;
  DtrdClient.ac_add_route := Grpc.add_route;
  DtrdClient.ac_remove_route := Grpc.remove_route |}.

Lemma ready t : storage_ready node t NewBundleWitness.st.
Proof. split; [done|constructor|simpl; lia|done]. Qed.

Lemma world_serving t : serving node 0 t world.
Proof.
  split; [by exists agent|]. exists NewBundleWitness.st. split_and!; try done. constructor.
Qed.

Definition requests : list (Z * Request) :=
  [(1700000000000, AddNode (str "tcpcl://10.0.0.1:4556"));
   (1700000000001, SubmitBundle {| sb_destination := str "dtn://b/in"; sb_payload := [1; 2; 3];
                                   sb_lifetime := 60000; sb_debug := false |});
   (1700000000001, ListenBundles 0 {| lb_endpoint := str "dtn://b/in" |});
   (1700000000002, AddRoute None)].

Definition route : Routing.RouteStatus := {|
  target := TestBundle.endpoint "//b/"; status_next_hop := TestBundle.endpoint "//c/";
  route_type := Static; preferred := true; available := true; max_bundle_size := None |}.
End GrpcWitness.
Export (hints) GrpcWitness.

Lemma requests_answered_witness :
  Forall2 (λ q r, if accepted GrpcWitness.node q.2 then r = Ok () else ∃ m, r = Err (invalid_argument m))
    GrpcWitness.requests (serve_all GrpcWitness.requests GrpcWitness.world).1 ∧
  ∃ t', serving GrpcWitness.node 4 t' (serve_all GrpcWitness.requests GrpcWitness.world).2.
Proof.
  apply (requests_answered GrpcWitness.node 1700000000000 GrpcWitness.world GrpcWitness.requests).
  - solve_ok.
  - apply GrpcWitness.world_serving.
  - done.
  - done.
  - repeat constructor; done.
  - repeat (apply Forall_cons_2; [split; [done|]; unfold request_ok, string_ok; simpl; try done; split_and!; try done; try solve_ok|]).
    constructor.
Defined.

Lemma listed_route_removal_witness :
  (let res := Grpc.remove_route (rs_route (Grpc.route_response GrpcWitness.route)) GrpcWitness.world in
   res.1 = Ok () ∧
   Grpc.sent res.2 = [] ++ [Grpc.FromClient (ClientAgent.RemoveRoute
     (target GrpcWitness.route) Static (status_next_hop GrpcWitness.route))] ∧
   ∃ d' o, RoutingAgent.RemoveRoute (target GrpcWitness.route) Static
       (status_next_hop GrpcWitness.route) RoutingAgent.Daemon_default = Ok ((), d', o) ∧
     ∀ t k, routes_of d' t !! k =
       if decide (t = target GrpcWitness.route ∧ k = (Static, status_next_hop GrpcWitness.route))
       then None else routes_of RoutingAgent.Daemon_default t !! k).
Proof.
  apply (listed_route_removal GrpcWitness.agent GrpcWitness.world GrpcWitness.route
    RoutingAgent.Daemon_default); [done|solve_ok|solve_ok].
Defined.
