(* ===== verification/Cli.v ===== *)
(** * The command line (cli/src/main.rs)

    [main] opens a connection to dtrd and runs one command with the client library.
    clap (the arguments), tabular (the tables) and the derived [Debug] forms are not
    part of the repository: the parsed arguments are an argument of [main], the rest
    is [CliCrates].  A command works on a [Process]: what the client reaches over the
    network, its files and its standard output.  [Exit] is a use of clap's
    [error(..).exit()]. *)
From S2P Require Import Prelude RustStr RustText Actor Cbor CborRfc Flags CrcTime Endpoint PrimaryBlock.
From S2P Require Import Block Bundle AdminRecord Fragment FragmentSize Storage StorageSystem StorageOps.
From S2P Require Import ProtocolAgent Routing Peers RocksDb Grpc GrpcProps.
Import Crc Time proto.

Module Cli.

(** ** The arguments *)
Inductive OutputMode := Parse | Hex | Raw.

Inductive BundleCommands :=
| Submit (destination : bytes) (lifetime : Z) (data data_file : option bytes) (debug : bool)
| Listen (endpoint : bytes) (output_mode : OutputMode)
| Receive (endpoint : bytes) (file : option bytes).

Inductive NodeCommands :=
| NodeList
| NodeAdd (address : bytes)
| NodeRemove (address : bytes).

Inductive RouteCommands :=
| RouteList
| RouteAdd (target nexthop : bytes)
| RouteRemove (target nexthop : bytes).

Inductive Commands :=
| CBundle (command : BundleCommands)
| CNode (command : NodeCommands)
| CRoute (command : RouteCommands).

Record Cli := { url : bytes; command : Commands }.

(** ** The process *)
Inductive ErrorKind := InvalidValue | ArgumentConflict.
Inductive Exit := Error (kind : ErrorKind) (message : bytes).

(** Writing to a closed standard output panics, and so does [unwrap] on a failed
    write to a file. *)
Record Process (W : Type) := {
  net : W;
  stdout : bytes;
  stdout_open : bool;
  files : gmap bytes bytes;
  writable : bytes → bool;
}.
Arguments net {W} _.
Arguments stdout {W} _.
Arguments stdout_open {W} _.
Arguments files {W} _.
Arguments writable {W} _ _.

(** [render] gives the text of a table, [read_error] the one of a failed read. *)
Class CliCrates := {
  render : list (list bytes) → bytes;
  debug_error : DtrdClient.Error → bytes;
  debug_record : AdministrativeRecord → bytes;
  read_error : bytes → bytes;
}.

Section cli.
Context {W : Type} `{!SerdeCbor, !CliCrates, !DtrdClient.Tonic W}.

Definition set_net (w : W) (p : Process W) : Process W := {|
  net := w; stdout := stdout p; stdout_open := stdout_open p; files := files p; writable := writable p |}.
Definition put_text (t : bytes) (p : Process W) : Process W := {|
  net := net p; stdout := stdout p ++ t; stdout_open := stdout_open p; files := files p;
  writable := writable p |}.
Definition put_file (path data : bytes) (p : Process W) : Process W := {|
  net := net p; stdout := stdout p; stdout_open := stdout_open p;
  files := <[path := data]> (files p); writable := writable p |}.

Abbreviation run := (io (Process W) Exit).
Abbreviation Client := (DtrdClient.Client W).

(** A call of the client library and its [Result]. *)
Definition call {A} (m : io W DtrdClient.Error A) : run (DtrdClient.Error + A) := λ p,
  match m (net p) with
  | (Ok a, w) => (Ok (inr a), set_net w p)
  | (Err e, w) => (Ok (inl e), set_net w p)
  | (Panic, w) => (Panic, set_net w p)
  end.

(** [print!], [println!] and [stdout().write_all(..).unwrap()]. *)
Definition print (t : bytes) : run () := λ p,
  if stdout_open p then (Ok (), put_text t p) else (Panic, p).
Definition println (t : bytes) : run () := print (t ++ [10]).

Definition fs_read (path : bytes) : run (bytes + bytes) := λ p,
  match files p !! path with
  | Some d => (Ok (inr d), p)
  | None => (Ok (inl (read_error path)), p)
  end.
(** [fs::write(path, data).await.unwrap()]. *)
Definition fs_write (path data : bytes) : run () := λ p,
  if writable p path then (Ok (), put_file path data p) else (Panic, p).

Definition exit {A} (kind : ErrorKind) (message : bytes) : run A := io_lift (Err (Error kind message)).

(** ** The commands *)
Definition command_bundle_submit (client : Client) (destination : bytes) (lifetime : Z)
    (data data_file : option bytes) (debug : bool) : run () :=
  (if Bool.eqb (is_none data) (is_none data_file)
   then exit ArgumentConflict (str "Either data or data_file must be specified")
   else mret () : run ());;
  payload ←
    (match data with
     | Some data => mret data
     | None =>
         path ← io_lift (unwrap data_file);
         r ← fs_read path;
         match r with
         | inr d => mret d
         | inl e => exit InvalidValue (str "Error reading data from file: " ++ e)
         end
     end : run bytes);
  r ← call (DtrdClient.submit_bundle client destination lifetime payload debug);
  match r with
  | inr _ => println (str "Bundle submitted successfully")
  | inl e => println (str "Error submitting bundle: " ++ debug_error e)
  end.

Definition show (output_mode : OutputMode) (data : bytes) : run () :=
  match output_mode with
  | Parse =>
      match record_of_bytes data with
      | Ok ar => println (str "Successfully parsed administrative record: " ++ debug_record ar)
      | Err _ =>
          println (str "Is no administrative record. This is the output as string." ++ [10] ++
                   str "<<<BEGIN" ++ [10] ++ from_utf8_lossy data ++ [10] ++ str "<<<END")
      | Panic => io_lift Panic
      end
  | Hex => println (str "Received bundle: " ++ debug_bytes data)
  | Raw => print data
  end.

(** [while let Some(data) = stream.next().await], which ends at the first error. *)
Fixpoint listen_loop (output_mode : OutputMode) (stream : list (DtrdClient.Error + bytes)) : run () :=
  match stream with
  | [] => mret ()
  | inr data :: stream => show output_mode data;; listen_loop output_mode stream
  | inl e :: _ => println (str "Error receiving bundle: " ++ debug_error e)
  end.

Definition command_bundle_listen (client : Client) (endpoint : bytes) (output_mode : OutputMode)
    : run () :=
  r ← call (DtrdClient.listen_bundles client endpoint);
  match r with
  | inr stream =>
      println (str "Now listening for bundles. Press CTRL+C to abort");;
      listen_loop output_mode stream;;
      println (str "Server closed the connection")
  | inl e => println (str "Error listening for bundles: " ++ debug_error e)
  end.

Definition command_bundle_receive (client : Client) (endpoint : bytes) (file : option bytes) : run () :=
  r ← call (DtrdClient.receive_bundle client endpoint);
  match r with
  | inr data => match file with Some path => fs_write path data | None => print data end
  | inl e => println (str "Error receiving bundle: " ++ debug_error e)
  end.

Definition node_row (node : proto.Node) : list bytes :=
  [n_url node; status node; n_endpoint node; if n_temporary node then str "temporary" else []].

Definition command_node_list (client : Client) : run () :=
  r ← call (DtrdClient.list_nodes client);
  match r with
  | inr data =>
      print (render ([str "URL"; str "Status"; str "Endpoint"; str "Temporary"] :: map node_row data))
  | inl e => println (str "Error receiving node list: " ++ debug_error e)
  end.

Definition command_node_add (client : Client) (url : bytes) : run () :=
  r ← call (DtrdClient.add_node client url);
  match r with
  | inr _ => mret ()
  | inl e => println (str "Error adding node: " ++ debug_error e)
  end.

Definition command_node_remove (client : Client) (url : bytes) : run () :=
  r ← call (DtrdClient.remove_node client url);
  match r with
  | inr _ => mret ()
  | inl e => println (str "Error adding node: " ++ debug_error e)
  end.

(** [route.r#type().as_str_name()]: a number that is no [RouteType] is the default. *)
Definition type_name (t : Z) : bytes := if t =? 1 then str "STATIC" else str "CONNECTED".
Definition display_bool (b : bool) : bytes := if b then str "true" else str "false".

Definition route_row (route : proto.RouteStatus) : outcome Exit (list bytes) :=
  r ← unwrap (rs_route route);
  Ok [r_target r; r_next_hop r; type_name (rs_type route); display_bool (rs_preferred route);
      display_bool (rs_available route); display_u64 (rs_max_bundle_size route)].

Definition route_header : list bytes :=
  [str "Target"; str "Nexthop"; str "Status"; str "Prefrered"; str "Available"; str "Bundle size limit"].

Definition command_route_list (client : Client) : run () :=
  r ← call (DtrdClient.list_routes client);
  match r with
  | inr data => rows ← io_lift (mapM route_row data); print (render (route_header :: rows))
  | inl e => println (str "Error receiving route list: " ++ debug_error e)
  end.

Definition command_route_add (client : Client) (target nexthop : bytes) : run () :=
  r ← call (DtrdClient.add_route client target nexthop);
  match r with
  | inr _ => mret ()
  | inl e => println (str "Error adding route: " ++ debug_error e)
  end.

Definition command_route_remove (client : Client) (target nexthop : bytes) : run () :=
  r ← call (DtrdClient.remove_route client target nexthop);
  match r with
  | inr _ => mret ()
  | inl e => println (str "Error adding route: " ++ debug_error e)
  end.

Definition run_command (client : Client) (c : Commands) : run () :=
  match c with
  | CBundle (Submit destination lifetime data data_file debug) =>
      command_bundle_submit client destination lifetime data data_file debug
  | CBundle (Listen endpoint output_mode) => command_bundle_listen client endpoint output_mode
  | CBundle (Receive endpoint file) => command_bundle_receive client endpoint file
  | CNode NodeList => command_node_list client
  | CNode (NodeAdd address) => command_node_add client address
  | CNode (NodeRemove address) => command_node_remove client address
  | CRoute RouteList => command_route_list client
  | CRoute (RouteAdd target nexthop) => command_route_add client target nexthop
  | CRoute (RouteRemove target nexthop) => command_route_remove client target nexthop
  end.

Definition main (cli : Cli) : run () :=
  r ← call (DtrdClient.new (url cli));
  match r with
  | inr client => run_command client (command cli)
  | inl e => exit InvalidValue (str "Error using url to connect to DTRD: " ++ debug_error e)
  end.
End cli.
End Cli.
Arguments Cli.net {W} _.
Arguments Cli.stdout {W} _.
Arguments Cli.stdout_open {W} _.
Arguments Cli.files {W} _.
Arguments Cli.writable {W} _ _.
