(* ===== verification/CliProps.v ===== *)
(** * What the command line promises

    Text that is submitted is what a receiver writes to its file; a command ends
    normally or with a usage error, and an error is reported before anything is sent;
    what the listening command prints. *)
From S2P Require Import Prelude RustStr RustText Actor Cbor CborRfc Flags CrcTime Endpoint PrimaryBlock.
From S2P Require Import Block Bundle AdminRecord Fragment FragmentSize Storage StorageSystem StorageOps.
From S2P Require Import ProtocolAgent Routing Peers RocksDb Grpc GrpcProps Cli.
Import Crc Time proto Cli.

(** ** No panic *)

Lemma ok_or_not_Panic {E A} (o : option A) (e : E) : ok_or o e ≠ Panic.
Proof. by destruct o. Qed.

Lemma next_element_not_Panic {A} (de : item → serde A) seq :
  (∀ v, de v ≠ Panic) → next_element de seq ≠ Panic.
Proof. intros H. destruct seq as [|v seq]; simpl; [done|]. specialize (H v). by destruct (de v). Qed.

Ltac total :=
  repeat first
    [ done | apply ok_or_not_Panic | progress no_panic | case_match
    | apply next_element_not_Panic; intros | solve [auto with dtn] ].

Lemma record_not_panic `{!SerdeCbor} bs : record_of_bytes bs ≠ Panic.
Proof.
  assert (∀ hint es, visit_status_item hint es ≠ Panic) as Hitem.
  { intros hint es. unfold visit_status_item. total. }
  assert (∀ hint es, visit_status_information hint es ≠ Panic) as Hinfo.
  { intros hint es. unfold visit_status_information. total. }
  pose proof endpoint_de_not_panic as Hend.
  assert (∀ hint es, visit_status_report hint es ≠ Panic) as Hreport.
  { intros hint es. unfold visit_status_report. total. }
  unfold record_of_bytes, from_slice_with. destruct (from_slice bs) as [v|]; [|done].
  apply deserialize_seq_not_Panic. intros hint es. unfold visit_record. total.
Qed.

Section total.
Context {W : Type} {HS : SerdeCbor} {HK : CliCrates} {HT : DtrdClient.Tonic W}.

(** The stubs of a service that is up: a call gives an answer, and a listed route is
    set. *)
Record answering (cl : DtrdClient.Client W) : Prop := {
  an_submit : ∀ req w, (DtrdClient.bc_submit_bundle cl req w).1 ≠ Panic;
  an_listen : ∀ req w, (DtrdClient.bc_listen_bundles cl req w).1 ≠ Panic;
  an_list_nodes : ∀ w, (DtrdClient.ac_list_nodes cl w).1 ≠ Panic;
  an_add_node : ∀ u w, (DtrdClient.ac_add_node cl u w).1 ≠ Panic;
  an_remove_node : ∀ u w, (DtrdClient.ac_remove_node cl u w).1 ≠ Panic;
  an_list_routes : ∀ w, (DtrdClient.ac_list_routes cl w).1 ≠ Panic;
  an_routes : ∀ w l, (DtrdClient.ac_list_routes cl w).1 = Ok l → Forall (λ r, is_Some (rs_route r)) l;
  an_add_route : ∀ r w, (DtrdClient.ac_add_route cl r w).1 ≠ Panic;
  an_remove_route : ∀ r w, (DtrdClient.ac_remove_route cl r w).1 ≠ Panic;
}.

(** A process with an open standard output that may write its files. *)
Definition ready (p : Process W) : Prop := stdout_open p = true ∧ ∀ path, writable p path = true.

(** [total m]: from a ready process [m] does not panic, leaves the process ready and
    ends with a usage error only before it has printed or written anything; [quiet]
    says that it never does. *)
Definition total {A} (m : io (Process W) Exit A) : Prop := ∀ p, ready p →
  (m p).1 ≠ Panic ∧ ready (m p).2 ∧ stdout p `prefix_of` stdout (m p).2 ∧
  ∀ e, (m p).1 = Err e → stdout (m p).2 = stdout p ∧ files (m p).2 = files p ∧ net (m p).2 = net p.
Definition quiet {A} (m : io (Process W) Exit A) : Prop := ∀ p, ready p →
  (∃ a, (m p).1 = Ok a) ∧ ready (m p).2 ∧ stdout p `prefix_of` stdout (m p).2.

Lemma quiet_total {A} (m : io (Process W) Exit A) : quiet m → total m.
Proof. intros H p Hp. destruct (H p Hp) as ((a & Ha) & Hr & Hs). rewrite Ha. split_and!; naive_solver. Qed.

Lemma quiet_bind {A B} (m : io (Process W) Exit A) (f : A → io (Process W) Exit B) :
  quiet m → (∀ a, quiet (f a)) → quiet (m ≫= f).
Proof.
  intros Hm Hf p Hp. destruct (Hm p Hp) as ((a & Ha) & Hr & Hs). unfold mbind, io_bind.
  destruct (m p) as [r p1]. simpl in *. subst r. destruct (Hf a p1 Hr) as (Ho & Hr' & Hs').
  split_and!; [done..|]. by etrans.
Qed.

Lemma quiet_call {A} (m : io W DtrdClient.Error A) : (∀ w, (m w).1 ≠ Panic) → quiet (call m).
Proof.
  intros Hm p Hp. unfold call. specialize (Hm (net p)). destruct (m (net p)) as [[a|e|] w]; [..|done];
    (split_and!; [by eexists|done|done]).
Qed.
Lemma quiet_print t : quiet (print t).
Proof.
  intros p [Ho Hw]. unfold print. rewrite Ho. split_and!; [by eexists|done|]. simpl. by eexists.
Qed.
Lemma quiet_write path d : quiet (fs_write path d).
Proof. intros p [Ho Hw]. unfold fs_write. rewrite Hw. split_and!; [by eexists|done|done]. Qed.
Lemma quiet_mret {A} (a : A) : quiet (mret a).
Proof. intros p Hp. split_and!; [by eexists|done|done]. Qed.

Lemma io_err_not_Panic {E F A} (f : E → F) (m : io W E A) w : (m w).1 ≠ Panic → (io_err f m w).1 ≠ Panic.
Proof. unfold io_err. by destruct (m w) as [[]]. Qed.
Lemma io_bind_not_Panic {E A B} (m : io W E A) (f : A → io W E B) w :
  (m w).1 ≠ Panic → (∀ a w1, m w = (Ok a, w1) → (f a w1).1 ≠ Panic) → ((m ≫= f) w).1 ≠ Panic.
Proof. unfold mbind, io_bind. destruct (m w) as [[]]; naive_solver. Qed.

Hint Resolve quiet_print quiet_write quiet_mret : core.

Lemma show_quiet mode d : quiet (show mode d).
Proof.
  destruct mode; simpl; unfold println; auto. pose proof (record_not_panic d).
  destruct (record_of_bytes d); try done; apply quiet_print.
Qed.

Lemma listen_loop_quiet mode l : quiet (listen_loop mode l).
Proof.
  induction l as [|[e|d] l IH]; simpl; unfold println; auto.
  apply quiet_bind; [apply show_quiet|done].
Qed.

(** A call whose result is only reported. *)
Lemma quiet_report {A} (m : io W DtrdClient.Error A) (f : DtrdClient.Error + A → io (Process W) Exit ()) :
  (∀ w, (m w).1 ≠ Panic) → (∀ r, quiet (f r)) → quiet (r ← call m; f r).
Proof. intros Hm Hf. apply quiet_bind; [by apply quiet_call|done]. Qed.

Lemma total_exit {A} kind m : total (exit (A := A) kind m).
Proof. intros p Hp. split_and!; [done|done|done|]. by intros e _. Qed.

(** The stubs give answers, so the functions of the library do. *)
Lemma library_answers cl : answering cl →
  (∀ d l p b w, (DtrdClient.submit_bundle cl d l p b w).1 ≠ Panic) ∧
  (∀ e w, (DtrdClient.listen_bundles cl e w).1 ≠ Panic) ∧
  (∀ e w, (DtrdClient.receive_bundle cl e w).1 ≠ Panic) ∧
  (∀ w, (DtrdClient.list_nodes cl w).1 ≠ Panic) ∧
  (∀ u w, (DtrdClient.add_node cl u w).1 ≠ Panic) ∧
  (∀ u w, (DtrdClient.remove_node cl u w).1 ≠ Panic) ∧
  (∀ w, (DtrdClient.list_routes cl w).1 ≠ Panic) ∧
  (∀ t n w, (DtrdClient.add_route cl t n w).1 ≠ Panic) ∧
  (∀ t n w, (DtrdClient.remove_route cl t n w).1 ≠ Panic).
Proof.
  intros []. split_and!; intros; try (by apply io_err_not_Panic).
  - apply io_bind_not_Panic; [by apply io_err_not_Panic|done].
  - apply io_bind_not_Panic; [by apply io_err_not_Panic|done].
  - apply io_bind_not_Panic; [by apply io_err_not_Panic|]. intros l w1 _.
    apply io_bind_not_Panic; [simpl; by apply ok_or_not_Panic|]. by intros [x|x] w2 _.
Qed.

Lemma route_rows_quiet l :
  Forall (λ r, is_Some (rs_route r)) l → ∃ rows, mapM (M := outcome Exit) route_row l = Ok rows.
Proof.
  induction 1 as [|r l [x Hx] _ [rows IH]]; [by exists []|].
  assert (∃ row, route_row r = Ok row) as [row Hr] by (unfold route_row; rewrite Hx; by eexists).
  exists (row :: rows). cbn [mapM]. rewrite Hr. ored. rewrite IH. by ored.
Qed.

(** A step that only looks at the process. *)
Lemma total_looks {A B} (m : io (Process W) Exit A) (f : A → io (Process W) Exit B) :
  (∀ p, (m p).2 = p ∧ (m p).1 ≠ Panic) → (∀ a, total (f a)) → total (m ≫= f).
Proof.
  intros Hm Hf p Hp. unfold mbind, io_bind. destruct (Hm p) as [Hp1 Hn].
  destruct (m p) as [[a|e|] p1]; simpl in *; subst p1; [by apply Hf|by split_and!|done].
Qed.

Lemma submit_total cl dest life data file debug :
  answering cl → total (command_bundle_submit cl dest life data file debug).
Proof.
  intros Ha. unfold command_bundle_submit.
  assert (∀ m, (∀ p, (m p).2 = p ∧ (m p).1 ≠ Panic) → total (m ≫= λ d,
    r ← call (DtrdClient.submit_bundle cl dest life d debug);
    match r with
    | inr _ => println (str "Bundle submitted successfully")
    | inl e => println (str "Error submitting bundle: " ++ debug_error e)
    end)) as Hgo.
  { intros m Hm. apply total_looks; [done|]. intros d. apply quiet_total, quiet_report;
      [apply (library_answers cl Ha)|intros [|]; apply quiet_print]. }
  destruct data as [d|], file as [path|]; cbn [is_none Bool.eqb].
  - apply (total_exit (A := ())).
  - apply (total_looks (mret ())); [by intros p|intros []]. apply Hgo. by intros p.
  - apply (total_looks (mret ())); [by intros p|intros []]. apply Hgo.
    intros p. unfold fs_read, mbind, io_bind. cbn. by destruct (files p !! path).
  - apply (total_exit (A := ())).
Qed.

Lemma run_command_total cl c : answering cl → total (run_command cl c).
Proof.
  intros Ha. destruct (library_answers cl Ha) as (Hs & Hl & Hr & Hn & Hna & Hnr & Hrl & Hra & Hrr).
  destruct c as [[dest life data file debug|e mode|e file]|[|u|u]|[|t n|t n]]; simpl.
  - by apply submit_total.
  - apply quiet_total, quiet_report; [done|]. intros [e'|l]; [apply quiet_print|].
    apply quiet_bind; [apply quiet_print|]. intros _.
    apply quiet_bind; [apply listen_loop_quiet|]. intros _. apply quiet_print.
  - apply quiet_total, quiet_report; [done|]. intros [e'|d]; [apply quiet_print|].
    destruct file; [apply quiet_write|apply quiet_print].
  - apply quiet_total, quiet_report; [done|]. intros [|]; apply quiet_print.
  - apply quiet_total, quiet_report; [done|]. intros [|]; [apply quiet_print|apply quiet_mret].
  - apply quiet_total, quiet_report; [done|]. intros [|]; [apply quiet_print|apply quiet_mret].
  - apply quiet_total. intros p Hp. unfold command_route_list, mbind, io_bind, call.
    unfold DtrdClient.list_routes, io_err. pose proof (an_list_routes cl Ha (net p)) as Hnp.
    pose proof (an_routes cl Ha (net p)) as Hrt.
    destruct (DtrdClient.ac_list_routes cl (net p)) as [[l|e|] w]; simpl in *; [|by apply quiet_print|done].
    destruct (route_rows_quiet l (Hrt l eq_refl)) as [rows Hrows]. unfold io_lift. rewrite Hrows.
    by apply (quiet_print _ (set_net w p)).
  - apply quiet_total, quiet_report; [done|]. intros [|]; [apply quiet_print|apply quiet_mret].
  - apply quiet_total, quiet_report; [done|]. intros [|]; [apply quiet_print|apply quiet_mret].
Qed.

(** The transport connects to services that are up, or fails without having sent
    anything. *)
Definition connecting : Prop := ∀ u w,
  match DtrdClient.connect u w with
  | (Ok cl, w') => answering cl ∧ w' = w
  | (Err _, w') => w' = w
  | (Panic, _) => False
  end.

Lemma main_total cli : connecting → total (main cli).
Proof.
  intros Hc p Hp. assert (set_net (net p) p = p) as Hnet by by destruct p.
  assert (∃ r, call (DtrdClient.new (url cli)) p = (Ok r, p) ∧
    match r with inr cl => answering cl | inl _ => True end) as (r & Hr & Hcl).
  { unfold call, DtrdClient.new.
    destruct (DtrdClient.uri_from_str (url cli)) as [u|]; simpl; iorun; [|rewrite Hnet; by eexists].
    unfold io_err. specialize (Hc u (net p)).
    destruct (DtrdClient.connect u (net p)) as [[cl|e|] w]; simpl; [| |done].
    - destruct Hc as [Hcl ->]. rewrite Hnet. by eexists.
    - subst w. rewrite Hnet. by eexists. }
  unfold main. rewrite (io_bind_Ok _ _ _ _ _ Hr).
  destruct r as [e|cl]; [by apply total_exit|by apply run_command_total].
Qed.

End total.

(** ** From one command line to another *)

(** Where the command takes the data from. *)
Definition given {W} (p : Process W) (data data_file : option bytes) (payload : bytes) : Prop :=
  (data = Some payload ∧ data_file = None) ∨
  (data = None ∧ ∃ path, data_file = Some path ∧ files p !! path = Some payload).

Section send.
Context {W : Type} {HS : SerdeCbor} {HK : CliCrates} {HT : DtrdClient.Tonic W}.

(** The address leads to the service behind the stubs [cl]. *)
Definition reaches (u : bytes) (cl : DtrdClient.Client W) : Prop :=
  ∃ uri, DtrdClient.uri_from_str u = Some uri ∧ ∀ w, DtrdClient.connect uri w = (Ok cl, w).

Lemma main_reaches u cl c p : reaches u cl → main {| url := u; command := c |} p = run_command cl c p.
Proof.
  intros (uri & Hu & Hc). unfold main. cbn [url command].
  assert (DtrdClient.new u (net p) = (Ok cl, net p)) as Hn.
  { unfold DtrdClient.new. rewrite Hu. cbn [ok_or]. rewrite io_bind_lift.
    unfold io_err. by rewrite Hc. }
  rewrite (io_bind_Ok _ _ _ (inr cl) p); [done|]. unfold call. rewrite Hn. by destruct p.
Qed.

Lemma submit_command_run cl dest life data file debug payload (p : Process W) w' :
  given p data file payload → stdout_open p = true →
  DtrdClient.submit_bundle cl dest life payload debug (net p) = (Ok (), w') →
  command_bundle_submit cl dest life data file debug p =
    (Ok (), put_text (str "Bundle submitted successfully" ++ [10]) (set_net w' p)).
Proof.
  intros Hg Ho Hs.
  assert ((r ← call (DtrdClient.submit_bundle cl dest life payload debug);
    match r with
    | inr _ => println (str "Bundle submitted successfully")
    | inl e => println (str "Error submitting bundle: " ++ debug_error e)
    end) p = (Ok (), put_text (str "Bundle submitted successfully" ++ [10]) (set_net w' p))) as Hrun.
  { rewrite (io_bind_Ok _ _ _ (inr ()) (set_net w' p)).
    - unfold println, print. simpl. by rewrite Ho.
    - unfold call. by rewrite Hs. }
  unfold command_bundle_submit. destruct Hg as [[-> ->]|(-> & path & -> & Hp)]; cbn [is_none Bool.eqb]; iorun.
  - done.
  - rewrite (io_bind_Ok _ _ p (inr payload) p); [by iorun|]. unfold fs_read. by rewrite Hp.
Qed.

Lemma receive_command_run cl e path (p : Process W) resp stream w' :
  DtrdClient.bc_listen_bundles cl {| lb_endpoint := e |} (net p) = (Ok (inr resp :: stream), w') →
  writable p path = true →
  command_bundle_receive cl e (Some path) p = (Ok (), put_file path (payload resp) (set_net w' p)).
Proof.
  intros Hl Hw. unfold command_bundle_receive.
  rewrite (io_bind_Ok _ _ _ (inr (payload resp)) (set_net w' p)).
  - unfold fs_write. simpl. by rewrite Hw.
  - unfold call, DtrdClient.receive_bundle. erewrite io_bind_Ok; [|unfold io_err; by rewrite Hl]. by iorun.
Qed.
End send.

(** What is submitted on one command line, as text or from a file, is what a receiver
    on another one writes to its file: the daemon stores and announces a bundle, the
    item that a listener gets for it goes through the second command line byte for
    byte.  (Claim C24.) *)
Theorem cli_submit_receive `{!SerdeCbor, !SerdeCborLaws} `{!GrpcCrates} `{!HashOrder} `{!CliCrates}
    `{!DtrdClient.Tonic Grpc.World} u cl clock target dest data file payload0 lifetime debug me c st
    (p : Process Grpc.World) :
  reaches u cl → (∀ req v, DtrdClient.bc_submit_bundle cl req v = Grpc.submit_bundle clock req v) →
  given p data file payload0 → stdout_open p = true →
  Endpoint.new target = Some dest → Endpoint.ok dest →
  bytes_ok payload0 → zlen payload0 < 2 ^ 63 → u64_ok lifetime →
  DTN_UNIX_DIFFERENCE_MS ≤ clock < 2 ^ 63 → node_endpoint_ok me →
  Grpc.client (net p) = Some c → ClientAgent.endpoint c = Some me →
  Grpc.storage (net p) = Some st → storage_ready me (clock - DTN_UNIX_DIFFERENCE_MS) st →
  ∃ p' r st',
    main {| url := u; command := CBundle (Submit target lifetime data file debug) |} p = (Ok (), p') ∧
    stdout p' = stdout p ++ str "Bundle submitted successfully" ++ [10] ∧
    Grpc.sent (net p') = Grpc.sent (net p) ++ [Grpc.FromStorage (Storage.EventBundleUpdated r)] ∧
    Grpc.storage (net p') = Some st' ∧ destination_endpoint (ref_primary r) = dest ∧
    ∀ t rest, Grpc.rec t = r :: rest →
      ∃ resp, Grpc.poll_next (upgrade st') t =
          Ok (Grpc.Ready (Some resp), Grpc.set_rec rest t, [Grpc.EventBundleDelivered dest r]) ∧
        source resp = Endpoint.fmt me ∧
        ∀ v cl' e path (q : Process Grpc.World) stream w', reaches v cl' →
          DtrdClient.bc_listen_bundles cl' {| lb_endpoint := e |} (net q) = (Ok (inr resp :: stream), w') →
          writable q path = true →
          ∃ q', main {| url := v; command := CBundle (Receive e (Some path)) |} q = (Ok (), q') ∧
            files q' = <[path := payload0]> (files q) ∧ stdout q' = stdout q.
Proof.
  intros Hu Hcl Hg Ho Htarget Hdest Hpay Hlen Hlife Hclock Hme Hc Hce Hst Hready.
  destruct (submit_run cl clock target dest payload0 lifetime debug me c st (net p))
    as (w' & r & st' & Hrun & Hsent & Hst' & Hd & Hpoll); try done.
  eexists _, r, st'. split_and!.
  - rewrite (main_reaches _ _ _ _ Hu). by apply submit_command_run with payload0.
  - done.
  - done.
  - done.
  - done.
  - intros t rest Ht. rewrite (Hpoll t rest Ht). eexists. split; [done|]. split; [done|].
    intros v cl' e path q stream w'' Hv Hl Hw. rewrite (main_reaches _ _ _ _ Hv).
    cbn [run_command]. rewrite (receive_command_run _ _ _ _ _ _ _ Hl Hw). by eexists.
Qed.

(** ** Listening *)
Section listen.
Context {W : Type} {HS : SerdeCbor} {HK : CliCrates} {HT : DtrdClient.Tonic W}.

(** What comes before the first error, and that error. *)
Fixpoint until_error (l : list (DtrdClient.Error + bytes)) : list bytes * option DtrdClient.Error :=
  match l with
  | [] => ([], None)
  | inr d :: l => let '(ds, e) := until_error l in (d :: ds, e)
  | inl e :: _ => ([], Some e)
  end.

Definition error_line (e : option DtrdClient.Error) : bytes :=
  match e with Some e => str "Error receiving bundle: " ++ debug_error e ++ [10] | None => [] end.

Lemma listen_raw_loop l (p : Process W) :
  stdout_open p = true →
  listen_loop Raw l p =
    (Ok (), put_text (concat (until_error l).1 ++ error_line (until_error l).2) p).
Proof.
  revert p. induction l as [|[e|d] l IH]; intros p Ho.
  - unfold put_text. cbn. rewrite app_nil_r. by destruct p.
  - unfold listen_loop, println, print. rewrite Ho. cbn [until_error fst snd concat error_line app].
    by rewrite !app_assoc.
  - cbn [listen_loop until_error]. rewrite (io_bind_Ok _ _ _ () (put_text d p)).
    + rewrite IH by done. destruct (until_error l) as [ds e]. unfold put_text. cbn.
      by rewrite <-!app_assoc.
    + unfold show, print. by rewrite Ho.
Qed.

(** Raw listening prints the payloads as they are, up to the first error, between the
    two messages of the command. *)
Theorem listen_raw_output u cl e stream (p : Process W) w' :
  reaches u cl → stdout_open p = true →
  DtrdClient.bc_listen_bundles cl {| lb_endpoint := e |} (net p) = (Ok stream, w') →
  let items := until_error (map DtrdClient.item_payload stream) in
  ∃ p', main {| url := u; command := CBundle (Listen e Raw) |} p = (Ok (), p') ∧
    stdout p' = stdout p ++ str "Now listening for bundles. Press CTRL+C to abort" ++ [10] ++
      concat items.1 ++ error_line items.2 ++ str "Server closed the connection" ++ [10].
Proof.
  intros Hu Ho Hl. cbv zeta. rewrite (main_reaches _ _ _ _ Hu). cbn [run_command].
  unfold command_bundle_listen.
  rewrite (io_bind_Ok _ _ _ (inr (map DtrdClient.item_payload stream)) (set_net w' p)).
  2:{ unfold call, DtrdClient.listen_bundles. erewrite io_bind_Ok; [|unfold io_err; by rewrite Hl]. done. }
  unfold println. rewrite (io_bind_Ok _ _ _ () (put_text (str "Now listening for bundles. Press CTRL+C to abort" ++ [10]) (set_net w' p)))
    by (unfold print; cbn; by rewrite Ho).
  erewrite io_bind_Ok; [|by apply listen_raw_loop].
  unfold print. cbn [stdout_open put_text set_net]. rewrite Ho. eexists. split; [done|].
  unfold put_text. cbn. by rewrite <-!app_assoc.
Qed.

(** The hexadecimal mode prints decimal numbers. *)
Example hex_mode_is_decimal (p : Process W) :
  stdout_open p = true →
  show Hex [255; 16] p = (Ok (), put_text (str "Received bundle: [255, 16]" ++ [10]) p).
Proof. intros Ho. unfold show, println, print. by rewrite Ho. Qed.
End listen.

(** ** The command line and the daemon *)

(** The services of the daemon answer. *)
Section server.
Context {HS : SerdeCbor} {HG : GrpcCrates} {HO : HashOrder}.

Lemma ask_not_Panic {A} (h : ClientAgent.handler A) w : (Grpc.ask h w).1 ≠ Panic.
Proof. unfold Grpc.ask. destruct (Grpc.client w) as [c|]; [|done]. by destruct (h c) as [[[]]| |]. Qed.

Lemma submit_not_Panic clock req w : (Grpc.submit_bundle clock req w).1 ≠ Panic.
Proof.
  unfold Grpc.submit_bundle. apply io_bind_not_Panic; [apply ok_or_not_Panic|]. intros e w1 _.
  apply io_bind_not_Panic; [|done]. unfold Grpc.ask_ClientSendBundle.
  destruct (Grpc.client w1) as [c|]; [|done].
  repeat case_match; try done. unfold Grpc.send_StoreNewBundle.
  destruct (Grpc.storage_registry _) as [[s1 o1]| |]; try done.
  by destruct (Storage.StoreNewBundle _ s1) as [[[]]| |].
Qed.

Lemma route_of_not_Panic r w : (Grpc.route_of r w).1 ≠ Panic.
Proof.
  unfold Grpc.route_of.
  repeat (apply io_bind_not_Panic; [apply ok_or_not_Panic|intros ? ? _]). done.
Qed.

Lemma server_answers cl clock :
  (∀ req w, DtrdClient.bc_submit_bundle cl req w = Grpc.submit_bundle clock req w) →
  (∀ req w, (DtrdClient.bc_listen_bundles cl req w).1 ≠ Panic) →
  (∀ w, DtrdClient.ac_list_nodes cl w = Grpc.list_nodes w) →
  (∀ u w, DtrdClient.ac_add_node cl u w = Grpc.add_node u w) →
  (∀ u w, DtrdClient.ac_remove_node cl u w = Grpc.remove_node u w) →
  (∀ w, DtrdClient.ac_list_routes cl w = Grpc.list_routes w) →
  (∀ r w, DtrdClient.ac_add_route cl r w = Grpc.add_route r w) →
  (∀ r w, DtrdClient.ac_remove_route cl r w = Grpc.remove_route r w) →
  answering cl.
Proof.
  intros E1 E2 E3 E4 E5 E6 E7 E8.
  assert (∀ u w, (Grpc.parse_url u w).1 ≠ Panic) as Hurl.
  { intros u w. unfold Grpc.parse_url, io_lift. by destruct (url_parse u). }
  split; intros; rewrite ?E1, ?E3, ?E4, ?E5, ?E6, ?E7, ?E8; try done.
  - apply submit_not_Panic.
  - unfold Grpc.list_nodes. apply io_bind_not_Panic; [|done]. unfold Grpc.ask_ClientListNodes.
    by destruct (Grpc.client w).
  - unfold Grpc.add_node. apply io_bind_not_Panic; [done|]. intros. apply ask_not_Panic.
  - unfold Grpc.remove_node. apply io_bind_not_Panic; [done|]. intros. apply ask_not_Panic.
  - unfold Grpc.list_routes. apply io_bind_not_Panic; [|done]. unfold Grpc.ask_ClientListRoutes.
    destruct (Grpc.client w); [|done]. by destruct (RoutingAgent.ListRoutes _) as [[[]]| |].
  - rewrite E6 in H. unfold Grpc.list_routes, mbind, io_bind in H.
    destruct (Grpc.ask_ClientListRoutes w) as [[rs| |] w']; simplify_eq/=.
    apply Forall_map, Forall_forall. intros r _. by eexists.
  - unfold Grpc.add_route. apply io_bind_not_Panic; [apply route_of_not_Panic|]. intros [] ? _. apply ask_not_Panic.
  - unfold Grpc.remove_route. apply io_bind_not_Panic; [apply route_of_not_Panic|]. intros [] ? _. apply ask_not_Panic.
Qed.
End server.

Module CliWitness.
Definition clock : Z := 1700000000000.

#[export] Instance cli_crates : CliCrates := {|
  render rows := concat (map (λ row, concat row ++ [10]) rows);
  debug_error := DtrdClient.error_fmt st_message;
  debug_record _ := str "BundleStatusReport";
  read_error path := path ++ str " not found" |}.

(** A channel to the daemon, if the address begins like one. *)
#[export] Instance tonic : DtrdClient.Tonic Grpc.World := {|
  DtrdClient.Uri := bytes;
  DtrdClient.uri_from_str u := if starts_with (str "http://") u then Some u else None;
  DtrdClient.connect _ w := (Ok (GrpcWitness.client clock), w) |}.

Definition process : Process Grpc.World := {|
  net := GrpcWitness.world; stdout := []; stdout_open := true;
  files := {[ str "data" := [1; 2; 3] ]}; writable _ := true |}.
Definition url : bytes := str "http://localhost:50051".

Lemma tonic_connecting : connecting (W := Grpc.World).
Proof. intros u w. simpl. split; [|done]. by apply (server_answers _ clock). Qed.
End CliWitness.
Export (hints) CliWitness.


Lemma cli_submit_receive_witness :
  ∃ p' r st',
    main {| url := CliWitness.url;
            command := CBundle (Submit (str "dtn://b/in") 60000 None (Some (str "data")) false) |}
      CliWitness.process = (Ok (), p') ∧
    stdout p' = stdout CliWitness.process ++ str "Bundle submitted successfully" ++ [10] ∧
    Grpc.sent (net p') = Grpc.sent (net CliWitness.process) ++ [Grpc.FromStorage (Storage.EventBundleUpdated r)] ∧
    Grpc.storage (net p') = Some st'.
Proof.
  destruct (cli_submit_receive CliWitness.url (GrpcWitness.client CliWitness.clock) CliWitness.clock
    (str "dtn://b/in") (TestBundle.endpoint "//b/in") None (Some (str "data")) [1; 2; 3] 60000 false
    GrpcWitness.node GrpcWitness.agent NewBundleWitness.st CliWitness.process)
    as (p' & r & st' & H1 & H2 & H3 & H4 & _).
  - by exists CliWitness.url.
  - done.
  - right. split; [done|]. by exists (str "data").
  - done.
  - vm_compute. reflexivity.
  - solve_ok.
  - solve_ok.
  - done.
  - solve_ok.
  - done.
  - solve_ok.
  - done.
  - done.
  - done.
  - apply GrpcWitness.ready.
  - exists p', r, st'. exact (conj H1 (conj H2 (conj H3 H4))).
Defined.
