(* ===== verification/Replication.v ===== *)
(** * Replication between stores

    [replistore/src/replication]: the S3 backend hands its events to the
    [Replicator], which passes them to the [DtrdClient] actor; this encodes an event
    and submits it as a bundle to dtrd.  The bundles that dtrd delivers come back as
    a stream of payloads; each is decoded and given to the receiver, the S3 backend.
    prost (the encoding) is not part of the repository: [Prost] are its two
    functions for a [BucketEvent], [ProstLaws] their documented meaning. *)
From S2P Require Import Prelude RustStr Actor Cbor CborRfc Flags CrcTime Endpoint PrimaryBlock.
From S2P Require Import Block Bundle Fragment FragmentSize Storage StorageSystem StorageOps.
From S2P Require Import ProtocolAgent Routing Peers RocksDb KeyValue BlobStore S3Backend Settings.
From S2P Require Import Grpc GrpcProps.
Import Crc Time.

Class Prost := {
  DecodeError : Type;
  encode : BucketEvent → bytes;
  decode : bytes → DecodeError + BucketEvent;
}.

(** What the types of the generated structs guarantee (replication.proto). *)
Definition i32_ok (z : Z) : Prop := - 2 ^ 31 ≤ z < 2 ^ 31.
Definition meta_ok (m : ObjectMeta) : Prop :=
  (∀ t, om_last_modified m = Some t → i64_ok (seconds t) ∧ i32_ok (nanos t)) ∧
  u64_ok (om_size m) ∧ string_ok (om_md5sum m) ∧ string_ok (om_sha256sum m).
Definition event_ok (e : Event) : Prop :=
  u64_ok (ev_version e) ∧ string_ok (ev_object_name e) ∧ ∀ m, ev_object_meta e = Some m → meta_ok m.
Definition bucket_event_ok (e : BucketEvent) : Prop :=
  string_ok (be_bucket_name e) ∧ Forall event_ok (be_events e) ∧
  Forall (λ o, string_ok (po_sha256sum o) ∧ bytes_ok (po_data o)) (be_objects e).

Class ProstLaws `{!Prost} : Prop := {
  decode_encode e : bucket_event_ok e → decode (encode e) = inr e;
  encode_ok e : bytes_ok (encode e);
}.

(** [.await.unwrap()]. *)
Definition io_unwrap {W E F A} (m : io W E A) : io W F A := λ w,
  let '(r, w) := m w in (unwrap_ok r, w).

(** ** The actor that talks to dtrd (dtrd.rs) *)
Module DtrdActor.
Section dtrd.
Context `{!Prost} {W : Type}.

Record DtrdClient := {
  url : bytes;
  endpoint : bytes;
  repl_target : bytes;
  client : option (DtrdClient.Client W);
}.

Definition new (url endpoint repl_target : bytes) : DtrdClient :=
  {| url := url; endpoint := endpoint; repl_target := repl_target; client := None |}.

(** [connect] is [Client::new]; the second result is the stream that is read. *)
Definition started (connect : bytes → io W DtrdClient.Error (DtrdClient.Client W)) (self : DtrdClient)
    : io W Empty_set (DtrdClient * list (DtrdClient.Error + bytes)) :=
  ret ← io_unwrap (connect (url self));
  stream ← io_unwrap (DtrdClient.listen_bundles ret (endpoint self));
  mret ({| url := url self; endpoint := endpoint self; repl_target := repl_target self;
           client := Some ret |}, stream).

Definition ReplicateEvent (self : DtrdClient) (bucket_event : BucketEvent) : io W Empty_set () :=
  let buf := encode bucket_event in
  client ← io_lift (unwrap (client self));
  io_unwrap (DtrdClient.submit_bundle client (repl_target self) 30 buf false).

(** [StreamHandler::handle]: the event that goes to the replicator. *)
Definition handle_item (item : DtrdClient.Error + bytes) : outcome Empty_set BucketEvent :=
  buf ← match item with inr b => Ok b | inl _ => Panic end;
  match decode buf with inr e => Ok e | inl _ => Panic end.
End dtrd.
Arguments DtrdClient : clear implicits.
End DtrdActor.

(** ** The replicator (mod.rs) *)
Module Replicator.
Section replicator.
Context `{!Prost} {W V E : Type}.

(** [receiver] is the handler behind the recipient. *)
Record Replicator := {
  client : option (DtrdActor.DtrdClient W);
  receiver : option (BucketEvent → io V E ());
  settings : ReplistoreSettings.Settings;
}.

Definition new (settings : ReplistoreSettings.Settings) : Replicator :=
  {| client := None; receiver := None; settings := settings |}.

(** The address is that of the new [DtrdClient] actor. *)
Definition started (self : Replicator) : Replicator := {|
  client := Some (DtrdActor.new (ReplistoreSettings.dtrd_url (settings self))
    (ReplistoreSettings.dtn_endpoint (settings self))
    (ReplistoreSettings.repl_target (settings self)));
  receiver := receiver self; settings := settings self |}.

(** [self.client.as_ref().unwrap().do_send(msg)]: the actor to which the event goes. *)
Definition ReplicateEvent (self : Replicator) : outcome Empty_set (DtrdActor.DtrdClient W) :=
  unwrap (client self).

Definition SetEventReceiver (r : BucketEvent → io V E ()) (self : Replicator) : Replicator :=
  {| client := client self; receiver := Some r; settings := settings self |}.

Definition EventReplicationReceived (self : Replicator) (store_event : BucketEvent) : io V E () :=
  receiver ← io_lift (unwrap (receiver self));
  receiver store_event.
End replicator.
Arguments Replicator : clear implicits.
End Replicator.

(** ** What one store announces is what the other store is handed *)
Section replication.
Context `{!SerdeCbor, !SerdeCborLaws} `{!GrpcCrates} `{!HashOrder} `{!Prost, !ProstLaws}.

(** (Claim C23.) An event arrives as it was sent.  Whatever event the S3 backend gives to
    replication, with an encoding that fits in memory and a target that parses, the [DtrdClient] actor submits it without
    a panic as one bundle of this node to the target; a listener's stream of dtrd that
    receives this bundle yields a response which the stream handler of the other
    store decodes to the same event, and the replicator there hands exactly this event
    to the receiver that was set. *)
Theorem replication_delivers {V E} (self : DtrdActor.DtrdClient Grpc.World) (cl : DtrdClient.Client Grpc.World)
    (other : Replicator.Replicator Grpc.World V E) (receive : BucketEvent → io V E ())
    (e : BucketEvent) clock dest me c st w :
  bucket_event_ok e → zlen (encode e) < 2 ^ 63 →
  DtrdActor.client self = Some cl →
  (∀ req v, DtrdClient.bc_submit_bundle cl req v = Grpc.submit_bundle clock req v) →
  Endpoint.new (DtrdActor.repl_target self) = Some dest → Endpoint.ok dest →
  DTN_UNIX_DIFFERENCE_MS ≤ clock < 2 ^ 63 → node_endpoint_ok me →
  Grpc.client w = Some c → ClientAgent.endpoint c = Some me →
  Grpc.storage w = Some st → storage_ready me (clock - DTN_UNIX_DIFFERENCE_MS) st →
  ∃ w' r st',
    DtrdActor.ReplicateEvent self e w = (Ok (), w') ∧
    Grpc.sent w' = Grpc.sent w ++ [Grpc.FromStorage (Storage.EventBundleUpdated r)] ∧
    Grpc.storage w' = Some st' ∧ destination_endpoint (ref_primary r) = dest ∧
    ∀ t rest, Grpc.rec t = r :: rest →
      ∃ resp o, Grpc.poll_next (upgrade st') t = Ok (Grpc.Ready (Some resp), Grpc.set_rec rest t, o) ∧
        ∃ e', DtrdActor.handle_item (DtrdClient.item_payload (inr resp)) = Ok e' ∧ e' = e ∧
        ∀ v, Replicator.EventReplicationReceived (Replicator.SetEventReceiver receive other) e' v
               = receive e v.
Proof.
  intros Hev Hlen Hself Hcl Ht Hd Hclock Hme Hc Hce Hst Hready. pose proof (encode_ok e) as Hb.
  destruct (submit_run cl clock (DtrdActor.repl_target self) dest (encode e) 30 false me c st w)
    as (w' & r & st' & Hrun & Hsent & Hst' & Hdest & Hpoll); try done.
  exists w', r, st'. split_and!; try done.
  - unfold DtrdActor.ReplicateEvent. rewrite Hself. iorun. unfold io_unwrap. by rewrite Hrun.
  - intros t rest Hrec. eexists _, _. split; [by apply Hpoll|]. exists e. split; [|done].
    unfold DtrdActor.handle_item. cbn. by rewrite decode_encode.
Qed.
End replication.

(** ** An encoding *)
Module BitEncoding.

#[export] Instance Timestamp_eq_dec : EqDecision Timestamp.
Proof. solve_decision. Defined.
#[export] Instance ObjectMeta_eq_dec : EqDecision ObjectMeta.
Proof. solve_decision. Defined.
#[export] Instance EventType_eq_dec : EqDecision EventType.
Proof. solve_decision. Defined.
#[export] Instance Event_eq_dec : EqDecision Event.
Proof. solve_decision. Defined.
#[export] Instance ProtoObject_eq_dec : EqDecision ProtoObject.
Proof. solve_decision. Defined.
#[export] Instance BucketEvent_eq_dec : EqDecision BucketEvent.
Proof. solve_decision. Defined.

#[export] Instance Timestamp_countable : Countable Timestamp.
Proof.
  refine (inj_countable' (λ t, (seconds t, nanos t))
    (λ '(s, n), {| seconds := s; nanos := n |}) _). by intros [].
Defined.
#[export] Instance ObjectMeta_countable : Countable ObjectMeta.
Proof.
  refine (inj_countable' (λ m, (om_last_modified m, om_size m, om_md5sum m, om_sha256sum m))
    (λ '(l, s, m, h), {| om_last_modified := l; om_size := s; om_md5sum := m; om_sha256sum := h |}) _).
  by intros [].
Defined.
#[export] Instance EventType_countable : Countable EventType.
Proof.
  refine (inj_countable' (λ t, match t with EvPut => true | EvDelete => false end)
    (λ b : bool, if b then EvPut else EvDelete) _). by intros [].
Defined.
#[export] Instance Event_countable : Countable Event.
Proof.
  refine (inj_countable' (λ e, (ev_type e, ev_version e, ev_object_name e, ev_object_meta e))
    (λ '(t, v, n, m), {| ev_type := t; ev_version := v; ev_object_name := n; ev_object_meta := m |}) _).
  by intros [].
Defined.
#[export] Instance ProtoObject_countable : Countable ProtoObject.
Proof.
  refine (inj_countable' (λ o, (po_sha256sum o, po_data o))
    (λ '(s, d), {| po_sha256sum := s; po_data := d |}) _). by intros [].
Defined.
#[export] Instance BucketEvent_countable : Countable BucketEvent.
Proof.
  refine (inj_countable' (λ e, (be_bucket_name e, be_events e, be_objects e))
    (λ '(b, e, o), {| be_bucket_name := b; be_events := e; be_objects := o |}) _). by intros [].
Defined.

(** The bits of a number, the lowest first. *)
Fixpoint bits (p : positive) : bytes :=
  match p with xH => [] | xO p => 0 :: bits p | xI p => 1 :: bits p end.
Fixpoint of_bits (l : bytes) : positive :=
  match l with [] => xH | b :: l => if b =? 0 then xO (of_bits l) else xI (of_bits l) end.

Lemma of_bits_bits p : of_bits (bits p) = p.
Proof. induction p; simpl; congruence. Qed.

Lemma bits_ok p : bytes_ok (bits p).
Proof. induction p; simpl; constructor; done. Qed.

#[export] Instance bit_prost : Prost := {|
  DecodeError := ();
  encode e := bits (countable.encode e);
  decode l := match countable.decode (of_bits l) with Some e => inr e | None => inl () end;
|}.

#[export] Instance bit_prost_laws : ProstLaws.
Proof.
  split; intros e; simpl; [|apply bits_ok]. intros _. by rewrite of_bits_bits, countable.decode_encode.
Qed.
End BitEncoding.
Export (hints) BitEncoding.

Module ReplicationWitness.
Definition event : BucketEvent := {|
  be_bucket_name := str "b";
  be_events := [{| ev_type := EvDelete; ev_version := 2; ev_object_name := str "k";
                   ev_object_meta := None |}];
  be_objects := [] |}.
Definition actor : DtrdActor.DtrdClient Grpc.World := {|
  DtrdActor.url := str "http://localhost:50051"; DtrdActor.endpoint := str "dtn://a/store";
  DtrdActor.repl_target := str "dtn://b/store";
  DtrdActor.client := Some (GrpcWitness.client 1700000000000) |}.
Definition other : Replicator.Replicator Grpc.World () () :=
  Replicator.new ReplistoreSettings.Settings_default.
Definition receive (e : BucketEvent) : io () () () := mret ().
End ReplicationWitness.

Lemma replication_delivers_witness :
  ∃ w' r st',
    DtrdActor.ReplicateEvent ReplicationWitness.actor ReplicationWitness.event GrpcWitness.world
      = (Ok (), w') ∧
    Grpc.sent w' = [] ++ [Grpc.FromStorage (Storage.EventBundleUpdated r)] ∧
    Grpc.storage w' = Some st' ∧ destination_endpoint (ref_primary r) = TestBundle.endpoint "//b/store" ∧
    ∀ t rest, Grpc.rec t = r :: rest →
      ∃ resp o, Grpc.poll_next (upgrade st') t = Ok (Grpc.Ready (Some resp), Grpc.set_rec rest t, o) ∧
        ∃ e', DtrdActor.handle_item (DtrdClient.item_payload (inr resp)) = Ok e' ∧
          e' = ReplicationWitness.event ∧
          ∀ v, Replicator.EventReplicationReceived
                 (Replicator.SetEventReceiver ReplicationWitness.receive ReplicationWitness.other) e' v
               = ReplicationWitness.receive ReplicationWitness.event v.
Proof.
  apply (replication_delivers ReplicationWitness.actor (GrpcWitness.client 1700000000000)
    ReplicationWitness.other ReplicationWitness.receive ReplicationWitness.event 1700000000000
    (TestBundle.endpoint "//b/store") GrpcWitness.node GrpcWitness.agent NewBundleWitness.st
    GrpcWitness.world); try done.
  - split_and!; [solve_ok..|constructor; [|constructor]|constructor]. split_and!; [solve_ok..|done].
  - solve_ok.
  - solve_ok.
  - apply GrpcWitness.ready.
Defined.
