(* ===== verification/Hostile.v ===== *)
(** * What the daemon does with data from a peer that is not well formed

    The session agent hands every transfer to the storage agent as it is
    ([HandleTransfer]); the storage agent unwraps the decoded bundle and its
    payload block, and the protocol agent slices the destination and the source
    behind ["//"], which decoding does not look for.  The conditions under which
    this panics, exactly. *)
From S2P Require Import Prelude RustStr Actor Cbor CborRfc Flags CrcTime Endpoint PrimaryBlock.
From S2P Require Import Block Bundle Fragment Storage StorageSystem ProtocolAgent ProtocolAgentProps.
From S2P Require TcpclAgents.
Import Crc Time.
Import ProtocolAgent.

Section received_data.
Context `{!SerdeCbor}.

(** The bytes the storage agent can keep. *)
Definition is_bundle (d : bytes) : Prop :=
  ∃ b, bundle_of_bytes d = Ok b ∧ is_Some (find_payload (blocks b)).

(** Whatever a peer sends is handed on ... *)
Lemma transfers_are_not_checked d a :
  TcpclAgents.TCPCLSessionAgent.HandleTransfer true d a =
    Ok ((), a, [TcpclAgents.TCPCLSessionAgent.StoreReceivedBundle d]).
Proof. done. Qed.

(** ... and the storage agent takes exactly the bytes of a bundle with a payload
    block: any others make it panic. *)
Theorem received_bundle_stored d st :
  (is_bundle d → ∃ sb, bundle_data sb = d ∧ sb_state sb = Received ∧ sb_size sb = zlen d ∧
     StoreReceivedBundle d st =
       Ok ((), set_bundles (bundles st ++ [sb]) (bump_arc st), [Storage.EventBundleUpdated (get_ref sb)])) ∧
  (¬ is_bundle d → StoreReceivedBundle d st = Panic).
Proof.
  split.
  - intros (b & Hb & Hp).
    destruct (stored_of_bytes_total (E := Empty_set) (next_arc st) d b Hb Hp) as (sb & Hsb & _).
    destruct (stored_of_bytes_Ok _ _ _ Hsb) as (?&_&_&?&_).
    exists (with_state Received (with_min_size None sb)). split_and!; [done..|].
    exact (store_bundle_returns d None Received false st sb Hsb).
  - intros Hn. destruct (StoreReceivedBundle d st) as [[[a st'] o]|[]|] eqn:E; [|done].
    destruct Hn. destruct (store_bundle_Ok d None Received false st a st' o E) as (sb & Hsb & _).
    destruct (stored_of_bytes_Ok _ _ _ Hsb) as (Hd&_&_&_&_&Hok&_).
    destruct Hok as (b & Hb & _ & Hp). exists b. by rewrite <-Hd.
Qed.
End received_data.

(** ** Endpoints that decoding accepts *)

(** The text of an endpoint of the [dtn] scheme is cut behind its second byte. *)
Definition sliceable (e : Endpoint) : Prop :=
  match e with EDTN e => is_char_boundary (DTN.uri e) 2 = true | EIPN _ => True end.

#[export] Instance sliceable_dec e : Decision (sliceable e).
Proof. destruct e; apply _. Defined.

Lemma node_name_panics {E} u :
  DTN.node_name (E := E) {| DTN.uri := u |} = Panic ↔ ¬ sliceable (EDTN {| DTN.uri := u |}).
Proof.
  unfold DTN.node_name, str_from, sliceable. simpl. destruct (is_char_boundary u 2); ored; done.
Qed.

Lemma get_node_endpoint_unsliceable {E} e :
  ¬ sliceable e → Endpoint.get_node_endpoint (E := E) e = Panic.
Proof.
  destruct e as [[u]|]; [|by intros []]. intros H. apply (node_name_panics (E := E)) in H.
  unfold Endpoint.get_node_endpoint, DTN.get_node_endpoint. by rewrite H.
Qed.

Lemma matches_node_unsliceable {E} a b :
  sliceable a → ¬ sliceable b → (∃ d, a = EDTN d) →
  Endpoint.matches_node (E := E) a b = Panic ∧ Endpoint.matches_node (E := E) b a = Panic.
Proof.
  intros Ha Hb [[u] ->]. destruct b as [[v]|]; [|by destruct Hb].
  apply (node_name_panics (E := E)) in Hb. unfold sliceable in Ha. cbn in Ha.
  unfold Endpoint.matches_node, DTN.matches_node. rewrite Hb.
  unfold DTN.node_name, str_from. cbn [DTN.uri]. rewrite Ha. by ored.
Qed.

(** A node of the [dtn] scheme panics on every bundle whose source or destination
    cannot be cut: on the source as soon as the bundle is received, on the
    destination when it is dispatched. *)
Theorem unsliceable_endpoints_panic `{!SerdeCbor} env r me st :
  ProtocolAgent.endpoint st = Some (EDTN me) → sliceable (EDTN me) →
  (ref_state r = Received → ¬ sliceable (source_node (ref_primary r)) →
     ProtocolAgent.EventBundleUpdated env r st = Panic) ∧
  (ref_state r = Valid → ¬ sliceable (destination_endpoint (ref_primary r)) →
     ProtocolAgent.EventBundleUpdated env r st = Panic).
Proof.
  intros He Hme. split; intros Hs Hb.
  - destruct (matches_node_unsliceable (E := Empty_set) _ _ Hme Hb ltac:(eauto)) as [_ Hm].
    unfold ProtocolAgent.EventBundleUpdated. rewrite Hs. arun. rewrite He. arun. by rewrite Hm.
  - destruct (matches_node_unsliceable (E := Empty_set) _ _ Hme Hb ltac:(eauto)) as [Hm _].
    unfold ProtocolAgent.EventBundleUpdated, dispatch_valid. rewrite Hs. arun. rewrite He. arun. by rewrite Hm.
Qed.

(** A bundle for [dtn:x] is decoded, stored and taken for valid; then the protocol
    agent panics. *)
Module ShortEndpoint.
Definition pb : PrimaryBlock := {|
  version := 7; bundle_processing_flags := 0; crc := NoCRC;
  destination_endpoint := TestBundle.endpoint "x";
  source_node := TestBundle.endpoint "//a/app"; report_to := TestBundle.endpoint "//a/app";
  creation_timestamp := {| creation_time := {| timestamp := 1000 |}; sequence_number := 0 |};
  lifetime := 3600; fragment_offset := None; total_data_length := None |}.
Definition d : bytes := StorageWitness.sent (StorageWitness.bundle pb [1; 2; 3]).
Definition r (s : State) : StoredBundleRef := {|
  ref_arc := 0; ref_state := s; ref_size := zlen d; ref_payload_size := 3; ref_min_size := None;
  ref_primary := pb |}.

Example short_destination :
  (∃ st, StoreReceivedBundle d StorageWitness.init = Ok ((), st, [Storage.EventBundleUpdated (r Received)])) ∧
  ProtocolAgent.EventBundleUpdated ReportWitness.env (r Received) ReportWitness.st =
    Ok ((), ReportWitness.st, [ToStorage (MUpdateBundle (r Received) Valid None)]) ∧
  ProtocolAgent.EventBundleUpdated ReportWitness.env (r Valid) ReportWitness.st = Panic.
Proof.
  split_and!; [eexists; vm_compute; reflexivity|vm_compute; reflexivity|].
  apply (unsliceable_endpoints_panic _ _ {| DTN.uri := str "//b/" |}); [reflexivity..|].
  vm_compute. congruence.
Qed.

(** Bytes that are no bundle at all. *)
Example no_bundle : StoreReceivedBundle [1; 2; 3] StorageWitness.init = Panic.
Proof. vm_compute. reflexivity. Qed.
End ShortEndpoint.
