(* ===== verification/Origin.v ===== *)
(** * Which bundle a bundle was made from

    On its way a bundle changes: each node writes its name and the hop count into
    it, it is split into fragments, these again, and put together.  [part_of o b]
    says that [b] is the bundle [o] or a fragment of it as far as its primary block
    and its payload go; all operations of the storage and protocol agents on a
    bundle keep it. *)
From S2P Require Import Prelude RustStr Actor Cbor CborRfc Flags CrcTime Endpoint PrimaryBlock.
From S2P Require Import Block Bundle Fragment FragmentSize AdminRecord Storage StorageSystem StorageShape StorageMin.
From S2P Require Import ProtocolAgent ProtocolAgentProps.
Import Crc Time.

(** A bundle as it was created: whole, encodable and without checksums (see [Bundle.v]
    for what happens to those). *)
Record original (o : Bundle) : Prop := {
  or_ok : bundle_ok o;
  or_no_crc : bundle_no_crc o;
  or_payload : is_Some (find_payload (blocks o));
  or_whole : fragment_offset (primary_block o) = None;
  or_flag : contains (bundle_processing_flags (primary_block o)) BundleFlags.FRAGMENT = false;
}.

Inductive part_of (o b : Bundle) : Prop :=
| PartWhole :
    primary_block b = primary_block o → payload_bytes b = payload_bytes o →
    is_Some (find_payload (blocks b)) → part_of o b
| PartFragment :
    fragment_of (primary_block o) (zlen (payload_bytes o)) b → slice_of (payload_bytes o) b → part_of o b.

(** Source and creation timestamp identify a bundle. *)
Definition bundle_id (b : Bundle) : Endpoint * CreationTimestamp :=
  (source_node (primary_block b), creation_timestamp (primary_block b)).

Lemma part_of_refl o : is_Some (find_payload (blocks o)) → part_of o o.
Proof. by constructor. Qed.

Lemma part_of_id o b :
  part_of o b → bundle_id b = bundle_id o ∧
    destination_endpoint (primary_block b) = destination_endpoint (primary_block o).
Proof. unfold bundle_id. intros [Hp ? ?|[[k Hp] ? ?] ?]; by rewrite Hp. Qed.

Lemma part_of_payload o b : part_of o b → is_Some (find_payload (blocks b)).
Proof. by intros [? ? ?|[? ? ?] ?]. Qed.

Lemma part_of_whole o b :
  part_of o b → fragment_offset (primary_block b) = None →
  primary_block b = primary_block o ∧ payload_bytes b = payload_bytes o.
Proof. intros [? ? ?|[[k Hk] ? ?] ?] Hw; [done|]. by rewrite Hk in Hw. Qed.

Lemma part_of_fragment o b k :
  original o → part_of o b → fragment_offset (primary_block b) = Some k →
  total_data_length (primary_block b) = Some (zlen (payload_bytes o)) ∧
  k + zlen (payload_bytes b) ≤ zlen (payload_bytes o) ∧
  payload_bytes b = slice k (k + zlen (payload_bytes b)) (payload_bytes o).
Proof.
  intros Ho [Hp ? ?|Hf [Hl Hs]] Hk; [rewrite Hp, (or_whole _ Ho) in Hk; done|].
  pose proof (fragment_of_offset _ _ _ Hf) as Hk'. rewrite Hk in Hk'. injection Hk' as ->.
  split; [by eapply fragment_of_total|done].
Qed.

(** ** Another previous node, another hop count *)

Lemma payload_bytes_find b b' : find_payload (blocks b') = find_payload (blocks b) → payload_bytes b' = payload_bytes b.
Proof. unfold payload_bytes, payload_block, payload_canonical_block. by intros ->. Qed.

Lemma part_of_same o b b' :
  primary_block b' = primary_block b → find_payload (blocks b') = find_payload (blocks b) →
  part_of o b → part_of o b'.
Proof.
  intros Hp Hf H. pose proof (payload_bytes_find _ _ Hf) as Hd. destruct H as [? ? ?|[? ? ?] ?].
  - apply PartWhole; congruence.
  - assert (range_of b' = range_of b ∧ offset_key b' = offset_key b) as [Hr Hk].
    { unfold range_of, offset_key. by rewrite Hp, Hd. }
    apply PartFragment; [|unfold slice_of; by rewrite Hk, Hd]. split; [by rewrite Hp|congruence|by rewrite Hr].
Qed.

(** ** Fragments *)

Lemma slice_slice {A} a b c d (l : list A) :
  0 ≤ a → 0 ≤ c → c ≤ d → d ≤ b - a → slice c d (slice a b l) = slice (a + c) (a + d) l.
Proof.
  intros. unfold slice. rewrite skipn_firstn_comm, drop_drop, take_take.
  f_equal; [lia|]. f_equal. lia.
Qed.

Lemma with_fragment_twice f o t f' o' t' pb :
  with_fragment f o t (with_fragment f' o' t' pb) = with_fragment f o t pb.
Proof. done. Qed.

Lemma lor_FRAGMENT_twice f :
  Z.lor (Z.lor f BundleFlags.FRAGMENT) BundleFlags.FRAGMENT = Z.lor f BundleFlags.FRAGMENT.
Proof. by rewrite <-Z.lor_assoc, Z.lor_diag. Qed.

Lemma part_of_range o b :
  original o → part_of o b → 0 ≤ offset_key b ∧ offset_key b + zlen (payload_bytes b) < 2 ^ 64.
Proof.
  intros Ho [Hp Hd ?|[? ? (?&?&?)] ?]; [|done]. unfold offset_key. rewrite Hp, (or_whole _ Ho), Hd. simpl.
  destruct (payload_bytes_ok o (or_ok _ Ho)). lia.
Qed.

(** What the fragments of a part announce. *)
Lemma part_of_total o b : original o → part_of o b →
  total_length b = zlen (payload_bytes o) ∧
  (∀ g, fragment_of (primary_block b) (total_length b) g →
     fragment_of (primary_block o) (zlen (payload_bytes o)) g).
Proof.
  intros Ho H. assert (total_length b = zlen (payload_bytes o)) as Ht.
  { unfold total_length. destruct H as [Hp Hd ?|Hf ?]; [|by rewrite (fragment_of_total _ _ _ Hf)].
    rewrite Hp, Hd. destruct (or_ok _ Ho) as ((_&_&_&_&_&_&_&_&Hw)&_). rewrite (or_whole _ Ho) in Hw.
    by destruct (total_data_length _). }
  split; [done|]. rewrite Ht. intros g [[k Hk] ? ?]. split; [|done..]. exists k. rewrite Hk.
  destruct H as [-> ? ?|[[k' ->] ? ?] ?]; [done|]. rewrite with_fragment_twice. cbn [bundle_processing_flags with_fragment].
  by rewrite lor_FRAGMENT_twice.
Qed.

Lemma fragments_part_of `{!SerdeCbor} o b max frags m1 m2 :
  original o → part_of o b → bundle_ok b → fragment b max = Ok (frags, m1, m2) → Forall (part_of o) frags.
Proof.
  intros Ho Hpart Hok Hfr. destruct (fragment_Ok _ _ _ _ _ Hfr) as (f & Hfo & Hl & _).
  destruct (part_of_range _ _ Ho Hpart) as [Hpos Hlen]. destruct (part_of_total _ _ Ho Hpart) as [_ Hg].
  pose proof (fragmentation_of_ok _ _ _ Hfo Hok Hlen) as Hf.
  apply fragment_loop_chain in Hl; [|done|lia..].
  eapply (chain_Forall f); [done|]. intros off n bytes Hoff Hn Hend Hbs Hsz _.
  apply PartFragment.
  - apply Hg, fragment_of_at; try done; [by destruct Hfo|lia].
  - assert (payload_bytes b = slice (offset_key b) (offset_key b + zlen (payload_bytes b)) (payload_bytes o) ∧
            offset_key b + zlen (payload_bytes b) ≤ zlen (payload_bytes o)) as [Hb Hbl].
    { destruct Hpart as [Hp Hd ?|? [? ?]]; [|done]. unfold offset_key. rewrite Hp, (or_whole _ Ho), Hd. simpl.
      by rewrite Z.add_0_l, slice_full. }
    destruct Hfo. split; rewrite offset_key_at, payload_length_at, fo_offset by (done || lia).
    + rewrite fo_data in Hend. lia.
    + rewrite payload_bytes_at, fo_data by done. rewrite fo_data in Hend. rewrite Hb at 1.
      rewrite slice_slice by lia. f_equal; lia.
Qed.

(** ** Reassembly *)

Lemma reassembled_flags {HC : SerdeCbor} bs d :
  reassemble_bundles bs = Ok d →
  ∃ first rest, bs = first :: rest ∧
    Forall (λ b, Primary.equals_ignoring_fragment_offset (primary_block first) (primary_block b) = true ∧
      contains (bundle_processing_flags (primary_block b)) BundleFlags.FRAGMENT = true) bs.
Proof.
  intros H. unfold reassemble_bundles in H. apply bind_Ok in H as ([can sorted] & Hc & H).
  destruct can; [|done]. clear H. unfold can_reassemble_bundles in Hc. destruct bs as [|first rest]; [done|].
  apply bind_Ok in Hc as ([] & Hf%assert_Ok & Hc). apply bind_Ok in Hc as ([] & He%assert_Ok & _).
  exists first, rest. split; [done|]. apply Forall_forall. intros b Hin%list_elem_of_In.
  rewrite forallb_forall in He. specialize (He b Hin). split; [done|].
  apply bool_decide_eq_true in He. apply (f_equal bundle_processing_flags) in He. simpl in He. by rewrite <-He.
Qed.

Lemma equals_ignoring_id b b' :
  Primary.equals_ignoring_fragment_offset (primary_block b) (primary_block b') = true → bundle_id b' = bundle_id b.
Proof.
  intros He%bool_decide_eq_true. unfold bundle_id. f_equal.
  - by apply (f_equal source_node) in He.
  - by apply (f_equal creation_timestamp) in He.
Qed.

(** Whatever is put together is a whole bundle. *)
Lemma complete_dec {HC : SerdeCbor} pb total bs :
  Forall (fragment_of pb total) bs → bs ≠ [] → complete total (map range_of bs) ∨ ¬ complete total (map range_of bs).
Proof.
  intros Hf Hne. rewrite <-(try_fold_iff_complete pb total bs Hf Hne).
  destruct (decide (try_fold 0 (map range_of (sort_by_offset bs)) = Some total)); auto.
Qed.

Lemma original_primary o :
  original o →
  with_fragment (flags_remove (Z.lor (bundle_processing_flags (primary_block o)) BundleFlags.FRAGMENT)
    BundleFlags.FRAGMENT) None None (primary_block o) = primary_block o.
Proof.
  intros [(Hp & _) _ _ Hw Hf]. rewrite remove_lor_FRAGMENT by done.
  destruct Hp as (_&_&_&_&_&_&_&_&Ht). rewrite Hw in Ht.
  destruct (primary_block o); simpl in *. destruct total_data_length; [done|]. by subst.
Qed.

Section created.
Context {HC : SerdeCbor} {HL : SerdeCborLaws}.
Context (created : Bundle → Prop) (Hor : ∀ o, created o → original o).
Context (Hid : ∀ o o', created o → created o' → bundle_id o = bundle_id o' → o = o').

(** Bytes of a part of a bundle that was created. *)
Definition known (d : bytes) : Prop :=
  ∃ o b, created o ∧ bundle_of_bytes d = Ok b ∧ part_of o b.

(** A bundle the agents can work on. *)
Definition usable (b : Bundle) : Prop := bundle_ok b ∧ bundle_no_crc b ∧ ∃ o, created o ∧ part_of o b.

Lemma known_written o g :
  created o → part_of o g → bundle_ok g → bundle_no_crc g → ∀ d, bytes_of_bundle g = Ok d → known d.
Proof.
  intros Ho Hg Hok Hnc d Hd. destruct (bundle_write_read g Hok Hnc) as (d' & Hd' & _ & Hr).
  rewrite Hd in Hd'. injection Hd' as <-. by exists o, g.
Qed.

Lemma fragments_known b max frags m1 m2 :
  usable b → fragment b max = Ok (frags, m1, m2) → Forall (λ g, ∀ d, bytes_of_bundle g = Ok d → known d) frags.
Proof.
  intros (Hok & Hnc & o & Ho & Hb) H. pose proof (fragments_part_of _ _ _ _ _ _ (Hor o Ho) Hb Hok H) as Hp.
  destruct (fragment_Ok _ _ _ _ _ H) as (f & Hf & Hl & _).
  pose proof (fragment_loop_at _ _ _ _ _ _ Hf Hl) as Hat. rewrite Forall_forall in Hp, Hat |- *.
  intros g Hin. destruct (Hat g Hin) as (k & n & ->). eapply known_written; [done|by apply Hp| |].
  - eapply fragment_at_ok; [done..|by apply total_length_ok].
  - by eapply fragment_at_no_crc.
Qed.

(** Fragments with the same source and timestamp are fragments of one bundle. *)
Lemma one_origin bs i :
  bs ≠ [] → Forall usable bs →
  Forall (λ b, bundle_id b = i ∧ contains (bundle_processing_flags (primary_block b)) BundleFlags.FRAGMENT = true) bs →
  ∃ o, created o ∧ Forall (fragment_of (primary_block o) (zlen (payload_bytes o))) bs ∧
    Forall (slice_of (payload_bytes o)) bs.
Proof.
  intros Hne Hu Hfl. destruct bs as [|first rest]; [done|].
  pose proof Hu as [(_ & _ & o & Ho & Hfirst) _]%Forall_cons. exists o. split; [done|].
  pose proof Hfl as [[Hi _] _]%Forall_cons.
  assert (∀ b, b ∈ first :: rest → fragment_of (primary_block o) (zlen (payload_bytes o)) b ∧
    slice_of (payload_bytes o) b) as H; [|by split; apply Forall_forall; intros b Hb; apply H].
  intros b Hin. rewrite Forall_forall in Hu, Hfl. destruct (Hu b Hin) as (_ & _ & o' & Ho' & Hb).
  destruct (Hfl b Hin) as [Hib Hf]. assert (o' = o) as ->.
  { apply Hid; [done..|]. rewrite <-(proj1 (part_of_id _ _ Hb)), <-(proj1 (part_of_id _ _ Hfirst)). congruence. }
  destruct Hb as [Hp ? ?|? ?]; [|done]. rewrite Hp, (or_flag _ (Hor o Ho)) in Hf. done.
Qed.

(** Reassembly of fragments of one bundle gives the bundle or hands them back. *)
Lemma reassemble_known_fragments bs i :
  bs ≠ [] → Forall usable bs →
  Forall (λ b, bundle_id b = i ∧ contains (bundle_processing_flags (primary_block b)) BundleFlags.FRAGMENT = true) bs →
  (∃ d, reassemble_bundles bs = Ok d ∧ known d) ∨ reassemble_bundles bs = Err (sort_by_offset bs).
Proof.
  intros Hne Hu Hfl. destruct (one_origin bs i Hne Hu Hfl) as (o & Ho & Hf & Hs).
  pose proof (Hor o Ho) as Hoo. destruct (payload_bytes_ok o (or_ok _ Hoo)) as [Hpb Hpl].
  destruct (complete_dec _ _ _ Hf Hne) as [Hc|Hc]; [left|right; by eapply reassemble_incomplete].
  destruct (reassemble_slices (primary_block o) (payload_bytes o) bs) as (main & d & Hin & _ & Hd & Hr); try done.
  { by destruct (or_ok _ Hoo). }
  { eapply Forall_impl; [exact Hu|]. by intros b ((_&?&_)&_). }
  exists d. split; [done|]. rewrite Forall_forall in Hu, Hf.
  destruct (Hu main Hin) as ((_ & Hbs & Hnb) & [_ Hnc] & _).
  pose proof (fragment_of_payload _ _ _ (Hf main Hin)) as Hpay.
  eapply known_written; [done| | | |exact Hd].
  - apply PartWhole; [by apply original_primary|by apply payload_bytes_defragmented|].
    destruct Hpay as [cb Hcb]. clear -Hcb. simpl.
    induction (blocks main) as [|[[] ???] bl IH]; simpl in *; naive_solver.
  - apply defragmented_ok; try done. by destruct (or_ok _ Hoo).
  - destruct (or_no_crc _ Hoo) as [Hc0 _]. split; [done|]. simpl. apply Forall_map.
    eapply Forall_impl; [done|]. intros cb Hcb. unfold compose, set_payload. by destruct (block cb).
Qed.

Lemma reassembled_known bs d : Forall usable bs → reassemble_bundles bs = Ok d → known d.
Proof.
  intros Hu H. destruct (reassembled_flags bs d H) as (first & rest & -> & Hfl).
  destruct (reassemble_known_fragments (first :: rest) (bundle_id first)) as [(d' & Hd' & ?)|He]; [done|done| |congruence|congruence].
  eapply Forall_impl; [exact Hfl|]. intros b [He ?]. split; [by apply equals_ignoring_id|done].
Qed.

(** What is forwarded. *)
Lemma forwarded_known me d d' :
  Endpoint.ok me → known d → (∀ b, bundle_of_bytes d = Ok b → bundle_ok b ∧ bundle_no_crc b) →
  ProtocolAgent.forward_bundle (Some me) (Some d) = Ok d' → known d'.
Proof.
  intros Hme (o & b & Ho & Hb & Hp) Hall H. destruct (Hall b Hb) as [Hok Hnc].
  destruct (forward_bundle_Ok me d b d' Hb Hok Hnc Hme H) as (b' & local & Hd' & [Hpr Hpay _ _]).
  exists o, b'. split_and!; [done..|]. by eapply part_of_same.
Qed.
End created.
