(* ===== verification/Integrity.v ===== *)
(** * A daemon keeps bundles what they are

    If everything that arrives at a daemon is part of a bundle that was created
    somewhere, so is everything it stores, writes to a file and passes on, whatever
    the agents do with it and however often it is restarted. *)
From S2P Require Import Prelude RustStr Actor Cbor CborRfc Flags CrcTime Endpoint PrimaryBlock.
From S2P Require Import Block Bundle Fragment FragmentSize AdminRecord Storage StorageSystem.
From S2P Require Import StorageShape StorageMin ProtocolAgent ProtocolAgentProps DaemonTokens DaemonSystem DaemonLiveness.
From S2P Require Import Origin.
Import Crc Time DaemonSystem.

(** The bundle that a turn of the storage agent has created: what it has put into a new
    allocation for [StoreNewBundle]. *)
Definition creations `{!SerdeCbor} (s s' : System) : list Bundle :=
  match to_sto s with
  | MStoreNewBundle _ :: _ =>
      omap (λ sb, if (next_arc (sto s) <=? data_arc sb)%nat
                  then match bundle_of_bytes (bundle_data sb) with Ok b => Some b | _ => None end
                  else None) (bundles (sto s'))
  | _ => []
  end.

Section integrity.
Context {HC : SerdeCbor} {HL : SerdeCborLaws}.
Context (created : Bundle → Prop) (Hor : ∀ o, created o → original o).
Context (Hid : ∀ o o', created o → created o' → bundle_id o = bundle_id o' → o = o').

Abbreviation known := (known created).
Abbreviation usable := (usable created).

(** ** The storage agent *)

Definition all_known (l : list StoredBundle) : Prop := Forall (λ sb, known (bundle_data sb)) l.

(** What is written to files. *)
Definition writes_known (o : list Effect) : Prop := ∀ n c, WriteFile n c ∈ o → known c.

Lemma writes_known_app o1 o2 : writes_known o1 → writes_known o2 → writes_known (o1 ++ o2).
Proof. intros H1 H2 n c [?|?]%elem_of_app; eauto. Qed.

Lemma writes_known_nil : writes_known [].
Proof. intros n c Hin. by apply elem_of_nil in Hin. Qed.

(** What a message adds to the store: for a new bundle, the one with the next
    allocation. *)
Definition message_known (st st' : Storage.Daemon) (m : Message) : Prop :=
  match m with
  | MStoreReceivedBundle d => known d
  | MStoreNewBundle _ => ∀ sb, sb ∈ bundles st' → (next_arc st ≤ data_arc sb)%nat → known (bundle_data sb)
  | MUpdateBundle _ _ (Some d) => known d
  | MUpdateBundle _ _ None | MFragmentBundle _ _ => True
  end.

Lemma store_bundle_known d min s p st a st' o :
  known d → all_known (bundles st) → store_bundle d min s p st = Ok (a, st', o) →
  all_known (bundles st') ∧ writes_known o.
Proof.
  intros Hd Hall H. destruct (store_bundle_Ok _ _ _ _ _ _ _ _ H) as (sb & Hsb & Hb & _ & ->).
  destruct (stored_of_bytes_Ok _ _ _ Hsb) as (Hdat & _). split.
  - rewrite Hb. apply Forall_app_2; [done|]. repeat constructor. simpl. by rewrite Hdat.
  - intros n c Hin. destruct p; simpl in Hin; [|set_solver].
    apply elem_of_cons in Hin as [[= _ ->]|Hin]; [done|set_solver].
Qed.

Lemma store_fragment_known m b st a st' o :
  (∀ d, bytes_of_bundle b = Ok d → known d) → all_known (bundles st) →
  store_fragment m b st = Ok (a, st', o) → all_known (bundles st') ∧ writes_known o.
Proof.
  intros Hb Hall H. unfold store_fragment in H. ainv.
  eapply store_bundle_known; [apply Hb| |]; done.
Qed.

Lemma store_fragments_known m bs st a st' o :
  Forall (λ g, ∀ d, bytes_of_bundle g = Ok d → known d) bs → all_known (bundles st) →
  for_each (store_fragment m) bs st = Ok (a, st', o) → all_known (bundles st') ∧ writes_known o.
Proof.
  intros Hbs. revert st o. induction Hbs as [|b bs Hb _ IH]; intros st o Hall H; cbn [for_each] in H.
  { ainv. by split; [|apply writes_known_nil]. }
  apply actor_bind_Ok in H as ([] & st1 & o1 & o2 & H1 & H2 & ->).
  destruct (store_fragment_known _ _ _ _ _ _ Hb Hall H1) as [Hall1 Hw1].
  destruct (IH _ _ Hall1 H2). split; [done|by apply writes_known_app].
Qed.

Lemma stored_usable st sb b :
  bundles_plain st → all_known (bundles st) → sb ∈ bundles st → bundle_of_bytes (bundle_data sb) = Ok b → usable b.
Proof.
  intros Hpl Hall Hin Hb. destruct (Hpl sb b Hin Hb) as (? & ? & _).
  unfold all_known in Hall. rewrite Forall_forall in Hall. destruct (Hall sb Hin) as (o & b' & Ho & Hb' & Hp).
  rewrite Hb in Hb'. simplify_eq. split_and!; [done..|by exists o].
Qed.

Lemma FragmentBundle_known r n st a st' o :
  bundles_plain st → all_known (bundles st) → FragmentBundle r n st = Ok (a, st', o) →
  all_known (bundles st') ∧ writes_known o.
Proof.
  intros Hpl Hall H. unfold FragmentBundle in H.
  apply actor_bind_Ok in H as (ob & st1 & o1 & o2 & H1 & H & ->).
  destruct (take_bundle_Ok _ _ _ _ _ H1) as [-> Ht]. destruct ob as [sb|].
  2:{ destruct Ht as [-> _]. ainv. by split; [|apply writes_known_nil]. }
  destruct Ht as (l1 & l2 & Hl & _ & _ & ->). cbn [app].
  apply actor_bind_Ok in H as (b & s & o1 & o3 & H2 & H & ->).
  apply lift_Ok in H2 as (Hb & -> & ->). cbn [app] in *. unfold get_bundle in Hb. apply unwrap_ok_Ok in Hb.
  assert (usable b) as Hu by (eapply stored_usable; [done..| |done]; rewrite Hl; set_solver).
  pose proof Hall as Hall0. rewrite Hl in Hall. apply Forall_app in Hall as [K1 [Ksb K2]%Forall_cons].
  assert (all_known (bundles (set_bundles (l1 ++ l2) st))) as K by by apply Forall_app_2.
  destruct (fragment b n) as [[[frags m1] m2]|[e|min_size| |]|] eqn:Ef; try done.
  - apply (fragments_known _ Hor) in Ef; [|done]. destruct frags as [|f frags]; [done|].
    apply Forall_cons in Ef as [Hf Hfs].
    apply actor_bind_Ok in H as ([] & st2 & o1 & o2 & Hr1 & H & ->).
    apply actor_bind_Ok in H as ([] & st3 & o3' & o4 & Hr2 & H & ->).
    destruct (store_fragment_known _ _ _ _ _ _ Hf K Hr1) as [K3 W1].
    destruct (store_fragments_known _ _ _ _ _ _ Hfs K3 Hr2) as [K4 W2].
    unfold delete_bundle_file in H. ainv. split; [done|].
    repeat apply writes_known_app; try done. intros ? ? Hin. set_solver.
  - unfold push in H. ainv. split; [|intros ? ? Hin; set_solver].
    repeat apply Forall_app_2; try done. by repeat constructor.
Qed.

Lemma try_defragment_known r st a st' o :
  bundles_plain st → all_known (bundles st) → try_defragment_bundle r st = Ok (a, st', o) →
  all_known (bundles st') ∧ writes_known o.
Proof.
  intros Hpl Hall H. unfold try_defragment_bundle in H. ainv.
  match goal with E : take_fragments _ _ = Ok ?p |- _ => destruct p as [fr rest]; rename E into Htake end.
  destruct (take_fragments_Ok _ _ _ _ Htake) as [Hp _]. ainv.
  match goal with E : mapM get_bundle fr = Ok ?l |- _ => rename E into Hbs; rename l into bs end.
  assert (Hall' : all_known (fr ++ rest)) by (unfold all_known; by rewrite <-Hp).
  apply Forall_app in Hall' as [Kf Kr].
  assert (Forall usable bs) as Hu.
  { apply mapM_Ok_Forall2 in Hbs. apply Forall_forall. intros b [i Hi]%list_elem_of_lookup.
    destruct (Forall2_lookup_r _ _ _ _ _ Hbs Hi) as (sb & Hsb & Hb). unfold get_bundle in Hb.
    apply unwrap_ok_Ok in Hb. eapply stored_usable; [done..| |done].
    rewrite Hp. apply elem_of_app. left. by eapply list_elem_of_lookup_2. }
  destruct (reassemble_bundles bs) as [d|e|] eqn:Er; [|ainv|done].
  - apply actor_bind_Ok in H as ([] & st2 & o1 & o2 & H1 & H2 & ->).
    destruct (delete_files_Ok _ _ _ _ _ H2) as [-> ->].
    assert (known d) as Hd by by eapply (reassembled_known created).
    apply store_bundle_known in H1 as [K W]; [|done..]. split; [done|].
    apply writes_known_app; [done|]. intros n c (sb & ? & _)%list_elem_of_fmap. done.
  - split; [by apply Forall_app_2|apply writes_known_nil].
Qed.

Lemma updated_known s nd sb st sb' st' o :
  known (bundle_data sb) → (∀ d, nd = Some d → known d) →
  updated s nd sb st = Ok (sb', st', o) → o = [] ∧ bundles st' = bundles st ∧ known (bundle_data sb').
Proof.
  intros Hsb Hnd H. unfold updated, new_arc in H. destruct nd as [d|]; ainv; split_and!; auto.
Qed.

Lemma UpdateBundle_known r s nd st a st' o :
  bundles_plain st → all_known (bundles st) → (∀ d, nd = Some d → known d) →
  UpdateBundle r s nd st = Ok (a, st', o) → all_known (bundles st') ∧ writes_known o.
Proof.
  intros Hpl Hall Hnd H. unfold UpdateBundle in H.
  apply actor_bind_Ok in H as (ob & st1 & o1 & o2 & H1 & H & ->).
  destruct (take_bundle_Ok _ _ _ _ _ H1) as [-> Ht]. destruct ob as [sb|].
  2:{ destruct Ht as [-> _]. ainv. by split; [|apply writes_known_nil]. }
  destruct Ht as (l1 & l2 & Hl & _ & Hp & ->). cbn [app]. clear H1.
  pose proof Hall as Hall'. rewrite Hl in Hall'. apply Forall_app in Hall' as [K1 [Ksb K2]%Forall_cons].
  assert (all_known (l1 ++ l2)) as K by by apply Forall_app_2.
  apply actor_bind_Ok in H as ([] & st2 & o1 & o3 & Hwr & H & ->).
  assert (st2 = set_bundles (l1 ++ l2) st ∧ writes_known o1) as [-> Ho1].
  { unfold write_bundle_to_file in Hwr. destruct (_ && _) in Hwr; ainv; split; try done.
    - intros n c [= _ ->]%list_elem_of_singleton. done.
    - apply writes_known_nil. }
  clear Hwr.
  assert (Hdel : delete_bundle_file sb (set_bundles (l1 ++ l2) st) = Ok (a, st', o3) →
    all_known (bundles st') ∧ writes_known (o1 ++ o3)).
  { unfold delete_bundle_file. intros Hd. ainv. split; [done|]. apply writes_known_app; [done|].
    intros n c Hin. set_solver. }
  assert (Hqueued : (sb ← updated s nd sb; push sb;; do_send (EventBundleUpdated (get_ref sb)))
      (set_bundles (l1 ++ l2) st) = Ok (a, st', o3) →
    all_known (bundles st') ∧ writes_known (o1 ++ o3)).
  { intros Hup. apply actor_bind_Ok in Hup as (sb' & st3 & o4 & o5 & Hup & Hpu & ->).
    destruct (updated_known _ _ _ _ _ _ _ Ksb Hnd Hup) as (-> & Hb3 & Ksb').
    unfold push in Hpu. ainv. split.
    - simpl. rewrite Hb3. apply Forall_app_2; [done|]. by repeat constructor.
    - apply writes_known_app; [done|]. intros n c Hin. set_solver. }
  destruct s; auto; [done|]. clear Hqueued Hdel.
  apply actor_bind_Ok in H as ([] & st3 & o4 & o5 & Hpu & H & ->). unfold push in Hpu. ainv.
  apply try_defragment_known in H as [K' W].
  - split; [done|]. by apply writes_known_app.
  - intros sb0 b Hin Hb. cbn [bundles set_bundles] in Hin.
    apply elem_of_app in Hin as [Hin| ->%list_elem_of_singleton].
    + apply Hpl; [|done]. rewrite Hl. set_solver.
    + destruct (Hpl sb b) as (?&?&?); [rewrite Hl; set_solver|done|done].
  - simpl. apply Forall_app_2; [done|]. by repeat constructor.
Qed.

Lemma handle_known m st st' o :
  bundles_plain st → all_known (bundles st) → message_known st st' m →
  handle m st = Ok ((), st', o) → all_known (bundles st') ∧ writes_known o.
Proof.
  intros Hpl Hall Hm H. destruct m as [d|d|r n|r s nd]; cbn [handle message_known] in *.
  - by eapply store_bundle_known.
  - destruct (StoreNewBundle_Ok _ _ _ _ _ H) as (b&n&d'&sb&_&_&Hsb&Hb&_&->&_).
    destruct (stored_of_bytes_Ok _ _ _ Hsb) as (_ & Ha & _). split; [|intros ? ? Hin; set_solver].
    rewrite Hb. apply Forall_app_2; [done|]. repeat constructor. apply Hm; [rewrite Hb; set_solver|lia].
  - by eapply FragmentBundle_known.
  - eapply UpdateBundle_known; [done..| |done]. by intros d ->.
Qed.

(** ** The daemon *)

Record knows (s : System) : Prop := {
  kn_stored : all_known (bundles (sto s));
  kn_updates : ∀ r st d, MUpdateBundle r st (Some d) ∈ to_sto s → known d;
  kn_arrived : ∀ d, MStoreReceivedBundle d ∈ to_sto s → known d;
  kn_files : ∀ n c, files (dir s) !! n = Some c → known c;
}.

Lemma created_known s s' d ms sb :
  (∀ b, b ∈ creations s s' → created b) → to_sto s = MStoreNewBundle d :: ms →
  Forall stored_ok (bundles (sto s')) → sb ∈ bundles (sto s') → (next_arc (sto s) ≤ data_arc sb)%nat →
  known (bundle_data sb).
Proof.
  intros Hc Hm Hst Hin Ha. rewrite Forall_forall in Hst.
  destruct (so_bundle _ (Hst sb Hin)) as (b & Hb & _ & Hp). assert (created b) as Hcb.
  { apply Hc. unfold creations. rewrite Hm. apply list_elem_of_omap. exists sb. split; [done|].
    rewrite (proj2 (Nat.leb_le _ _)) by done. by rewrite Hb. }
  exists b, b. split_and!; [done..|by apply part_of_refl].
Qed.

Lemma asks_known env me ev st r s d :
  Endpoint.ok me → all_known (bundles st) →
  (∀ sb b, sb ∈ bundles st → bundle_of_bytes (bundle_data sb) = Ok b → bundle_ok b ∧ bundle_no_crc b) →
  upgrade_data env = upgrade st → asks env (Some me) ev r s (Some d) → known d.
Proof.
  intros Hme Hall Hok Hup Ha. remember (Some d) as nd eqn:End.
  destruct Ha as [| | |r d' _ Hf| | |]; simplify_eq. rewrite Hup in Hf.
  destruct (upgrade st r) as [data|] eqn:Hu; [|done]. unfold upgrade in Hu.
  apply fmap_Some in Hu as (sb & [Hin _]%List.find_some & ->). apply list_elem_of_In in Hin.
  unfold all_known in Hall. rewrite Forall_forall in Hall.
  eapply (forwarded_known created); [done|by apply Hall| |done]. intros b. by apply Hok.
Qed.

Lemma step_knows me s s' :
  Endpoint.ok me → inv me s → Forall stored_ok (bundles (sto s)) → Forall stored_ok (bundles (sto s')) →
  run_ok s → step s s' →
  (∀ d, MStoreReceivedBundle d ∈ to_sto s' → MStoreReceivedBundle d ∈ to_sto s ∨ known d) →
  (∀ b, b ∈ creations s s' → created b) → knows s → knows s'.
Proof.
  intros Hme I Hst Hst' R Hs Harr Hcr [K1 K2 K3 K4]. pose proof (run_ok_plain s R Hst) as Hpl.
  assert (∀ d, MStoreReceivedBundle d ∈ to_sto s' → known d) as K3'.
  { intros d Hin. destruct (Harr d Hin); auto. }
  destruct Hs as [st k st' o b m ms mb ab H Hf|st fs n l1 l2 b ms mb ab|env st k b b' o ev ms mb ab He H
                 |m st k b ms mb ab Hm|ev st k b ms mb ab Hev|e r ev st k b ms mb ab1 ab2 Ha];
    cbn [sto dir bpa to_sto to_bpa abroad] in *; [| |split..]; try done.
  - assert (message_known st st' m) as Hm.
    { destruct m as [d|d|r n|r s0 [nd|]]; simpl; [apply K3; left| |done|eapply K2; left|done].
      intros sb Hin Ha. by eapply (created_known _ _ d ms sb Hcr). }
    destruct (handle_known m st st' o Hpl K1 Hm H) as [K1' W]. split; try done; cbn [to_sto dir].
    + intros r s0 d Hin. eapply K2. by right.
    + intros n c Hn. destruct (apply_effects_lookup _ _ _ _ Hn) as [Hw|[Hk _]]; eauto.
  - split; try done. intros n' c Hn. simpl in Hn. apply lookup_delete_Some in Hn as [_ Hn]. by eapply K4.
  - intros r s0 d [Hin|Hin]%elem_of_app; [by eapply K2|]. apply elem_of_to_storage in Hin.
    destruct I as [L U E Q M]. simpl in E, M. apply Forall_cons in E as [Hev E].
    destruct (handle_event_moves _ _ _ _ _ Hev H) as (_ & _ & Ha & _). apply Ha in Hin. rewrite M in Hin.
    eapply asks_known; [done|exact K1|exact (ro_bundles _ R)|exact He|exact Hin].
  - intros r s0 d [Hin|Hin]%elem_of_app; [by eapply K2|].
    apply list_elem_of_singleton in Hin as <-. done.
Qed.

Lemma restart_knows me s s' : directory_ok (dir s) → restart me s s' → knows s → knows s'.
Proof.
  intros Hd Hr [_ _ _ K4]. destruct Hr as [st k st' k' o b ms mb ab Hr]. cbn [dir] in *.
  destruct (restart_loads me (st, k) (st', k') o Hd Hr) as (_ & Hfi & _ & _ & _ & Hsb). cbn [fst snd] in *.
  split; cbn [sto dir to_sto].
  - apply Forall_forall. intros sb Hin. destruct (Hsb sb Hin) as (_ & _ & _ & Hf). rewrite Hfi in Hf. by eapply K4.
  - intros r s d Hin. by apply elem_of_nil in Hin.
  - intros d Hin. by apply elem_of_nil in Hin.
  - rewrite Hfi. exact K4.
Qed.
End integrity.

Lemma known_mono `{!SerdeCbor} (c c' : Bundle → Prop) d : (∀ b, c b → c' b) → known c d → known c' d.
Proof. intros Hc (o & b & Ho & Hb & Hp). exists o, b. auto. Qed.

Lemma knows_mono `{!SerdeCbor} (c c' : Bundle → Prop) s : (∀ b, c b → c' b) → knows c s → knows c' s.
Proof.
  intros Hc [K1 K2 K3 K4]. split.
  - eapply Forall_impl; [exact K1|]. intros sb. by apply known_mono.
  - intros r st d Hin. eapply known_mono, K2; done.
  - intros d Hin. eapply known_mono, K3; done.
  - intros n x Hin. eapply known_mono, K4; done.
Qed.
