(* ===== verification/Network.v ===== *)
(** * A network of daemons

    Any number of nodes, each running the storage and protocol agents of
    DaemonSystem.  Applications and the nodes themselves create bundles; a node that
    has given a bundle to a peer may send its data any number of times or never, and
    what was sent may arrive at any node, at any time, several times and in any order
    (that a link delivers the bytes as they are is what Forwarding shows).  Nodes
    restart.  What a node hands to an application or a peer is, as long as creation
    timestamps are unique, the bundle that was created, or a fragment of it. *)
From S2P Require Import Prelude RustStr Actor Cbor CborRfc Flags CrcTime Endpoint PrimaryBlock.
From S2P Require Import Block Bundle Fragment FragmentSize AdminRecord Storage StorageSystem StorageShape.
From S2P Require Import ProtocolAgent ProtocolAgentProps DaemonTokens DaemonSystem Origin Integrity.
Import Crc Time.

Module Network.
Import DaemonSystem.

Record Node := { name : Endpoint; daemon : System }.

(** [sent] is the data that was ever sent, [created] the bundles that were created by
    the nodes, in the order of their creation. *)
Record Network := { nodes : list Node; sent : list bytes; created : list Bundle }.

Section network.
Context {HC : SerdeCbor}.

Definition set_daemon (i : nat) (nd : Node) (s : System) (n : Network) : list Node :=
  <[i := {| name := name nd; daemon := s |}]> (nodes n).

(** A bundle from a peer. *)
Definition receive (d : bytes) (s : System) : System := {|
  sto := sto s; dir := dir s; bpa := bpa s; to_sto := to_sto s ++ [MStoreReceivedBundle d];
  to_bpa := to_bpa s; abroad := abroad s |}.

Inductive step : Network → Network → Prop :=
(** An agent takes a turn, an application submits a bundle, a client or peer comes,
    goes or answers: everything but the arrival of a bundle from a peer. *)
| NodeStep n i nd s' :
    nodes n !! i = Some nd → DaemonSystem.step (daemon nd) s' → run_ok s' →
    (∀ d, MStoreReceivedBundle d ∈ to_sto s' → MStoreReceivedBundle d ∈ to_sto (daemon nd)) →
    step n {| nodes := set_daemon i nd s' n; sent := sent n; created := created n ++ creations (daemon nd) s' |}
| NodeSends n i nd r d :
    nodes n !! i = Some nd → r ∈ abroad (daemon nd) → upgrade (sto (daemon nd)) r = Some d →
    step n {| nodes := nodes n; sent := d :: sent n; created := created n |}
| NodeReceives n i nd d :
    nodes n !! i = Some nd → d ∈ sent n → run_ok (receive d (daemon nd)) →
    step n {| nodes := set_daemon i nd (receive d (daemon nd)) n; sent := sent n; created := created n |}
| NodeRestarts n i nd s' :
    nodes n !! i = Some nd → restart (name nd) (daemon nd) s' → run_ok s' →
    step n {| nodes := set_daemon i nd s' n; sent := sent n; created := created n |}.

Definition init (names : list Endpoint) : Network := {|
  nodes := map (λ e, {| name := e; daemon := DaemonSystem.init e |}) names; sent := []; created := [] |}.

Inductive reachable (names : list Endpoint) : Network → Prop :=
| ReachInit : reachable names (init names)
| ReachStep n n' : reachable names n → step n n' → reachable names n'.
End network.

(** The bundles that were created can be told apart by source and timestamp. *)
Record unique (n : Network) : Prop := {
  un_original : Forall original (created n);
  un_ids : NoDup (map bundle_id (created n));
}.

Section integrity.
Context {HC : SerdeCbor} {HL : SerdeCborLaws}.

(** Nothing is created twice, and what has been created stays. *)
Lemma step_created n n' : step n n' → ∃ l, created n' = created n ++ l.
Proof. destruct 1; cbn [created]; first [by eexists|by exists []; rewrite app_nil_r]. Qed.

Lemma step_unique n n' : step n n' → unique n' → unique n.
Proof.
  intros [l Hl]%step_created [Ho Hid]. rewrite Hl in Ho, Hid. rewrite map_app in Hid.
  apply Forall_app in Ho as [? _]. apply NoDup_app in Hid as (? & _). by split.
Qed.

Lemma unique_ids n o o' :
  unique n → o ∈ created n → o' ∈ created n → bundle_id o = bundle_id o' → o = o'.
Proof. intros [_ Hn] Ho Ho'. by apply (NoDup_map_inj bundle_id (created n)). Qed.

Record network_ok (n : Network) : Prop := {
  no_reachable : ∀ i nd, nodes n !! i = Some nd → Endpoint.ok (name nd) ∧ DaemonSystem.reachable (name nd) (daemon nd);
  no_knows : ∀ i nd, nodes n !! i = Some nd → knows (.∈ created n) (daemon nd);
  no_sent : ∀ d, d ∈ sent n → known (.∈ created n) d;
}.

(** One node has changed. *)
Lemma set_daemon_lookup i nd s n j nd' :
  nodes n !! i = Some nd → set_daemon i nd s n !! j = Some nd' →
  nodes n !! j = Some nd' ∨ nd' = {| name := name nd; daemon := s |}.
Proof.
  unfold set_daemon. intros Hi Hj. destruct (decide (i = j)) as [<-|Hne].
  - rewrite list_lookup_insert_eq in Hj by by eapply lookup_lt_Some. right. by simplify_eq.
  - rewrite list_lookup_insert_ne in Hj by done. by left.
Qed.

Lemma node_changed n i nd s sent' created' :
  network_ok n → nodes n !! i = Some nd → DaemonSystem.reachable (name nd) s →
  (∀ b, b ∈ created n → b ∈ created') → sent' = sent n → knows (.∈ created') s →
  network_ok {| nodes := set_daemon i nd s n; sent := sent'; created := created' |}.
Proof.
  intros [R K S] Hi Hr Hc -> Hk. split; cbn [nodes sent created].
  - intros j nd' [Hj| ->]%set_daemon_lookup; [by eapply R|simpl|done]. split; [by eapply R|done].
  - intros j nd' [Hj| ->]%set_daemon_lookup; [|done|done]. eapply knows_mono; [exact Hc|by eapply K].
  - intros d Hd. eapply known_mono; [exact Hc|by apply S].
Qed.

Lemma step_ok n n' : network_ok n → step n n' → unique n' → network_ok n'.
Proof.
  intros Hn Hs U'. pose proof (step_unique _ _ Hs U') as U. pose proof Hn as [R K S].
  assert (Hor : ∀ o, o ∈ created n' → original o) by (apply Forall_forall, un_original, U').
  assert (Hid : ∀ o o', o ∈ created n' → o' ∈ created n' → bundle_id o = bundle_id o' → o = o').
  { intros o o'. by apply unique_ids. }
  destruct Hs as [n i nd s' Hi Hs Hrun Hno|n i nd r d Hi Hr Hu|n i nd d Hi Hd Hrun|n i nd s' Hi Hs Hrun];
    destruct (R i nd Hi) as [Hme Hreach]; destruct (reachable_inv _ _ Hme Hreach) as (Hok & I & D);
    destruct (reachable_directory_ok _ _ D) as [Hst Hdir]; cbn [fst snd created] in *.
  - assert (DaemonSystem.reachable (name nd) s') as Hreach' by by eapply DaemonSystem.ReachStep.
    eapply node_changed; [done..|set_solver|done|].
    destruct (reachable_inv _ _ Hme Hreach') as (_ & _ & [Hst' _]%reachable_directory_ok).
    eapply (step_knows (.∈ created n ++ creations (daemon nd) s') Hor Hid); try done; [by left; apply Hno|set_solver|].
    eapply knows_mono; [|by eapply K]. set_solver.
  - split; cbn [nodes sent created]; [done..|]. intros d' [->|Hin]%elem_of_cons; [|by apply S].
    pose proof (kn_stored _ _ (K i nd Hi)) as Ks. unfold upgrade in Hu.
    apply fmap_Some in Hu as (sb & [Hin _]%List.find_some & ->). apply list_elem_of_In in Hin.
    unfold all_known in Ks. rewrite Forall_forall in Ks. by apply Ks.
  - destruct (daemon nd) as [st k b ms mb ab] eqn:Ed. unfold receive in *. cbn [sto dir bpa to_sto to_bpa abroad] in *.
    eapply node_changed; [done..| |done|done|].
    + eapply DaemonSystem.ReachStep; [exact Hreach|by apply StepArrival|done].
    + pose proof (K i nd Hi) as Kn. rewrite Ed in Kn. destruct Kn as [K1 K2 K3 K4]. split; try done; cbn [to_sto].
      * intros r s0 d' [Hin|Hin]%elem_of_app; [by eapply K2|]. by apply list_elem_of_singleton in Hin.
      * intros d' [Hin|Hin]%elem_of_app; [by apply K3|]. apply list_elem_of_singleton in Hin as [= ->]. by apply S.
  - eapply node_changed; [done..| |done|done|].
    + by eapply DaemonSystem.ReachRestart.
    + eapply restart_knows; [exact Hdir|exact Hs|by eapply K].
Qed.

Lemma network_reachable_ok names n :
  Forall Endpoint.ok names → reachable names n → unique n → network_ok n.
Proof.
  intros Hnames. induction 1 as [|n n' _ IH Hs]; intros U.
  - rewrite Forall_forall in Hnames. split; cbn [init nodes sent created].
    + intros i nd Hi%list_elem_of_lookup_2. apply list_elem_of_fmap in Hi as (e & -> & He).
      split; [by apply Hnames|constructor].
    + intros i nd Hi%list_elem_of_lookup_2. apply list_elem_of_fmap in Hi as (e & -> & He).
      split; cbn; [constructor|..]; intros; set_solver.
    + intros d Hd. by apply elem_of_nil in Hd.
  - eapply step_ok; [|exact Hs|exact U]. by eapply IH, step_unique.
Qed.
End integrity.
End Network.
