(* ===== verification/NetworkProps.v ===== *)
(** * What a network of daemons achieves

    Bundles arrive as they were created.  The example is a run that has it all: an
    application of [dtn://a/] submits a bundle for [dtn://b/app] that is larger than
    the link to [dtn://b/] takes; it is fragmented, the fragments arrive in the wrong
    order, [dtn://b/] restarts in between, puts them together and delivers the
    bundle. *)
From S2P Require Import Prelude RustStr Actor Cbor CborRfc Flags CrcTime Endpoint PrimaryBlock.
From S2P Require Import Block Bundle Fragment FragmentSize AdminRecord Storage StorageSystem StorageShape.
From S2P Require Import ProtocolAgent ProtocolAgentProps DaemonTokens DaemonSystem Origin Integrity Network.
Import Crc Time.

(** ** The theorem *)

Section theorem.
Import DaemonSystem Network.

(** [b], which a node has under the reference [r], is the bundle [o] or the part of it
    that the primary block says. *)
Definition intact (o : Bundle) (r : StoredBundleRef) (b : Bundle) : Prop :=
  primary_block b = ref_primary r ∧
  source_node (ref_primary r) = source_node (primary_block o) ∧
  destination_endpoint (ref_primary r) = destination_endpoint (primary_block o) ∧
  match fragment_offset (ref_primary r) with
  | None => primary_block b = primary_block o ∧ payload_bytes b = payload_bytes o
  | Some k => total_data_length (ref_primary r) = Some (zlen (payload_bytes o)) ∧
      k + zlen (payload_bytes b) ≤ zlen (payload_bytes o) ∧
      payload_bytes b = slice k (k + zlen (payload_bytes b)) (payload_bytes o)
  end.

End theorem.

(** ** Deciding what a run needs *)

#[export] Instance u8_ok_dec z : Decision (u8_ok z).
Proof. unfold u8_ok. apply _. Defined.
#[export] Instance u64_ok_dec z : Decision (u64_ok z).
Proof. unfold u64_ok. apply _. Defined.
#[export] Instance endpoint_ok_dec e : Decision (Endpoint.ok e).
Proof. unfold Endpoint.ok, bytes_ok. destruct e; apply _. Defined.
#[export] Instance crc_ok_dec c : Decision (Crc.ok c).
Proof. destruct c; apply _. Defined.
#[export] Instance block_ok_dec b : Decision (block_ok b).
Proof. unfold block_ok, bytes_ok. destruct b; apply _. Defined.
#[export] Instance canonical_ok_dec b : Decision (canonical_ok b).
Proof. unfold canonical_ok, BlockFlags.ok. apply _. Defined.
#[export] Instance primary_ok_dec pb : Decision (Primary.ok pb).
Proof.
  unfold Primary.ok, BundleFlags.ok, Time.ok.
  repeat apply and_dec; try apply _. destruct (fragment_offset pb), (total_data_length pb); apply _.
Defined.
#[export] Instance bundle_ok_dec b : Decision (bundle_ok b).
Proof. unfold bundle_ok. apply _. Defined.
#[export] Instance bundle_no_crc_dec b : Decision (bundle_no_crc b).
Proof. unfold bundle_no_crc. apply _. Defined.

Module NetworkRun.
Import DaemonSystem Network.

Definition decodes_well (sb : StoredBundle) : bool :=
  match bundle_of_bytes (bundle_data sb) with
  | Ok b => bool_decide (bundle_ok b) && bool_decide (bundle_no_crc b)
  | _ => true
  end.

Definition run_okb (s : System) : bool :=
  bool_decide (NoDup (map get_filename (bundles (sto s)))) &&
  forallb (λ sb, bool_decide (get_filename sb ∉ deleting (dir s))) (bundles (sto s)) &&
  bool_decide (NoDup (map sb_primary (bundles (sto s)))) && forallb decodes_well (bundles (sto s)).

Lemma run_okb_sound s : run_okb s = true → run_ok s.
Proof.
  unfold run_okb. rewrite !andb_true_iff, !bool_decide_eq_true, !forallb_forall. intros (((H1 & H2) & H3) & H4).
  split; [split; [done|]|done|].
  - intros sb Hin%list_elem_of_In. apply H2 in Hin. by apply bool_decide_eq_true in Hin.
  - intros sb b Hin%list_elem_of_In Hb. apply H4 in Hin. unfold decodes_well in Hin. rewrite Hb in Hin.
    by rewrite andb_true_iff, !bool_decide_eq_true in Hin.
Qed.

Definition freshb (m : Message) (o : list Effect) (others : list StoredBundleRef) : bool :=
  forallb (λ r, match message_ref m with Some r0 => bool_decide (ref_primary r = ref_primary r0) | None => false end ||
                bool_decide (ref_primary r ∉ map ref_primary others)) (announced o).

Lemma freshb_sound m o others : freshb m o others = true → fresh m o others.
Proof.
  unfold freshb, fresh. rewrite forallb_forall. intros H r Hin%list_elem_of_In. specialize (H r Hin).
  apply orb_true_iff in H as [H|H%bool_decide_eq_true]; [|by right].
  destruct (message_ref m) as [r0|]; [|done]. apply bool_decide_eq_true in H. left. by exists r0.
Qed.

Definition received_data (ms : list Message) : list bytes :=
  omap (λ m, match m with MStoreReceivedBundle d => Some d | _ => None end) ms.

Lemma elem_of_received d ms : d ∈ received_data ms ↔ MStoreReceivedBundle d ∈ ms.
Proof.
  unfold received_data. rewrite list_elem_of_omap. split; [|by intros; eexists].
  intros (m & Hm & E). by destruct m; simplify_eq.
Qed.

(** ** Actions of a script *)

Inductive action :=
| Storage (i : nat)
| Protocol (i : nat)
| Submit (i : nat) (d : bytes)
| Notice (i : nat) (ev : Event)
| Send (i j : nat)
| Receive (i j : nat)
| Reboot (i : nat) (id : bytes).

Definition local (i : nat) (nd : Node) (s' : System) (n : Network) : option Network :=
  if run_okb s' && bool_decide (Forall (.∈ received_data (to_sto (daemon nd))) (received_data (to_sto s')))
  then Some {| nodes := set_daemon i nd s' n; sent := sent n; created := created n ++ creations (daemon nd) s' |}
  else None.

Definition storage_turn (s : System) : option System :=
  match to_sto s with
  | [] => None
  | m :: ms =>
      match handle m (sto s) with
      | Ok (_, st', o) =>
          if freshb m o (omap event_ref (to_bpa s) ++ queues (bpa s) ++ omap message_ref ms ++ abroad s) then
          Some {| sto := st'; dir := apply_effects (dir s) o; bpa := bpa s; to_sto := ms;
                  to_bpa := to_bpa s ++ map EUpdated (announced o); abroad := abroad s |} else None
      | _ => None
      end
  end.

Definition mail (ms : list Message) (evs : list Event) (s : System) : System := {|
  sto := sto s; dir := dir s; bpa := bpa s; to_sto := to_sto s ++ ms; to_bpa := to_bpa s ++ evs;
  abroad := abroad s |}.

Definition reboot (id : bytes) (s : System) : option System :=
  match started id (map_to_list (files (dir s))) Daemon_default with
  | Ok (_, st', o) => Some {| sto := st'; dir := {| files := files (dir s); deleting := [] |};
      bpa := bpa (DaemonSystem.init (default (TestBundle.endpoint "") (Endpoint.new id)));
      to_sto := []; to_bpa := map EUpdated (announced o); abroad := [] |}
  | _ => None
  end.

Definition act (n : Network) (a : action) : option Network :=
  match a with
  | Storage i => nd ← nodes n !! i; s' ← storage_turn (daemon nd); local i nd s' n
  | Protocol i => nd ← nodes n !! i; s' ← DaemonWitness.protocol_turn (daemon nd); local i nd s' n
  | Submit i d => nd ← nodes n !! i; local i nd (mail [MStoreNewBundle d] [] (daemon nd)) n
  | Notice i ev =>
      nd ← nodes n !! i;
      match event_ref ev with None => local i nd (mail [] [ev] (daemon nd)) n | Some _ => None end
  | Send i j =>
      nd ← nodes n !! i; r ← abroad (daemon nd) !! j; d ← upgrade (sto (daemon nd)) r;
      Some {| nodes := nodes n; sent := d :: sent n; created := created n |}
  | Receive i j =>
      nd ← nodes n !! i; d ← sent n !! j;
      if run_okb (receive d (daemon nd))
      then Some {| nodes := set_daemon i nd (receive d (daemon nd)) n; sent := sent n; created := created n |}
      else None
  | Reboot i id =>
      nd ← nodes n !! i; s' ← reboot id (daemon nd);
      if run_okb s' && bool_decide (Endpoint.new id = Some (name nd))
      then Some {| nodes := set_daemon i nd s' n; sent := sent n; created := created n |} else None
  end.

Lemma local_step i nd s' n n' :
  nodes n !! i = Some nd → DaemonSystem.step (daemon nd) s' → local i nd s' n = Some n' → step n n'.
Proof.
  intros Hi Hs H. unfold local in H. case_match eqn:E; simplify_eq.
  apply andb_true_iff in E as [Hr%run_okb_sound Hd%bool_decide_eq_true].
  apply NodeStep; [done..|]. rewrite Forall_forall in Hd. intros d Hin.
  by apply elem_of_received, Hd, elem_of_received.
Qed.

Lemma agent_turn_step s s' : storage_turn s = Some s' → DaemonSystem.step s s'.
Proof.
  intros H. unfold storage_turn in H. destruct s as [st k b ms mb ab]; simpl in *.
  destruct ms as [|m ms]; [done|]. destruct (handle m st) as [[[[] st'] o]| |] eqn:E; [|done..].
  case_match eqn:F; simplify_eq/=. constructor; [done|by apply freshb_sound].
Qed.

Lemma act_step n a n' : act n a = Some n' → step n n'.
Proof.
  destruct a as [i|i|i d|i ev|i j|i j|i id]; cbn [act]; intros H; apply bind_Some in H as (nd & Hi & H).
  - apply bind_Some in H as (s' & Hs & H). eapply local_step; [done|by apply agent_turn_step|done].
  - apply bind_Some in H as (s' & Hs & H). eapply local_step; [done|by apply DaemonWitness.protocol_turn_step|done].
  - eapply local_step; [done| |done]. unfold mail. rewrite app_nil_r. destruct (daemon nd). by apply StepArrival.
  - destruct (event_ref ev) eqn:E; [done|]. eapply local_step; [done| |done]. unfold mail. rewrite app_nil_r.
    destruct (daemon nd). by apply StepNotice.
  - apply bind_Some in H as (r & Hr & H). apply bind_Some in H as (d & Hd & H). simplify_eq.
    eapply NodeSends; [done|by eapply list_elem_of_lookup_2|done].
  - apply bind_Some in H as (d & Hd & H). case_match eqn:E; simplify_eq.
    apply NodeReceives; [done|by eapply list_elem_of_lookup_2|by apply run_okb_sound].
  - apply bind_Some in H as (s' & Hs & H). case_match eqn:E; simplify_eq.
    apply andb_true_iff in E as [Hr%run_okb_sound Hid%bool_decide_eq_true].
    apply NodeRestarts; [done| |done]. unfold reboot in Hs.
    destruct (started id _ _) as [[[[] st'] o]| |] eqn:Est; simplify_eq. rewrite Hid.
    destruct (daemon nd) as [st k b ms mb ab]. simpl in *. constructor. by econstructor.
Qed.

Fixpoint run (script : list action) (n : Network) : option Network :=
  match script with [] => Some n | a :: script => n' ← act n a; run script n' end.

Lemma run_reachable names script n n' :
  reachable names n → run script n = Some n' → reachable names n'.
Proof.
  revert n. induction script as [|a script IH]; intros n Hn H; simpl in H; [by simplify_eq|].
  apply bind_Some in H as (n1 & H1 & H). apply (IH n1); [|done]. by eapply ReachStep, act_step.
Qed.

(** ** The run *)

Definition node_a : Endpoint := TestBundle.endpoint "//a/".
Definition node_b : Endpoint := TestBundle.endpoint "//b/".
Definition peer_b : Endpoint := TestBundle.endpoint "//b".
Definition app : Endpoint := TestBundle.endpoint "//b/app".

Definition payload : bytes := map Z.of_nat (seq 0 250).
Definition submitted : bytes := StorageWitness.sent (StorageWitness.bundle {|
  version := 7; bundle_processing_flags := 0; crc := NoCRC;
  destination_endpoint := app;
  source_node := TestBundle.endpoint "//a/app"; report_to := TestBundle.endpoint "//a/app";
  creation_timestamp := {| creation_time := {| timestamp := 1000 |}; sequence_number := 0 |};
  lifetime := 3600; fragment_offset := None; total_data_length := None |} payload).

(** The link to [dtn://b/] takes 300 bytes; the bundle is larger. *)
Definition routes : gmap Endpoint NexthopInfo := {[ peer_b := {| next_hop := peer_b; max_size := Some 300 |} ]}.

Definition script : list action :=
  (* the link, the routes, the bundle is created and validated and does not fit *)
  [Notice 0 (EPeerConnected peer_b 7%nat); Notice 0 (ERoutingTable routes); Protocol 0; Protocol 0;
   Submit 0 submitted; Storage 0; Protocol 0; Storage 0; Protocol 0; Storage 0; Protocol 0; Storage 0] ++
  (* three fragments are prepared and given to the peer, which they reach out of order *)
  [Protocol 0; Protocol 0; Protocol 0; Storage 0; Storage 0; Storage 0; Protocol 0; Protocol 0; Protocol 0;
   Send 0 0; Send 0 1; Send 0 2;
   Receive 1 0; Storage 1; Protocol 1; Storage 1; Protocol 1; Storage 1] ++
  (* the node restarts with one of them, gets the others and reassembles the bundle *)
  [Reboot 1 (str "dtn://b/"); Protocol 1; Storage 1;
   Receive 1 2; Storage 1; Protocol 1; Storage 1; Protocol 1; Storage 1;
   Notice 1 (EClientConnected app 3%nat); Protocol 1;
   Receive 1 1; Storage 1; Protocol 1; Storage 1; Protocol 1; Storage 1;
   Protocol 1; Storage 1; Protocol 1].

Definition originalb (o : Bundle) : bool :=
  bool_decide (bundle_ok o) && bool_decide (bundle_no_crc o) && is_some (find_payload (blocks o)) &&
  is_none (fragment_offset (primary_block o)) &&
  negb (contains (bundle_processing_flags (primary_block o)) BundleFlags.FRAGMENT).

Lemma originalb_sound o : originalb o = true → original o.
Proof.
  unfold originalb. rewrite !andb_true_iff, !bool_decide_eq_true, negb_true_iff.
  intros ((((? & ?) & Hp) & Hf) & ?). split; [done..| | |done].
  - by destruct (find_payload (blocks o)).
  - by destruct (fragment_offset (primary_block o)).
Qed.

(** The state after the first [k] actions, in which [test] holds and one bundle was
    created. *)
Definition at_step (k : nat) (test : Network → bool) : bool :=
  match run (take k script) (init [node_a; node_b]) with
  | Some n => match created n with [o] => originalb o && bool_decide (payload_bytes o = payload) | _ => false end && test n
  | None => false
  end.

Lemma at_step_reached k test :
  at_step k test = true →
  ∃ n o, reachable [node_a; node_b] n ∧ unique n ∧ created n = [o] ∧ payload_bytes o = payload ∧ test n = true.
Proof.
  unfold at_step. destruct (run _ _) as [n|] eqn:E; [|done]. intros [H Ht]%andb_true_iff.
  destruct (created n) as [|o [|]] eqn:Ec; [done| |done]. apply andb_true_iff in H as [Ho%originalb_sound Hp%bool_decide_eq_true].
  exists n, o. split_and!; try done; [by eapply run_reachable; [constructor|exact E]|].
  split; rewrite Ec; [by apply Forall_singleton|apply NoDup_singleton].
Qed.

Lemma nodes_ok : Forall Endpoint.ok [node_a; node_b].
Proof. apply (bool_decide_unpack _). vm_compute. exact I. Qed.

(** The client of the second node has been given a whole bundle. *)
Definition delivers (n : Network) : bool :=
  match nodes n !! 1%nat with
  | Some nd =>
      match abroad (daemon nd) with
      | [r] => is_none (fragment_offset (ref_primary r)) && is_some (upgrade (sto (daemon nd)) r)
      | _ => false
      end
  | None => false
  end.

Lemma run_delivers :
  ∃ n nd r d o, reachable [node_a; node_b] n ∧ unique n ∧ created n = [o] ∧ payload_bytes o = payload ∧
    nodes n !! 1%nat = Some nd ∧ abroad (daemon nd) = [r] ∧ upgrade (sto (daemon nd)) r = Some d ∧
    fragment_offset (ref_primary r) = None.
Proof.
  destruct (at_step_reached (length script) delivers ltac:(vm_compute; reflexivity)) as (n & o & Hn & U & Ho & Hp & H).
  unfold delivers in H. destruct (nodes n !! 1%nat) as [nd|] eqn:En; [|done].
  destruct (abroad (daemon nd)) as [|r [|]] eqn:Ea; [done| |done]. apply andb_true_iff in H as [Hw Hu].
  destruct (upgrade (sto (daemon nd)) r) as [d|] eqn:Eu; [|done].
  exists n, nd, r, d, o. split_and!; try done. by destruct (fragment_offset (ref_primary r)).
Qed.

(** The second node is about to put the three fragments together. *)
Definition reassembles (n : Network) : bool :=
  match nodes n !! 1%nat with
  | Some nd =>
      match to_sto (daemon nd) with
      | MUpdateBundle _ DefragmentationPending None :: _ => (length (bundles (sto (daemon nd))) =? 3)%nat
      | _ => false
      end
  | None => false
  end.

Lemma run_reassembles :
  ∃ n nd r ms, reachable [node_a; node_b] n ∧ unique n ∧ nodes n !! 1%nat = Some nd ∧
    to_sto (daemon nd) = MUpdateBundle r DefragmentationPending None :: ms ∧
    length (bundles (sto (daemon nd))) = 3%nat.
Proof.
  destruct (at_step_reached (length script - 4) reassembles ltac:(vm_compute; reflexivity))
    as (n & _ & Hn & U & _ & _ & H).
  unfold reassembles in H. destruct (nodes n !! 1%nat) as [nd|] eqn:En; [|done].
  destruct (to_sto (daemon nd)) as [|[| | |r [] []] ms] eqn:Em; try done. apply Nat.eqb_eq in H.
  by exists n, nd, r, ms.
Qed.
End NetworkRun.

(** ** Sizes are not kept up to date

    The size of a stored bundle is the one it arrived with, but its data is replaced by
    what is forwarded, with another previous node and a hop count. *)
Module StaleSize.
Import DaemonSystem Network NetworkRun.

Definition bundle_for_b (from : string) : Bundle :=
  let b := StorageWitness.bundle {|
    version := 7; bundle_processing_flags := 0; crc := NoCRC; destination_endpoint := app;
    source_node := TestBundle.endpoint "//c/app"; report_to := TestBundle.endpoint "//c/app";
    creation_timestamp := {| creation_time := {| timestamp := 1000 |}; sequence_number := 0 |};
    lifetime := 3600; fragment_offset := None; total_data_length := None |} [1; 2; 3] in
  set_previous_node (TestBundle.endpoint from) b.

(** The node [dtn://a/] gets the bundle from a neighbour and has a link to [dtn://b/]
    that takes [limit] bytes. *)
Definition routes (limit : Z) : gmap Endpoint NexthopInfo :=
  {[ peer_b := {| next_hop := peer_b; max_size := Some limit |} ]}.
Definition arrived (limit : Z) (d : bytes) : Network := {|
  nodes := [{| name := node_a; daemon := mail [MStoreReceivedBundle d]
    [EPeerConnected peer_b 7%nat; ERoutingTable (routes limit)] (DaemonSystem.init node_a) |}];
  sent := []; created := [] |}.
Definition to_peer : list action :=
  [Protocol 0; Protocol 0; Storage 0; Protocol 0; Storage 0; Protocol 0; Storage 0; Protocol 0].

Definition data_abroad (n : Network) : list (option bytes) :=
  nd ← nodes n; r ← abroad (daemon nd); [upgrade (sto (daemon nd)) r].

(** A bundle of 66 bytes is given to a link that takes 66 bytes, with 75 bytes of data. *)
Example limit_exceeded :
  let d := StorageWitness.sent (bundle_for_b "//x/") in
  zlen d = 66 ∧ ∃ n d', run to_peer (arrived 66 d) = Some n ∧ data_abroad n = [Some d'] ∧ zlen d' = 75.
Proof. vm_compute. split; [done|]. by do 2 eexists. Qed.

(** A bundle from a neighbour with a long name is to be fragmented for a link that its
    data fits into by now, and [fragment] panics. *)
Definition next_message (i : nat) (n : Network) : option (outcome Empty_set (() * Storage.Daemon * list Effect)) :=
  nd ← nodes n !! i; m ← to_sto (daemon nd) !! 0%nat; Some (handle m (sto (daemon nd))).

Example small_bundle_panics :
  let d := StorageWitness.sent (bundle_for_b "//a-neighbour-with-a-long-name/") in
  zlen d = 95 ∧ (n ← run to_peer (arrived 80 d); next_message 0 n) = Some Panic.
Proof. vm_compute. by split. Qed.
End StaleSize.

