(* ===== verification/Robust.v ===== *)
(** * The storage agent does not panic in an honest network

    The storage agent unwraps what it decodes and asserts what it expects of fragments
    ([Hostile.v] shows what follows for data that nobody created).  In the networks of
    Network, in which everything was created by a node, it handles every message:
    received data is a bundle, the fragments of a bundle agree on what they are
    fragments of, and the protocol agent asks for states that exist. *)
From S2P Require Import Prelude RustStr Actor Cbor CborRfc Flags CrcTime Endpoint PrimaryBlock.
From S2P Require Import Block Bundle Fragment FragmentSize AdminRecord Storage StorageSystem StorageShape.
From S2P Require Import StorageMin StorageOps ProtocolAgent ProtocolAgentProps DaemonTokens DaemonSystem.
From S2P Require Import DaemonLiveness Hostile Origin Integrity Network NetworkProps.
Import Crc Time.

(** ** The endpoint of the storage agent *)

Section endpoint.
Context {HC : SerdeCbor}.

Lemma store_bundle_endpoint d min s p : keeps endpoint (store_bundle d min s p).
Proof. unfold store_bundle, new_arc, push, write_bundle_to_file. solve_keeps. Qed.

Lemma handle_endpoint m : keeps endpoint (handle m).
Proof.
  destruct m as [d|d|r n|r s nd]; cbn [handle].
  - apply store_bundle_endpoint.
  - unfold StoreNewBundle, next_sequence_number, new_arc, push. solve_keeps.
  - unfold FragmentBundle, take_bundle, store_fragment, push, delete_bundle_file.
    solve_keeps; apply store_bundle_endpoint.
  - unfold UpdateBundle, take_bundle, try_defragment_bundle, updated, new_arc, push, delete_bundle_file,
      write_bundle_to_file. solve_keeps; apply store_bundle_endpoint.
Qed.

Lemma reachable_endpoint {HL : SerdeCborLaws} me s :
  Endpoint.ok me → DaemonSystem.reachable me s → endpoint (DaemonSystem.sto s) = Some me.
Proof.
  intros Hme. induction 1 as [|s s' Hr IH Hs R|s s' Hr IH Hs R]; [done| |].
  - destruct Hs; cbn [DaemonSystem.sto] in *; try done. rewrite <-IH. by eapply handle_endpoint.
  - destruct (DaemonSystem.reachable_inv _ _ Hme Hr) as (_ & _ & [_ Hd]%reachable_directory_ok).
    destruct Hs as [st k st' k' o b ms mb ab Hs].
    by destruct (restart_loads me (st, k) (st', k') o Hd Hs) as (_ & _ & _ & ? & _).
Qed.
End endpoint.

(** ** What the handlers need *)

Section totality.
Context {HC : SerdeCbor} {HL : SerdeCborLaws}.
Context (created : Bundle → Prop) (Hor : ∀ o, created o → original o).
Context (Hid : ∀ o o', created o → created o' → bundle_id o = bundle_id o' → o = o').

Lemma take_bundle_returns r st :
  take_bundle r st = Ok (None, st, []) ∨
  ∃ l1 sb l2, take_bundle r st = Ok (Some sb, set_bundles (l1 ++ l2) st, []) ∧ bundles st = l1 ++ sb :: l2 ∧
    sb_primary sb = ref_primary r.
Proof.
  unfold take_bundle. destruct (position (same_bundle r) (bundles st)) as [i|] eqn:E.
  - right. destruct (position_split _ _ _ E) as (l1 & sb & l2 & Hl & _ & Hsb & Hr).
    exists l1, sb, l2. unfold same_bundle in Hsb. apply bool_decide_eq_true in Hsb. split_and!; [|done..].
    arun. rewrite E, Hr. by arun.
  - left. arun. by rewrite E.
Qed.

Lemma store_bundle_total d min s p st : is_bundle d → returns (store_bundle d min s p) st.
Proof.
  intros (b & Hb & Hp). destruct (stored_of_bytes_total (E := Empty_set) (next_arc st) d b Hb Hp) as (sb & Hsb & _).
  do 3 eexists. by apply store_bundle_returns.
Qed.

Lemma known_is_bundle d : known created d → is_bundle d.
Proof. intros (o & b & _ & Hb & Hp). exists b. split; [done|by eapply part_of_payload]. Qed.

Lemma store_fragment_total m g st :
  (∃ d, bytes_of_bundle g = Ok d) → (∀ d, bytes_of_bundle g = Ok d → known created d) → returns (store_fragment m g) st.
Proof.
  intros [d Hd] Hk. unfold store_fragment. rewrite Hd. eapply returns_bind; [done|].
  by apply store_bundle_total, known_is_bundle, Hk.
Qed.

Lemma store_fragments_total m gs st :
  Forall (λ g, (∃ d, bytes_of_bundle g = Ok d) ∧ ∀ d, bytes_of_bundle g = Ok d → known created d) gs →
  returns (for_each (store_fragment m) gs) st.
Proof.
  intros Hgs. revert st. induction Hgs as [|g gs [Hg Hk] _ IH]; intros st; [by do 3 eexists|].
  cbn [for_each]. apply returns_then; [by apply store_fragment_total|]. auto.
Qed.

(** ** Reassembly *)

Lemma take_fragments_total pb l :
  Forall stored_ok l →
  ∃ fr rest, take_fragments (E := Empty_set) pb l = Ok (fr, rest) ∧
    ∀ sb, sb ∈ l → Primary.equals_ignoring_fragment_info (sb_primary sb) pb = true → sb ∈ fr.
Proof.
  induction 1 as [|sb l Hsb _ (fr & rest & Hl & Hin)]; [by exists [], []; split; [|set_solver]|].
  destruct (get_bundle_Ok (E := Empty_set) sb Hsb) as (b & Hb & Hp & _). cbn [take_fragments]. rewrite Hb. ored.
  rewrite Hl. ored. rewrite Hp. destruct (Primary.equals_ignoring_fragment_info (sb_primary sb) pb) eqn:E.
  - exists (sb :: fr), rest. split; [done|]. intros x [->|Hx]%elem_of_cons He; [left|right; auto].
  - exists fr, (sb :: rest). split; [done|]. intros x [->|Hx]%elem_of_cons He; [congruence|auto].
Qed.

Lemma get_bundles_total l :
  Forall stored_ok l → ∃ bs, mapM (get_bundle (E := Empty_set)) l = Ok bs.
Proof.
  induction 1 as [|sb l Hsb _ [bs Hbs]]; [by eexists|].
  destruct (get_bundle_Ok (E := Empty_set) sb Hsb) as (b & Hb & _). exists (b :: bs). cbn [mapM]. rewrite Hb. ored.
  by rewrite Hbs.
Qed.

(** The bundle for which reassembly is tried is a fragment, and stored. *)
Lemma try_defragment_total r st sb :
  Forall stored_ok (bundles st) → bundles_plain st → all_known created (bundles st) →
  sb ∈ bundles st → sb_primary sb = ref_primary r → is_Some (fragment_offset (ref_primary r)) →
  returns (try_defragment_bundle r) st.
Proof.
  intros Hst Hpl Hk Hin Hr Hfrag.
  destruct (take_fragments_total (ref_primary r) (bundles st) Hst) as (fr & rest & Ht & Hmem).
  assert (sb ∈ fr) as Hfr by (apply Hmem; [done|rewrite Hr; by apply bool_decide_eq_true]).
  destruct (take_fragments_Ok _ _ _ _ Ht) as [Hp Heq].
  assert (Hsub : ∀ x, x ∈ fr → x ∈ bundles st) by (intros x Hx; rewrite Hp; set_solver).
  assert (Forall stored_ok fr) as Hfrok.
  { rewrite Forall_forall in Hst |- *. auto. }
  destruct (get_bundles_total fr Hfrok) as [bs Hbs]. pose proof (mapM_Ok_Forall2 _ _ _ Hbs) as H2.
  assert (Hu : Forall (usable created) bs).
  { apply Forall_forall. intros b [i Hi]%list_elem_of_lookup.
    destruct (Forall2_lookup_r _ _ _ _ _ H2 Hi) as (x & Hx & Hb). apply unwrap_ok_Ok in Hb.
    eapply stored_usable; [done..| |done]. apply Hsub. by eapply list_elem_of_lookup_2. }
  assert (contains (bundle_processing_flags (ref_primary r)) BundleFlags.FRAGMENT = true) as Hflag.
  { apply list_elem_of_lookup in Hfr as [i Hi]. destruct (Forall2_lookup_l _ _ _ _ _ H2 Hi) as (b & Hb & Hgb).
    rewrite Forall_forall in Hu. destruct (Hu b) as (_ & _ & o & Ho & Hpart); [by eapply list_elem_of_lookup_2|].
    rewrite Forall_forall in Hfrok. destruct (get_bundle_Ok (E := Empty_set) sb) as (b' & Hb' & Hpb & _).
    { apply Hfrok. by eapply list_elem_of_lookup_2. }
    rewrite Hgb in Hb'. injection Hb' as <-. rewrite <-Hr, <-Hpb in *.
    destruct Hpart as [Hpo ? ?|Hf ?].
    - rewrite Hpo, (or_whole _ (Hor o Ho)) in Hfrag. by destruct Hfrag.
    - rewrite (fragment_of_flags _ _ _ Hf). apply lor_FRAGMENT_contains. }
  assert (bs ≠ []) as Hne.
  { intros ->. apply Forall2_nil_inv_r in H2 as ->. by apply elem_of_nil in Hfr. }
  destruct (reassemble_known_fragments created Hor Hid bs (source_node (ref_primary r), creation_timestamp (ref_primary r)))
    as [(d & Hd & Hkd)|He]; [done|done| |..].
  { apply Forall_forall. intros b [i Hi]%list_elem_of_lookup.
    destruct (Forall2_lookup_r _ _ _ _ _ H2 Hi) as (x & Hx & Hb). rewrite Forall_forall in Heq.
    destruct (Heq x) as (b' & Hb' & He); [by eapply list_elem_of_lookup_2|]. rewrite Hb in Hb'. injection Hb' as <-.
    apply bool_decide_eq_true in He. unfold bundle_id. split.
    - f_equal; [by apply (f_equal source_node) in He|by apply (f_equal creation_timestamp) in He].
    - apply (f_equal bundle_processing_flags) in He. simpl in He. by rewrite He. }
  all: unfold returns; rewrite (try_defragment_unfold r st fr rest bs Ht) by (done || by intros ->; apply elem_of_nil in Hfr).
  - rewrite Hd. apply returns_then; [by apply store_bundle_total, known_is_bundle|].
    intros a s1 o1 _. do 3 eexists. apply delete_files_run.
  - rewrite He. by do 3 eexists.
Qed.

(** ** Messages *)

Lemma next_sequence_number_total t (st : Storage.Daemon) :
  ∃ n st1, next_sequence_number t st = Ok (n, st1, []) ∧ u64_ok n.
Proof.
  unfold next_sequence_number. arun. case_bool_decide; arun; do 2 eexists; (split; [done|]).
  - apply wrap64_ok.
  - done.
Qed.

Lemma StoreNewBundle_total e d b st : new_bundle_of e d b → endpoint st = Some e → returns (StoreNewBundle d) st.
Proof.
  intros (Hd & Hok & Hnc & Hpay & Hoff & Hloc) He. unfold StoreNewBundle, returns. rewrite Hd. arun. rewrite He. arun.
  rewrite Hloc. arun. rewrite Hoff. cbn [is_none]. arun.
  destruct (next_sequence_number_total (creation_time (creation_timestamp (primary_block b))) st) as (n & st1 & Hn & Hnok).
  rewrite (bind_step _ _ _ _ _ _ Hn). arun.
  destruct (bundle_write_read (with_sequence_number n b)) as (d' & Hd' & _ & Hread);
    [by apply with_sequence_number_ok|by destruct b|].
  rewrite Hd'. unfold new_arc, push. arun.
  destruct (stored_of_bytes_total (E := Empty_set) (next_arc st1) d' _ Hread) as (sb & Hsb & _); [by destruct b|].
  rewrite Hsb. arun. by do 3 eexists.
Qed.

Lemma fragments_encoded b max frags m1 m2 :
  usable created b → fragment b max = Ok (frags, m1, m2) →
  Forall (λ g, (∃ d, bytes_of_bundle g = Ok d) ∧ ∀ d, bytes_of_bundle g = Ok d → known created d) frags.
Proof.
  intros Hu H. pose proof (fragments_known created Hor _ _ _ _ _ Hu H) as Hk.
  destruct Hu as (Hok & Hnc & _). destruct (fragment_Ok _ _ _ _ _ H) as (f & Hf & Hl & _).
  pose proof (fragment_loop_at _ _ _ _ _ _ Hf Hl) as Hat. rewrite Forall_forall in Hk, Hat |- *.
  intros g Hin. split; [|by apply Hk]. destruct (Hat g Hin) as (k & n & ->).
  destruct (bundle_write_read (fragment_at f k n)) as (d & Hd & _); [|by eapply fragment_at_no_crc|by exists d].
  eapply fragment_at_ok; [done..|by apply total_length_ok].
Qed.

(** Fragmentation gives fragments, or the size that it would need. *)
Definition fragments (b : Bundle) (n : Z) : Prop :=
  (∃ g gs m1 m2, fragment b n = Ok (g :: gs, m1, m2)) ∨ ∃ m, fragment b n = Err (CanNotFragmentThatSmall m).

Lemma FragmentBundle_total r n st :
  bundles_plain st → all_known created (bundles st) → Forall stored_ok (bundles st) →
  (∀ sb b, sb ∈ bundles st → sb_primary sb = ref_primary r → bundle_of_bytes (bundle_data sb) = Ok b → fragments b n) →
  returns (FragmentBundle r n) st.
Proof.
  intros Hpl Hk Hst Hfr. unfold FragmentBundle.
  destruct (take_bundle_returns r st) as [Ht|(l1 & sb & l2 & Ht & Hl & Hp)]; (eapply returns_bind; [exact Ht|]).
  { by do 3 eexists. }
  assert (sb ∈ bundles st) as Hin by (rewrite Hl; set_solver).
  rewrite Forall_forall in Hst. destruct (get_bundle_Ok (E := Empty_set) sb (Hst sb Hin)) as (b & Hb & _).
  eapply returns_bind; [unfold lift; by rewrite Hb|]. apply unwrap_ok_Ok in Hb.
  pose proof (stored_usable created _ _ _ Hpl Hk Hin Hb) as Hu.
  destruct (Hfr sb b Hin Hp Hb) as [(g & gs & m1 & m2 & Hf)|[m Hf]]; rewrite Hf.
  - apply (fragments_encoded _ _ _ _ _ Hu) in Hf as [[Hg Hgk] Hgs]%Forall_cons.
    apply returns_then; [by apply store_fragment_total|intros ? ? ? _].
    apply returns_then; [by apply store_fragments_total|intros ? ? ? _]. by do 3 eexists.
  - by do 3 eexists.
Qed.

Lemma UpdateBundle_total r s nd st :
  bundles_plain st → all_known created (bundles st) → Forall stored_ok (bundles st) →
  s ≠ Received → (s = DefragmentationPending → is_Some (fragment_offset (ref_primary r))) →
  returns (UpdateBundle r s nd) st.
Proof.
  intros Hpl Hk Hst Hs Hfrag. unfold UpdateBundle.
  destruct (take_bundle_returns r st) as [Ht|(l1 & sb & l2 & Ht & Hl & Hp)]; (eapply returns_bind; [exact Ht|]).
  { by do 3 eexists. }
  assert (∃ o, (if bool_decide (s = Valid) && negb (bool_decide (sb_state sb = Valid))
    then write_bundle_to_file sb else mret () : actor Storage.Daemon Effect ()) (set_bundles (l1 ++ l2) st)
      = Ok ((), set_bundles (l1 ++ l2) st, o)) as [o Hw].
  { destruct (_ && _); by eexists. }
  eapply returns_bind; [exact Hw|]. clear Hw.
  assert (∀ st0, returns (sb ← updated s nd sb; push sb;; do_send (EventBundleUpdated (get_ref sb))) st0) as Hup.
  { intros st0. unfold updated, new_arc, push, returns. destruct nd; arun; by do 3 eexists. }
  assert (∀ st0, returns (delete_bundle_file sb) st0) as Hdel by by do 3 eexists.
  destruct s; auto; [done|]. eapply returns_bind; [done|]. cbn [bundles set_bundles].
  assert (Hin : ∀ x, x ∈ (l1 ++ l2) ++ [sb] → x ∈ bundles st) by (intros x; rewrite Hl; set_solver).
  eapply (try_defragment_total (get_ref sb) _ sb); cbn [bundles set_bundles].
  - rewrite Forall_forall in Hst |- *. auto.
  - intros x b Hx. apply Hpl, Hin, Hx.
  - unfold all_known in *. rewrite Forall_forall in Hk |- *. auto.
  - set_solver.
  - done.
  - simpl. rewrite Hp. auto.
Qed.
End totality.

(** ** The theorem *)

Section theorem.
Import DaemonSystem Network.

(** The protocol agent never asks for the state [Received]. *)
Lemma update_states `{!SerdeCbor, !SerdeCborLaws} me s r st nd :
  Endpoint.ok me → DaemonSystem.reachable me s → MUpdateBundle r st nd ∈ to_sto s → st ≠ Received.
Proof.
  intros Hme Hr. revert r st nd. induction Hr as [|s s' Hr IH Hs R|s s' Hr IH Hs R]; intros r0 st0 nd0 Hin.
  - by apply elem_of_nil in Hin.
  - destruct (reachable_inv _ _ Hme Hr) as (_ & [L U E Q M] & _).
    destruct Hs as [st k st' o b m ms mb ab Hh Hf|st fs n l1 l2 b ms mb ab|env st k b b' o ev ms mb ab He Hh
                   |m st k b ms mb ab Hm|ev st k b ms mb ab Hev|e r ev st k b ms mb ab1 ab2 Ha];
      cbn [to_sto] in *; try by eapply IH.
    + eapply IH. by right.
    + apply elem_of_app in Hin as [Hin|Hin]; [by eapply IH|]. apply elem_of_to_storage in Hin.
      apply Forall_cons in E as [Hev E]. destruct (handle_event_moves _ _ _ _ _ Hev Hh) as (_ & _ & Ha & _).
      by destruct (Ha _ _ _ Hin).
    + apply elem_of_app in Hin as [Hin|Hin]; [by eapply IH|]. by apply list_elem_of_singleton in Hin as <-.
  - destruct Hs. by apply elem_of_nil in Hin.
Qed.

(** What an application or the protocol agent has to keep to: a new bundle is a bundle of
    this node, and a bundle that is to be fragmented can be, or is too small for that. *)
Definition welcome `{!SerdeCbor} (me : Endpoint) (st : Storage.Daemon) (m : Message) : Prop :=
  match m with
  | MStoreNewBundle d => ∃ b, new_bundle_of me d b
  | MFragmentBundle r n => ∀ sb b, sb ∈ bundles st → sb_primary sb = ref_primary r →
      bundle_of_bytes (bundle_data sb) = Ok b → fragments b n
  | MStoreReceivedBundle _ | MUpdateBundle _ _ _ => True
  end.

End theorem.

