(* ===== verification/Leaves.v ===== *)
(** * What a message to the storage agent leaves behind

    A bundle stays in the store unless the message is about it, or about another
    fragment of the same bundle when these are put together; and a bundle is announced
    for delivery only if a message asked for that. *)
From S2P Require Import Prelude RustStr Actor Cbor CborRfc Flags CrcTime Endpoint PrimaryBlock.
From S2P Require Import Block Bundle Fragment FragmentSize Storage StorageSystem StorageShape StorageMin.
Import Crc Time.

Section leaves.
Context {HC : SerdeCbor}.


(** Bundles are only added, and nothing is announced for delivery. *)
Definition grows (st st' : Daemon) (o : list Effect) : Prop :=
  (∀ sb, sb ∈ bundles st → sb ∈ bundles st') ∧ ∀ r, r ∈ announced o → ref_state r ≠ DeliveryQueued.

Lemma grows_refl st o : announced o = [] → grows st st o.
Proof. intros Ho. split; [done|]. rewrite Ho. intros r Hr. by apply elem_of_nil in Hr. Qed.

Lemma grows_trans st st1 st2 o1 o2 : grows st st1 o1 → grows st1 st2 o2 → grows st st2 (o1 ++ o2).
Proof.
  intros [B1 A1] [B2 A2]. split; [auto|]. rewrite announced_app. intros r [?|?]%elem_of_app; auto.
Qed.

Lemma store_bundle_grows d min s p st a st' o :
  s ≠ DeliveryQueued → store_bundle d min s p st = Ok (a, st', o) → grows st st' o.
Proof.
  intros Hs H. destruct (store_bundle_Ok _ _ _ _ _ _ _ _ H) as (sb & _ & Hb & _ & ->). split.
  - rewrite Hb. set_solver.
  - intros r Hr. destruct p; simpl in Hr; apply list_elem_of_singleton in Hr as ->; done.
Qed.

Lemma store_fragments_grows m gs st a st' o :
  for_each (store_fragment m) gs st = Ok (a, st', o) → grows st st' o.
Proof.
  revert st o. induction gs as [|g gs IH]; intros st o H; cbn [for_each] in H; [ainv; by apply grows_refl|].
  apply actor_bind_Ok in H as ([] & st1 & o1 & o2 & H1 & H2 & ->). eapply grows_trans; [|by apply IH].
  unfold store_fragment in H1. ainv. eapply store_bundle_grows; [|done]. done.
Qed.

(** Reassembly takes fragments of the bundle only. *)
Lemma try_defragment_leaves r st a st' o :
  Forall stored_ok (bundles st) → try_defragment_bundle r st = Ok (a, st', o) →
  (∀ sb, sb ∈ bundles st → sb ∈ bundles st' ∨
     Primary.equals_ignoring_fragment_info (sb_primary sb) (ref_primary r) = true) ∧
  ∀ r', r' ∈ announced o → ref_state r' ≠ DeliveryQueued.
Proof.
  unfold try_defragment_bundle. intros Hst H. ainv.
  match goal with E : take_fragments _ _ = Ok ?p |- _ => destruct p as [fr rest]; rename E into Ht end.
  destruct (take_fragments_Ok _ _ _ _ Ht) as [Hp Hf]. ainv.
  assert (Hfr : ∀ sb, sb ∈ fr → Primary.equals_ignoring_fragment_info (sb_primary sb) (ref_primary r) = true).
  { intros sb Hin. rewrite Forall_forall in Hf, Hst. destruct (Hf sb Hin) as (b & Hb & He).
    destruct (get_bundle_Ok (E := Empty_set) sb) as (b' & Hb' & <- & _); [apply Hst; rewrite Hp; set_solver|].
    by rewrite Hb in Hb'; injection Hb' as <-. }
  destruct (reassemble_bundles _) as [d|e|]; [|ainv|done].
  - apply actor_bind_Ok in H as ([] & st2 & o1 & o2 & H1 & H2 & ->).
    destruct (delete_files_Ok _ _ _ _ _ H2) as [-> ->].
    apply store_bundle_grows in H1 as [G1 G2]; [|done]. split.
    + intros sb. rewrite Hp. intros [Hin|Hin]%elem_of_app; auto.
    + rewrite announced_app, deletions_silent, app_nil_r. done.
  - split; [|intros r' Hr; by apply elem_of_nil in Hr]. intros sb. rewrite Hp. simpl. set_solver.
Qed.

(** The bundles that are gone afterwards: the bundle of the message, and fragments of
    it that were put together. *)
Definition consumed (m : Message) (p : PrimaryBlock) : Prop :=
  ∃ r, message_ref m = Some r ∧ (p = ref_primary r ∨
    (∃ nd, m = MUpdateBundle r DefragmentationPending nd) ∧
    Primary.equals_ignoring_fragment_info p (ref_primary r) = true).

(** A bundle is announced for delivery if that was asked for, or again. *)
Definition delivery_of (m : Message) (st : Daemon) (p : PrimaryBlock) : Prop :=
  ∃ r, message_ref m = Some r ∧ ref_primary r = p ∧
    ((∃ nd, m = MUpdateBundle r DeliveryQueued nd) ∨
     ∃ sb, sb ∈ bundles st ∧ sb_primary sb = p ∧ sb_state sb = DeliveryQueued).

Definition leaves (m : Message) (st st' : Daemon) (o : list Effect) : Prop :=
  (∀ sb, sb ∈ bundles st → sb ∈ bundles st' ∨ consumed m (sb_primary sb)) ∧
  ∀ r, r ∈ announced o → ref_state r = DeliveryQueued → delivery_of m st (ref_primary r).

Lemma grows_leaves m st st' o : grows st st' o → leaves m st st' o.
Proof. intros [G1 G2]. split; [auto|]. intros r Hr He. by destruct (G2 r Hr). Qed.

(** The bundle of the message has been taken out before. *)
Lemma taken_leaves m r sb l1 l2 st st' o :
  message_ref m = Some r → bundles st = l1 ++ sb :: l2 → sb_primary sb = ref_primary r →
  grows (set_bundles (l1 ++ l2) st) st' o → leaves m st st' o.
Proof.
  intros Hm Hl Hp [G1 G2]. split; [|intros r' Hr He; by destruct (G2 r' Hr)].
  intros x Hx. rewrite Hl in Hx. assert (x = sb ∨ x ∈ l1 ++ l2) as [->|Hin] by set_solver; [right|left; by apply G1].
  exists r. auto.
Qed.

Lemma FragmentBundle_leaves r n st a st' o : FragmentBundle r n st = Ok (a, st', o) → leaves (MFragmentBundle r n) st st' o.
Proof.
  intros H. unfold FragmentBundle in H. apply actor_bind_Ok in H as (ob & st1 & o1 & o2 & H1 & H & ->).
  destruct (take_bundle_Ok _ _ _ _ _ H1) as [-> Ht]. destruct ob as [sb|].
  2:{ destruct Ht as [-> _]. ainv. by apply grows_leaves, grows_refl. }
  destruct Ht as (l1 & l2 & Hl & _ & Hp & ->). cbn [app]. clear H1.
  apply actor_bind_Ok in H as (b & s & o1 & o3 & H2 & H & ->). apply lift_Ok in H2 as (_ & -> & ->). cbn [app].
  destruct (fragment b n) as [[[frags m1] m2]|[e|min_size| |]|]; try done.
  - destruct frags as [|f frags]; [done|].
    apply actor_bind_Ok in H as ([] & st2 & o1 & o2 & H1 & H & ->).
    apply actor_bind_Ok in H as ([] & st3 & o3' & o4 & H2 & H & ->).
    unfold store_fragment in H1. ainv. eapply taken_leaves; [done..|].
    eapply grows_trans; [eapply store_bundle_grows; [|done]; done|].
    eapply grows_trans; [by eapply store_fragments_grows|]. unfold delete_bundle_file in H. ainv. by apply grows_refl.
  - unfold push in H. ainv. split; simpl.
    + intros x. rewrite Hl. intros Hx. assert (x = sb ∨ x ∈ l1 ++ l2) as [->|Hin] by set_solver; [right|left; set_solver].
      exists r. auto.
    + intros r' ->%list_elem_of_singleton Hs. exists r. split_and!; [done..|]. right. exists sb.
      split_and!; [rewrite Hl; set_solver|done..].
Qed.

Lemma UpdateBundle_leaves r s nd st a st' o :
  Forall stored_ok (bundles st) → UpdateBundle r s nd st = Ok (a, st', o) → leaves (MUpdateBundle r s nd) st st' o.
Proof.
  intros Hst H. unfold UpdateBundle in H. apply actor_bind_Ok in H as (ob & st1 & o1 & o2 & H1 & H & ->).
  destruct (take_bundle_Ok _ _ _ _ _ H1) as [-> Ht]. destruct ob as [sb|].
  2:{ destruct Ht as [-> _]. ainv. by apply grows_leaves, grows_refl. }
  destruct Ht as (l1 & l2 & Hl & _ & Hp & ->). cbn [app]. clear H1.
  apply actor_bind_Ok in H as ([] & st2 & o1 & o3 & Hwr & H & ->).
  assert (st2 = set_bundles (l1 ++ l2) st ∧ announced o1 = []) as [-> Ho1].
  { unfold write_bundle_to_file in Hwr. destruct (_ && _) in Hwr; by ainv. }
  clear Hwr.
  assert (Hone : ∀ x, x ∈ bundles st → x = sb ∨ x ∈ l1 ++ l2) by (intros x; rewrite Hl; set_solver).
  assert (Hgone : consumed (MUpdateBundle r s nd) (sb_primary sb)) by (exists r; auto).
  assert (Hdel : delete_bundle_file sb (set_bundles (l1 ++ l2) st) = Ok (a, st', o3) →
    leaves (MUpdateBundle r s nd) st st' (o1 ++ o3)).
  { unfold delete_bundle_file. intros Hd. ainv. eapply taken_leaves; [done..|]. apply grows_refl.
    by rewrite announced_app, Ho1. }
  assert (Hqueued : (sb ← updated s nd sb; push sb;; do_send (EventBundleUpdated (get_ref sb)))
      (set_bundles (l1 ++ l2) st) = Ok (a, st', o3) → leaves (MUpdateBundle r s nd) st st' (o1 ++ o3)).
  { intros Hup. apply actor_bind_Ok in Hup as (sb' & st3 & o4 & o5 & Hup & Hpu & ->).
    destruct (updated_arcs _ _ _ _ _ _ _ Hup) as (-> & Hb3 & Hs' & Hp' & _). unfold push in Hpu. ainv. split; simpl.
    - intros x [->|Hx]%Hone; [by right|left]. rewrite Hb3. set_solver.
    - rewrite announced_app, Ho1. intros r' ->%list_elem_of_singleton Hs. simpl in *.
      exists r. split_and!; [done|congruence|left]. exists nd. congruence. }
  destruct s; auto; [done|]. clear Hqueued Hdel.
  apply actor_bind_Ok in H as ([] & st3 & o4 & o5 & Hpu & H & ->). unfold push in Hpu. ainv.
  apply try_defragment_leaves in H as [B A].
  - split; [|rewrite announced_app, Ho1; simpl; intros r' Hr Hs; by destruct (A r' Hr)].
    intros x Hx. destruct (B x) as [?|He]; [|by left|right].
    + simpl. destruct (Hone x Hx); set_solver.
    + exists r. split; [done|right]. split; [by exists nd|]. simpl in He. by rewrite Hp in He.
  - simpl. rewrite Hl in Hst. apply Forall_app in Hst as [? [? ?]%Forall_cons]. repeat apply Forall_app_2; auto.
Qed.

Lemma handle_leaves m st st' o : Forall stored_ok (bundles st) → handle m st = Ok ((), st', o) → leaves m st st' o.
Proof.
  intros Hst H. destruct m as [d|d|r n|r s nd]; cbn [handle] in H.
  - apply grows_leaves. eapply store_bundle_grows; [|done]. done.
  - destruct (StoreNewBundle_Ok _ _ _ _ _ H) as (b&n&d'&sb&_&_&Hsb&Hb&_&->&_).
    destruct (stored_of_bytes_Ok _ _ _ Hsb) as (_ & _ & Hs & _). apply grows_leaves. split.
    + rewrite Hb. set_solver.
    + simpl. intros r ->%list_elem_of_singleton. simpl. by rewrite Hs.
  - by eapply FragmentBundle_leaves.
  - by eapply UpdateBundle_leaves.
Qed.
End leaves.
