(* ===== verification/RobustProtocol.v ===== *)
(** * The protocol agent does not panic in an honest network

    The protocol agent unwraps the endpoint of the node, the data of bundles on their
    way out and the status reports, cuts the names of nodes out of endpoints, and
    asserts that only whole bundles are delivered.  In the networks of Network it
    handles every event. *)
From S2P Require Import Prelude RustStr Actor Cbor CborRfc Flags CrcTime Endpoint PrimaryBlock.
From S2P Require Import Block Bundle Fragment FragmentSize AdminRecord Storage StorageSystem StorageShape.
From S2P Require Import StorageMin Leaves ProtocolAgent ProtocolAgentProps DaemonTokens DaemonSystem DaemonLiveness.
From S2P Require Import Hostile Origin Integrity Network NetworkProps Robust.
Import Crc Time ProtocolAgent.

Abbreviation is_whole r := (fragment_offset (ref_primary r) = None).

(** ** Endpoints *)

Lemma get_node_endpoint_total {E} e : sliceable e → ∃ n, Endpoint.get_node_endpoint (E := E) e = Ok n.
Proof.
  destruct e as [[u]|i]; [|by eexists]. unfold sliceable. cbn. intros H.
  unfold Endpoint.get_node_endpoint, DTN.get_node_endpoint, DTN.node_name, str_from. cbn [DTN.uri]. rewrite H. ored.
  unfold DTN.from_str. cbn. by eexists.
Qed.

Lemma get_node_endpoint_sliceable {E} e n : Endpoint.get_node_endpoint (E := E) e = Ok n → sliceable e → sliceable n.
Proof.
  destruct e as [[u]|i]; [|by intros [= <-] _]. unfold sliceable. cbn [DTN.uri]. intros H Hu.
  unfold Endpoint.get_node_endpoint, DTN.get_node_endpoint, DTN.node_name, str_from in H. cbn [DTN.uri] in H.
  rewrite Hu in H. unfold DTN.from_str in H. cbn in H. injection H as <-. cbn [DTN.uri].
  apply boundary_split_first. destruct u as [|a [|b [|c u]]]; [by cbn in Hu..|done|done].
Qed.

Lemma matches_node_total {E} a b : sliceable a → sliceable b → ∃ r, Endpoint.matches_node (E := E) a b = Ok r.
Proof.
  destruct a as [[u]|i], b as [[v]|j]; unfold sliceable; cbn; intros Ha Hb; try by eexists.
  unfold DTN.matches_node, DTN.node_name, str_from. cbn [DTN.uri]. rewrite Ha, Hb. ored. by eexists.
Qed.

Lemma matches_node_error {E F} a b r : Endpoint.matches_node (E := E) a b = Ok r → Endpoint.matches_node (E := F) a b = Ok r.
Proof.
  destruct a as [[u]|i], b as [[v]|j]; cbn; try congruence.
  unfold DTN.matches_node, DTN.node_name, str_from. cbn [DTN.uri].
  destruct (is_char_boundary u 2), (is_char_boundary v 2); ored; congruence.
Qed.

(** ** The handlers *)

Section handlers.
Context {HC : SerdeCbor} {HL : SerdeCborLaws}.

(** What waits for local delivery is whole. *)
Definition local_whole (st : Daemon) : Prop := Forall (λ r, is_whole r) (flat (local_bundles st)).

Lemma local_whole_queue st e : local_whole st → Forall (λ r, is_whole r) (default [] (local_bundles st !! e)).
Proof. unfold local_whole. rewrite (flat_split _ e). by intros [? _]%Forall_app. Qed.

Lemma deliver_local_total env e st : local_whole st → returns (deliver_local_bundles env e) st.
Proof.
  intros Hw. unfold deliver_local_bundles, returns. arun.
  destruct (local_connections st !! e) as [sender|]; [|by do 3 eexists]. arun.
  pose proof (local_whole_queue st e Hw) as Hq. destruct (local_bundles st !! e) as [q|]; [|by do 3 eexists].
  destruct (local_loop_spec env e sender 0 q st Hq) as (st' & n & _ & H & _). rewrite H. by do 3 eexists.
Qed.

Lemma deliver_remote_total env e st : sliceable e → returns (deliver_remote_bundles env e) st.
Proof.
  intros [node Hn]%(get_node_endpoint_total (E := Empty_set)). unfold returns. rewrite (deliver_remote_unfold _ _ _ _ Hn).
  destruct (link_of st node) as [[sender mbs]|]; [|by do 3 eexists].
  destruct (remote_bundles st !! node) as [q|]; [|by do 3 eexists].
  destruct (remote_loop_spec env node sender mbs (S (length q)) 0 [] q [] st) as (st1 & o1 & q' & Hr & _); [lia|constructor|].
  rewrite app_nil_r in Hr. rewrite Hr. by do 3 eexists.
Qed.

Lemma deliver_all_total env es st : Forall sliceable es → returns (for_each (deliver_remote_bundles env) es) st.
Proof.
  intros He. revert st. induction He as [|e es He _ IH]; intros st; [by do 3 eexists|]. cbn [for_each].
  apply returns_then; [by apply deliver_remote_total|auto].
Qed.

(** Every report about the bundle can be made. *)
Definition reports_fit (env : Env) (me : Endpoint) (r : StoredBundleRef) : Prop :=
  ∀ reason b1 b2 b3 b4, reportable env me r (status_report r reason (reported_at env) b1 b2 b3 b4).

Lemma report_total flag env me r reason b1 b2 b3 b4 st :
  endpoint st = Some me → reports_fit env me r →
  ∃ o, send_requested_report flag env r reason b1 b2 b3 b4 st = Ok ((), st, o).
Proof.
  intros He Hr. unfold send_requested_report. case_match; [|by eexists].
  destruct (send_status_report_run env me r reason b1 b2 b3 b4 st He (Hr _ _ _ _ _)) as (d & Hrun & _). by eexists.
Qed.

(** A valid bundle: the data of one for another node is there. *)
Lemma dispatch_total env me r st here :
  endpoint st = Some me → Endpoint.ok me → sliceable me → sliceable (source_node (ref_primary r)) →
  Endpoint.matches_node (E := Empty_set) me (destination_endpoint (ref_primary r)) = Ok here →
  reports_fit env me r →
  (here = false → ∃ d b, upgrade_data env r = Some d ∧ bundle_of_bytes d = Ok b ∧ bundle_ok b ∧ bundle_no_crc b ∧
     primary_block b = ref_primary r) →
  ∃ s nd o, dispatch_valid env r st = Ok ((s, nd), st, o).
Proof.
  intros He Hme Hsme Hsrc Hh Hrep Hd. unfold dispatch_valid. arun. rewrite He. arun. rewrite Hh. arun.
  destruct here; [destruct (fragment_offset (ref_primary r)); by do 3 eexists|]. destruct (Hd eq_refl) as (d & b & Hu & Hb & Hok & Hnc & Hp). rewrite Hu.
  destruct (matches_node_total (E := BundleStatusReason) me (source_node (primary_block b)) Hsme) as [local Hl];
    [by rewrite Hp|].
  destruct (forward_bundle_run me d b local Hb Hok Hnc Hme Hl) as [Hbad Hgood].
  destruct (hops_exceeded_dec b) as [Hx|Hx].
  - rewrite (Hbad Hx). unfold send_status_report_deleted.
    destruct (report_total BundleFlags.BUNDLE_DELETION_STATUS_REQUESTED env me r HopLimitExceeded false false false true st He Hrep)
      as [o Ho]. rewrite (bind_step _ _ _ _ _ _ Ho). arun. by do 3 eexists.
  - destruct (Hgood Hx) as (d' & b' & -> & _). by do 3 eexists.
Qed.

Lemma local_whole_push st e r : local_whole st → is_whole r →
  local_whole (set_local_bundles (entry_push_back e r) st) ∧ local_whole (set_local_bundles (entry_push_front e r) st).
Proof.
  unfold local_whole. intros Hw Hr. simpl. rewrite flat_push_back, flat_push_front. by split; constructor.
Qed.

(** What an event needs. *)
Definition event_fine (env : Env) (me : Endpoint) (ev : Event) : Prop :=
  match ev with
  | EUpdated r =>
      sliceable (source_node (ref_primary r)) ∧ sliceable (destination_endpoint (ref_primary r)) ∧
      reports_fit env me r ∧ (ref_state r = DeliveryQueued → is_whole r) ∧
      (ref_state r = Valid →
       Endpoint.matches_node (E := Empty_set) me (destination_endpoint (ref_primary r)) = Ok false →
       ∃ d b, upgrade_data env r = Some d ∧ bundle_of_bytes d = Ok b ∧ bundle_ok b ∧ bundle_no_crc b ∧
         primary_block b = ref_primary r)
  | EDelivered _ r => reports_fit env me r
  | EForwarded e r => sliceable e ∧ reports_fit env me r
  | EForwardingFailed e _ => sliceable e
  | EPeerConnected e _ | EPeerDisconnected e => Endpoint.get_node_endpoint (E := Empty_set) e = Ok e ∧ sliceable e
  | ERoutingTable routes => (∀ e, e ∈ dom routes → sliceable e) ∧ ∀ l, hash_order env l ≡ₚ l
  | EDeliveryFailed _ _ | EClientConnected _ _ | EClientDisconnected _ => True
  end.

Lemma updated_total env me r st :
  endpoint st = Some me → Endpoint.ok me → sliceable me → local_whole st → event_fine env me (EUpdated r) →
  returns (EventBundleUpdated env r) st.
Proof.
  intros He Hme Hsme Hw (Hsrc & Hdst & Hrep & Hwhole & Hdata). unfold EventBundleUpdated, update.
  destruct (ref_state r) eqn:Es; try by do 3 eexists.
  - unfold returns. arun. rewrite He. arun.
    destruct (matches_node_total (E := Empty_set) (source_node (ref_primary r)) me Hsrc Hsme) as [local Hl].
    rewrite Hl. arun. destruct local; arun; [by do 3 eexists|]. unfold send_status_report_received.
    destruct (report_total BundleFlags.BUNDLE_RECEIPTION_STATUS_REQUESTED env me r NoAdditionalInformation
      true false false false st He Hrep) as [o Ho].
    rewrite (bind_step _ _ _ _ _ _ Ho). arun. by do 3 eexists.
  - destruct (matches_node_total (E := Empty_set) me (destination_endpoint (ref_primary r)) Hsme Hdst) as [here Hh].
    destruct (dispatch_total env me r st here He Hme Hsme Hsrc Hh Hrep) as (s & nd & o & Hd).
    { intros ->. by apply Hdata. }
    eapply returns_bind; [exact Hd|]. by do 3 eexists.
  - eapply returns_bind; [done|]. apply deliver_local_total. by apply local_whole_push; auto.
  - destruct (get_node_endpoint_total (E := Empty_set) _ Hdst) as [n Hn].
    eapply returns_bind; [unfold lift; by rewrite Hn|]. eapply returns_bind; [done|]. by apply deliver_remote_total.
Qed.

Lemma handle_event_total env me ev st :
  endpoint st = Some me → Endpoint.ok me → sliceable me → local_whole st → event_fine env me ev →
  returns (handle_event env ev) st.
Proof.
  intros He Hme Hsme Hw Hf.
  destruct ev as [r|e r|e r|e r|e r|e s|e|e s|e|routes]; cbn [handle_event event_fine] in *.
  - by eapply updated_total.
  - unfold EventBundleDelivered, update. eapply returns_bind; [done|].
    unfold send_status_report_delivered. eapply returns_then; [|intros [] st1 o1 Hr].
    + destruct (report_total BundleFlags.BUNDLE_DELIVERY_STATUS_REQUESTED env me r NoAdditionalInformation
        false false true false (set_pending_local (remove_pending e r) st) He Hf) as [o Ho]. by do 3 eexists.
    + apply report_conserves in Hr as [-> _]. eapply returns_bind; [done|]. by apply deliver_local_total.
  - unfold EventBundleDeliveryFailed. eapply returns_bind; [done|]. by do 3 eexists.
  - destruct Hf as [Hs Hf]. unfold EventBundleForwarded, update.
    destruct (get_node_endpoint_total (E := Empty_set) _ Hs) as [n Hn].
    eapply returns_bind; [unfold lift; by rewrite Hn|]. eapply returns_bind; [done|].
    unfold send_status_report_forwarded. eapply returns_then; [|intros [] st1 o1 Hr].
    + destruct (report_total BundleFlags.BUNDLE_FORWARDING_STATUS_REQUEST env me r NoAdditionalInformation
        false true false false (set_pending_forwarding (remove_pending n r) st) He Hf) as [o Ho]. by do 3 eexists.
    + eapply returns_bind; [done|]. eapply deliver_remote_total, get_node_endpoint_sliceable; done.
  - unfold EventBundleForwardingFailed. destruct (get_node_endpoint_total (E := Empty_set) _ Hf) as [n Hn].
    eapply returns_bind; [unfold lift; by rewrite Hn|]. eapply returns_bind; [done|]. by do 3 eexists.
  - eapply returns_bind; [done|]. by apply deliver_local_total.
  - by do 3 eexists.
  - destruct Hf as [Hn Hs]. unfold EventPeerConnected, assert_node_endpoint, returns. rewrite Hn. arun.
    rewrite bool_decide_eq_true_2 by done. arun. by apply deliver_remote_total.
  - destruct Hf as [Hn Hs]. unfold EventPeerDisconnected, assert_node_endpoint, returns. rewrite Hn. arun.
    rewrite bool_decide_eq_true_2 by done. arun. by do 3 eexists.
  - destruct Hf as [Hs Hp]. unfold EventRoutingTableUpdate.
    assert (∀ X : gset Endpoint, X ⊆ dom routes → Forall sliceable (hash_order env (elements X))) as Hall.
    { intros X HX. rewrite Hp. apply Forall_forall. intros e He'. apply Hs, HX. by apply elem_of_elements. }
    eapply returns_bind; [done|]. eapply returns_bind; [done|].
    apply returns_then; [apply deliver_all_total, Hall; set_solver|intros _ st1 o1 _].
    apply deliver_all_total, Hall. set_solver.
Qed.

(** ** The queues for local delivery *)

Lemma remote_loop_local env destination sender mbs fuel i visited queue :
  keeps local_bundles (remote_loop env destination sender mbs fuel i visited queue).
Proof.
  revert i visited queue. induction fuel as [|fuel IH]; intros i visited queue; cbn [remote_loop]; [apply keeps_panic|].
  solve_keeps; apply IH.
Qed.

Lemma deliver_remote_local env e : keeps local_bundles (deliver_remote_bundles env e).
Proof. unfold deliver_remote_bundles. solve_keeps. apply remote_loop_local. Qed.

Lemma report_local flag env r reason b1 b2 b3 b4 : keeps local_bundles (send_requested_report flag env r reason b1 b2 b3 b4).
Proof. unfold send_requested_report, send_status_report. solve_keeps. Qed.

(** What is not local delivery leaves its queues alone. *)
Ltac solve_local :=
  solve_keeps; first [apply report_local|apply remote_loop_local|apply deliver_remote_local].

Lemma deliver_local_subset env e st st' o :
  deliver_local_bundles env e st = Ok ((), st', o) → flat (local_bundles st') ⊆ flat (local_bundles st).
Proof.
  unfold deliver_local_bundles. intros H. ainv.
  destruct (local_connections _ !! e) as [sender|]; ainv; [|done].
  destruct (local_bundles _ !! e) as [q|] eqn:Eq; ainv; [|done].
  match goal with E : local_loop _ _ _ _ _ _ = _ |- _ =>
    destruct (local_loop_conserves _ _ _ _ _ _ _ _ E) as (q' & Hl & Hp & _) end.
  intros r. rewrite Hl, flat_insert, (flat_split (local_bundles _) e), Eq. simpl. rewrite <-Hp. set_solver.
Qed.

(** A queue for local delivery grows by a bundle that is announced for delivery, or one
    that a client did not take. *)
Lemma handle_event_local env ev st st' o r :
  handle_event env ev st = Ok ((), st', o) → r ∈ flat (local_bundles st') →
  r ∈ flat (local_bundles st) ∨ (ev = EUpdated r ∧ ref_state r = DeliveryQueued) ∨ ∃ e, ev = EDeliveryFailed e r.
Proof.
  intros H Hin.
  assert (∀ h : handler (), keeps local_bundles h → h st = Ok ((), st', o) → r ∈ flat (local_bundles st)) as Hkeep.
  { intros h Hk Hh. by rewrite <-(Hk _ _ _ _ Hh). }
  assert (∀ h e st1, h st = Ok ((), st1, []) → (h;; deliver_local_bundles env e) st = Ok ((), st', o) →
    r ∈ flat (local_bundles st1)) as Hdeliver.
  { intros h e st1 Hh Hd. rewrite (bind_step _ _ _ _ _ _ Hh) in Hd.
    destruct (deliver_local_bundles env e st1) as [[[[] st2] o2]| |] eqn:E; simplify_eq/=.
    by eapply deliver_local_subset. }
  destruct ev as [r0|e r0|e r0|e r0|e r0|e s|e|e s|e|routes]; cbn [handle_event] in *.
  - unfold EventBundleUpdated in H. destruct (ref_state r0) eqn:Es; [left|left|left| |left|left..];
      try (eapply Hkeep, H; unfold update, dispatch_valid; solve_local).
    eapply Hdeliver in H; [|done]. simpl in H. rewrite flat_push_back in H.
    apply elem_of_cons in H as [->|H]; auto.
  - left. unfold EventBundleDelivered, update in H. ainv.
    match goal with E : send_status_report_delivered _ _ _ = _ |- _ => apply report_conserves in E as [-> _] end.
    match goal with E : deliver_local_bundles _ _ _ = _ |- _ => by apply deliver_local_subset in E; apply E in Hin end.
  - unfold EventBundleDeliveryFailed in H. ainv. simpl in Hin. rewrite flat_push_front in Hin.
    apply elem_of_cons in Hin as [->|Hin]; [right; right; by exists e|by left].
  - left. eapply Hkeep, H. unfold EventBundleForwarded, update. solve_local.
  - left. eapply Hkeep, H. unfold EventBundleForwardingFailed. solve_local.
  - left. unfold EventClientConnected in H. eapply (Hdeliver _ _ (set_local_connections (insert e s) st)); [|exact H]. done.
  - left. eapply Hkeep, H. unfold EventClientDisconnected. solve_keeps.
  - left. eapply Hkeep, H. unfold EventPeerConnected, assert_node_endpoint. solve_local.
  - left. eapply Hkeep, H. unfold EventPeerDisconnected, assert_node_endpoint. solve_keeps.
  - left. eapply Hkeep, H. unfold EventRoutingTableUpdate. solve_local.
Qed.
End handlers.

(** ** What is waiting in an honest network *)

Import DaemonSystem.

(** A bundle for this node, and one for another node. *)
Definition for_us (me : Endpoint) (p : PrimaryBlock) : Prop :=
  Endpoint.matches_node (E := Empty_set) me (destination_endpoint p) = Ok true.
Definition foreign (me : Endpoint) (p : PrimaryBlock) : Prop :=
  Endpoint.matches_node (E := Empty_set) me (destination_endpoint p) = Ok false.

(** Source and destination are those of a bundle that was created. *)
Definition from (created : Bundle → Prop) (p : PrimaryBlock) : Prop :=
  Primary.ok p ∧ ∃ o, created o ∧ source_node p = source_node (primary_block o) ∧
    destination_endpoint p = destination_endpoint (primary_block o).

Section tidy.
Context {HC : SerdeCbor} {HL : SerdeCborLaws}.
Context (created : Bundle → Prop).

Record tidy (me : Endpoint) (s : System) : Prop := {
  td_from : ∀ r, r ∈ tokens s → from created (ref_primary r);
  td_whole : ∀ r, r ∈ tokens s → ref_state r = DeliveryQueued → is_whole r;
  td_stored : ∀ r, r ∈ tokens s → foreign me (ref_primary r) →
    ∃ sb, sb ∈ bundles (sto s) ∧ sb_primary sb = ref_primary r;
  td_delivery : ∀ r nd, MUpdateBundle r DeliveryQueued nd ∈ to_sto s → is_whole r;
  td_defragment : ∀ r nd, MUpdateBundle r DefragmentationPending nd ∈ to_sto s → for_us me (ref_primary r);
  td_local : ∀ r, r ∈ flat (local_bundles (bpa s)) → ref_state r = DeliveryQueued;
  td_failed : ∀ e r, EDeliveryFailed e r ∈ to_bpa s → ref_state r = DeliveryQueued;
}.

(** What is stored is part of a bundle that was created. *)
Lemma stored_from s sb :
  run_ok s → Forall stored_ok (bundles (sto s)) → all_known created (bundles (sto s)) → sb ∈ bundles (sto s) →
  from created (sb_primary sb).
Proof.
  unfold all_known. rewrite !Forall_forall. intros R Hst Hk Hin. destruct (Hk sb Hin) as (o & b & Ho & Hb & Hp).
  destruct (so_bundle _ (Hst sb Hin)) as (b' & Hb' & <- & _). rewrite Hb in Hb'. injection Hb' as <-.
  split; [by destruct (ro_bundles _ R sb b Hin Hb) as [[? _] _]|]. apply part_of_id in Hp as [He Hd].
  exists o. split_and!; [done| |done]. by apply (f_equal fst) in He.
Qed.

(** ** A message to the storage agent *)

Lemma storage_tidy me st k st' o b m ms mb ab :
  let s := {| sto := st; dir := k; bpa := b; to_sto := m :: ms; to_bpa := mb; abroad := ab |} in
  let s' := {| sto := st'; dir := apply_effects k o; bpa := b; to_sto := ms;
               to_bpa := mb ++ map EUpdated (announced o); abroad := ab |} in
  inv me s → run_ok s → run_ok s' → Forall stored_ok (bundles st) → Forall stored_ok (bundles st') →
  all_known created (bundles st') → handle m st = Ok ((), st', o) → tidy me s → tidy me s'.
Proof.
  intros s s' [L _ _ _ _] R R' Hst Hst' Hk H [TF TW TS TD TG TL TX].
  destruct (handle_shape _ _ _ _ (ro_once _ R) H) as (kept & gone & new & [_ B' Ha _ _ _]).
  destruct (handle_leaves _ _ _ _ Hst H) as [Hleft Hdel]. pose proof (λ sb, stored_from s' sb R' Hst' Hk) as Hfrom.
  unfold s, s' in *. cbn [sto dir bpa to_sto to_bpa abroad] in *.
  set (ts := omap event_ref mb ++ queues b ++ omap message_ref ms ++ ab).
  assert (tokens s ≡ₚ option_list (message_ref m) ++ ts) as Hts.
  { unfold tokens, s, ts. cbn [to_bpa to_sto bpa abroad]. rewrite omap_cons_option. solve_Permutation. }
  assert (Hin : ∀ r, r ∈ ts → r ∈ tokens s) by (intros r; rewrite Hts, elem_of_app; by right).
  assert (Hm : ∀ r, message_ref m = Some r → r ∈ tokens s ∧ ∀ r', r' ∈ ts → ref_primary r' ≠ ref_primary r).
  { intros r Hr. rewrite Hts, Hr. split; [left|]. intros r' Hr' He. pose proof (li_once _ _ L) as Hn.
    fold s in Hn. rewrite Hts, Hr in Hn. simpl in Hn. apply NoDup_cons in Hn as [Hn _]. apply Hn. rewrite <-He.
    by apply list_elem_of_fmap_2. }
  assert (Hnew : ∀ r, r ∈ announced o → ∃ sb, sb ∈ bundles st' ∧ r = get_ref sb).
  { intros r. rewrite Ha. intros (sb & -> & Hsb)%list_elem_of_fmap. exists sb. rewrite B'. set_solver. }
  assert (Hts' : ∀ r, r ∈ tokens {| sto := st'; dir := apply_effects k o; bpa := b; to_sto := ms;
             to_bpa := mb ++ map EUpdated (announced o); abroad := ab |} → r ∈ ts ∨ r ∈ announced o).
  { intros r. unfold tokens, ts. cbn [to_bpa to_sto bpa abroad]. rewrite omap_app, updated_refs, !elem_of_app. tauto. }
  split; cbn [sto dir bpa to_sto to_bpa abroad]; try (intros; solve [eauto|eapply TD; by right|eapply TG; by right]).
  - intros r [Hr|Hr]%Hts'; [by apply TF, Hin|]. apply Hnew in Hr as (sb & Hsb & ->). by apply Hfrom.
  - intros r [Hr|Hr]%Hts' Hs; [by apply TW; [apply Hin|]|].
    destruct (Hdel r Hr Hs) as (r0 & Hr0 & Hp & Hwhy). rewrite <-Hp. destruct (Hm r0 Hr0) as [Hr0t _].
    destruct Hwhy as [[nd ->]|(sb & Hsb & Hp' & Hs')].
    + eapply TD. left.
    + apply TW; [done|]. rewrite <-Hp in Hp'. by rewrite <-(li_current _ _ L r0 sb Hr0t Hsb Hp').
  - intros r [Hr|Hr]%Hts' Hf.
    2:{ apply Hnew in Hr as (sb & Hsb & ->). by exists sb. }
    destruct (TS r (Hin r Hr) Hf) as (sb & Hsb & Hp). destruct (Hleft sb Hsb) as [?|(r0 & Hr0 & Hwhy)]; [by exists sb|].
    exfalso. rewrite Hp in Hwhy. destruct (Hm r0 Hr0) as [_ Hne]. destruct Hwhy as [?|[[nd ->] He]]; [by eapply Hne|].
    assert (for_us me (ref_primary r0)) as Hu by (eapply TG; left).
    apply bool_decide_eq_true in He. apply (f_equal destination_endpoint) in He. simpl in He.
    unfold foreign, for_us in *. congruence.
  - intros e r [Hr|Hr]%elem_of_app; [by eapply TX|]. by apply list_elem_of_fmap in Hr as (? & ? & _).
Qed.

(** ** An event for the protocol agent *)

Lemma protocol_tidy me env st k b b' o ev ms mb ab :
  let s := {| sto := st; dir := k; bpa := b; to_sto := ms; to_bpa := ev :: mb; abroad := ab |} in
  inv me s → handle_event env ev b = Ok ((), b', o) → tidy me s →
  tidy me {| sto := st; dir := k; bpa := b'; to_sto := ms ++ omap to_storage o; to_bpa := mb;
             abroad := ab ++ omap leaving o |}.
Proof.
  intros s [_ _ E _ M] H [TF TW TS TD TG TL TX]. unfold s in *. cbn [sto dir bpa to_sto to_bpa abroad] in *.
  apply Forall_cons in E as [Hev _]. destruct (handle_event_moves _ _ _ _ _ Hev H) as (Hq & _ & Ha & _).
  assert (Hts : ∀ r, r ∈ tokens {| sto := st; dir := k; bpa := b'; to_sto := ms ++ omap to_storage o; to_bpa := mb;
             abroad := ab ++ omap leaving o |} → r ∈ tokens s).
  { intros r. unfold tokens, s. cbn [to_bpa to_sto bpa abroad]. rewrite omap_app, omap_cons_option.
    rewrite output_refs in Hq. assert (r ∈ queues b' ++ omap message_ref (omap to_storage o) ++ omap leaving o →
      r ∈ queues b ++ option_list (event_ref ev)) by by rewrite Hq.
    rewrite !elem_of_app in *. tauto. }
  assert (Hin : ∀ r, event_ref ev = Some r → r ∈ tokens s).
  { intros r Hr. unfold tokens, s. cbn [to_bpa]. rewrite omap_cons_option, Hr. set_solver. }
  split; cbn [sto dir bpa to_sto to_bpa abroad]; auto.
  - intros r nd [Hr|Hr]%elem_of_app; [by eapply TD|]. apply elem_of_to_storage, Ha in Hr. by inversion Hr.
  - intros r nd [Hr|Hr]%elem_of_app; [by eapply TG|]. apply elem_of_to_storage, Ha in Hr. rewrite M in Hr.
    inversion Hr; by simplify_eq.
  - intros r Hr. destruct (handle_event_local _ _ _ _ _ _ H Hr) as [?|[[-> ?]|[e ->]]]; [by apply TL|done|].
    eapply TX. left.
  - intros e r Hr. eapply TX. by right.
Qed.

(** ** Steps *)

(** The references are the same, and nothing else is new. *)
Lemma same_tidy me s s' :
  (∀ r, r ∈ tokens s' → r ∈ tokens s) → bundles (sto s') = bundles (sto s) → bpa s' = bpa s →
  (∀ r st nd, MUpdateBundle r st nd ∈ to_sto s' → MUpdateBundle r st nd ∈ to_sto s) →
  (∀ e r, EDeliveryFailed e r ∈ to_bpa s' → EDeliveryFailed e r ∈ to_bpa s ∨ ref_state r = DeliveryQueued) →
  tidy me s → tidy me s'.
Proof.
  intros Ht Hb Hp Hm He [TF TW TS TD TG TL TX]. split; try rewrite Hp; try rewrite Hb; eauto.
  intros e r Hr. destruct (He e r Hr); eauto.
Qed.

Lemma step_tidy me s s' :
  inv me s → run_ok s → run_ok s' → Forall stored_ok (bundles (sto s)) → Forall stored_ok (bundles (sto s')) →
  all_known created (bundles (sto s')) → step s s' → tidy me s → tidy me s'.
Proof.
  intros I R R' Hst Hst' Hk Hs T.
  destruct Hs as [st k st' o b m ms mb ab H Hf|st fs n l1 l2 b ms mb ab|env st k b b' o ev ms mb ab He H
                 |m st k b ms mb ab Hm|ev st k b ms mb ab Hev|e r ev st k b ms mb ab1 ab2 Ha].
  - by eapply storage_tidy.
  - by destruct T.
  - by eapply protocol_tidy.
  - revert T. apply same_tidy; cbn [sto bpa to_sto to_bpa]; auto.
    + intros r. unfold tokens. cbn [to_sto to_bpa bpa abroad]. rewrite omap_app. simpl. rewrite Hm, app_nil_r. done.
    + intros r s nd [?|Hr]%elem_of_app; [done|]. by apply list_elem_of_singleton in Hr as <-.
  - revert T. apply same_tidy; cbn [sto bpa to_sto to_bpa]; auto.
    + intros r. unfold tokens. cbn [to_sto to_bpa bpa abroad]. rewrite omap_app. simpl. rewrite Hev, app_nil_r. done.
    + intros e r [?|Hr]%elem_of_app; [by left|]. by apply list_elem_of_singleton in Hr as <-.
  - revert T. destruct (answer_ref _ _ _ Ha) as [Hr _]. apply same_tidy; cbn [sto bpa to_sto to_bpa]; auto.
    + intros x. unfold tokens. cbn [to_sto to_bpa bpa abroad]. rewrite omap_app. simpl. rewrite Hr. set_solver.
    + intros e' r' [?|Hr']%elem_of_app; [by left|right]. apply list_elem_of_singleton in Hr' as <-.
      simpl in Hr. injection Hr as ->. unfold answer in Ha. by destruct (ref_state r); try destruct Ha; simplify_eq.
Qed.

Lemma restart_tidy me s s' :
  directory_ok (dir s) → restart me s s' → run_ok s' → all_known created (bundles (sto s')) → tidy me s'.
Proof.
  intros Hd Hr R' Hk. destruct Hr as [st k st' k' o b ms mb ab Hr]. cbn [dir sto] in *.
  destruct (restart_loads me (st, k) (st', k') o Hd Hr) as (-> & _ & _ & _ & _ & Hsb). cbn [fst] in *.
  assert (Htok : ∀ r, r ∈ announced (map (Storage.EventBundleUpdated ∘ get_ref) (bundles st')) → ∃ sb, sb ∈ bundles st' ∧ r = get_ref sb).
  { intros r (e & He & Hr')%list_elem_of_omap. apply list_elem_of_fmap in He as (sb & -> & Hin).
    exists sb. by injection Hr' as <-. }
  assert (Forall stored_ok (bundles st')) as Hst' by (apply Forall_forall; intros sb Hin; by destruct (Hsb sb Hin) as (_ & ? & _)).
  pose proof (λ sb, stored_from _ sb R' Hst' Hk) as Hfrom.
  split; cbn [sto dir bpa to_sto to_bpa abroad]; unfold tokens; cbn [sto dir bpa to_sto to_bpa abroad]; rewrite ?updated_refs;
    simpl; rewrite ?app_nil_r.
  - intros r (sb & Hin & ->)%Htok. by apply Hfrom.
  - intros r (sb & Hin & ->)%Htok. destruct (Hsb sb Hin) as (Hs & _). simpl. congruence.
  - intros r (sb & Hin & ->)%Htok _. by exists sb.
  - intros r nd Hin. by apply elem_of_nil in Hin.
  - intros r nd Hin. by apply elem_of_nil in Hin.
  - intros r Hin. by apply elem_of_nil in Hin.
  - intros e r Hin. by apply list_elem_of_fmap in Hin as (? & ? & _).
Qed.
End tidy.

Lemma tidy_mono `{!SerdeCbor} (c c' : Bundle → Prop) me s : (∀ b, c b → c' b) → tidy c me s → tidy c' me s.
Proof.
  intros Hc [TF TW TS TD TG TL TX]. split; try done. intros r Hr. destruct (TF r Hr) as (? & o & ? & ? & ?). split; [done|]. exists o. auto.
Qed.

(** ** The theorem *)

(** The data of a bundle that a reference is for is there as long as the bundle is
    stored. *)
Lemma upgrade_stored st ts r sb :
  linked st ts → r ∈ ts → sb ∈ bundles st → sb_primary sb = ref_primary r →
  ∃ sb', upgrade st r = Some (bundle_data sb') ∧ sb' ∈ bundles st ∧ sb_primary sb' = ref_primary r.
Proof.
  intros L Hr Hin Hp. pose proof (li_current _ _ L r sb Hr Hin Hp) as <-. unfold upgrade.
  destruct (List.find _ (bundles st)) as [sb'|] eqn:E.
  - apply List.find_some in E as [Hin' Ha]. apply list_elem_of_In in Hin'. apply Nat.eqb_eq in Ha.
    exists sb'. split_and!; [done..|]. by apply (li_ref _ _ L (get_ref sb)).
  - apply list_elem_of_In in Hin. apply (List.find_none _ _ E) in Hin. by rewrite Nat.eqb_refl in Hin.
Qed.

(** What the machine and the other agents of the node have to keep to: clocks that are
    set, room for a report, and endpoints of peers and routes whose node is named. *)
Record room `{!SerdeCbor} (env : Env) (r : StoredBundleRef) : Prop := {
  rm_size : u64_ok (ref_payload_size r);
  rm_clock : DTN_UNIX_DIFFERENCE_MS ≤ report_clock env < 2 ^ 63;
  rm_creation : DTN_UNIX_DIFFERENCE_MS ≤ creation_clock env < 2 ^ 63;
  rm_fits : ∀ reason b1 b2 b3 b4,
    zlen (to_vec (serialize_record (status_report r reason (reported_at env) b1 b2 b3 b4))) < 2 ^ 63;
}.

Definition event_welcome `{!SerdeCbor} (env : Env) (ev : Event) : Prop :=
  match ev with
  | EUpdated r | EDelivered _ r => room env r
  | EForwarded e r => sliceable e ∧ room env r
  | EForwardingFailed e _ => sliceable e
  | EPeerConnected e _ | EPeerDisconnected e => Endpoint.get_node_endpoint (E := Empty_set) e = Ok e ∧ sliceable e
  | ERoutingTable routes => (∀ e, e ∈ dom routes → sliceable e) ∧ ∀ l, hash_order env l ≡ₚ l
  | EDeliveryFailed _ _ | EClientConnected _ _ | EClientDisconnected _ => True
  end.

Section network.
Import Network.
Context {HC : SerdeCbor} {HL : SerdeCborLaws}.

(** Nodes keep their names. *)
Lemma node_names names n : reachable names n → map name (nodes n) = names.
Proof.
  assert (∀ i nd s n, nodes n !! i = Some nd → map name (set_daemon i nd s n) = map name (nodes n)) as Hset.
  { intros i nd s n0 Hi. unfold set_daemon. change (name <$> <[i := {| name := name nd; daemon := s |}]> (nodes n0) = name <$> nodes n0).
    rewrite list_fmap_insert. apply list_insert_id.
    by rewrite list_lookup_fmap, Hi. }
  induction 1 as [|n n' _ IH Hs]; [cbn; by rewrite map_map, map_id|].
  destruct Hs; cbn [nodes]; by rewrite ?Hset by done.
Qed.

Lemma network_tidy names n i nd :
  Forall Endpoint.ok names → reachable names n → unique n → nodes n !! i = Some nd →
  tidy (.∈ created n) (name nd) (daemon nd).
Proof.
  intros Hnames Hr. revert i nd. induction Hr as [|n n' Hr IH Hs]; intros i nd U Hi.
  { apply list_elem_of_lookup_2 in Hi. apply list_elem_of_fmap in Hi as (e & -> & _).
    split; cbn; intros; set_solver. }
  pose proof (step_unique _ _ Hs U) as U0. pose proof (network_reachable_ok _ _ Hnames Hr U0) as [R _ _].
  assert (Hr' : reachable names n') by by eapply ReachStep.
  pose proof (network_reachable_ok _ _ Hnames Hr' U) as [R' K' _].
  destruct (R' i nd Hi) as [_ Hreach']. destruct (reachable_inv _ _ (proj1 (R' i nd Hi)) Hreach') as (Hrun' & _ & D').
  apply reachable_directory_ok in D' as [Hst' _]. pose proof (kn_stored _ _ (K' i nd Hi)) as Kst.
  destruct Hs as [n j nd0 s' Hj Hs _ _|n j nd0 r d Hj _ _|n j nd0 d Hj Hd Hrun|n j nd0 s' Hj Hs _];
    cbn [nodes created] in *; try destruct (set_daemon_lookup _ _ _ _ _ _ Hj Hi) as [Hi'| ->]; cbn [name daemon] in *.
  all: try (by eapply IH). all: try (by eapply tidy_mono, IH; [|done..]; set_solver).
  all: destruct (R j nd0 Hj) as [Hme Hreach]; destruct (reachable_inv _ _ Hme Hreach) as (Hrun0 & I & D);
    apply reachable_directory_ok in D as [Hst Hdir].
  - eapply step_tidy; try done. eapply tidy_mono; [|by eapply IH]. set_solver.
  - apply (step_tidy (.∈ created n) (name nd0) (daemon nd0)); try done; [|by eapply IH].
    destruct (daemon nd0). by apply StepArrival.
  - by eapply restart_tidy.
Qed.

Lemma room_reports env me r : Endpoint.ok me → Primary.ok (ref_primary r) → room env r → reports_fit env me r.
Proof. by intros ? ? [] ? ? ? ? ?. Qed.

(** An event about a bundle of an honest network has what its handler needs. *)
Lemma event_fine_tidy (created : Bundle → Prop) me env s ev :
  Endpoint.ok me → sliceable me → inv me s → run_ok s → Forall stored_ok (bundles (sto s)) → tidy created me s →
  (∀ o, created o → sliceable (source_node (primary_block o)) ∧ sliceable (destination_endpoint (primary_block o))) →
  ev ∈ to_bpa s → upgrade_data env = upgrade (sto s) → event_welcome env ev → event_fine env me ev.
Proof.
  intros Hme Hsme [L _ _ _ _] R Hst T Hnames Hin Hup Hw.
  assert (∀ r, event_ref ev = Some r → r ∈ tokens s) as Htok.
  { intros r Hr. unfold tokens. apply elem_of_app. left. apply list_elem_of_omap. by exists ev. }
  assert (∀ r, event_ref ev = Some r → room env r → reports_fit env me r) as Hrep.
  { intros r Hr. apply room_reports; [done|]. by destruct (td_from _ _ _ T r (Htok r Hr)). }
  destruct ev as [r|e r|e r|e r|e r|e x|e|e x|e|routes]; cbn [event_fine event_welcome] in *; auto;
    [|by destruct Hw; auto].
  destruct (td_from _ _ _ T r) as (_ & o & Ho & -> & Hdst); [by apply Htok|]. destruct (Hnames o Ho) as [Hs Hd].
  split_and!; [done|by rewrite Hdst|by apply Hrep|apply (td_whole _ _ _ T); by apply Htok|].
  intros _ Hf. destruct (td_stored _ _ _ T r (Htok r eq_refl) Hf) as (sb & Hsb & Hp).
  destruct (upgrade_stored _ _ _ _ L (Htok r eq_refl) Hsb Hp) as (sb' & Hu & Hsb' & Hp').
  rewrite Forall_forall in Hst. destruct (so_bundle _ (Hst sb' Hsb')) as (b & Hb & Hpb & _).
  exists (bundle_data sb'), b. rewrite Hup. destruct (ro_bundles _ R sb' b Hsb' Hb). split_and!; congruence || done.
Qed.

End network.

(** ** A bundle that has to be forwarded *)

Module ProtocolRun.
Import Network NetworkRun.

Definition env (s : System) : Env := {|
  upgrade_data := upgrade (sto s); report_clock := 2 ^ 40; creation_clock := 2 ^ 40;
  try_send := λ _ _, SendOk; hash_order := id |}.

Definition reasons : list BundleStatusReason :=
  [NoAdditionalInformation; LifetimeExpired; ForwardedOverUnideirectionLink; TransmissionCanceled;
   DepletedStorage; DestinationEndpointIDUnavailable; NoKnownRouteToDestinationFromHere;
   NoTimelyContactWithNextNodeOnRoute; BlockUnintelligible; HopLimitExceeded; TrafficPared; BlockUnsupported].
Definition bools : list bool := [true; false].

Definition all_reports (env : Env) (r : StoredBundleRef) : list AdministrativeRecord :=
  reason ← reasons; b1 ← bools; b2 ← bools; b3 ← bools; b4 ← bools;
  [status_report r reason (reported_at env) b1 b2 b3 b4].

Definition roomb (env : Env) (r : StoredBundleRef) : bool :=
  bool_decide (u64_ok (ref_payload_size r)) &&
  forallb (λ rec, zlen (to_vec (serialize_record rec)) <? 2 ^ 63) (all_reports env r).

Lemma roomb_sound s r : roomb (env s) r = true → room (env s) r.
Proof.
  unfold roomb. rewrite andb_true_iff, bool_decide_eq_true. intros [Hs Hf].
  split; [done|by vm_compute; split; [discriminate|]..|]. intros reason b1 b2 b3 b4. rewrite forallb_forall in Hf.
  apply Z.ltb_lt, Hf, list_elem_of_In. unfold all_reports.
  assert (∀ b, b ∈ bools) as Hb by (intros []; apply (bool_decide_unpack _); done).
  apply list_elem_of_bind. exists reason. split; [|apply (bool_decide_unpack _); by destruct reason].
  apply list_elem_of_bind. exists b1. split; [|done]. apply list_elem_of_bind. exists b2. split; [|done].
  apply list_elem_of_bind. exists b3. split; [|done]. apply list_elem_of_bind. exists b4. split; [left|done].
Qed.

(** The first node is about to forward the bundle that was created there. *)
Definition forwards (n : Network) : bool :=
  forallb (λ o, bool_decide (sliceable (source_node (primary_block o))) &&
                bool_decide (sliceable (destination_endpoint (primary_block o)))) (created n) &&
  match nodes n !! 0%nat with
  | Some nd =>
      match to_bpa (daemon nd) with
      | EUpdated r :: _ => bool_decide (ref_state r = Valid) && roomb (env (daemon nd)) r
      | _ => false
      end
  | None => false
  end.

Lemma run_forwards :
  ∃ n nd r mb, reachable [node_a; node_b] n ∧ unique n ∧ nodes n !! 0%nat = Some nd ∧
    to_bpa (daemon nd) = EUpdated r :: mb ∧ ref_state r = Valid ∧ room (env (daemon nd)) r ∧
    ∀ o, o ∈ created n → sliceable (source_node (primary_block o)) ∧ sliceable (destination_endpoint (primary_block o)).
Proof.
  destruct (at_step_reached 8 forwards ltac:(vm_compute; reflexivity)) as (n & _ & Hn & U & _ & _ & H).
  unfold forwards in H. apply andb_true_iff in H as [Hc H].
  destruct (nodes n !! 0%nat) as [nd|] eqn:En; [|done]. destruct (to_bpa (daemon nd)) as [|[r| | | | | | | | |] mb] eqn:Em; try done.
  apply andb_true_iff in H as [Hs%bool_decide_eq_true Hr%roomb_sound]. exists n, nd, r, mb. split_and!; try done.
  rewrite forallb_forall in Hc. intros o Ho%list_elem_of_In. apply Hc in Ho.
  by rewrite andb_true_iff, !bool_decide_eq_true in Ho.
Qed.

Lemma nodes_sliceable : Forall sliceable [node_a; node_b].
Proof. apply (bool_decide_unpack _). vm_compute. exact I. Qed.
End ProtocolRun.

